(* ===== verification/_CoqProject ===== *)
-Q . S2P
Prelude.v
Crypto.v
Protocol.v
Float64.v
Float64Order.v
Headers.v
Files.v
Json.v
Pools.v
Runs.v
Oidc.v
OidcPolicy.v
Prices.v
Budget.v
BudgetGrants.v
BudgetPace.v
Operators.v
Usage.v
UsageWeek.v
UsageBroker.v
UsageState.v
UsageWindows.v
UsageReload.v
RunsInvariants.v
RunsRecords.v
RunsQuota.v
UsageTyped.v
Filter.v
Gateway.v
FilterChecks.v
GatewaySafety.v
GatewayRuns.v
GatewayUsage.v
Billing.v
GatewayBilling.v
GatewayMain.v
Proxy.v
ProxyUsage.v
ProxySafety.v
ProxyMain.v
AgentHome.v
AgentHomeSafety.v
Agent.v
AgentMain.v
AgentSafety.v
ProxyAgent.v
Brokered.v
Startup.v
