(* ===== verification/Prelude.v ===== *)
(** * praxis-credential-broker: verification development

    ** The program

    The broker lets jobs use model providers without holding their
    credentials. Three programs make it up, each a crate under [src/crates]:

    - the gateway ([praxis-gateway]), a filter of an HTTP proxy. It admits
      requests by run tokens and operator tokens, registers runs from OIDC
      tokens of GitHub jobs or, within a quota, without proof, meters what
      each response used, attributes the providers' usage windows to the two
      consumers, prices it, and serves usage and budget grants;
    - the proxy ([credential-proxy]), which the gateway forwards Codex
      requests to. It asks the agent for credentials, puts them in place of
      the client's, sends the request, recovers the credentials once if the
      upstream refuses them, and logs what each response used;
    - the agent ([provider-codex]), which alone has the login of the account,
      keeps it in [auth.json], and answers the proxy on a socket, by the
      protocol of [credential-protocol].

    ** Files of the development

    The prelude holds machine integers, the error type and generic lemmas.
    [Crypto], [Headers], [Json], [Files] and [Float64] model what the programs
    use of the outside and of the standard library: hashes, MACs and JSON as
    classes of operations with their documented laws, header maps as an
    interface with its laws, documents, a file system of calls that may fail
    or be cut short, whose directories are made durable by their own [fsync],
    with a logic ([runs]) of what programs of them leave and what a crash then
    may, and binary64 arithmetic, with its rounding in [Float64Order]. Then,
    by source file:

    - [credential-protocol/src/lib.rs]: [Protocol];
    - [praxis-gateway/src/runs.rs]: [Runs] (a registry's state, one function
      per locked operation), [RunsInvariants] (reachable registries),
      [RunsRecords] (what a run used), [RunsQuota] (runs without proof);
    - [oidc.rs]: [Oidc] (policies, the key cache, [verify]), [OidcPolicy];
    - [prices.rs]: [Prices]; [operators.rs]: [Operators];
    - [budget.rs]: [Budget], [BudgetGrants], [BudgetPace] (allowances);
    - [usage.rs]: [Pools] (providers and consumers), [Usage] (counts,
      windows, spend), [UsageWeek] (the trailing week), [UsageBroker] (one
      registry of usage), [UsageState] (the state file and its writer),
      [UsageWindows] (what holds of every window), [UsageReload] (registries
      and the file over restarts), [UsageTyped] (the types of a registry);
    - [filter.rs]: [Filter] (configuration and the policy file),
      [FilterChecks], [Gateway] (one handler per callback of the filter),
      [GatewaySafety], [GatewayRuns] (executions of many requests),
      [GatewayUsage] (the registry of usage in them, and the grants served),
      [Billing] (the list of responses settled, as a specification of what
      [/usage] counts) and [GatewayBilling] (executions that keep it);
    - [praxis-gateway/src/main.rs] and [lib.rs]: [GatewayMain];
    - [credential-proxy/src/main.rs]: [Proxy], [ProxySafety], [ProxyUsage],
      [ProxyMain] (its [main] and its permits);
    - [provider-codex/src/main.rs]: [AgentHome] (the home directory and the
      login), [AgentHomeSafety], [Agent] (connections), [AgentSafety],
      [AgentMain] (its [main] and its accept loops);
    - proxy and agent together: [ProxyAgent] (a request), [Startup]; and
      with the gateway before them: [Brokered].

    A definition has the name of the Rust item it models, with the type before
    it where that is needed ([Runs.RunName_new] is [RunName::new]). A method
    that changes [self] returns the new value; a handler that locks a shared
    registry takes and returns the world of registries. [Result] is [result],
    [?] its bind, [u64] and [usize] are integers of [Z] with the overflow of
    each operation written out ([sat_add], [checked_mul], [wrap_add]), [f64]
    is the Standard Library's [spec_float]. Clocks, random bytes and what
    reading a file returns are arguments.

    ** What the theorems show

    - admission: a request the gateway forwards has a caller that was
      admitted, only that provider's credentials can be added to it, and no
      token of the gateway's leaves it ([GatewaySafety.continue_spec]); who
      may register a run ([GatewaySafety.registration_spec],
      [OidcPolicy.verify_spec], [OidcPolicy.admits_spec]), and how many may
      without proof, whatever the quotas of the chains that share a registry
      and the order their clocks are read in ([RunsQuota.unproven_rate]);
    - state: every reachable registry is well formed, and the slots it counts
      are the admissions not yet settled ([RunsInvariants.reachable_ok],
      [RunsInvariants.held_exact], [GatewayRuns.gateway_slots],
      [GatewayRuns.settled_once], [Operators.slots_bounded]): of an operator's
      counter, those and the requests found busy whose [fetch_sub] is yet to
      come, a step of its own; every registry
      of usage is well typed, from any state file ([UsageTyped.registries_typed]);
    - accounting: a run's record is the sum of what was settled for it since
      it was registered ([RunsRecords.records_settled]), the
      trailing week refines the list of charges, a response's price is its
      model's ([Prices.cost_spec]), grants hold when a consumer is not named
      or a fresh reading is over its allowance, never allow more than the
      share but for the rounding of what they tell, and tell one consumer
      nothing of the other ([UsageWeek], [UsageBroker], [BudgetGrants],
      [BudgetPace]), in every execution of the gateway
      ([GatewayUsage.grant_served]); and what [/usage] answers is the
      bill of the responses settled, each once and to whom its request was
      admitted for ([GatewayBilling.gateway_billed]);
    - files: whatever fails, stops or crashes, the state file and [auth.json]
      are the old one or a whole new one, and a login that succeeds is
      durable, which a state written is only once its directory is
      ([UsageState.write_state_atomic], [AgentHomeSafety.login_safe]); and the
      state file, its figures always in their ranges as written, is taken up
      again unless the JSON library reads one back out of its range
      ([UsageReload.state_reloads]);
    - credentials: only the proxy's authenticated requests make the agent
      tell them, they reach the upstream as the only value under any name
      that reads as theirs, for each attempt as they are then, and neither
      they nor a cookie comes back ([AgentSafety.handle_real_spec],
      [AgentSafety.agent_call], [ProxySafety.upstream_headers_spec],
      [ProxyAgent.sent_credentials]); for whom, and where every other header
      that goes upstream comes from, through all three programs
      ([Brokered.brokered_request]);
      once both programs have started, the agent's socket and key are those
      the proxy needs ([Startup.started]);
      every request of the proxy is answered after at most two attempts,
      whose effects are stated by their order: the [j]th sent has what the
      agent answered the [j]th time it was asked ([ProxySafety.route_spec]);
      and what it logs of a response is what the
      response reported, however it was cut into pieces
      ([ProxyUsage.tap_reads]).

    ** Fuel

    [Proxy.attempts], the proxy's loop, is the one definition with fuel: it
    returns with 2, since [recovered] is set before it goes round, and
    [ProxySafety.route_spec] proves that more changes nothing. Every other
    recursion is structural.

    ** What is not modelled

    - third-party code: hashes, MACs, JWT and JSON and YAML parsing, the HTTP
      client and server, the host's filter chain and the login manager are
      parameters, with laws where a theorem relies on them;
    - signal handling, listeners and the host's server: a program that is
      killed is one that stops between two calls;
    - asynchrony: a future that waits is a step of its caller; a request of
      the gateway is a sequence of callbacks that other requests' interleave
      with, the operators' slots and the state writer are step relations, and
      the lock held through an OIDC key fetch makes it one step;
    - log lines, but for the proxy's line on each response, which other
      tools read;
    - text that is not ASCII in [trim];
    - hard links and the renaming of directories, which the programs do not use. *)
From stdpp Require Export base gmap strings list fin_maps pretty.
From Stdlib Require Export Lia ZArith Ascii.

(** ** Machine integers

    A [u64] (and a [usize], on the 64-bit targets the images are built for)
    is a [Z] with the operation's overflow behaviour written out. *)
Definition U64_MAX : Z := 2 ^ 64 - 1.
Definition is_u64 (x : Z) : Prop := (0 <= x <= U64_MAX)%Z.
(** [u64::saturating_add], [saturating_sub] and [saturating_mul]. *)
Definition sat_add (a b : Z) : Z := Z.min (a + b) U64_MAX.
Definition sat_sub (a b : Z) : Z := Z.max (a - b) 0.
Definition sat_mul (a b : Z) : Z := Z.min (a * b) U64_MAX.
(** [u64::checked_add], [checked_mul] and [checked_sub]. *)
Definition checked_add (a b : Z) : option Z :=
  if (a + b <=? U64_MAX)%Z then Some (a + b)%Z else None.
Definition checked_mul (a b : Z) : option Z :=
  if (a * b <=? U64_MAX)%Z then Some (a * b)%Z else None.
Definition checked_sub (a b : Z) : option Z :=
  if (b <=? a)%Z then Some (a - b)%Z else None.
(** A plain [+] of a release build, whose overflow checks are off. *)
Definition wrap_add (a b : Z) : Z := ((a + b) `mod` 2 ^ 64)%Z.
Definition wrap_sub (a b : Z) : Z := ((a - b) `mod` 2 ^ 64)%Z.

Declare Scope u64_scope.
Delimit Scope u64_scope with u64.
Infix "+s" := sat_add (at level 50, left associativity) : u64_scope.
Infix "-s" := sat_sub (at level 50, left associativity) : u64_scope.
Infix "*s" := sat_mul (at level 40, left associativity) : u64_scope.

Create HintDb u64.

Ltac u64_unfold :=
  unfold is_u64, sat_add, sat_sub, sat_mul, checked_add, checked_mul,
    checked_sub, wrap_add, wrap_sub, U64_MAX in *.
(** Linear facts about the saturating operations. *)
Ltac u64_lia := u64_unfold; lia.

Lemma sat_add_u64 a b : is_u64 a → is_u64 b → is_u64 (sat_add a b).
Proof. u64_lia. Qed.
Lemma sat_sub_u64 a b : is_u64 a → is_u64 b → is_u64 (sat_sub a b).
Proof. u64_lia. Qed.
Lemma wrap_add_u64 a b : is_u64 (wrap_add a b).
Proof. u64_unfold. pose proof (Z.mod_pos_bound (a + b) (2 ^ 64)). lia. Qed.
Lemma wrap_add_small a b : (0 <= a + b <= U64_MAX)%Z → wrap_add a b = (a + b)%Z.
Proof. intros. u64_unfold. apply Z.mod_small. lia. Qed.
Lemma sat_add_comm a b : sat_add a b = sat_add b a.
Proof. u64_lia. Qed.
Lemma sat_add_assoc a b c :
  (0 <= a)%Z → (0 <= c)%Z → sat_add a (sat_add b c) = sat_add (sat_add a b) c.
Proof. u64_lia. Qed.
Lemma sat_add_0_l b : (b <= U64_MAX)%Z → sat_add 0 b = b.
Proof. u64_lia. Qed.
Lemma sat_add_0_r b : (b <= U64_MAX)%Z → sat_add b 0 = b.
Proof. u64_lia. Qed.
Lemma zero_u64 : is_u64 0.
Proof. u64_lia. Qed.

#[export] Hint Resolve sat_add_u64 sat_sub_u64 wrap_add_u64 zero_u64 : u64.

(** ** Fallible code: [Result] *)
Inductive result (E A : Type) : Type :=
| Ok (a : A)
| Err (e : E).
Arguments Ok {E A} a.
Arguments Err {E A} e.

#[export] Instance result_ret {E} : MRet (result E) := λ A a, Ok a.
#[export] Instance result_bind {E} : MBind (result E) := λ A B f r,
  match r with Ok a => f a | Err e => Err e end.
#[export] Instance result_fmap {E} : FMap (result E) := λ A B f r,
  match r with Ok a => Ok (f a) | Err e => Err e end.
#[export] Instance result_eq_dec `{EqDecision E, EqDecision A} :
  EqDecision (result E A).
Proof. solve_decision. Defined.

Definition is_ok {E A} (r : result E A) : bool :=
  match r with Ok _ => true | Err _ => false end.
(** [Option::ok_or], [Result::ok] and [Result::map_err]. *)
Definition ok_or {E A} (o : option A) (e : E) : result E A :=
  match o with Some a => Ok a | None => Err e end.
Definition result_ok {E A} (r : result E A) : option A :=
  match r with Ok a => Some a | Err _ => None end.
Definition map_err {E F A} (f : E → F) (r : result E A) : result F A :=
  match r with Ok a => Ok a | Err e => Err (f e) end.
(** An early [return Err(e)] when [b] holds. *)
Definition refuse_if {E} (b : bool) (e : E) : result E unit :=
  if b then Err e else Ok tt.
(** A [for] loop whose body may return early with an error. *)
Fixpoint try_each {E A} (f : A → result E unit) (l : list A) : result E unit :=
  match l with
  | [] => Ok tt
  | a :: l => f a ≫= λ _, try_each f l
  end.

Lemma bind_Ok {E A B} (r : result E A) (f : A → result E B) b :
  (r ≫= f) = Ok b ↔ ∃ a, r = Ok a ∧ f a = Ok b.
Proof.
  destruct r as [a|e]; cbn; split; [by exists a|by intros (? & [= ->] & ?)|done|].
  by intros (? & ? & _).
Qed.
Lemma refuse_if_Ok {E} b (e : E) : refuse_if b e = Ok tt ↔ b = false.
Proof. by destruct b. Qed.
Lemma bind_unit_Ok {E B} (r : result E unit) (k : result E B) b :
  (r ≫= λ _, k) = Ok b ↔ r = Ok tt ∧ k = Ok b.
Proof. destruct r as [[]|e]; cbn; naive_solver. Qed.
Lemma try_each_Ok {E A} (f : A → result E unit) l :
  try_each f l = Ok tt ↔ Forall (λ a, f a = Ok tt) l.
Proof.
  induction l as [|a l IH]; cbn; [by split; [constructor|]|].
  rewrite Forall_cons, <-IH. destruct (f a) as [[]|]; cbn; [tauto|].
  by split; [|intros [? _]].
Qed.

(** ** Options *)
Definition is_none {A} (o : option A) : bool :=
  match o with None => true | Some _ => false end.
Definition is_some {A} (o : option A) : bool := negb (is_none o).
Definition is_some_and {A} (o : option A) (f : A → bool) : bool :=
  match o with Some a => f a | None => false end.
Definition is_none_or {A} (o : option A) (f : A → bool) : bool :=
  match o with Some a => f a | None => true end.
Definition option_filter {A} (f : A → bool) (o : option A) : option A :=
  match o with Some a => if f a then Some a else None | None => None end.
Definition unwrap_or {A} (o : option A) (d : A) : A := default d o.
Definition or_else {A} (o o' : option A) : option A :=
  match o with Some a => Some a | None => o' end.
(** [bool::then_some]. *)
Definition then_some {A} (b : bool) (a : A) : option A :=
  if b then Some a else None.

(** ** Byte strings

    A Rust [str] or [[u8]] is a [string]: a sequence of 8-bit [ascii]. *)
Definition len (s : string) : Z := Z.of_nat (String.length s).
Definition byte_of (c : ascii) : Z := Z.of_N (N_of_ascii c).
Definition byte_in (c : ascii) (lo hi : ascii) : bool :=
  ((byte_of lo <=? byte_of c) && (byte_of c <=? byte_of hi))%Z.
Definition is_ascii_digit (c : ascii) : bool := byte_in c "0" "9".
Definition is_ascii_lowercase (c : ascii) : bool := byte_in c "a" "z".
Definition is_ascii_uppercase (c : ascii) : bool := byte_in c "A" "Z".
Definition is_ascii_alphanumeric (c : ascii) : bool :=
  is_ascii_digit c || is_ascii_lowercase c || is_ascii_uppercase c.
Definition ascii_is (a c : ascii) : bool := bool_decide (c = a).
Definition NUL : ascii := ascii_of_N 0.
Definition LF : ascii := ascii_of_N 10.

Fixpoint string_forallb (p : ascii → bool) (s : string) : bool :=
  match s with
  | EmptyString => true
  | String c s => p c && string_forallb p s
  end.
Fixpoint string_map (f : ascii → ascii) (s : string) : string :=
  match s with
  | EmptyString => EmptyString
  | String c s => String (f c) (string_map f s)
  end.
Definition is_empty (s : string) : bool :=
  match s with EmptyString => true | _ => false end.

(** [str::strip_prefix] and [starts_with]. *)
Fixpoint strip_prefix (p s : string) : option string :=
  match p, s with
  | EmptyString, _ => Some s
  | String a p, String b s => if ascii_is a b then strip_prefix p s else None
  | String _ _, EmptyString => None
  end.
Definition starts_with (p s : string) : bool := is_some (strip_prefix p s).
(** [haystack.windows(needle.len()).any(|w| w == needle)]. *)
Fixpoint contains_str (needle s : string) : bool :=
  starts_with needle s ||
  match s with EmptyString => false | String _ s => contains_str needle s end.
(** [str::contains] of a character. *)
Definition contains_char (a : ascii) (s : string) : bool :=
  negb (string_forallb (λ c, negb (ascii_is a c)) s).
(** [str::split] by a character: at least one piece. *)
Fixpoint split_char (a : ascii) (s : string) : list string :=
  match s with
  | EmptyString => [EmptyString]
  | String c s =>
      if ascii_is a c then EmptyString :: split_char a s
      else match split_char a s with
           | [] => [String c EmptyString]
           | p :: ps => String c p :: ps
           end
  end.
(** [str::splitn]: at most [n] pieces, the last one unsplit. *)
Fixpoint splitn (n : nat) (a : ascii) (s : string) : list string :=
  match n with
  | O => []
  | S O => [s]
  | S n =>
      (fix go (s : string) (cur : string) : list string :=
         match s with
         | EmptyString => [cur]
         | String c s =>
             if ascii_is a c then cur :: splitn n a s
             else go s (cur +:+ String c EmptyString)
         end) s EmptyString
  end.
(** [str::split_at] a byte index within the string. *)
Fixpoint split_at (n : nat) (s : string) : string * string :=
  match n, s with
  | S n, String c s => let '(a, b) := split_at n s in (String c a, b)
  | _, _ => (EmptyString, s)
  end.
(** [bytes.iter().enumerate().all(p)], counting from [i]. *)
Fixpoint all_enumerate (p : nat → ascii → bool) (i : nat) (s : string) : bool :=
  match s with
  | EmptyString => true
  | String c s => p i c && all_enumerate p (S i) s
  end.
(** [slice.join(sep)]. *)
Fixpoint join (sep : string) (l : list string) : string :=
  match l with
  | [] => EmptyString
  | [s] => s
  | s :: l => s +:+ sep +:+ join sep l
  end.
Definition to_ascii_lowercase_byte (c : ascii) : ascii :=
  if is_ascii_uppercase c then ascii_of_N (N_of_ascii c + 32) else c.
Definition to_ascii_lowercase : string → string :=
  string_map to_ascii_lowercase_byte.

(** [str::parse::<u64>]: an optional [+], then at least one digit, and no
    overflow. *)
Definition digit_value (c : ascii) : Z := (byte_of c - 48)%Z.
Fixpoint parse_digits (acc : Z) (s : string) : option Z :=
  match s with
  | EmptyString => Some acc
  | String c s =>
      if is_ascii_digit c then
        checked_mul acc 10 ≫= λ acc, checked_add acc (digit_value c) ≫= λ acc,
        parse_digits acc s
      else None
  end.
Definition parse_u64 (s : string) : option Z :=
  match s with
  | EmptyString => None
  | String c s' =>
      let digits := if ascii_is "+" c then s' else s in
      if is_empty digits then None else parse_digits 0 digits
  end.

#[global] Arguments String.append !_ _ / : simpl nomatch.

Section string_lemmas.
Implicit Types (s p r : string) (c a : ascii).

Lemma ascii_is_true a c : ascii_is a c = true ↔ c = a.
Proof. unfold ascii_is. by rewrite bool_decide_eq_true. Qed.
Lemma ascii_is_false a c : ascii_is a c = false ↔ c ≠ a.
Proof. unfold ascii_is. by rewrite bool_decide_eq_false. Qed.

Lemma append_nil_r s : s +:+ EmptyString = s.
Proof. induction s as [|c s IH]; cbn; [done|by rewrite IH]. Qed.
Lemma append_assoc s p r : s +:+ (p +:+ r) = (s +:+ p) +:+ r.
Proof. induction s as [|c s IH]; cbn; [done|by rewrite IH]. Qed.
Lemma length_append s p :
  String.length (s +:+ p) = (String.length s + String.length p)%nat.
Proof. induction s as [|c s IH]; cbn; [done|by rewrite IH]. Qed.
Lemma len_append s p : len (s +:+ p) = (len s + len p)%Z.
Proof. unfold len. rewrite length_append. lia. Qed.
Lemma len_nonneg s : (0 <= len s)%Z.
Proof. unfold len. lia. Qed.

Lemma split_at_app s p : split_at (String.length s) (s +:+ p) = (s, p).
Proof. induction s as [|c s IH]; cbn; [by destruct p|by rewrite IH]. Qed.

Lemma string_forallb_app f s p :
  string_forallb f (s +:+ p) = string_forallb f s && string_forallb f p.
Proof. induction s as [|c s IH]; cbn; [done|by rewrite IH, andb_assoc]. Qed.
Lemma string_forallb_impl (f g : ascii → bool) s :
  (∀ c, f c = true → g c = true) → string_forallb f s = true →
  string_forallb g s = true.
Proof.
  intros Hfg. induction s as [|c s IH]; cbn; [done|].
  rewrite !andb_true_iff. naive_solver.
Qed.

Lemma strip_prefix_Some p s r : strip_prefix p s = Some r ↔ s = p +:+ r.
Proof.
  revert s; induction p as [|a p IH]; intros [|c s]; cbn; try naive_solver.
  destruct (ascii_is a c) eqn:E.
  - apply ascii_is_true in E as ->. rewrite IH. naive_solver.
  - apply ascii_is_false in E. split; [done|]. congruence.
Qed.
Lemma strip_prefix_app p s : strip_prefix p (p +:+ s) = Some s.
Proof. by apply strip_prefix_Some. Qed.
Lemma starts_with_true p s : starts_with p s = true ↔ ∃ r, s = p +:+ r.
Proof.
  unfold starts_with, is_some. setoid_rewrite <-strip_prefix_Some.
  destruct (strip_prefix p s); cbn; naive_solver.
Qed.
Lemma contains_str_here p s : starts_with p s = true → contains_str p s = true.
Proof. destruct s; cbn; intros ->; done. Qed.
Lemma contains_str_app_r needle p s :
  contains_str needle s = true → contains_str needle (p +:+ s) = true.
Proof. intros. induction p as [|c p IH]; cbn; [done|]. by rewrite IH, orb_true_r. Qed.

Lemma contains_str_iff needle s :
  contains_str needle s = true ↔ ∃ (l r : string), s = l +:+ (needle +:+ r).
Proof.
  split.
  - induction s as [|c s IH]; cbn; rewrite orb_true_iff, starts_with_true.
    + intros [[r ->]|?]; [|done]. by exists EmptyString, r.
    + intros [[r ->]|Hs]; [by exists EmptyString, r|].
      destruct (IH Hs) as (a & b & ->). by exists (String c a), b.
  - intros (l & r & ->). apply contains_str_app_r, contains_str_here, starts_with_true. eauto.
Qed.
Lemma contains_str_prefix p r s :
  contains_str (p +:+ r) s = true → contains_str p s = true.
Proof.
  rewrite !contains_str_iff. intros (a & b & ->). exists a, (r +:+ b). by rewrite (append_assoc p).
Qed.
Lemma string_map_app f s p : string_map f (s +:+ p) = string_map f s +:+ string_map f p.
Proof. induction s as [|c s IH]; cbn; [done|by rewrite IH]. Qed.
Lemma contains_str_lowercase needle s :
  contains_str needle s = true →
  contains_str (to_ascii_lowercase needle) (to_ascii_lowercase s) = true.
Proof.
  unfold to_ascii_lowercase. rewrite !contains_str_iff. intros (a & b & ->).
  rewrite !string_map_app. eauto.
Qed.

Lemma contains_char_app c s r : contains_char c (s +:+ String c r) = true.
Proof.
  unfold contains_char. rewrite string_forallb_app. cbn.
  rewrite (proj2 (ascii_is_true c c) eq_refl). cbn. by rewrite andb_false_r.
Qed.
(** Two strings with a common separator that neither first part holds agree
    part by part. *)
Lemma append_sep_inj c s1 s2 r1 r2 :
  contains_char c s1 = false → contains_char c s2 = false →
  s1 +:+ String c r1 = s2 +:+ String c r2 → s1 = s2 ∧ r1 = r2.
Proof.
  unfold contains_char. revert s2.
  induction s1 as [|a s1 IH]; intros [|b s2]; cbn; intros H1 H2 Heq;
    simplify_eq; [done| | |].
  - by rewrite (proj2 (ascii_is_true _ _) eq_refl) in H2.
  - by rewrite (proj2 (ascii_is_true _ _) eq_refl) in H1.
  - apply negb_false_iff, andb_true_iff in H1 as [? ?].
    apply negb_false_iff, andb_true_iff in H2 as [? ?].
    destruct (IH s2) as [-> ->]; rewrite ?negb_false_iff; done.
Qed.
End string_lemmas.

(** ** Decimal numbers *)
Lemma parse_digits_app acc s c :
  parse_digits acc (s +:+ String c EmptyString) =
  parse_digits acc s ≫= λ n, parse_digits n (String c EmptyString).
Proof.
  revert acc; induction s as [|b s IH]; intros acc; cbn; [done|].
  destruct (is_ascii_digit b); [|done].
  destruct (checked_mul acc 10); [|done]; cbn.
  destruct (checked_add _ _); [|done]; cbn. apply IH.
Qed.

Lemma pretty_N_go_app x s : pretty_N_go x s = pretty_N_go x EmptyString +:+ s.
Proof.
  revert s; induction (N.lt_wf_0 x) as [x _ IH]; intros s.
  destruct (decide (0 < x)%N) as [Hx|Hx]; [|by replace x with 0%N by lia].
  rewrite (pretty_N_go_step x s), (pretty_N_go_step x EmptyString) by done.
  rewrite IH by (by apply N.div_lt). symmetry.
  rewrite IH by (by apply N.div_lt). by rewrite <-append_assoc.
Qed.

Lemma pretty_N_go_snoc x :
  (0 < x)%N →
  pretty_N_go x EmptyString =
  pretty_N_go (x / 10) EmptyString +:+
  String (pretty_N_char (x mod 10)) EmptyString.
Proof. intros. by rewrite pretty_N_go_step, pretty_N_go_app. Qed.

Lemma pretty_N_char_digit n :
  (n < 10)%N →
  is_ascii_digit (pretty_N_char n) = true ∧
  digit_value (pretty_N_char n) = Z.of_N n.
Proof.
  intros Hn.
  assert (n = 0 ∨ n = 1 ∨ n = 2 ∨ n = 3 ∨ n = 4 ∨ n = 5 ∨ n = 6 ∨ n = 7 ∨
    n = 8 ∨ n = 9)%N as H by lia.
  by destruct_or! H; subst.
Qed.

Lemma pretty_N_go_digits x :
  string_forallb is_ascii_digit (pretty_N_go x EmptyString) = true.
Proof.
  induction (N.lt_wf_0 x) as [x _ IH].
  destruct (decide (0 < x)%N) as [Hx|Hx]; [|by replace x with 0%N by lia].
  rewrite pretty_N_go_snoc, string_forallb_app, IH by (done || by apply N.div_lt).
  cbn. by rewrite (proj1 (pretty_N_char_digit _ (N.mod_lt x 10 ltac:(done)))).
Qed.

Lemma parse_digits_pretty_go x :
  (Z.of_N x <= U64_MAX)%Z →
  parse_digits 0 (pretty_N_go x EmptyString) = Some (Z.of_N x).
Proof.
  induction (N.lt_wf_0 x) as [x _ IH]; intros Hmax.
  destruct (decide (0 < x)%N) as [Hx|Hx]; [|by replace x with 0%N by lia].
  pose proof (N.div_mod x 10 ltac:(done)) as Hdm.
  pose proof (N.mod_lt x 10 ltac:(done)) as Hm.
  rewrite pretty_N_go_snoc, parse_digits_app by done.
  assert (x / 10 < x)%N by (by apply N.div_lt).
  generalize dependent (x / 10)%N. generalize dependent (x mod 10)%N.
  intros r Hr q Hq Hlt. rewrite IH by lia.
  cbn [mbind option_bind parse_digits].
  destruct (pretty_N_char_digit _ Hr) as [-> ->].
  unfold checked_mul, checked_add.
  rewrite (proj2 (Z.leb_le _ _)) by lia; cbn [mbind option_bind].
  rewrite (proj2 (Z.leb_le _ _)) by lia; cbn. f_equal. lia.
Qed.

(** [format!("{n}")] of an unsigned integer, and how [str::parse] reads it
    back. *)
Definition u64_to_string (n : Z) : string := pretty (Z.to_N n).

Lemma u64_to_string_digits n :
  string_forallb is_ascii_digit (u64_to_string n) = true.
Proof.
  unfold u64_to_string, pretty, pretty_N. case_decide; [done|].
  apply pretty_N_go_digits.
Qed.
Lemma u64_to_string_nonempty n : is_empty (u64_to_string n) = false.
Proof.
  unfold u64_to_string, pretty, pretty_N. case_decide; [done|].
  rewrite pretty_N_go_snoc by lia. by destruct (pretty_N_go _ _).
Qed.
Lemma u64_to_string_inj n m :
  (0 <= n)%Z → (0 <= m)%Z → u64_to_string n = u64_to_string m → n = m.
Proof. unfold u64_to_string. intros ?? ?%(inj pretty). lia. Qed.
Lemma parse_u64_to_string n : is_u64 n → parse_u64 (u64_to_string n) = Some n.
Proof.
  intros [? ?]. pose proof (u64_to_string_nonempty n) as He.
  pose proof (u64_to_string_digits n) as Hd.
  destruct (u64_to_string n) as [|c s] eqn:Hs; [done|]. cbn [parse_u64].
  assert (ascii_is "+" c = false) as ->.
  { apply ascii_is_false. intros ->. by cbn in Hd. }
  cbn [is_empty]. rewrite <-Hs. unfold u64_to_string, pretty, pretty_N.
  case_decide as Hz; [by replace n with 0%Z by lia|].
  rewrite parse_digits_pretty_go; [f_equal|]; lia.
Qed.
Lemma parse_digits_u64 acc s n :
  is_u64 acc → parse_digits acc s = Some n → is_u64 n.
Proof.
  revert acc; induction s as [|c s IH]; intros acc Hacc; cbn; [naive_solver|].
  destruct (is_ascii_digit c) eqn:Hc; [|done].
  assert (0 <= digit_value c)%Z.
  { unfold is_ascii_digit, byte_in in Hc. unfold digit_value.
    apply andb_true_iff in Hc as [Hlo%Z.leb_le _].
    change (byte_of "0"%char) with 48%Z in Hlo. lia. }
  destruct (checked_mul acc 10) as [x|] eqn:Hx; [cbn|done].
  destruct (checked_add x (digit_value c)) as [y|] eqn:Hy; [|done].
  cbn. apply IH. unfold checked_mul, checked_add in *.
  repeat case_match; simplify_eq. rewrite Z.leb_le in *. u64_lia.
Qed.
Lemma parse_u64_is_u64 s n : parse_u64 s = Some n → is_u64 n.
Proof.
  unfold parse_u64. destruct s as [|c s]; [done|]. cbv zeta.
  destruct (is_empty _); [done|].
  apply parse_digits_u64. apply zero_u64.
Qed.
