(* ===== verification/Crypto.v ===== *)
(** * External code the broker calls

    The hash, MAC, hexadecimal and serialization crates are not part of the
    repository: what the broker calls of them are the operations of the
    classes here, and what it relies on are the classes' laws, which state
    those crates' documented behaviour.  The instances at the end show that
    the laws can hold; only witnesses use them. *)
From S2P Require Import Prelude.
Local Open Scope Z_scope.

(** [sha2], [hmac], [hex] and [subtle]. Digests and keys are byte strings. *)
Class Crypto := {
  sha256 : string → string;
  (** HMAC-SHA256 of a message under a key. *)
  hmac_sha256 : string → string → string;
  hex_encode : string → string;
  (** [hex::decode_to_slice] into a 32-byte array. *)
  hex_decode32 : string → option string;
  ct_eq : string → string → bool;
}.
Class CryptoLaws `(C : Crypto) : Prop := {
  ct_eq_spec a b : ct_eq a b = bool_decide (a = b);
  sha256_len s : len (sha256 s) = 32;
  hmac_len k s : len (hmac_sha256 k s) = 32;
  hex_encode_len s : len (hex_encode s) = 2 * len s;
  hex_decode32_len s h : hex_decode32 s = Some h → len h = 32;
}.

(** [serde_json] for a type: a compact document holds no raw newline, since
    a string's control characters are escaped. *)
Class Serde (T : Type) := {
  to_vec : T → result string string;
  from_slice : string → result string T;
}.
Class SerdeLaws (T : Type) `{Serde T} : Prop := {
  from_slice_to_vec (v : T) s : to_vec v = Ok s → from_slice s = Ok v;
  to_vec_no_newline (v : T) s : to_vec v = Ok s → contains_char LF s = false;
}.

(** ** Instances for witnesses *)
Fixpoint nul_bytes (n : nat) : string :=
  match n with O => EmptyString | S n => String NUL (nul_bytes n) end.
Fixpoint fit (n : nat) (s : string) : string :=
  match n, s with
  | O, _ => EmptyString
  | S n, EmptyString => String NUL (fit n EmptyString)
  | S n, String c s => String c (fit n s)
  end.
Definition double_string : string → string :=
  fix go s := match s with
              | EmptyString => EmptyString
              | String c s => String c (String c (go s))
              end.

(** JSON that knows one value only. *)
Definition one_value {T} `{EqDecision T} (v : T) (text : string) : Serde T := {|
  to_vec v' := if decide (v' = v) then Ok text else Err "unknown"%string;
  from_slice s := if decide (s = text) then Ok v else Err "unknown"%string;
|}.
Lemma one_value_laws {T} `{EqDecision T} (v : T) text :
  contains_char LF text = false → @SerdeLaws T (one_value v text).
Proof.
  intros Ht. split; cbn; intros v' s Hs; case_decide; simplify_eq; [by rewrite decide_True|done].
Qed.

(** The first 32 bytes for a digest, which tells short strings apart. *)
Definition toy_crypto : Crypto := {|
  sha256 := fit 32;
  hmac_sha256 k s := fit 32 s;
  hex_encode := double_string;
  hex_decode32 s := if (len s =? 64) then Some (fit 32 s) else None;
  ct_eq a b := bool_decide (a = b);
|}.

Lemma fit_length n s : String.length (fit n s) = n.
Proof. revert s; induction n; intros [|]; cbn; auto. Qed.
Lemma double_string_length s :
  String.length (double_string s) = (2 * String.length s)%nat.
Proof. induction s as [|c s IH]; cbn; [done|]. rewrite IH. lia. Qed.

#[export] Instance toy_crypto_laws : CryptoLaws toy_crypto.
Proof.
  split; cbn -[fit double_string]; unfold len; intros.
  - done.
  - by rewrite fit_length.
  - by rewrite fit_length.
  - rewrite double_string_length. lia.
  - case_match; simplify_eq. by rewrite fit_length.
Qed.
