(* ===== verification/Protocol.v ===== *)
(** * The credential-agent protocol

    [credential-protocol/src/lib.rs]: newline-delimited frames of at most
    [MAX_FRAME] bytes, and the MACs and checks that authenticate a request to
    the credential agent and its response. *)
From S2P Require Import Prelude Crypto.
Local Open Scope Z_scope.

Definition VERSION : Z := 1.
Definition MAX_FRAME : Z := 16 * 1024.
Definition MAX_HEADERS : Z := 16.
Definition MAX_VALUE : Z := 4096.

Inductive Operation := Ping | Acquire | UnauthorizedRecovery.
#[export] Instance Operation_eq_dec : EqDecision Operation.
Proof. solve_decision. Defined.

Record Request := mkRequest {
  req_version : Z;
  req_operation : Operation;
  req_profile : string;
  req_audience : string;
  req_nonce : string;
  req_mac : string;
}.

Record Response := mkResponse {
  resp_version : Z;
  resp_ok : bool;
  resp_nonce : string;
  resp_mac : string;
  resp_headers : list (string * string);
}.

#[export] Instance Request_eq_dec : EqDecision Request.
Proof. solve_decision. Defined.
#[export] Instance Response_eq_dec : EqDecision Response.
Proof. solve_decision. Defined.

(** ** Frames *)
Section frames.
Context {T : Type} `{Serde T}.

Definition encode (value : T) : result string string :=
  out ← to_vec value;
  let out := out +:+ String LF EmptyString in
  if MAX_FRAME <? len out then Err "frame too large" else Ok out.

Definition ends_with_newline (frame : string) : bool :=
  match String.get (String.length frame - 1) frame with
  | Some c => ascii_is LF c
  | None => false
  end.

Definition decode (frame : string) : result string T :=
  if (MAX_FRAME <? len frame) || negb (ends_with_newline frame)
  then Err "invalid frame"
  else from_slice (String.substring 0 (String.length frame - 1) frame).
End frames.

Inductive io_error := UnexpectedEof | InvalidData.

(** The bytes the reader yields until its end, and what is left of them
    after the frame. [out] is what the loop has read. *)
Fixpoint read_frame_loop (out reader : string) : result io_error (string * string) :=
  match reader with
  | EmptyString => Err UnexpectedEof
  | String byte reader =>
      let out := out +:+ String byte EmptyString in
      if MAX_FRAME <? len out then Err InvalidData
      else if ascii_is LF byte then Ok (out, reader)
      else read_frame_loop out reader
  end.
Definition read_frame (reader : string) : result io_error (string * string) :=
  read_frame_loop EmptyString reader.

(** ** Checks *)
Definition validate_request (r : Request) (profile audience : string) : bool :=
  (req_version r =? VERSION)
  && bool_decide (req_profile r = profile)
  && bool_decide (req_audience r = audience)
  && (len (req_nonce r) =? 64)
  && (len (req_mac r) =? 64)
  && (len (req_profile r) <=? 128)
  && (len (req_audience r) <=? 256).

Definition validate_response (r : Response) (nonce : string) : bool :=
  (resp_version r =? VERSION)
  && bool_decide (resp_nonce r = nonce)
  && (Z.of_nat (length (resp_headers r)) <=? MAX_HEADERS)
  && forallb (λ '(n, v), (len n <=? 128) && (len v <=? MAX_VALUE))
       (resp_headers r).

Definition sep : string := String NUL EmptyString.
Definition bool_to_string (b : bool) : string := if b then "true" else "false".

(** ** Authentication *)
Section macs.
Context `{Crypto}.
(** [serde_json::to_string] of an operation and of a header list. *)
Context (op_to_string : Operation → option string).
Context (headers_to_string : list (string * string) → option string).

Definition request_transcript (r : Request) : string :=
  "request" +:+ sep +:+ u64_to_string (req_version r)
  +:+ sep +:+ unwrap_or (op_to_string (req_operation r)) EmptyString
  +:+ sep +:+ req_profile r
  +:+ sep +:+ req_audience r
  +:+ sep +:+ req_nonce r.

Definition response_transcript (r : Response) : string :=
  "response" +:+ sep +:+ u64_to_string (resp_version r)
  +:+ sep +:+ bool_to_string (resp_ok r)
  +:+ sep +:+ resp_nonce r
  +:+ sep +:+ unwrap_or (headers_to_string (resp_headers r)) EmptyString.

Definition mac (secret data : string) : string :=
  hex_encode (hmac_sha256 secret data).
Definition request_mac (secret : string) (r : Request) : string :=
  mac secret (request_transcript r).
Definition response_mac (secret : string) (r : Response) : string :=
  mac secret (response_transcript r).

Definition valid_mac (expected actual : string) : bool :=
  (len expected =? len actual) && ct_eq expected actual.
End macs.

(** ** Facts about frames *)
Lemma ends_with_newline_snoc s :
  ends_with_newline (s +:+ String LF EmptyString) = true.
Proof.
  unfold ends_with_newline. rewrite length_append. cbn [String.length].
  replace (String.length s + 1 - 1)%nat with (String.length s) by lia.
  induction s as [|c s IH]; cbn; [done|]. apply IH.
Qed.
Lemma substring_snoc s c :
  String.substring 0 (String.length (s +:+ String c EmptyString) - 1)
    (s +:+ String c EmptyString) = s.
Proof.
  rewrite length_append. cbn [String.length].
  replace (String.length s + 1 - 1)%nat with (String.length s) by lia.
  induction s as [|b s IH]; cbn; [done|]. by rewrite IH.
Qed.
Lemma len_snoc s c : len (s +:+ String c EmptyString) = len s + 1.
Proof. by rewrite len_append. Qed.

Lemma read_frame_loop_cons out c reader :
  read_frame_loop out (String c reader) =
  if MAX_FRAME <? len out + 1 then Err InvalidData
  else if ascii_is LF c then Ok (out +:+ String LF EmptyString, reader)
  else read_frame_loop (out +:+ String c EmptyString) reader.
Proof.
  cbn [read_frame_loop]. rewrite len_snoc. case_match; [done|].
  destruct (ascii_is LF c) eqn:E; [|done]. by apply ascii_is_true in E as ->.
Qed.

(** A body with no newline that fits is read up to its newline. *)
Lemma read_frame_loop_body out body rest :
  contains_char LF body = false →
  len out + len body + 1 <= MAX_FRAME →
  read_frame_loop out (body +:+ String LF rest) =
  Ok (out +:+ body +:+ String LF EmptyString, rest).
Proof.
  unfold contains_char. revert out.
  induction body as [|c body IH]; intros out; cbn [String.append string_forallb].
  - intros _ Hlen. rewrite read_frame_loop_cons.
    rewrite (proj2 (Z.ltb_ge _ _)) by (unfold len in *; cbn in *; lia).
    by rewrite (proj2 (ascii_is_true _ _) eq_refl).
  - rewrite negb_false_iff, andb_true_iff, negb_true_iff. intros [Hc Hbody] Hlen.
    change (len (String c body)) with (Z.of_nat (S (String.length body))) in Hlen.
    rewrite read_frame_loop_cons, Hc.
    rewrite (proj2 (Z.ltb_ge _ _)) by (unfold len in *; lia).
    rewrite IH; [|by apply negb_false_iff|rewrite len_snoc; unfold len in *; lia].
    by rewrite <-append_assoc.
Qed.

(** How a read ends, whatever the stream holds. *)
Lemma read_frame_loop_inv out reader :
  len out <= MAX_FRAME →
  match read_frame_loop out reader with
  | Ok (f, rest) =>
      ∃ body, f = out +:+ body +:+ String LF EmptyString ∧
        reader = body +:+ String LF rest ∧
        contains_char LF body = false ∧ len f <= MAX_FRAME
  | Err InvalidData =>
      ∃ head tail, reader = head +:+ tail ∧ len out + len head = MAX_FRAME ∧
        contains_char LF head = false ∧ tail ≠ EmptyString
  | Err UnexpectedEof =>
      contains_char LF reader = false ∧ len out + len reader <= MAX_FRAME
  end.
Proof.
  revert out. induction reader as [|c reader IH]; intros out Hout.
  { cbn. change (len EmptyString) with 0. split; [done|lia]. }
  rewrite read_frame_loop_cons. destruct (MAX_FRAME <? len out + 1) eqn:Hbig.
  { apply Z.ltb_lt in Hbig. exists EmptyString, (String c reader).
    change (len EmptyString) with 0. repeat split; [lia|done]. }
  apply Z.ltb_ge in Hbig. destruct (ascii_is LF c) eqn:Hc.
  { apply ascii_is_true in Hc as ->. exists EmptyString. cbn.
    rewrite len_snoc. done. }
  specialize (IH (out +:+ String c EmptyString)). rewrite len_snoc in IH.
  specialize (IH Hbig).
  assert (Hlen : ∀ s, len (String c s) = 1 + len s) by (intros; unfold len; cbn; lia).
  assert (Hcon : ∀ s, contains_char LF s = false → contains_char LF (String c s) = false).
  { unfold contains_char. intros s. cbn [string_forallb]. by rewrite Hc. }
  destruct (read_frame_loop _ reader) as [[f rest]|[]].
  - destruct IH as (body & -> & -> & Hbody & Hf). exists (String c body).
    rewrite <-append_assoc in Hf |- *. cbn in Hf |- *. auto.
  - destruct IH as [? ?]. rewrite Hlen. split; [auto|lia].
  - destruct IH as (head & tail & -> & ? & ? & ?). exists (String c head), tail.
    rewrite Hlen. repeat split; auto. lia.
Qed.

(** ** Properties *)

(** [read_frame] takes exactly the bytes up to and including the first
    newline, or fails: with [InvalidData] precisely when the first
    [MAX_FRAME] bytes hold no newline and there are more, and with
    [UnexpectedEof] precisely when the stream ends first.  So it never reads
    more than [MAX_FRAME + 1] bytes, whatever the peer sends. *)
Theorem read_frame_spec reader :
  match read_frame reader with
  | Ok (f, rest) =>
      ∃ body, f = body +:+ String LF EmptyString ∧
        reader = body +:+ String LF rest ∧
        contains_char LF body = false ∧ len f <= MAX_FRAME
  | Err InvalidData =>
      ∃ head tail, reader = head +:+ tail ∧ len head = MAX_FRAME ∧
        contains_char LF head = false ∧ tail ≠ EmptyString
  | Err UnexpectedEof =>
      contains_char LF reader = false ∧ len reader <= MAX_FRAME
  end.
Proof. by apply (read_frame_loop_inv EmptyString reader). Qed.

(** What [encode] produces is read back as one frame whatever follows it on
    the stream, and [decode] returns the value encoded. *)
Lemma frame_roundtrip {T} `{SerdeLaws T} (value : T) frame rest :
  encode value = Ok frame →
  read_frame (frame +:+ rest) = Ok (frame, rest) ∧ decode frame = Ok value.
Proof.
  unfold encode. intros (out & Hout & Hframe)%bind_Ok. cbv zeta in Hframe.
  destruct (MAX_FRAME <? _) eqn:Hbig; simplify_eq. split.
  - rewrite <-append_assoc. cbn [String.append]. apply Z.ltb_ge in Hbig.
    apply (read_frame_loop_body EmptyString); [by eapply to_vec_no_newline|].
    rewrite len_snoc in Hbig. by change (len EmptyString) with 0.
  - unfold decode. rewrite Hbig, ends_with_newline_snoc, substring_snoc.
    by apply from_slice_to_vec.
Qed.

Section transcripts.
Context (op_to_string : Operation → option string)
  (headers_to_string : list (string * string) → option string).
(** [serde_json] writes the operation as a JSON string of its own name. *)
Definition op_names_distinct : Prop :=
  (∀ op, ∃ s, op_to_string op = Some s ∧ contains_char NUL s = false) ∧
  (∀ o1 o2, op_to_string o1 = op_to_string o2 → o1 = o2).

(** C39: the bytes a request's MAC covers determine the request.  Of two
    requests that pass [validate_request] for one profile and audience, equal
    transcripts mean the same operation and nonce, though the fields are only
    joined by NUL bytes; and no response's transcript is a request's, so
    neither MAC can be replayed as the other. *)
Theorem request_transcript_inj (r1 r2 : Request) profile audience :
  op_names_distinct →
  validate_request r1 profile audience = true →
  validate_request r2 profile audience = true →
  (request_transcript op_to_string r1 = request_transcript op_to_string r2 →
   req_operation r1 = req_operation r2 ∧
   req_nonce r1 = req_nonce r2) ∧
  ∀ resp : Response,
    request_transcript op_to_string r1 ≠
    response_transcript headers_to_string resp.
Proof.
  intros [Hnul Hinj] H1 H2. unfold validate_request in *.
  rewrite !andb_true_iff, !bool_decide_eq_true in *.
  destruct r1 as [v1 o1 p1 a1 n1 m1], r2 as [v2 o2 p2 a2 n2 m2]; cbn in *.
  destruct_and!. rewrite Z.eqb_eq in *. subst. split; [|by intros [] [=]].
  unfold request_transcript; cbn. intros [= Heq].
  destruct (Hnul o1) as (s1 & Ho1 & Hs1), (Hnul o2) as (s2 & Ho2 & Hs2).
  rewrite Ho1, Ho2 in Heq. cbn in Heq.
  apply append_sep_inj in Heq as [-> Heq]; [|done..].
  split; [apply Hinj; congruence|].
  apply (inj (String.append profile)) in Heq. injection Heq as Heq.
  apply (inj (String.append audience)) in Heq. by injection Heq.
Qed.
End transcripts.

(** ** Witnesses *)
Definition quoted (s : string) : string :=
  let q := String (ascii_of_N 34) EmptyString in q +:+ s +:+ q.
Definition toy_op_to_string (op : Operation) : option string :=
  Some (quoted match op with
               | Ping => "ping"
               | Acquire => "acquire"
               | UnauthorizedRecovery => "unauthorized_recovery"
               end).
Definition sample_request (op : Operation) : Request :=
  mkRequest 1 op "codex" "codex" (fit 64 "n") (fit 64 "m").

Lemma request_transcript_inj_witness :
  request_transcript toy_op_to_string (sample_request Ping) ≠
  response_transcript (λ _, Some "[]") (mkResponse 1 true "n" "m" []).
Proof.
  apply (request_transcript_inj toy_op_to_string (λ _, Some "[]")
    (sample_request Ping) (sample_request Acquire) "codex" "codex").
  - split; [intros []; eexists; split; reflexivity|by intros [] []].
  - reflexivity.
  - reflexivity.
Defined.
