(* ===== verification/Float64.v ===== *)
(** * Binary64 floating point

    An [f64] is a [spec_float] of precision 53 and maximal exponent 1024, the
    Standard Library's executable specification of IEEE 754 arithmetic with
    round-to-nearest-even.  The conversions and roundings of Rust's standard
    library the code uses ([as], [round], [max], [min], range tests) are
    defined on it, with the lemmas on signs and NaN that the budgets need. *)
From S2P Require Import Prelude.
From Stdlib Require Export Floats.SpecFloat.
Local Open Scope Z_scope.

Definition f64 : Set := spec_float.
Definition PREC : Z := 53.
Definition EMAX : Z := 1024.

(** ** Operations *)
Definition fadd : f64 → f64 → f64 := SFadd PREC EMAX.
Definition fsub : f64 → f64 → f64 := SFsub PREC EMAX.
Definition fmul : f64 → f64 → f64 := SFmul PREC EMAX.
Definition fdiv : f64 → f64 → f64 := SFdiv PREC EMAX.
Definition flt (x y : f64) : bool := SFltb x y.
Definition fle (x y : f64) : bool := SFleb x y.
Definition fgt (x y : f64) : bool := SFltb y x.
Definition fge (x y : f64) : bool := SFleb y x.

(** [n as f64] of an unsigned integer: rounded to nearest. *)
Definition f64_of_u64 (n : Z) : f64 := binary_normalize PREC EMAX n 0 false.
(** The literal [m / 10 ^ d], each part exact in binary64. *)
Definition decimal (m d : Z) : f64 := fdiv (f64_of_u64 m) (f64_of_u64 (10 ^ d)).
Definition fzero : f64 := S754_zero false.

Definition is_nan (x : f64) : bool := match x with S754_nan => true | _ => false end.
Definition is_finite (x : f64) : bool :=
  match x with S754_zero _ | S754_finite _ _ _ => true | _ => false end.
(** [f64::max] and [min] return the other argument when one is NaN. *)
Definition fmax (x y : f64) : f64 :=
  if is_nan x then y else if is_nan y then x else if flt x y then y else x.
Definition fmin (x y : f64) : f64 :=
  if is_nan x then y else if is_nan y then x else if flt y x then y else x.
(** [(lo..=hi).contains(&x)]: false of NaN. *)
Definition in_range (lo hi x : f64) : bool := fle lo x && fle x hi.

(** The integer part of the magnitude [m * 2 ^ e], and that of it plus a
    half. *)
Definition trunc_mag (m : positive) (e : Z) : Z := Z.shiftl (Z.pos m) e.
Definition round_mag (m : positive) (e : Z) : Z :=
  if 0 <=? e then Z.shiftl (Z.pos m) e
  else Z.shiftr (Z.pos m + Z.shiftl 1 (- e - 1)) (- e).
(** [f64::round]: halves away from zero, the sign kept. *)
Definition fround (x : f64) : f64 :=
  match x with
  | S754_finite s m e =>
      match round_mag m e with
      | Z0 => S754_zero s
      | n => binary_normalize PREC EMAX (if s then - n else n) 0 s
      end
  | _ => x
  end.
(** [x as u64]: truncated, saturating, zero of NaN. *)
Definition f64_to_u64 (x : f64) : Z :=
  match x with
  | S754_finite false m e => Z.min (trunc_mag m e) U64_MAX
  | S754_infinity false => U64_MAX
  | _ => 0
  end.

(** [m / d] and [m * 10 ^ x], rounded once. *)
Definition f64_ratio (m d : positive) : f64 :=
  let '(q, e, l) := SFdiv_core_binary PREC EMAX (Z.pos m) 0 (Z.pos d) 0 in
  binary_round_aux PREC EMAX false q e l.
Definition f64_scaled (m x : Z) : f64 :=
  match m with
  | Z.pos m =>
      match x with
      | Z.neg n => f64_ratio m (Pos.pow 10 n)
      | _ => binary_normalize PREC EMAX (Z.pos m * 10 ^ x) 0 false
      end
  | _ => fzero
  end.

(** ** [str::parse::<f64>]

    An optional sign, then [inf], [infinity] or [nan] in any case, or digits
    with an optional point, at least one of them, and an optional exponent. *)
Fixpoint scan_digits (acc n : Z) (s : string) : Z * Z * string :=
  match s with
  | String c r =>
      if is_ascii_digit c then scan_digits (10 * acc + digit_value c) (n + 1) r
      else (acc, n, s)
  | EmptyString => (acc, n, s)
  end.
Definition scan_sign (s : string) : bool * string :=
  match s with
  | String c r =>
      if ascii_is "-" c then (true, r) else if ascii_is "+" c then (false, r) else (false, s)
  | EmptyString => (false, s)
  end.
(** The exponent, if the rest of the number is one. *)
Definition scan_exponent (s : string) : option Z :=
  match s with
  | EmptyString => Some 0
  | String c r =>
      if ascii_is "e" c || ascii_is "E" c then
        let '(negative, r) := scan_sign r in
        let '(x, n, r) := scan_digits 0 0 r in
        if (n =? 0) || negb (is_empty r) then None
        else Some (if negative then - x else x)
      else None
  end.
Definition parse_magnitude (s : string) : option f64 :=
  let word := to_ascii_lowercase s in
  if bool_decide (word = "inf"%string) || bool_decide (word = "infinity"%string)
  then Some (S754_infinity false)
  else if bool_decide (word = "nan"%string) then Some S754_nan
  else
    let '(m, n, r) := scan_digits 0 0 s in
    let '(m, k, r) :=
      match r with
      | String c r' => if ascii_is "." c then scan_digits m 0 r' else (m, 0, r)
      | EmptyString => (m, 0, r)
      end in
    if n + k =? 0 then None else (λ x, f64_scaled m (x - k)) <$> scan_exponent r.
Definition parse_f64 (s : string) : option f64 :=
  let '(negative, s) := scan_sign s in
  (λ x, if negative then SFopp x else x) <$> parse_magnitude s.

(** ** Signs *)

(** Not NaN and not negative; a zero of either sign is. *)
Definition nonneg (x : f64) : bool :=
  match x with
  | S754_zero _ | S754_finite false _ _ | S754_infinity false => true
  | _ => false
  end.

Section signs.
Implicit Types (x y : f64) (r : shr_record).

Lemma nonneg_spec x : nonneg x = negb (is_nan x || flt x fzero).
Proof. by destruct x as [| [] | | [] ??]. Qed.
Lemma nonneg_fle x : nonneg x = fle fzero x.
Proof. by destruct x as [| [] | | [] ??]. Qed.

Lemma shr_1_nonneg r : 0 <= shr_m r → 0 <= shr_m (shr_1 r).
Proof. destruct r as [[|[]|] ? ?]; cbn; lia. Qed.
Lemma iter_shr_1_nonneg n r : 0 <= shr_m r → 0 <= shr_m (iter_pos shr_1 n r).
Proof.
  revert r. induction n as [n IH|n IH|]; intros r Hr; cbn; auto using shr_1_nonneg.
Qed.
Lemma shr_fexp_nonneg m e l : 0 <= m → 0 <= shr_m (shr_fexp PREC EMAX m e l).1.
Proof.
  intros Hm. unfold shr_fexp, shr. set (n := _ - e).
  assert (0 <= shr_m (shr_record_of_loc m l)) by (by destruct l as [|[]]).
  destruct n; cbn; auto using iter_shr_1_nonneg.
Qed.
Lemma round_nearest_even_nonneg m l : 0 <= m → 0 <= round_nearest_even m l.
Proof. destruct l as [|[]]; cbn; try case_match; lia. Qed.
Lemma binary_round_aux_nonneg m e l :
  0 <= m → nonneg (binary_round_aux PREC EMAX false m e l) = true.
Proof.
  intros Hm. unfold binary_round_aux.
  pose proof (shr_fexp_nonneg m e l Hm) as H1.
  destruct (shr_fexp PREC EMAX m e l) as [r1 e1]. cbn [fst] in H1.
  pose proof (shr_fexp_nonneg (round_nearest_even (shr_m r1) (loc_of_shr_record r1)) e1
    loc_Exact (round_nearest_even_nonneg _ _ H1)) as H2.
  destruct (shr_fexp _ _ _ _ _) as [r2 e2]. cbn [fst] in H2.
  destruct (shr_m r2); [done| |lia]. by destruct (e2 <=? _).
Qed.
Lemma binary_normalize_nonneg m e b :
  0 <= m → nonneg (binary_normalize PREC EMAX m e b) = true.
Proof.
  intros Hm. destruct m as [|m|m]; [done| |lia]. cbn. unfold binary_round.
  destruct (shl_align _ _ _) as [mz ez]. apply binary_round_aux_nonneg. lia.
Qed.

Lemma fadd_nonneg x y : nonneg x = true → nonneg y = true → nonneg (fadd x y) = true.
Proof.
  unfold fadd. destruct x as [[]|[]| |[] mx ex], y as [[]|[]| |[] my ey]; try done.
  intros _ _. apply binary_normalize_nonneg. cbn. lia.
Qed.
Lemma fmul_nonneg x y :
  is_finite x = true → is_finite y = true → nonneg x = true → nonneg y = true →
  nonneg (fmul x y) = true.
Proof.
  unfold fmul. destruct x as [[]|[]| |[] mx ex], y as [[]|[]| |[] my ey]; try done.
  intros _ _ _ _. cbn -[binary_round_aux]. by apply binary_round_aux_nonneg.
Qed.
Lemma fmax_zero_nonneg x : nonneg (fmax x fzero) = true.
Proof. by destruct x as [| [] | | [] ??]. Qed.
Lemma in_range_nonneg hi x : in_range fzero hi x = true → nonneg x = true.
Proof. unfold in_range. rewrite andb_true_iff, nonneg_fle. by intros [? _]. Qed.
Lemma f64_of_u64_nonneg n : 0 <= n → nonneg (f64_of_u64 n) = true.
Proof. apply binary_normalize_nonneg. Qed.

Lemma f64_to_u64_is_u64 x : is_u64 (f64_to_u64 x).
Proof.
  destruct x as [|[]| |[] m e]; cbn; try u64_lia.
  unfold trunc_mag. pose proof (Z.shiftl_nonneg (Z.pos m) e). u64_lia.
Qed.
End signs.

(** ** Order *)
Lemma flt_not_nan x y : flt x y = true → is_nan x = false ∧ is_nan y = false.
Proof. unfold flt, SFltb. by destruct x, y. Qed.

(** Known values. *)
Example decimal_tenth : decimal 1 1 = S754_finite false 7205759403792794 (-56).
Proof. reflexivity. Qed.
Example fround_half : map fround [decimal 25 1; decimal 24999 4] = map f64_of_u64 [3; 2].
Proof. reflexivity. Qed.
Example parse_f64_values :
  map parse_f64 ["0.42"; "100"; "-1e-2"; ".5"; "5."; "+inf"; "e5"; "."; "1e"; "0x1"]%string =
  [Some (decimal 42 2); Some (f64_of_u64 100); Some (SFopp (decimal 1 2)); Some (decimal 5 1);
   Some (f64_of_u64 5); Some (S754_infinity false); None; None; None; None].
Proof. vm_compute. reflexivity. Qed.
