(* ===== verification/Float64Order.v ===== *)
(** * Binary64 floating point: order and rounding

    A finite float of binary64 is an integer number of the smallest one,
    [2 ^ -1074].  Rounding is faithful: what it rounds to is on the same side
    of every float as the exact result. So sums, products and quotients stay
    within any bound that is a float, without a word of which way they
    round. *)
From S2P Require Import Prelude Float64.
Local Open Scope Z_scope.

(** The magnitude, in units of [2 ^ -1074]; the floats in their one form. *)
Definition mag (x : f64) : Z :=
  match x with S754_finite _ m e => Z.pos m * 2 ^ (e + 1074) | _ => 0 end.
Definition valid (x : f64) : bool := valid_binary PREC EMAX x.

(** ** Digits *)
Lemma digits2_pos_spec m :
  2 ^ (Z.pos (digits2_pos m) - 1) <= Z.pos m < 2 ^ Z.pos (digits2_pos m).
Proof.
  induction m as [m IH|m IH|]; cbn [digits2_pos]; [| |by cbn].
  all: rewrite Pos2Z.inj_succ.
  all: replace (Z.succ (Z.pos (digits2_pos m)) - 1) with (Z.succ (Z.pos (digits2_pos m) - 1)) by lia.
  all: rewrite !Z.pow_succ_r by lia; lia.
Qed.
Lemma digits2_nonneg m : 0 <= m → 0 <= Zdigits2 m.
Proof. destruct m; cbn; lia. Qed.
Lemma digits2_spec m : 0 < m → 2 ^ (Zdigits2 m - 1) <= m < 2 ^ Zdigits2 m.
Proof. destruct m as [|m|m]; [lia| |lia]. intros _. apply digits2_pos_spec. Qed.
Lemma digits2_lt m k : 0 <= m → 0 <= k → m < 2 ^ k ↔ Zdigits2 m <= k.
Proof.
  intros Hm Hk. destruct (decide (m = 0)) as [->|Hne].
  { cbn. split; [done|]. intros _. by apply Z.pow_pos_nonneg. }
  pose proof (digits2_spec m ltac:(lia)) as [Hl Hu]. split; intros H.
  - destruct (Z.le_gt_cases (Zdigits2 m) k) as [|Hgt]; [done|].
    assert (2 ^ k <= 2 ^ (Zdigits2 m - 1)) by (apply Z.pow_le_mono_r; lia). lia.
  - assert (2 ^ Zdigits2 m <= 2 ^ k) by (apply Z.pow_le_mono_r; lia). lia.
Qed.
Lemma digits2_ge m k : 0 <= m → 0 < k → 2 ^ (k - 1) <= m ↔ k <= Zdigits2 m.
Proof.
  intros Hm Hk. pose proof (digits2_lt m (k - 1) Hm ltac:(lia)). lia.
Qed.
Lemma digits2_mul_pow m k : 0 < m → 0 <= k → Zdigits2 (m * 2 ^ k) = Zdigits2 m + k.
Proof.
  intros Hm Hk. assert (0 < 2 ^ k) by (by apply Z.pow_pos_nonneg).
  pose proof (digits2_spec m Hm) as [Hl Hu]. pose proof (digits2_spec (m * 2 ^ k) ltac:(nia)).
  assert (1 <= Zdigits2 m) by (apply digits2_ge; [lia..|]; cbn; lia).
  apply Z.le_antisymm.
  - apply digits2_lt; [nia|lia|]. rewrite Z.pow_add_r by lia. nia.
  - apply digits2_ge; [nia|lia|].
    replace (Zdigits2 m + k - 1) with (Zdigits2 m - 1 + k) by lia.
    rewrite Z.pow_add_r by lia. nia.
Qed.

(** The exponent of a float with [k] digits before its point. *)
Definition fe (k : Z) : Z := Z.max (k - 53) (-1074).
Lemma fexp_fe k : fexp PREC EMAX k = fe k.
Proof. reflexivity. Qed.

Lemma bounded_spec m e :
  bounded PREC EMAX m e = true ↔
  -1074 <= e <= 971 ∧ Z.pos m < 2 ^ 53 ∧ (e = -1074 ∨ 2 ^ 52 <= Z.pos m).
Proof.
  unfold bounded, canonical_mantissa. rewrite fexp_fe, andb_true_iff, Z.eqb_eq, Z.leb_le.
  change (EMAX - PREC) with 971. change (Z.pos (digits2_pos m)) with (Zdigits2 (Z.pos m)).
  pose proof (digits2_lt (Z.pos m) 53 ltac:(lia) ltac:(lia)).
  pose proof (digits2_ge (Z.pos m) 53 ltac:(lia) ltac:(lia)) as Hge. cbn [Z.sub] in Hge.
  change (53 - 1) with 52 in Hge. unfold fe. lia.
Qed.

(** ** Shifts

    [N] lies where the record says, in units of [P] of its mantissa. *)
Definition approx (r : shr_record) (N P : Z) : Prop :=
  let '(Build_shr_record m r s) := r in
  match r, s with
  | false, false => N = m * P
  | false, true => m * P < N ∧ 2 * N < (2 * m + 1) * P
  | true, false => 2 * N = (2 * m + 1) * P
  | true, true => (2 * m + 1) * P < 2 * N ∧ N < (m + 1) * P
  end.
Lemma shr_1_eq m r s :
  0 <= m → shr_1 (Build_shr_record m r s) = Build_shr_record (Z.div2 m) (Z.odd m) (r || s).
Proof. by destruct m as [|[m|m|]|m]. Qed.
Lemma approx_halved m r s N P :
  0 < P → approx (Build_shr_record m r s) N P →
  approx (Build_shr_record (Z.div2 m) (Z.odd m) (r || s)) N (2 * P).
Proof.
  intros HP Hr. pose proof (Z.div2_odd m) as Hm. set (q := Z.div2 m) in *.
  remember (q * P) as X eqn:HX. unfold approx in *.
  replace (q * (2 * P)) with (2 * X) by lia.
  replace ((q + 1) * (2 * P)) with (2 * X + 2 * P) by lia.
  replace ((2 * q + 1) * (2 * P)) with (4 * X + 2 * P) by lia.
  replace ((2 * m + 1) * P) with (2 * (m * P) + P) in Hr by lia.
  replace ((m + 1) * P) with (m * P + P) in Hr by lia.
  assert (m * P = 2 * X + Z.b2z (Z.odd m) * P) as E by (rewrite Hm at 1; lia). rewrite E in Hr.
  destruct (Z.odd m), r, s; cbn [Z.b2z orb] in *; lia.
Qed.
(** [f] shifts a record by [k]. *)
Definition shifts (k : Z) (f : shr_record → shr_record) : Prop :=
  ∀ r N P, 0 <= shr_m r → 0 < P → approx r N P →
    approx (f r) N (P * 2 ^ k) ∧ shr_m (f r) = shr_m r / 2 ^ k.
Lemma shifts_1 : shifts 1 shr_1.
Proof.
  intros [m r s] N P Hm HP Hr. cbn [shr_m] in Hm. rewrite shr_1_eq by done. split.
  - rewrite Z.mul_comm. by apply approx_halved.
  - cbn [shr_m]. by rewrite Z.div2_div.
Qed.
Lemma shifts_compose j k f g :
  0 <= j → 0 <= k → shifts j f → shifts k g → shifts (j + k) (λ r, g (f r)).
Proof.
  intros Hj Hk Hf Hg r N P Hm HP Hr. destruct (Hf r N P Hm HP Hr) as [H1 E1].
  assert (0 < 2 ^ j) by (by apply Z.pow_pos_nonneg).
  destruct (Hg (f r) N (P * 2 ^ j)) as [H2 E2]; [|nia|done|].
  - rewrite E1. by apply Z.div_pos.
  - rewrite Z.pow_add_r, Z.mul_assoc by done. split; [done|].
    rewrite E2, E1, Z.div_div; [done|lia|by apply Z.pow_pos_nonneg].
Qed.
Lemma shifts_iter p : shifts (Z.pos p) (iter_pos shr_1 p).
Proof.
  induction p as [p IH|p IH|]; cbn [iter_pos].
  - rewrite Pos2Z.inj_xI. replace (2 * Z.pos p + 1) with (1 + (Z.pos p + Z.pos p)) by lia.
    apply (shifts_compose 1 _ shr_1 (λ r, iter_pos shr_1 p (iter_pos shr_1 p r)));
      [done|done|apply shifts_1|]. by apply shifts_compose.
  - rewrite Pos2Z.inj_xO. replace (2 * Z.pos p) with (Z.pos p + Z.pos p) by lia.
    by apply shifts_compose.
  - apply shifts_1.
Qed.
Lemma shr_record_of_loc_m m l : shr_m (shr_record_of_loc m l) = m.
Proof. by destruct l as [|[]]. Qed.
(** The first step of rounding, of a mantissa that has the digits for it. *)
Lemma shr_fexp_spec m e l N P :
  0 <= m → 0 < P → approx (shr_record_of_loc m l) N P → e <= fe (Zdigits2 m + e) →
  let e' := fe (Zdigits2 m + e) in
  let '(r, e'') := shr_fexp PREC EMAX m e l in
  e'' = e' ∧ approx r N (P * 2 ^ (e' - e)) ∧ shr_m r = m / 2 ^ (e' - e).
Proof.
  intros Hm HP Hr He e'. unfold shr_fexp. rewrite fexp_fe. fold e' in He |- *.
  unfold shr. destruct (e' - e) as [|p|p] eqn:E; [| |lia].
  - rewrite Z.pow_0_r, Z.mul_1_r, Z.div_1_r, shr_record_of_loc_m. split; [lia|done].
  - destruct (shifts_iter p _ N P ltac:(by rewrite shr_record_of_loc_m) HP Hr) as [H1 E1].
    split; [lia|]. split; [done|]. by rewrite E1, shr_record_of_loc_m.
Qed.

(** ** Rounding *)
(** [m1] is the nearest to [N], in units of [U], of [m] and its successor. *)
Definition near (N U m m1 : Z) : Prop :=
  N = m * U ∧ m1 = m ∨
  m * U < N < (m + 1) * U ∧
    (m1 = m ∧ 2 * N <= (2 * m + 1) * U ∨ m1 = m + 1 ∧ (2 * m + 1) * U <= 2 * N).
Lemma round_nearest_even_spec r N P :
  approx r N P → 0 < P → near N P (shr_m r) (round_nearest_even (shr_m r) (loc_of_shr_record r)).
Proof.
  destruct r as [m [] []]; cbn; intros Hr HP; unfold near; [right|right|right|left; by split].
  - split; [lia|right]. lia.
  - split; [lia|]. destruct (Z.even m); [left|right]; lia.
  - split; [lia|left]. lia.
Qed.
Lemma near_cases N U m m1 : near N U m m1 → m1 = m ∨ m1 = m + 1.
Proof. unfold near. lia. Qed.
Definition sign (x : f64) : bool :=
  match x with
  | S754_zero s | S754_infinity s | S754_finite s _ _ => s
  | S754_nan => false
  end.
(** The float of a mantissa and an exponent, or what it overflows to. *)
Definition made (sx : bool) (n : Z) (x : f64) : Prop :=
  valid x = true ∧ is_nan x = false ∧ sign x = sx ∧
  if is_finite x then mag x = n else 2 ^ 2098 <= n.
Definition pack (sx : bool) (m e : Z) : f64 :=
  match m with
  | Z0 => S754_zero sx
  | Z.pos m => if e <=? EMAX - PREC then S754_finite sx m e else S754_infinity sx
  | Z.neg _ => S754_nan
  end.
Lemma pack_made sx m e :
  0 <= m < 2 ^ 53 → -1074 <= e → (e = -1074 ∨ 2 ^ 52 <= m) → made sx (m * 2 ^ (e + 1074)) (pack sx m e).
Proof.
  intros Hm He Hc. destruct m as [|m|m]; [done| |lia]. unfold pack.
  change (EMAX - PREC) with 971. destruct (Z.leb_spec e 971) as [Hle|Hgt].
  - split; [|done]. apply bounded_spec. lia.
  - split; [done|]. split; [done|]. split; [done|]. cbn [is_finite].
    destruct Hc as [->|Hc]; [lia|].
    assert (2 ^ 2046 <= 2 ^ (e + 1074)) by (apply Z.pow_le_mono_r; lia).
    change (2 ^ 2098) with (2 ^ 52 * 2 ^ 2046). nia.
Qed.
Lemma round_last sx m e :
  0 <= m <= 2 ^ 53 → -1074 <= e → (e = -1074 ∨ 2 ^ 52 <= m) →
  made sx (m * 2 ^ (e + 1074))
    (let '(r, e'') := shr_fexp PREC EMAX m e loc_Exact in pack sx (shr_m r) e'').
Proof.
  intros Hm He Hc. unfold shr_fexp. rewrite fexp_fe.
  destruct (decide (m = 2 ^ 53)) as [->|Hne].
  - change (Zdigits2 (2 ^ 53)) with 54. replace (fe (54 + e) - e) with 1 by (unfold fe; lia).
    change (shr (shr_record_of_loc (2 ^ 53) loc_Exact) e 1)
      with (Build_shr_record (2 ^ 52) false false, e + 1). cbn [shr_m].
    replace (2 ^ 53 * 2 ^ (e + 1074)) with (2 ^ 52 * 2 ^ (e + 1 + 1074)).
    { apply pack_made; lia. }
    replace (e + 1 + 1074) with (1 + (e + 1074)) by lia. rewrite Z.pow_add_r by lia. lia.
  - assert (Zdigits2 m <= 53) by (apply digits2_lt; lia).
    assert (fe (Zdigits2 m + e) - e <= 0) as Hle by (unfold fe; lia).
    unfold shr. destruct (fe _ - e) as [|p|p]; [|lia|]; cbn [shr_record_of_loc shr_m];
      apply pack_made; lia.
Qed.
Lemma binary_round_aux_pack sx m e l :
  binary_round_aux PREC EMAX sx m e l =
    let '(r, e') := shr_fexp PREC EMAX m e l in
    let '(r', e'') :=
      shr_fexp PREC EMAX (round_nearest_even (shr_m r) (loc_of_shr_record r)) e' loc_Exact in
    pack sx (shr_m r') e''.
Proof. reflexivity. Qed.

(** [N / W] is the exact result in units of [2 ^ -1074], and [P / W] the unit
    of a mantissa at the exponent [e]. *)
Definition unit_of (e P W : Z) : Prop :=
  ∃ k, 0 <= k ∧ 0 <= e + 1074 + k ∧ P * 2 ^ k = W * 2 ^ (e + 1074 + k).
Lemma unit_of_shift e e' P W :
  unit_of e P W → e <= e' → -1074 <= e' → P * 2 ^ (e' - e) = W * 2 ^ (e' + 1074).
Proof.
  intros (k & Hk & He & HP) Hle Hmin. apply (Z.mul_reg_r _ _ (2 ^ k)).
  { pose proof (Z.pow_pos_nonneg 2 k). lia. }
  rewrite <-(Z.mul_assoc P), (Z.mul_comm (2 ^ (e' - e))), Z.mul_assoc, HP, <-!Z.mul_assoc,
    <-!Z.pow_add_r by lia. f_equal. f_equal. lia.
Qed.
(** Where the rounding of [N / W] lies: it is at [m1] of a grid that no float
    is finer than near there. *)
Record rounded (sx : bool) (N W : Z) (x : f64) (e m m1 : Z) : Prop := {
  rd_e : -1074 <= e;
  rd_m : 0 <= m < 2 ^ 53;
  rd_digits : e = -1074 ∨ 2 ^ 52 <= m;
  rd_near : near N (W * 2 ^ (e + 1074)) m m1;
  rd_made : made sx (m1 * 2 ^ (e + 1074)) x;
}.
Lemma binary_round_aux_rounded sx m e l N P W :
  0 <= m → 0 < P → approx (shr_record_of_loc m l) N P → e <= fe (Zdigits2 m + e) →
  unit_of e P W →
  ∃ e' m' m1, rounded sx N W (binary_round_aux PREC EMAX sx m e l) e' m' m1.
Proof.
  intros Hm HP Hr He Hu. rewrite binary_round_aux_pack.
  pose proof (shr_fexp_spec m e l N P Hm HP Hr He) as Hs. cbv zeta in Hs.
  set (e' := fe (Zdigits2 m + e)) in *. destruct (shr_fexp PREC EMAX m e l) as [r e1].
  destruct Hs as (-> & Ha & Hrm). assert (-1074 <= e') as Hmin by (unfold e', fe; lia).
  rewrite (unit_of_shift e e' P W Hu He Hmin) in Ha.
  assert (0 < 2 ^ (e' - e)) as Hpow by (apply Z.pow_pos_nonneg; lia).
  assert (0 < W * 2 ^ (e' + 1074)) as HU.
  { rewrite <-(unit_of_shift e e' P W Hu He Hmin). nia. }
  exists e', (shr_m r), (round_nearest_even (shr_m r) (loc_of_shr_record r)).
  pose proof (round_nearest_even_spec r N (W * 2 ^ (e' + 1074)) Ha HU) as Hnear.
  assert (0 <= shr_m r < 2 ^ 53 ∧ (e' = -1074 ∨ 2 ^ 52 <= shr_m r)) as [Hr53 Hdig].
  { rewrite Hrm. set (d := Zdigits2 m) in *. assert (0 <= m / 2 ^ (e' - e)) by by apply Z.div_pos.
    assert (m < 2 ^ (53 + (e' - e))) as Hm53 by (apply digits2_lt; fold d; unfold e', fe in *; lia).
    rewrite Z.pow_add_r in Hm53 by lia. split.
    - split; [done|]. apply Z.div_lt_upper_bound; [done|]. lia.
    - destruct (decide (e' = -1074)) as [|Hne]; [by left|right].
      apply Z.div_le_lower_bound; [done|]. rewrite Z.mul_comm, <-Z.pow_add_r by lia.
      replace (52 + (e' - e)) with (d - 1) by (unfold e', fe in *; lia).
      apply digits2_ge; fold d; [done| |lia]. unfold e', fe in *. lia. }
  split; [done|done|done|done|]. apply round_last; [|done|].
  - apply near_cases in Hnear. lia.
  - apply near_cases in Hnear. lia.
Qed.

(** Each float is on the grid, or well below it. *)
Lemma mag_grid r e m :
  valid r = true → -1074 <= e → 0 <= m → (e = -1074 ∨ 2 ^ 52 <= m) →
  let B := 2 ^ (e + 1074) in
  (∃ k, 0 <= k ∧ mag r = k * B) ∨ mag r < m * B.
Proof.
  intros Hv He Hm Hc B. assert (0 < B) as HB by (apply Z.pow_pos_nonneg; lia).
  destruct r as [| | |s mr er]; try (by left; exists 0).
  apply bounded_spec in Hv as (Her & Hmr & _). cbn [mag].
  destruct (Z.le_gt_cases e er) as [Hle|Hlt].
  - left. exists (Z.pos mr * 2 ^ (er - e)). split; [pose proof (Z.pow_pos_nonneg 2 (er - e)); nia|].
    unfold B. rewrite <-Z.mul_assoc, <-Z.pow_add_r by lia. f_equal. f_equal. lia.
  - right. destruct Hc as [->|Hc]; [lia|].
    assert (Z.pos mr * 2 ^ (er + 1074) < 2 ^ 53 * 2 ^ (er + 1074)) as H1.
    { apply Z.mul_lt_mono_pos_r; [apply Z.pow_pos_nonneg; lia|done]. }
    assert (2 ^ 53 * 2 ^ (er + 1074) <= 2 ^ 52 * B) as H2.
    { unfold B. rewrite <-!Z.pow_add_r by lia. apply Z.pow_le_mono_r; lia. }
    nia.
Qed.
Lemma mag_bound r : valid r = true → mag r < 2 ^ 2098.
Proof.
  destruct r as [| | |s m e]; try done. intros (He & Hm & _)%bounded_spec. cbn [mag].
  assert (2 ^ (e + 1074) <= 2 ^ 2045) by (apply Z.pow_le_mono_r; lia).
  assert (0 < 2 ^ (e + 1074)) by (apply Z.pow_pos_nonneg; lia).
  change (2 ^ 2098) with (2 ^ 53 * 2 ^ 2045). nia.
Qed.
Lemma mag_nonneg r : 0 <= mag r.
Proof. destruct r as [| | |s m e]; cbn; try done. pose proof (Z.pow_nonneg 2 (e + 1074)). nia. Qed.

Section rounded.
Context (sx : bool) (N W : Z) (x : f64) (e m m1 : Z) (Hx : rounded sx N W x e m m1) (HW : 0 < W).
Lemma rounded_le r :
  valid r = true → N <= W * mag r → is_finite x = true ∧ mag x <= mag r.
Proof using All.
  intros Hv HN. destruct Hx as [He Hm Hc Hnear (_ & _ & _ & Hmade)].
  set (B := 2 ^ (e + 1074)) in *. assert (0 < B) as HB by (apply Z.pow_pos_nonneg; lia).
  assert (m1 * B <= mag r) as Hle.
  { destruct Hnear as [[HNm ->]|[[HNm _] Hm1]]; [rewrite HNm in HN; nia|].
    assert (m * B < mag r) as Hlt by nia.
    destruct (mag_grid r e m Hv He ltac:(lia) Hc) as [(k & Hk & Er)|]; [|lia].
    fold B in Er. rewrite Er in *. assert (m < k) by nia. nia. }
  pose proof (mag_bound r Hv). destruct (is_finite x); [by rewrite Hmade|lia].
Qed.
Lemma rounded_ge r :
  valid r = true → W * mag r <= N → is_finite x = true → mag r <= mag x.
Proof using All.
  intros Hv HN Hf. destruct Hx as [He Hm Hc Hnear (_ & _ & _ & Hmade)]. rewrite Hf in Hmade.
  rewrite Hmade. set (B := 2 ^ (e + 1074)) in *.
  assert (0 < B) as HB by (apply Z.pow_pos_nonneg; lia).
  destruct Hnear as [[HNm ->]|[[_ HNm] Hm1]]; [rewrite HNm in HN; nia|].
  assert (mag r < (m + 1) * B) as Hlt by nia.
  destruct (mag_grid r e m Hv He ltac:(lia) Hc) as [(k & Hk & Er)|Hlow];
    [fold B in Er|fold B in Hlow; nia].
  rewrite Er in *. assert (k <= m) by nia. nia.
Qed.
Lemma rounded_near r :
  valid r = true → is_finite x = true → Z.abs (W * mag x - N) <= Z.abs (W * mag r - N).
Proof using All.
  intros Hv Hf. destruct Hx as [He Hm Hc Hnear (_ & _ & _ & Hmade)]. rewrite Hf in Hmade.
  rewrite Hmade. set (B := 2 ^ (e + 1074)) in *.
  assert (0 < B) as HB by (apply Z.pow_pos_nonneg; lia).
  assert (W * mag r <= m * (W * B) ∨ (m + 1) * (W * B) <= W * mag r) as Hr.
  { destruct (mag_grid r e m Hv He ltac:(lia) Hc) as [(k & Hk & Er)|Hlow];
      [fold B in Er|fold B in Hlow; left; nia].
    rewrite Er. replace (W * (k * B)) with (k * (W * B)) by ring. assert (0 < W * B) by nia.
    destruct (Z.le_gt_cases k m); [left|right]; apply Z.mul_le_mono_nonneg_r; lia. }
  remember (W * B) as U eqn:HU. assert (0 < U) by nia.
  replace (W * (m1 * B)) with (m1 * U) by (rewrite HU; ring).
  remember (m * U) as X eqn:HX.
  assert (m1 = m + 1 → m1 * U = X + U) by (intros ->; rewrite HX; ring).
  assert (m1 = m → m1 * U = X) by (by intros ->).
  unfold near in Hnear. rewrite <-HX in Hnear.
  replace ((m + 1) * U) with (X + U) in * by (rewrite HX; ring).
  replace ((2 * m + 1) * U) with (2 * X + U) in * by (rewrite HX; ring). lia.
Qed.
Lemma rounded_valid : valid x = true ∧ is_nan x = false ∧ sign x = sx.
Proof using Hx. by destruct Hx as [_ _ _ _ (? & ? & ? & _)]. Qed.
End rounded.

(** ** Operations on floats that are not negative

    [x] is what [N / W] rounds to: within every float that it is within. *)
Record faithful (N W : Z) (x : f64) : Prop := {
  ff_valid : valid x = true;
  ff_nonneg : nonneg x = true;
  ff_le r : valid r = true → N <= W * mag r → is_finite x = true ∧ mag x <= mag r;
  ff_ge r : valid r = true → W * mag r <= N → is_finite x = true → mag r <= mag x;
  ff_near r : valid r = true → is_finite x = true →
    Z.abs (W * mag x - N) <= Z.abs (W * mag r - N);
}.
Lemma rounded_faithful N W x e m m1 : rounded false N W x e m m1 → 0 < W → faithful N W x.
Proof.
  intros Hx HW. destruct (rounded_valid _ _ _ _ _ _ _ Hx) as (Hv & Hn & Hs). split; [done| | | |].
  - by destruct x as [[]|[]| |[] ? ?].
  - by apply (rounded_le _ _ _ _ _ _ _ Hx).
  - by apply (rounded_ge _ _ _ _ _ _ _ Hx).
  - by apply (rounded_near _ _ _ _ _ _ _ Hx).
Qed.
Lemma exact_faithful x : valid x = true → nonneg x = true → is_finite x = true → faithful (mag x) 1 x.
Proof. intros Hv Hn Hf. split; [done|done|intros r _ Hr; split; [done|lia]|intros; lia|intros; lia]. Qed.

Lemma iter_xO m d : Z.pos (Pos.iter xO m d) = Z.pos m * 2 ^ Z.pos d.
Proof.
  induction d as [|d IH] using Pos.peano_ind; [by cbn; lia|].
  rewrite Pos.iter_succ, Pos2Z.inj_xO, IH, Pos2Z.inj_succ, Z.pow_succ_r by lia. lia.
Qed.
Lemma shl_align_spec m e e' :
  let '(mz, ez) := shl_align m e e' in
  ez = Z.min e e' ∧ Z.pos mz = Z.pos m * 2 ^ (e - ez).
Proof.
  unfold shl_align. destruct (e' - e) as [|d|d] eqn:E.
  - split; [lia|]. rewrite Z.sub_diag. lia.
  - split; [lia|]. rewrite Z.sub_diag. lia.
  - split; [lia|]. rewrite iter_xO. f_equal. f_equal. lia.
Qed.
Lemma unit_of_one e : -1074 <= e → unit_of e (2 ^ (e + 1074)) 1.
Proof. intros He. exists 0. rewrite Z.add_0_r. lia. Qed.
Lemma binary_round_rounded sx m e :
  -1074 <= e → ∃ e' m' m1,
    rounded sx (Z.pos m * 2 ^ (e + 1074)) 1 (binary_round PREC EMAX sx m e) e' m' m1.
Proof.
  intros He. unfold binary_round. rewrite fexp_fe.
  change (Z.pos (digits2_pos m)) with (Zdigits2 (Z.pos m)).
  pose proof (shl_align_spec m e (fe (Zdigits2 (Z.pos m) + e))) as Hs.
  destruct (shl_align _ _ _) as [mz ez]. destruct Hs as [Hez Hmz].
  assert (-1074 <= ez) by (unfold fe in Hez; lia).
  apply (binary_round_aux_rounded sx (Z.pos mz) ez loc_Exact _ (2 ^ (ez + 1074)));
    [done|apply Z.pow_pos_nonneg; lia| | |by apply unit_of_one].
  - cbn [approx shr_record_of_loc orb]. rewrite Hmz, <-Z.mul_assoc, <-Z.pow_add_r by lia.
    f_equal. f_equal. lia.
  - rewrite Hmz, digits2_mul_pow by lia. unfold fe in *. lia.
Qed.
Lemma binary_normalize_faithful m e :
  0 <= m → -1074 <= e → faithful (m * 2 ^ (e + 1074)) 1 (binary_normalize PREC EMAX m e false).
Proof.
  intros Hm He. destruct m as [|m|m]; [|clear Hm|lia]; cbn [binary_normalize].
  - by apply (exact_faithful (S754_zero false)).
  - destruct (binary_round_rounded false m e He) as (? & ? & ? & Hr). by eapply rounded_faithful.
Qed.
Lemma binary_normalize_valid m e b :
  -1074 <= e → valid (binary_normalize PREC EMAX m e b) = true.
Proof.
  intros He. destruct m as [|m|m]; [done|..]; cbn [binary_normalize].
  - destruct (binary_round_rounded false m e He) as (? & ? & ? & Hr). apply (rounded_valid _ _ _ _ _ _ _ Hr).
  - destruct (binary_round_rounded true m e He) as (? & ? & ? & Hr). apply (rounded_valid _ _ _ _ _ _ _ Hr).
Qed.

(** The operands' common exponent. *)
Lemma align_min mx ex my ey :
  -1074 <= ex → -1074 <= ey →
  let ez := Z.min ex ey in
  Z.pos (shl_align mx ex ez).1 * 2 ^ (ez + 1074) = Z.pos mx * 2 ^ (ex + 1074) ∧
  Z.pos (shl_align my ey ez).1 * 2 ^ (ez + 1074) = Z.pos my * 2 ^ (ey + 1074).
Proof.
  intros Hx Hy ez. pose proof (shl_align_spec mx ex ez) as H1. pose proof (shl_align_spec my ey ez) as H2.
  destruct (shl_align mx ex ez) as [m1 e1], (shl_align my ey ez) as [m2 e2]. cbn [fst].
  destruct H1 as [-> ->], H2 as [-> ->]. rewrite <-!Z.mul_assoc, <-!Z.pow_add_r by lia.
  split; f_equal; f_equal; lia.
Qed.
Definition good (x : f64) : Prop := valid x = true ∧ is_finite x = true ∧ nonneg x = true.
Lemma good_cases x :
  good x → (∃ b, x = S754_zero b) ∨ ∃ m e, x = S754_finite false m e ∧ -1074 <= e.
Proof.
  intros (Hv & Hf & Hn). destruct x as [b|b| |[] m e]; try done; [left; eauto|right].
  apply bounded_spec in Hv. exists m, e. split; [done|lia].
Qed.
Lemma good_faithful x : good x → faithful (mag x) 1 x.
Proof. intros (? & ? & ?). by apply exact_faithful. Qed.

Lemma fadd_faithful x y : good x → good y → faithful (mag x + mag y) 1 (fadd x y).
Proof.
  intros Hx Hy. destruct (good_cases x Hx) as [[b ->]|(mx & ex & -> & Hex)];
    destruct (good_cases y Hy) as [[c ->]|(my & ey & -> & Hey)].
  - destruct b, c; by apply (exact_faithful (S754_zero _)).
  - by apply good_faithful.
  - rewrite Z.add_0_r. by apply good_faithful.
  - cbn [fadd SFadd cond_Zopp fadd mag]. unfold fadd, SFadd. cbn [cond_Zopp].
    destruct (align_min mx ex my ey Hex Hey) as [H1 H2]. cbv zeta in *. rewrite <-H1, <-H2, <-Z.mul_add_distr_r.
    apply binary_normalize_faithful; lia.
Qed.
(** A difference, or zero if it is negative. *)
Lemma fsub_good x y :
  good x → good y → good (fmax (fsub x y) fzero) ∧ mag (fmax (fsub x y) fzero) <= mag x.
Proof.
  intros Hx Hy. destruct (good_cases x Hx) as [[b ->]|(mx & ex & -> & Hex)];
    destruct (good_cases y Hy) as [[c ->]|(my & ey & -> & Hey)].
  - by destruct b, c.
  - done.
  - by split.
  - destruct (align_min mx ex my ey Hex Hey) as [H1 H2]. unfold fsub, SFsub. cbn [cond_Zopp]. cbv zeta in *.
    set (ez := Z.min ex ey) in *. set (m := Z.pos (shl_align mx ex ez).1 - Z.pos (shl_align my ey ez).1).
    assert (-1074 <= ez) as Hez by (unfold ez; lia). pose proof (mag_nonneg (S754_finite false mx ex)).
    destruct m as [|m'|m'] eqn:Em; cbn [binary_normalize]; [done|..].
    + pose proof (binary_normalize_faithful (Z.pos m') ez ltac:(lia) Hez) as [Hv Hn Hle _ _].
      cbn [binary_normalize] in *. set (f := binary_round PREC EMAX false m' ez) in *.
      destruct (Hle (S754_finite false mx ex)) as [Hf Hmag]; [apply Hx| |].
      { cbn [mag]. rewrite <-H1, <-Em. unfold m. pose proof (Z.pow_pos_nonneg 2 (ez + 1074)). nia. }
      assert (fmax f fzero = f) as -> by by destruct f as [[]| | |[] ? ?].
      done.
    + destruct (binary_round_rounded true m' ez Hez) as (? & ? & ? & Hr).
      destruct (rounded_valid _ _ _ _ _ _ _ Hr) as (Hv & Hnan & Hsign).
      destruct (binary_round PREC EMAX true m' ez) as [[]|[]| |[] ? ?]; done.
Qed.
Lemma zero_faithful W b : 0 < W → faithful 0 W (S754_zero b).
Proof.
  intros HW. split; [done|done| | |].
  - intros r _ _. split; [done|apply mag_nonneg].
  - intros r _ Hr _. cbn. nia.
  - intros r _ _. cbn. lia.
Qed.
Lemma mul_digits mx ex my ey :
  bounded PREC EMAX mx ex = true → bounded PREC EMAX my ey = true →
  ex + ey <= fe (Zdigits2 (Z.pos (mx * my)) + (ex + ey)).
Proof.
  intros (Hex & _ & Hx)%bounded_spec (Hey & _ & Hy)%bounded_spec. unfold fe.
  destruct (decide (2 ^ 52 <= Z.pos (mx * my))) as [Hd|Hd].
  - apply (digits2_ge _ 53) in Hd; lia.
  - assert (Z.pos mx < 2 ^ 52 ∧ Z.pos my < 2 ^ 52) as [? ?] by nia. lia.
Qed.
Lemma fmul_faithful x y :
  good x → good y → faithful (mag x * mag y) (2 ^ 1074) (fmul x y).
Proof.
  intros Hx Hy. pose proof Hx as (Hvx & _). pose proof Hy as (Hvy & _).
  destruct (good_cases x Hx) as [[b ->]|(mx & ex & -> & Hex)];
    destruct (good_cases y Hy) as [[c ->]|(my & ey & -> & Hey)];
    rewrite ?Z.mul_0_r; try by apply zero_faithful.
  unfold fmul, SFmul. cbn [xorb mag].
  destruct (binary_round_aux_rounded false (Z.pos (mx * my)) (ex + ey) loc_Exact
    (Z.pos mx * 2 ^ (ex + 1074) * (Z.pos my * 2 ^ (ey + 1074))) (2 ^ (ex + ey + 2148)) (2 ^ 1074))
    as (? & ? & ? & Hr); [done|apply Z.pow_pos_nonneg; lia| |by apply mul_digits| |].
  - cbn [approx shr_record_of_loc orb]. rewrite Pos2Z.inj_mul.
    replace (ex + ey + 2148) with (ex + 1074 + (ey + 1074)) by lia.
    rewrite (Z.pow_add_r 2 (ex + 1074)) by lia. ring.
  - exists 2148. split; [done|]. split; [lia|]. rewrite <-!Z.pow_add_r by lia. f_equal. lia.
  - by eapply rounded_faithful.
Qed.

Lemma binary_round_aux_valid sx m e l :
  0 <= m → e <= fe (Zdigits2 m + e) → valid (binary_round_aux PREC EMAX sx m e l) = true.
Proof.
  intros Hm He. set (k := Z.max 0 (- (e + 1074))).
  assert (0 < 2 ^ (e + 1074 + k)) as Hpow by (apply Z.pow_pos_nonneg; lia).
  remember (2 ^ (e + 1074 + k)) as Q eqn:HQ. set (P := Q * 4).
  destruct (binary_round_aux_rounded sx m e l
    (match l with
     | loc_Exact => m * P
     | loc_Inexact Lt => m * P + 1
     | loc_Inexact Eq => m * P + 2 * Q
     | loc_Inexact Gt => m * P + P - 1
     end) P (2 ^ k * 4)) as (? & ? & ? & Hr); [done|lia| |done| |].
  - destruct l as [|[]]; cbn [approx shr_record_of_loc orb]; lia.
  - exists k. split; [lia|]. split; [lia|]. unfold P. rewrite HQ. ring.
  - apply (rounded_valid _ _ _ _ _ _ _ Hr).
Qed.
Lemma fmul_valid x y : valid x = true → valid y = true → valid (fmul x y) = true.
Proof.
  destruct x as [| | |sx mx ex], y as [| | |sy my ey]; try done. intros Hx Hy.
  unfold fmul, SFmul. apply binary_round_aux_valid; [done|]. by apply mul_digits.
Qed.

(** The location of a quotient's remainder. *)
Lemma new_location_spec q m r Q :
  0 < m → 0 <= r < m → 0 < Q →
  approx (shr_record_of_loc q (new_location m r)) ((q * m + r) * Q) (m * Q).
Proof.
  intros Hm Hr HQ. replace (m * Q * q) with (q * m * Q) by ring.
  assert (∀ a b, (a < b → a * Q < b * Q) ∧ (a = b → a * Q = b * Q)) as Hmul.
  { intros a b. split; [intros; by apply Z.mul_lt_mono_pos_r|by intros ->]. }
  destruct (Hmul (q * m) (q * m + r)), (Hmul (q * m + r) ((q + 1) * m)),
    (Hmul (2 * (q * m + r)) ((2 * q + 1) * m)), (Hmul ((2 * q + 1) * m) (2 * (q * m + r))).
  unfold new_location, new_location_even, new_location_odd.
  destruct (Z.even m) eqn:E; destruct (Z.eqb_spec r 0) as [->|]; cbn [shr_record_of_loc approx].
  - ring.
  - destruct (Z.compare_spec (2 * r) m); cbn [shr_record_of_loc approx]; lia.
  - ring.
  - assert (2 * r ≠ m) by (intros <-; rewrite Z.even_mul in E; done).
    destruct (Z.compare_spec (2 * r + 1) m); cbn [shr_record_of_loc approx]; lia.
Qed.
Lemma div_core_spec m1 e1 m2 e2 :
  0 < m1 → 0 < m2 →
  let '(q, e, l) := SFdiv_core_binary PREC EMAX m1 e1 m2 e2 in
  0 <= q ∧ e <= fe (Zdigits2 q + e) ∧ Z.min (-1074) (e1 - e2) <= e <= e1 - e2 ∧
  ∀ Q, 0 < Q → approx (shr_record_of_loc q l) (m1 * 2 ^ (e1 - e2 - e) * Q) (m2 * Q).
Proof.
  intros H1 H2. unfold SFdiv_core_binary. rewrite fexp_fe.
  set (d1 := Zdigits2 m1). set (d2 := Zdigits2 m2).
  set (e := Z.min _ _). set (s := e1 - e2 - e).
  assert (0 <= s) as Hs by (unfold s, e; lia).
  assert (match s with Z0 => m1 | Z.pos _ => Z.shiftl m1 s | Z.neg _ => 0 end = m1 * 2 ^ s) as ->.
  { destruct s as [|s'|s'] eqn:Es; [lia|by rewrite Z.shiftl_mul_pow2|lia]. }
  pose proof (Z.div_eucl_eq (m1 * 2 ^ s) m2 ltac:(lia)) as Heq.
  pose proof (Z.mod_pos_bound (m1 * 2 ^ s) m2 H2) as Hr.
  assert (Hq : (m1 * 2 ^ s) / m2 = (Z.div_eucl (m1 * 2 ^ s) m2).1)
    by (unfold Z.div; by destruct (Z.div_eucl _ _)).
  assert (Hrem : (m1 * 2 ^ s) `mod` m2 = (Z.div_eucl (m1 * 2 ^ s) m2).2)
    by (unfold Z.modulo; by destruct (Z.div_eucl _ _)).
  destruct (Z.div_eucl (m1 * 2 ^ s) m2) as [q r]. cbn [fst snd] in Hq, Hrem. subst q. rewrite Hrem in Hr.
  assert (0 < 2 ^ s) by (by apply Z.pow_pos_nonneg).
  assert (0 <= m1 * 2 ^ s / m2) as Hq by (apply Z.div_pos; nia). split; [done|].
  assert (e <= fe (d1 + e1 - (d2 + e2))) as Hle by (unfold e; lia). split.
  2: { split; [unfold e, fe; lia|]. intros Q HQ. set (q := m1 * 2 ^ s / m2) in *.
       assert (m1 * 2 ^ (e1 - e2 - e) = q * m2 + r) as -> by (fold s; lia).
       by apply new_location_spec. }
  enough (d1 + s - d2 <= Zdigits2 (m1 * 2 ^ s / m2)) as Hd.
  { assert (s = e1 - e2 - e) as Es by done. clearbody s e. unfold fe in *. lia. }
  destruct (Z.le_gt_cases (d1 + s - d2) 0); [pose proof (digits2_nonneg _ Hq); lia|].
  apply digits2_ge; [done|lia|]. apply Z.div_le_lower_bound; [done|].
  pose proof (digits2_spec m1 H1) as [Hl _]. pose proof (digits2_spec m2 H2) as [_ Hu].
  fold d1 in Hl. fold d2 in Hu. assert (1 <= d1 ∧ 1 <= d2) as [? ?].
  { split; (apply digits2_ge; [lia|lia|change (2 ^ (1 - 1)) with 1; lia]). }
  apply (Z.le_trans _ (2 ^ d2 * 2 ^ (d1 + s - d2 - 1))); [pose proof (Z.pow_pos_nonneg 2 (d1 + s - d2 - 1)); nia|].
  rewrite <-Z.pow_add_r by lia. replace (d2 + (d1 + s - d2 - 1)) with (d1 - 1 + s) by lia.
  rewrite Z.pow_add_r by lia. nia.
Qed.
Lemma fdiv_valid x y : valid (fdiv x y) = true.
Proof.
  destruct x as [| | |sx mx ex], y as [| | |sy my ey]; try done.
  unfold fdiv, SFdiv. pose proof (div_core_spec (Z.pos mx) ex (Z.pos my) ey eq_refl eq_refl) as Hd.
  destruct (SFdiv_core_binary _ _ _ _ _ _) as [[q e] l]. destruct Hd as (? & ? & _).
  by apply binary_round_aux_valid.
Qed.
Lemma fdiv_faithful x y :
  good x → good y → 0 < mag y → faithful (mag x * 2 ^ 1074) (mag y) (fdiv x y).
Proof.
  intros Hx Hy Hpos. destruct (good_cases y Hy) as [[c ->]|(my & ey & -> & Hey)]; [done|].
  destruct (good_cases x Hx) as [[b ->]|(mx & ex & -> & Hex)]; [by apply zero_faithful|].
  unfold fdiv, SFdiv. cbn [xorb mag].
  pose proof (div_core_spec (Z.pos mx) ex (Z.pos my) ey eq_refl eq_refl) as Hd.
  destruct (SFdiv_core_binary _ _ _ _ _ _) as [[q e] l]. destruct Hd as (Hq & Hdig & He & Ha).
  destruct (binary_round_aux_rounded false q e l (Z.pos mx * 2 ^ (ex + 1074) * 2 ^ 1074)
    (Z.pos my * 2 ^ (ey + e + 2148)) (Z.pos my * 2 ^ (ey + 1074))) as (? & ? & ? & Hr); [done| | |done| |].
  - pose proof (Z.pow_pos_nonneg 2 (ey + e + 2148)). nia.
  - replace (Z.pos mx * 2 ^ (ex + 1074) * 2 ^ 1074)
      with (Z.pos mx * 2 ^ (ex - ey - e) * 2 ^ (ey + e + 2148)).
    { apply Ha, Z.pow_pos_nonneg; lia. }
    rewrite <-!Z.mul_assoc. rewrite <-(Z.pow_add_r 2 (ex - ey - e)), <-(Z.pow_add_r 2 (ex + 1074)) by lia. f_equal. f_equal. lia.
  - exists (Z.abs e + 2148). split; [lia|]. split; [lia|]. rewrite <-!Z.mul_assoc, <-!Z.pow_add_r by lia.
    f_equal. f_equal. lia.
  - eapply rounded_faithful; [done|exact Hpos].
Qed.

(** ** Order *)
Lemma finite_mag_lt mx ex my ey :
  bounded PREC EMAX mx ex = true → bounded PREC EMAX my ey = true → ex < ey →
  Z.pos mx * 2 ^ (ex + 1074) < Z.pos my * 2 ^ (ey + 1074).
Proof.
  intros (Hex & Hx & _)%bounded_spec (Hey & _ & [->|Hy])%bounded_spec Hlt; [lia|].
  replace (ey + 1074) with (ey - ex - 1 + (1 + (ex + 1074))) by lia.
  rewrite !(Z.pow_add_r 2 (ey - ex - 1)), !(Z.pow_add_r 2 1) by lia.
  assert (1 <= 2 ^ (ey - ex - 1)) as HA by (pose proof (Z.pow_pos_nonneg 2 (ey - ex - 1)); lia).
  assert (0 < 2 ^ (ex + 1074)) as HB by (apply Z.pow_pos_nonneg; lia).
  set (A := 2 ^ (ey - ex - 1)) in *. set (B := 2 ^ (ex + 1074)) in *.
  replace (Z.pos my * (A * (2 ^ 1 * B))) with (Z.pos my * 2 * A * B) by ring.
  apply Z.mul_lt_mono_pos_r; [done|]. nia.
Qed.
Lemma fle_mag x y : good x → good y → fle x y = true ↔ mag x <= mag y.
Proof.
  intros Hx Hy. pose proof Hx as (Hvx & _). pose proof Hy as (Hvy & _).
  assert (∀ m e, -1074 <= e → 0 < mag (S754_finite false m e)) as Hpos.
  { intros m e He. cbn. pose proof (Z.pow_pos_nonneg 2 (e + 1074)). nia. }
  destruct (good_cases x Hx) as [[b ->]|(mx & ex & -> & Hex)];
    destruct (good_cases y Hy) as [[c ->]|(my & ey & -> & Hey)].
  - done.
  - split; [|done]. intros _. pose proof (Hpos my ey Hey). cbn in *. lia.
  - split; [done|]. pose proof (Hpos mx ex Hex). intros Hle. exfalso. cbn in *. lia.
  - unfold fle, SFleb, SFcompare. cbn [mag]. destruct (Z.compare_spec ex ey) as [->|Hlt|Hgt].
    + change (PosDef.Pos.compare_cont Eq mx my) with (Pos.compare mx my).
      pose proof (Z.pow_pos_nonneg 2 (ey + 1074)).
      destruct (Pos.compare_spec mx my) as [->|?|?]; (split; [intros|]); try done; try nia.
    + split; [|done]. intros _. by apply Z.lt_le_incl, finite_mag_lt.
    + split; [done|]. pose proof (finite_mag_lt my ey mx ex Hvy Hvx Hgt). intros Hle. exfalso. lia.
Qed.
Lemma in_range_good hi x :
  good hi → valid x = true → in_range fzero hi x = true ↔ good x ∧ mag x <= mag hi.
Proof.
  intros Hhi Hv. unfold in_range. rewrite andb_true_iff, <-nonneg_fle. split.
  - intros [Hn Hle]. assert (good x) as Hx.
    { split; [done|]. split; [|done]. destruct Hhi as (_ & Hf & Hnh).
      destruct x as [|[]| |[] ? ?]; try done. by destruct hi as [|[]| |[] ? ?]. }
    split; [done|]. by apply fle_mag.
  - intros [Hx Hle]. split; [apply Hx|]. by apply fle_mag.
Qed.
Lemma faithful_good N W x r :
  faithful N W x → valid r = true → N <= W * mag r → good x ∧ mag x <= mag r.
Proof. intros [Hv Hn Hle _ _] Hr HN. by destruct (Hle r Hr HN). Qed.
Lemma good_zero : good fzero.
Proof. done. Qed.
(** Rounding keeps order. *)
Lemma faithful_mono N1 N2 W x1 x2 :
  faithful N1 W x1 → faithful N2 W x2 → is_finite x1 = true → is_finite x2 = true →
  N1 < N2 → mag x1 <= mag x2.
Proof.
  intros [V1 _ Hle _ N1r] [V2 _ _ Hge N2r] F1 F2 HN. apply Z.nlt_ge. intros Hlt.
  specialize (N1r x2 V2 F1). specialize (N2r x1 V1 F2).
  assert (W * mag x2 < N1) as H1.
  { apply Z.nle_gt. intros HN1. destruct (Hle x2 V2 HN1). lia. }
  assert (N2 < W * mag x1) as H2.
  { apply Z.nle_gt. intros HN2. pose proof (Hge x1 V1 HN2 F2). lia. }
  lia.
Qed.
Lemma faithful_zero W x : faithful 0 W x → mag x = 0.
Proof.
  intros [_ _ Hle _ _]. destruct (Hle fzero eq_refl) as [_ Hz]; [cbn; lia|].
  pose proof (mag_nonneg x). cbn in Hz. lia.
Qed.
Lemma SFcompare_antisym x y :
  good x → good y → SFcompare y x = CompOpp <$> SFcompare x y.
Proof.
  intros Hx Hy. destruct (good_cases x Hx) as [[b ->]|(mx & ex & -> & _)];
    destruct (good_cases y Hy) as [[c ->]|(my & ey & -> & _)]; try done.
  cbn. rewrite Z.compare_antisym. destruct (ex ?= ey) eqn:E; cbn; try done. f_equal.
  change (PosDef.Pos.compare_cont Eq my mx) with (Pos.compare my mx).
  change (PosDef.Pos.compare_cont Eq mx my) with (Pos.compare mx my). apply Pos.compare_antisym.
Qed.
Lemma flt_mag x y : good x → good y → flt x y = true ↔ mag x < mag y.
Proof.
  intros Hx Hy. pose proof (fle_mag y x Hy Hx) as Hle. pose proof (SFcompare_antisym x y Hx Hy) as Ha.
  assert (flt x y = negb (fle y x)) as ->.
  { unfold flt, fle, SFltb, SFleb. rewrite Ha.
    assert (SFcompare x y ≠ None) as Hn.
    { destruct (good_cases x Hx) as [[b ->]|(mx & ex & -> & _)];
        destruct (good_cases y Hy) as [[c ->]|(my & ey & -> & _)]; cbn; by try case_match. }
    by destruct (SFcompare x y) as [[]|]. }
  rewrite negb_true_iff, <-not_true_iff_false, Hle. lia.
Qed.
(** A float that is not zero has one representation. *)
Lemma good_mag_inj x y : good x → good y → mag x = mag y → mag x ≠ 0 → x = y.
Proof.
  intros Hx Hy He Hz. pose proof Hx as (Vx & _). pose proof Hy as (Vy & _).
  destruct (good_cases x Hx) as [[b ->]|(mx & ex & -> & Hex)]; [done|].
  destruct (good_cases y Hy) as [[c ->]|(my & ey & -> & Hey)]; [by rewrite He in Hz|].
  pose proof (finite_mag_lt mx ex my ey Vx Vy). pose proof (finite_mag_lt my ey mx ex Vy Vx).
  cbn [mag] in He. assert (ex = ey) as -> by lia. f_equal.
  apply Z.mul_reg_r in He; [by injection He|]. pose proof (Z.pow_pos_nonneg 2 (ey + 1074)). lia.
Qed.
(** A float over one is over all that it is over. *)
Lemma flt_trans_good a x u :
  good a → good x → valid u = true → mag a <= mag x → flt x u = true → flt a u = true.
Proof.
  intros Ha Hx Hu Hle Hlt. destruct (is_finite u && nonneg u) eqn:E.
  - apply andb_true_iff in E as [? ?]. assert (good u) by done.
    apply flt_mag in Hlt; [|done..]. apply flt_mag; [done..|lia].
  - destruct (good_cases a Ha) as [[b ->]|(ma & ea & -> & _)];
      destruct (good_cases x Hx) as [[c ->]|(mx & ex & -> & _)]; by destruct u as [|[]| |[] ? ?].
Qed.

(** ** Unsigned integers *)
Lemma representable n : 0 <= n < 2 ^ 53 → ∃ r, good r ∧ mag r = n * 2 ^ 1074.
Proof.
  intros Hn. destruct n as [|n|n]; [by exists fzero| |lia].
  set (d := Zdigits2 (Z.pos n)). pose proof (digits2_spec (Z.pos n) eq_refl) as Hd. fold d in Hd.
  assert (1 <= d <= 53) as Hd53.
  { split; [apply digits2_ge; cbn; lia|apply digits2_lt; lia]. }
  exists (S754_finite false (n * Z.to_pos (2 ^ (53 - d))) (d - 53)).
  assert (Z.pos (n * Z.to_pos (2 ^ (53 - d))) = Z.pos n * 2 ^ (53 - d)) as Em.
  { rewrite Pos2Z.inj_mul, Z2Pos.id; [done|]. apply Z.pow_pos_nonneg; lia. }
  cbn [mag]. rewrite Em, <-Z.mul_assoc, <-Z.pow_add_r by lia.
  split; [|f_equal; f_equal; lia]. split; [|done]. apply bounded_spec. rewrite Em.
  assert (2 ^ (d - 1) * 2 ^ (53 - d) = 2 ^ 52) as E1 by (rewrite <-Z.pow_add_r by lia; f_equal; lia).
  assert (2 ^ d * 2 ^ (53 - d) = 2 ^ 53) as E2 by (rewrite <-Z.pow_add_r by lia; f_equal; lia).
  assert (0 < 2 ^ (53 - d)) by (apply Z.pow_pos_nonneg; lia). split; [lia|]. nia.
Qed.
Lemma f64_of_u64_faithful n : 0 <= n → faithful (n * 2 ^ 1074) 1 (f64_of_u64 n).
Proof. intros Hn. by apply (binary_normalize_faithful n 0). Qed.
Lemma f64_of_u64_good n : is_u64 n → good (f64_of_u64 n).
Proof.
  intros Hn. assert (0 <= n) as H0 by u64_lia. eapply (faithful_good _ 1).
  - by apply f64_of_u64_faithful.
  - apply (binary_normalize_valid (2 ^ 64) 0 false). lia.
  - assert (mag (f64_of_u64 (2 ^ 64)) = 2 ^ 64 * 2 ^ 1074) as E by (vm_compute; reflexivity).
    change (binary_normalize PREC EMAX (2 ^ 64) 0 false) with (f64_of_u64 (2 ^ 64)). rewrite E.
    u64_unfold. pose proof (Z.pow_pos_nonneg 2 1074). nia.
Qed.
(** Up to [2 ^ 53], which are exact, order is kept. *)
Lemma f64_of_u64_exact n : 0 <= n < 2 ^ 53 → mag (f64_of_u64 n) = n * 2 ^ 1074.
Proof.
  intros Hn. destruct (representable n Hn) as (r & (Hv & _) & Er).
  destruct (f64_of_u64_faithful n ltac:(lia)) as [_ _ Hle Hge _].
  destruct (Hle r Hv) as [Hf H1]; [lia|]. pose proof (Hge r Hv ltac:(lia) Hf). lia.
Qed.
Lemma f64_of_u64_ge n k : 0 <= n < 2 ^ 53 → n <= k → is_u64 k → n * 2 ^ 1074 <= mag (f64_of_u64 k).
Proof.
  intros Hn Hk Hu. destruct (representable n Hn) as (r & (Hv & _) & Er).
  destruct (f64_of_u64_faithful k ltac:(lia)) as [_ _ _ Hge _].
  rewrite <-Er. apply Hge; [done| |apply f64_of_u64_good, Hu].
  rewrite Er. pose proof (Z.pow_pos_nonneg 2 1074). nia.
Qed.

Lemma f64_of_u64_mono n k : is_u64 n → is_u64 k → n <= k → mag (f64_of_u64 n) <= mag (f64_of_u64 k).
Proof.
  intros Hn Hk Hle. destruct (decide (n = k)) as [->|Hne]; [done|].
  pose proof (Z.pow_pos_nonneg 2 1074). pose proof (f64_of_u64_good n Hn) as (_ & Fn & _).
  pose proof (f64_of_u64_good k Hk) as (_ & Fk & _).
  eapply (faithful_mono (n * 2 ^ 1074) (k * 2 ^ 1074) 1);
    [apply f64_of_u64_faithful; u64_lia|apply f64_of_u64_faithful; u64_lia|done|done|nia].
Qed.

(** [f64::round], of what is no more than a myriad. *)
Lemma round_mag_spec m e :
  -1074 <= e → round_mag m e = (mag (S754_finite false m e) + 2 ^ 1073) / 2 ^ 1074.
Proof.
  intros He. unfold round_mag. cbn [mag]. destruct (Z.leb_spec 0 e) as [H0|H0].
  - rewrite Z.shiftl_mul_pow2, (Z.pow_add_r 2 e 1074), Z.mul_assoc by lia.
    rewrite Z.div_add_l by (apply Z.pow_nonzero; lia).
    change (2 ^ 1073 / 2 ^ 1074) with 0. lia.
  - rewrite Z.shiftr_div_pow2, Z.shiftl_mul_pow2, Z.mul_1_l by lia.
    replace (2 ^ 1073) with (2 ^ (- e - 1) * 2 ^ (e + 1074)) by (rewrite <-Z.pow_add_r by lia; f_equal; lia).
    replace (2 ^ 1074) with (2 ^ (- e) * 2 ^ (e + 1074)) by (rewrite <-Z.pow_add_r by lia; f_equal; lia).
    rewrite <-Z.mul_add_distr_r, Z.div_mul_cancel_r; [done|apply Z.pow_nonzero; lia..].
Qed.
(** The integer nearest, halves up. *)
Definition nearest (x : f64) : Z := (mag x + 2 ^ 1073) / 2 ^ 1074.
Lemma fround_spec x :
  good x → mag x <= mag (f64_of_u64 10000) →
  good (fround x) ∧ mag (fround x) = nearest x * 2 ^ 1074 ∧ 0 <= nearest x <= 10000.
Proof.
  intros Hx Hle. assert (mag (f64_of_u64 10000) = 10000 * 2 ^ 1074) as E by (vm_compute; reflexivity).
  rewrite E in Hle. pose proof (mag_nonneg x).
  assert (0 <= nearest x <= 10000) as Hn.
  { unfold nearest. pose proof (Z.pow_pos_nonneg 2 1073 ltac:(lia) ltac:(lia)).
    assert (2 ^ 1074 = 2 * 2 ^ 1073) as E2 by (rewrite <-(Z.pow_succ_r 2 1073) by lia; done).
    split; [apply Z.div_pos; lia|]. apply Z.lt_succ_r, Z.div_lt_upper_bound; lia. }
  split_and!; [| |lia|lia]; destruct (good_cases x Hx) as [[b ->]|(m & e & -> & He)].
  - done.
  - cbn [fround]. rewrite (round_mag_spec m e He). fold (nearest (S754_finite false m e)).
    destruct (nearest _) as [|p|p]; [done| |lia].
    change (binary_normalize PREC EMAX (Z.pos p) 0 false) with (f64_of_u64 (Z.pos p)).
    apply f64_of_u64_good. u64_lia.
  - vm_compute. reflexivity.
  - cbn [fround]. rewrite (round_mag_spec m e He). fold (nearest (S754_finite false m e)).
    destruct (nearest _) as [|p|p]; [done| |lia].
    change (binary_normalize PREC EMAX (Z.pos p) 0 false) with (f64_of_u64 (Z.pos p)).
    apply f64_of_u64_exact. lia.
Qed.

(** Past [2 ^ 60] the floats are more than two hundred apart, so adding a
    hundred at a time never gets further. *)
Definition saturation : f64 := f64_of_u64 (2 ^ 60).
Lemma mag_saturation : mag saturation = 2 ^ 60 * 2 ^ 1074.
Proof. vm_compute. reflexivity. Qed.
Lemma fadd_saturates x y :
  good x → good y → mag x <= mag saturation → mag y <= 100 * 2 ^ 1074 →
  good (fadd x y) ∧ mag (fadd x y) <= mag saturation.
Proof.
  intros Hx Hy Hmx Hmy. pose proof (fadd_faithful x y Hx Hy) as [Hv Hn Hle _ Hnear].
  assert (valid saturation = true) as Hvs by (vm_compute; reflexivity).
  assert (is_finite (fadd x y) = true) as Hf.
  { destruct (Hle (f64_of_u64 (2 ^ 61))) as [? _]; [vm_compute; reflexivity| |done].
    assert (mag (f64_of_u64 (2 ^ 61)) = 2 ^ 61 * 2 ^ 1074) as -> by (vm_compute; reflexivity).
    rewrite mag_saturation in Hmx. lia. }
  split; [done|]. destruct (Z.le_gt_cases (mag x + mag y) (mag saturation)) as [HN|HN].
  { apply Hle; [done|lia]. }
  specialize (Hnear saturation Hvs Hf).
  pose proof (mag_grid (fadd x y) 8 (2 ^ 52) Hv ltac:(lia) ltac:(lia) ltac:(lia)) as Hgrid.
  cbv zeta in Hgrid. change (8 + 1074) with (1074 + 8) in Hgrid. rewrite Z.pow_add_r in Hgrid by lia.
  rewrite mag_saturation in *. assert (0 < 2 ^ 1074) as HU by by apply Z.pow_pos_nonneg.
  revert Hgrid Hnear HN Hmx Hmy HU. generalize (2 ^ 1074), (mag (fadd x y)), (mag x), (mag y).
  intros U z a b Hgrid Hnear HN Ha Hb HU. destruct Hgrid as [(k & Hk & ->)|?]; [|lia].
  assert (k < 2 ^ 52 + 1) by (change (2 ^ 8) with 256 in *; nia). nia.
Qed.

(** ** Parsed numbers *)
Lemma SFopp_valid x : valid (SFopp x) = valid x.
Proof. by destruct x. Qed.
Lemma f64_ratio_valid m d : valid (f64_ratio m d) = true.
Proof.
  unfold f64_ratio. pose proof (div_core_spec (Z.pos m) 0 (Z.pos d) 0 eq_refl eq_refl) as Hd.
  destruct (SFdiv_core_binary _ _ _ _ _ _) as [[q e] l]. destruct Hd as (? & ? & _). by apply binary_round_aux_valid.
Qed.
Lemma f64_scaled_valid m x : valid (f64_scaled m x) = true.
Proof.
  destruct m as [|m|m]; [done| |done]. cbn [f64_scaled].
  destruct x; [by apply binary_normalize_valid..|apply f64_ratio_valid].
Qed.
Lemma parse_magnitude_valid s x : parse_magnitude s = Some x → valid x = true.
Proof.
  unfold parse_magnitude. destruct (_ || _); [by intros [= <-]|].
  case_bool_decide; [by intros [= <-]|]. destruct (scan_digits 0 0 s) as [[m n] r].
  destruct (match r with String _ _ => _ | EmptyString => _ end) as [[m' k] r'].
  destruct (n + k =? 0); [done|]. intros (e & _ & ->)%fmap_Some. apply f64_scaled_valid.
Qed.
Lemma parse_f64_valid s x : parse_f64 s = Some x → valid x = true.
Proof.
  unfold parse_f64. destruct (scan_sign s) as [negative r].
  intros (y & Hy%parse_magnitude_valid & ->)%fmap_Some. destruct negative; [by rewrite SFopp_valid|done].
Qed.
