(* ===== verification/Headers.v ===== *)
(** * HTTP header maps

    What the gateway and the proxy use of the crate [http]: a multimap from
    lower-case names to values, behind an interface.  [HeaderMap] has its
    operations, [HeaderMapLaws] the documented behaviour the theorems rely
    on; an association list is the instance the witnesses compute with. *)
From S2P Require Import Prelude.

Class HeaderMap (H : Type) := {
  hm_new : H;
  (** [iter], and [get_all] with its values in order. *)
  hm_iter : H → list (string * string);
  hm_get_all : string → H → list string;
  hm_insert : string → string → H → H;
  (** [FromIterator], which appends. *)
  hm_from_iter : list (string * string) → H;
  (** [HeaderName::from_bytes] and [try_from], [HeaderValue::from_str] and
      [to_str]. *)
  hm_name : string → option string;
  hm_value : string → option string;
  hm_to_str : string → option string;
}.

Definition values_of (name : string) (l : list (string * string)) : list string :=
  omap (λ '(n, v), if bool_decide (n = name) then Some v else None) l.

Class HeaderMapLaws (H : Type) `{HeaderMap H} := {
  hm_new_get n : hm_get_all n hm_new = [];
  hm_iter_get n h : hm_get_all n h = values_of n (hm_iter h);
  hm_insert_get n v h : hm_get_all n (hm_insert n v h) = [v];
  hm_insert_get_ne n m v h : n ≠ m → hm_get_all m (hm_insert n v h) = hm_get_all m h;
  hm_from_iter_get n l : hm_get_all n (hm_from_iter l) = values_of n l;
  (** A parsed value reads back as the string it was parsed from. *)
  hm_value_to_str s v : hm_value s = Some v → hm_to_str v = Some s;
}.

Section derived.
Context `{HeaderMap H}.
Definition hm_get (n : string) (h : H) : option string := head (hm_get_all n h).
Definition hm_contains (n : string) (h : H) : bool :=
  match hm_get_all n h with [] => false | _ => true end.
End derived.

Lemma hm_contains_get `{HeaderMap H} n (h : H) :
  hm_contains n h = true ↔ is_Some (hm_get n h).
Proof.
  unfold hm_contains, hm_get. destruct (hm_get_all n h); cbn; [|by split].
  split; [done|by intros []].
Qed.
Lemma values_of_app n l k : values_of n (l ++ k) = values_of n l ++ values_of n k.
Proof. apply omap_app. Qed.
Lemma elem_of_values_of n v l : v ∈ values_of n l ↔ (n, v) ∈ l.
Proof.
  unfold values_of. rewrite list_elem_of_omap. split.
  - intros ([m w] & Hin & Hv). case_bool_decide; [|done]. by simplify_eq.
  - intros Hin. exists (n, v). by rewrite bool_decide_eq_true_2.
Qed.

(** ** An instance *)
Definition printable (c : ascii) : bool :=
  (32 <=? byte_of c)%Z && (byte_of c <? 127)%Z || (byte_of c =? 9)%Z.
Definition valid_value (s : string) : option string :=
  if string_forallb printable s then Some s else None.
Definition header_map : HeaderMap (list (string * string)) := {|
  hm_new := [];
  hm_iter h := h;
  hm_get_all := values_of;
  hm_insert n v h := filter (λ '(m, _), m ≠ n) h ++ [(n, v)];
  hm_from_iter l := l;
  hm_name s := if is_empty s then None else Some (to_ascii_lowercase s);
  hm_value := valid_value;
  hm_to_str := valid_value;
|}.
Lemma header_map_laws : @HeaderMapLaws _ header_map.
Proof.
  split; cbn [header_map hm_get_all hm_insert hm_iter hm_new hm_from_iter hm_value hm_to_str];
    try done.
  - intros n v h. rewrite values_of_app. cbn. rewrite bool_decide_eq_true_2 by done.
    enough (values_of n (filter (λ '(m, _), m ≠ n) h) = []) as -> by done.
    induction h as [|[m w] h IH]; [done|]. rewrite filter_cons. case_decide; [|done].
    cbn. by rewrite bool_decide_eq_false_2.
  - intros n m v h Hne. rewrite values_of_app.
    replace (values_of m [(n, v)]) with (@nil string)
      by (cbn; by rewrite bool_decide_eq_false_2).
    rewrite app_nil_r. unfold values_of.
    induction h as [|[k w] h IH]; [done|]. rewrite filter_cons. case_decide as Hk;
      cbn [omap list_omap]; rewrite IH; [done|].
    rewrite bool_decide_eq_false_2; [done|]. congruence.
  - unfold valid_value. intros s v. destruct (string_forallb printable s) eqn:E; [|done].
    intros [= <-]. by rewrite E.
Qed.
