(* ===== verification/Files.v ===== *)
(** * Files

    What the gateway and the agent do to a directory: programs of file system
    calls, any of which may fail, that may stop between any two of them.
    What a file holds is durable once the file is synced, and what a name is
    of once its directory is: until then a crash may bring back what the name
    was of before, each on its own. An unsynced file holds anything after a
    crash. A name is a full path, and [rename], of files, is atomic. *)
From S2P Require Import Prelude.
Local Open Scope Z_scope.

(** What [symlink_metadata] tells of a path. *)
Inductive FileType := Regular | Dir | Socket | Symlink | OtherFile.
#[export] Instance FileType_eq_dec : EqDecision FileType.
Proof. solve_decision. Defined.
Record Metadata := mkMetadata { md_type : FileType; md_uid : Z; md_mode : Z }.
Definition mode_has (m : Metadata) (bits : Z) : bool := negb (Z.land (md_mode m) bits =? 0).
Definition is_file (m : Metadata) : bool := bool_decide (md_type m = Regular).
Definition is_dir (m : Metadata) : bool := bool_decide (md_type m = Dir).
Definition is_symlink (m : Metadata) : bool := bool_decide (md_type m = Symlink).
Definition is_socket (m : Metadata) : bool := bool_decide (md_type m = Socket).

(** An entry of the file system; only a regular file holds data. *)
Record File := mkFile { f_data : string; f_synced : bool; f_meta : Metadata }.
(** [live] is what a process finds under a name, and [past] what was there,
    or that nothing was, at the changes of that name which its directory has
    not been synced since: a crash may bring any of them back. *)
Record Disk := mkDisk { live : gmap string File; past : string → list (option File) }.
#[export] Instance Disk_lookup : Lookup string File Disk := λ p d, live d !! p.
(** A disk with nothing left to sync in its directories. *)
Definition settled (files : gmap string File) : Disk := mkDisk files (λ _, []).

(** [p] is [dir] or below it, and right in it. *)
Definition under (dir p : string) : bool :=
  bool_decide (p = dir) || starts_with (dir +:+ "/") p.
Definition in_dir (dir p : string) : bool :=
  is_some_and (strip_prefix (dir +:+ "/") p) (λ name, negb (contains_char "/" name)).

Inductive op :=
| Access (path : string)
| Create (path : string) (m : Metadata)
| CreateNew (path : string) (m : Metadata)
| CreateDir (path : string) (m : Metadata)
| Write (path data : string)
| Sync (path : string)
| SetMode (path : string) (mode : Z)
| Rename (source target : string)
| Remove (path : string)
| RemoveTree (path : string)
| Put (path : string) (f : File)
| SyncDir (dir : string).

(** A change of the file under a name, and of which file, if any, the name
    is of. *)
Definition edit (p : string) (f : File) (d : Disk) : Disk := mkDisk (<[p := f]> (live d)) (past d).
Definition relink (p : string) (o : option File) (d : Disk) : Disk :=
  mkDisk (partial_alter (λ _, o) p (live d))
    (λ q, if bool_decide (q = p) then d !! p :: past d p else past d q).
(** The file a rename moves, for a crash that brings its old name back: what
    is done to it later may be found there. *)
Definition moved (f : File) : File := mkFile (f_data f) false (f_meta f).

(** The disk after a call that succeeds; [None] where it cannot. [Access] is
    any call that only looks, [Create] opens a file there is and truncates
    it, and [Put] is what another program leaves. *)
Definition perform (o : op) (d : Disk) : option Disk :=
  match o with
  | Access p => (λ _, d) <$> d !! p
  | Create p m =>
      match d !! p with
      | Some f =>
          if is_file (f_meta f) then Some (edit p (mkFile EmptyString false (f_meta f)) d) else None
      | None => Some (relink p (Some (mkFile EmptyString false m)) d)
      end
  | CreateNew p m | CreateDir p m =>
      match d !! p with
      | Some _ => None
      | None => Some (relink p (Some (mkFile EmptyString false m)) d)
      end
  | Write p s => (λ f, edit p (mkFile (f_data f +:+ s) false (f_meta f)) d) <$> d !! p
  | Sync p => (λ f, edit p (mkFile (f_data f) true (f_meta f)) d) <$> d !! p
  | SetMode p mode =>
      (λ f, edit p (mkFile (f_data f) (f_synced f)
                      (mkMetadata (md_type (f_meta f)) (md_uid (f_meta f)) mode)) d) <$> d !! p
  | Rename p q =>
      (λ f, relink q (Some f) (relink p None (edit p (moved f) d))) <$> d !! p
  | Remove p => (λ _, relink p None d) <$> d !! p
  | RemoveTree p =>
      (λ _, mkDisk (filter (λ '(q, _), under p q = false) (live d))
              (λ q, if under p q then d !! q :: past d q else past d q)) <$> d !! p
  | Put p f => Some (relink p (Some f) d)
  | SyncDir dir => Some (mkDisk (live d) (λ q, if in_dir dir q then [] else past d q))
  end.

(** What a call may do: succeed, fail with no effect, or fail having written
    part of the data or removed part of a tree. *)
Inductive attempt : op → Disk → Disk → bool → Prop :=
| attempt_ok o d d' : perform o d = Some d' → attempt o d d' true
| attempt_fail o d : attempt o d d false
| attempt_part p s s' r f d : d !! p = Some f → s = s' +:+ r →
    attempt (Write p s) d (edit p (mkFile (f_data f +:+ s') false (f_meta f)) d) false
| attempt_tree p d d' :
    (∀ q, (d' !! q = d !! q ∧ past d' q = past d q) ∨
          (under p q = true ∧ d' !! q = None ∧ past d' q = d !! q :: past d q)) →
    attempt (RemoveTree p) d d' false.

(** A program: [Look] reads the disk, [Do] makes a call and goes on with
    whether it succeeded, [Stop] returns whether the program did. *)
Inductive prog :=
| Look (k : Disk → prog)
| Do (o : op) (k : bool → prog)
| Stop (ok : bool).

(** The disks a program may leave where it is stopped. *)
Inductive visits : prog → Disk → Disk → Prop :=
| visits_now p d : visits p d d
| visits_look k d d' : visits (k d) d d' → visits (Look k) d d'
| visits_do o k d d1 b d2 : attempt o d d1 b → visits (k b) d1 d2 → visits (Do o k) d d2.
(** Those it leaves when it returns, with what it returns. *)
Inductive returns : prog → Disk → Disk → bool → Prop :=
| returns_stop b d : returns (Stop b) d d b
| returns_look k d d' b : returns (k d) d d' b → returns (Look k) d d' b
| returns_do o k d d1 b d2 b' :
    attempt o d d1 b → returns (k b) d1 d2 b' → returns (Do o k) d d2 b'.

(** The run in which every call that can succeed does. *)
Fixpoint exec (p : prog) (d : Disk) : Disk * bool :=
  match p with
  | Look k => exec (k d) d
  | Do o k =>
      match perform o d with
      | Some d' => exec (k true) d'
      | None => exec (k false) d
      end
  | Stop b => (d, b)
  end.

(** The [?] operator on a call, and one program after another. *)
Definition call (o : op) (k : prog) : prog := Do o (λ b, if b then k else Stop false).
Fixpoint and_then (p : prog) (k : bool → prog) : prog :=
  match p with
  | Look f => Look (λ d, and_then (f d) k)
  | Do o f => Do o (λ b, and_then (f b) k)
  | Stop b => k b
  end.

(** The [?] operator on what a program returns. *)
Definition tried (p k : prog) : prog := and_then p (λ b, if b then k else Stop false).
(** [symlink_metadata] of a path, and reading a file there is; a call on what
    is there may fail, with an error other than [NotFound]. [stat_ok] is of
    an [if let Ok]. *)
Definition stat (p : string) (k : option Metadata → prog) : prog :=
  Look (λ d, match d !! p with
             | Some f => call (Access p) (k (Some (f_meta f)))
             | None => k None
             end).
Definition stat_ok (p : string) (k : option Metadata → prog) : prog :=
  Look (λ d, match d !! p with
             | Some f => Do (Access p) (λ b, k (if b then Some (f_meta f) else None))
             | None => k None
             end).
Definition read (p : string) (k : string → prog) : prog :=
  Look (λ d, match d !! p with
             | Some f => call (Access p) (k (f_data f))
             | None => Stop false
             end).

(** ** Crashes

    A name is of what it is of, or was of since its directory was last
    synced, and a file synced then holds what it held; an unsynced one holds
    anything. Where a crash may lose a directory above, nothing may be left. *)
Definition possible (d : Disk) (p : string) : list (option File) := d !! p :: past d p.
Definition survives (o : option File) (c : option string) : Prop :=
  match o with
  | Some f => ∃ data, c = Some data ∧ (f_synced f = true → data = f_data f)
  | None => c = None
  end.
Definition above (dir p : string) : Prop := under dir p = true ∧ dir ≠ p.
Definition after_crash (d : Disk) (p : string) (c : option string) : Prop :=
  (∃ o, o ∈ possible d p ∧ survives o c) ∨
  (c = None ∧ ∃ dir, above dir p ∧ past d dir ≠ []).
(** What a reader finds at a path. *)
Definition contents (d : Disk) (p : string) : option string := f_data <$> d !! p.
Definition crash (d d' : Disk) : Prop := ∀ p, after_crash d p (contents d' p).

Lemma returns_visits p d d' b : returns p d d' b → visits p d d'.
Proof. induction 1; [constructor|by constructor|by econstructor]. Qed.
Lemma exec_returns p d : returns p d (exec p d).1 (exec p d).2.
Proof.
  revert d. induction p as [k IH|o k IH|b]; intros d; cbn [exec].
  - constructor. apply IH.
  - destruct (perform o d) as [d'|] eqn:E.
    + eapply returns_do; [by apply attempt_ok|apply IH].
    + eapply returns_do; [apply attempt_fail|apply IH].
  - constructor.
Qed.
Lemma attempt_true o d d' : attempt o d d' true → perform o d = Some d'.
Proof. by inversion 1. Qed.

(** ** A logic of programs that may stop

    From [d], every disk that [p] leaves on its way satisfies [I], and those
    it leaves when it returns [b] satisfy [Q b]. *)
Definition runs (I : Disk → Prop) (p : prog) (Q : bool → Disk → Prop)
    (d : Disk) : Prop :=
  (∀ d', visits p d d' → I d') ∧ ∀ d' b, returns p d d' b → Q b d'.

Section rules.
Context {I : Disk → Prop} {Q : bool → Disk → Prop}.
Lemma runs_stop b d : I d → Q b d → runs I (Stop b) Q d.
Proof.
  intros Hi Hq. split; [by inversion 1; subst|]. intros d' b'. by inversion 1; subst.
Qed.
Lemma runs_look k d : runs I (k d) Q d → runs I (Look k) Q d.
Proof.
  intros [Hv Hr]. split.
  - intros d' Hd. inversion Hd; subst; apply Hv; [constructor|done].
  - intros d' b Hd. inversion Hd; subst. by apply Hr.
Qed.
Lemma runs_do o k d :
  I d → (∀ d1 b, attempt o d d1 b → runs I (k b) Q d1) → runs I (Do o k) Q d.
Proof.
  intros Hi Hk. split.
  - intros d' Hd. inversion Hd as [| |? ? ? d1 b ? Ha Hv]; subst; [done|]. by apply (Hk d1 b).
  - intros d' b Hd. inversion Hd as [| |? ? ? d1 b1 ? ? Ha Hr]; subst. by apply (Hk d1 b1).
Qed.
Lemma runs_call o k d :
  I d → (∀ d1, attempt o d d1 false → I d1 ∧ Q false d1) →
  (∀ d1, perform o d = Some d1 → runs I k Q d1) → runs I (call o k) Q d.
Proof.
  intros Hi Hf Hk. apply runs_do; [done|]. intros d1 [] Ha.
  - by apply Hk, attempt_true.
  - by apply runs_stop; apply Hf.
Qed.
(** The calls that change nothing, or nothing when they fail. *)
Lemma runs_access p k d : Q false d → runs I k Q d → runs I (call (Access p) k) Q d.
Proof.
  intros Hq Hk. assert (I d) as Hi by (apply Hk; constructor). apply runs_call; [done| |].
  - intros d1 Ha. by inversion Ha; subst.
  - intros d1 Hd. cbn in Hd. apply fmap_Some in Hd as (f & _ & ->). done.
Qed.
Lemma runs_stat p k d :
  Q false d → runs I (k (f_meta <$> d !! p)) Q d → runs I (stat p k) Q d.
Proof.
  intros Hq Hk. apply runs_look. destruct (d !! p); [by apply runs_access|done].
Qed.
Lemma runs_read p k d :
  I d → Q false d → (∀ f, d !! p = Some f → runs I (k (f_data f)) Q d) → runs I (read p k) Q d.
Proof.
  intros Hi Hq Hk. apply runs_look. destruct (d !! p) as [f|] eqn:E; [|by apply runs_stop].
  apply runs_access; [done|]. by apply Hk.
Qed.
(** A call that fails with no effect. *)
Definition clean_failure (o : op) : bool :=
  match o with Write _ _ | RemoveTree _ => false | _ => true end.
Lemma runs_clean o k d :
  clean_failure o = true → I d → Q false d → (∀ d1, perform o d = Some d1 → runs I k Q d1) →
  runs I (call o k) Q d.
Proof.
  intros Ho Hi Hq Hk. apply runs_call; [done| |done].
  intros d1 Ha. by inversion Ha; subst.
Qed.
Lemma runs_and_then p k d :
  runs I p (λ b d', runs I (k b) Q d') d → runs I (and_then p k) Q d.
Proof.
  revert d. induction p as [f IH|o f IH|b]; intros d Hp; cbn [and_then].
  - apply runs_look, IH. destruct Hp as [Hv Hr]. split.
    + intros d' Hd. by apply Hv; constructor.
    + intros d' b Hd. by apply Hr; constructor.
  - apply runs_do; [apply Hp; constructor|]. intros d1 b Ha. apply IH. destruct Hp as [Hv Hr].
    split.
    + intros d' Hd. apply Hv. by econstructor.
    + intros d' b' Hd. apply Hr. by econstructor.
  - apply Hp. constructor.
Qed.
Lemma runs_tried p k d :
  runs I p (λ b d', if b then runs I k Q d' else Q false d') d → runs I (tried p k) Q d.
Proof.
  intros [Hv Hr]. apply runs_and_then. split; [done|]. intros d' b Hb.
  specialize (Hr d' b Hb). destruct b; [done|]. apply runs_stop; [|done].
  by eapply Hv, returns_visits.
Qed.
End rules.
Lemma runs_mono (I I' : Disk → Prop) (Q Q' : bool → Disk → Prop) p d :
  runs I p Q d → (∀ d', I d' → I' d') → (∀ b d', Q b d' → Q' b d') → runs I' p Q' d.
Proof. intros [Hv Hr] Hi Hq. split; eauto. Qed.

(** ** Frames

    The paths a call may change. *)
Definition touched (o : op) (p : string) : bool :=
  match o with
  | Access _ | SyncDir _ => false
  | Create q _ | CreateNew q _ | CreateDir q _ | Write q _ | Sync q | SetMode q _ | Remove q
  | Put q _ => bool_decide (p = q)
  | Rename q r => bool_decide (p = q) || bool_decide (p = r)
  | RemoveTree q => under q p
  end.
(** A path is as it was, but that its directory may have been synced. *)
Definition same_at (q : string) (d d' : Disk) : Prop := d' !! q = d !! q ∧ past d' q ⊆ past d q.
#[export] Instance same_at_preorder q : PreOrder (same_at q).
Proof.
  split; [by intros d|]. intros d1 d2 d3 [E1 H1] [E2 H2]. split; [by rewrite E2|by etrans].
Qed.
Lemma lookup_edit p f d : edit p f d !! p = Some f.
Proof. apply lookup_insert_eq. Qed.
Lemma lookup_edit_ne p q f d : q ≠ p → edit p f d !! q = d !! q.
Proof. intros Hq. by apply lookup_insert_ne, not_eq_sym. Qed.
Lemma lookup_relink p o d : relink p o d !! p = o.
Proof. apply lookup_partial_alter_eq. Qed.
Lemma lookup_relink_ne p q o d : q ≠ p → relink p o d !! q = d !! q.
Proof. intros Hq. by apply lookup_partial_alter_ne, not_eq_sym. Qed.
Lemma past_relink p o d : past (relink p o d) p = d !! p :: past d p.
Proof. unfold relink; cbn [past]. by rewrite bool_decide_eq_true_2. Qed.
Lemma past_relink_ne p q o d : q ≠ p → past (relink p o d) q = past d q.
Proof. intros Hq. unfold relink; cbn [past]. by rewrite bool_decide_eq_false_2. Qed.
Lemma edit_same p q f d : q ≠ p → same_at q d (edit p f d).
Proof. intros Hq. split; [by apply lookup_edit_ne|done]. Qed.
Lemma relink_same p q o d : q ≠ p → same_at q d (relink p o d).
Proof. intros Hq. split; [by apply lookup_relink_ne|by rewrite past_relink_ne]. Qed.
Lemma sync_dir_same dir q d d1 : perform (SyncDir dir) d = Some d1 → same_at q d d1.
Proof.
  intros [= <-]. split; [done|]. cbn [past]. destruct (in_dir dir q); [|done]. apply list_subseteq_nil.
Qed.
Lemma attempt_frame o d d' b p : attempt o d d' b → touched o p = false → same_at p d d'.
Proof.
  destruct 1 as [o d d' Ho|o d|q s s' r f d Hf Hs|q d d' Hq]; intros Hp; [|done| |].
  - destruct o as [q|q m|q m|q m|q s|q|q m|q r|q|q|q f|q]; [| | | | | | | | | | |by eapply sync_dir_same];
      cbn in Ho, Hp; rewrite ?orb_false_iff, ?bool_decide_eq_false in Hp;
      try (apply fmap_Some in Ho as (f' & Hf & ->)); try (by apply edit_same);
      try (by apply relink_same); try done.
    + destruct (d !! q) as [f|]; [destruct (is_file (f_meta f)); [|done]|];
        injection Ho as <-; [by apply edit_same|by apply relink_same].
    + destruct (d !! q); [done|]. injection Ho as <-. by apply relink_same.
    + destruct (d !! q); [done|]. injection Ho as <-. by apply relink_same.
    + destruct Hp as [Hq Hr]. etrans; [by apply (edit_same q)|].
      etrans; by apply relink_same.
    + split; [|cbn [past]; by rewrite Hp].
      change (filter (λ '(x, _), under q x = false) (live d) !! p = live d !! p).
      rewrite map_lookup_filter. destruct (live d !! p); [|done]. cbn.
      by rewrite option_guard_True.
    + injection Ho as <-. by apply relink_same.
  - cbn in Hp. apply bool_decide_eq_false in Hp. by apply edit_same.
  - cbn in Hp. destruct (Hq p) as [[E1 E2]|[E _]]; [|by rewrite Hp in E]. split; [done|by rewrite E2].
Qed.

(** The programs none of whose calls changes a path. *)
Fixpoint avoids (q : string) (p : prog) : Prop :=
  match p with
  | Look k => ∀ d, avoids q (k d)
  | Do o k => touched o q = false ∧ ∀ b, avoids q (k b)
  | Stop _ => True
  end.
Lemma avoids_and_then q p k :
  avoids q p → (∀ b, avoids q (k b)) → avoids q (and_then p k).
Proof. induction p; cbn; naive_solver. Qed.
Lemma avoids_tried q p k : avoids q p → avoids q k → avoids q (tried p k).
Proof. intros Hp Hk. apply avoids_and_then; [done|]. by intros []. Qed.
Lemma avoids_call q o k : touched o q = false → avoids q k → avoids q (call o k).
Proof. intros Ho Hk. split; [done|]. by intros []. Qed.
Lemma avoids_stat q p k : (∀ m, avoids q (k m)) → avoids q (stat p k).
Proof. intros Hk d. destruct (d !! p); [by apply avoids_call|done]. Qed.
Lemma avoids_stat_ok q p k : (∀ m, avoids q (k m)) → avoids q (stat_ok p k).
Proof. intros Hk d. by destruct (d !! p). Qed.
Lemma avoids_read q p k : (∀ s, avoids q (k s)) → avoids q (read p k).
Proof. intros Hk d. destruct (d !! p); [by apply avoids_call|done]. Qed.
Lemma runs_same q p d0 d :
  avoids q p → same_at q d0 d → runs (same_at q d0) p (λ _, same_at q d0) d.
Proof.
  intros Hp. revert d. induction p as [k IH|o k IH|b]; intros d Hd; cbn [avoids] in Hp.
  - by apply runs_look, IH.
  - destruct Hp as [Ho Hk]. apply runs_do; [done|]. intros d1 b Ha. apply IH; [done|].
    etrans; [done|]. by eapply attempt_frame.
  - by apply runs_stop.
Qed.
Lemma runs_avoids q p d :
  avoids q p → runs (λ d', d' !! q = d !! q) p (λ _ d', d' !! q = d !! q) d.
Proof.
  intros Hp. eapply runs_mono; [by apply (runs_same q p d d)|by intros d' []|by intros b d' []].
Qed.
(** A program, or a call, that avoids a path, before one that need only know
    what is there. *)
Lemma runs_tried_avoids (I : Disk → Prop) (Q : bool → Disk → Prop) q p k d0 d :
  avoids q p → same_at q d0 d → (∀ d1, same_at q d0 d1 → I d1 ∧ Q false d1) →
  (∀ d1, same_at q d0 d1 → runs I k Q d1) → runs I (tried p k) Q d.
Proof.
  intros Hp Hd Hi Hk. apply runs_tried. eapply runs_mono; [by apply (runs_same q)|..].
  - intros d' Hd'. by apply Hi.
  - intros [] d' Hd'; [by apply Hk|by apply Hi].
Qed.
Lemma runs_call_avoids (I : Disk → Prop) (Q : bool → Disk → Prop) q o k d0 d :
  touched o q = false → same_at q d0 d → (∀ d1, same_at q d0 d1 → I d1 ∧ Q false d1) →
  (∀ d1, perform o d = Some d1 → same_at q d0 d1 → runs I k Q d1) → runs I (call o k) Q d.
Proof.
  intros Ho Hd Hi Hk. apply runs_call; [by apply Hi| |].
  - intros d1 Ha. apply Hi. etrans; [done|]. by eapply attempt_frame.
  - intros d1 H1. apply Hk; [done|]. etrans; [done|]. by eapply attempt_frame; [apply attempt_ok|].
Qed.
Create HintDb avoids.
#[export] Hint Resolve avoids_and_then avoids_tried avoids_call avoids_stat avoids_stat_ok
  avoids_read : avoids.

(** ** What a crash leaves *)

(** A file that holds the text, synced. *)
Definition holds (d : Disk) (path text : string) : Prop :=
  ∃ m, d !! path = Some (mkFile text true m).
Lemma holds_synced (d : Disk) path f :
  d !! path = Some f → f_synced f = true → holds d path (f_data f).
Proof. destruct f as [s b m]; cbn. intros Hf ->. by exists m. Qed.
Lemma holds_contents d path text : holds d path text → contents d path = Some text.
Proof. intros [m Hm]. unfold contents. by rewrite Hm. Qed.
(** What is there survives a crash: the file is synced, and so are its name
    and those of the directories above. *)
Definition synced (d : Disk) (p : string) : Prop := ∀ f, d !! p = Some f → f_synced f = true.
Definition placed (d : Disk) (p : string) : Prop := ∀ dir, above dir p → past d dir = [].
Definition durable (d : Disk) (p : string) : Prop := synced d p ∧ past d p = [] ∧ placed d p.
Lemma survives_contents d p c : synced d p → survives (d !! p) c → c = contents d p.
Proof.
  unfold synced, contents. destruct (d !! p) as [f|]; cbn; [|done].
  intros Hs (data & -> & Hd). by rewrite Hd by (by apply Hs).
Qed.
(** Where nothing above may be lost, one of the files that were there. *)
Lemma crash_placed d d' p : crash d d' → placed d p →
  ∃ o, o ∈ possible d p ∧ survives o (contents d' p).
Proof.
  intros Hc Hp. destruct (Hc p) as [Ho|(_ & dir & Ha & Hne)]; [done|]. by destruct Hne; apply Hp.
Qed.
Lemma crash_contents d d' p : crash d d' → durable d p → contents d' p = contents d p.
Proof.
  intros Hc (Hs & Hn & Hp). destruct (crash_placed d d' p Hc Hp) as (o & Ho & Hsur).
  unfold possible in Ho. rewrite Hn, list_elem_of_singleton in Ho. subst o.
  by apply survives_contents.
Qed.
Lemma same_at_durable p d d' :
  same_at p d d' → (∀ dir, above dir p → same_at dir d d') → durable d p → durable d' p.
Proof.
  intros [E Hs] Hdirs (H1 & H2 & H3). split_and!.
  - intros f. rewrite E. apply H1.
  - rewrite H2 in Hs. by apply list_nil_subseteq.
  - intros dir Ha. destruct (Hdirs dir Ha) as [_ Hd]. rewrite (H3 dir Ha) in Hd.
    by apply list_nil_subseteq.
Qed.
(** Two disks that agree but for some paths. *)
Definition agree_but (ps : list string) (d d' : Disk) : Prop := ∀ q, q ∉ ps → same_at q d d'.
Lemma agree_but_attempt ps d0 d o d' b :
  agree_but ps d0 d → attempt o d d' b → (∀ q, q ∉ ps → touched o q = false) → agree_but ps d0 d'.
Proof.
  intros Hd Ha Ht q Hq. etrans; [by apply Hd|]. eapply attempt_frame; [done|by apply Ht].
Qed.
