(* ===== verification/Json.v ===== *)
(** * JSON documents and text

    [serde_json::Value] as the proxy and the agent read it, and the trimming
    of ASCII text. Parsing and printing a document are parameters. *)
From S2P Require Import Prelude.
Local Open Scope Z_scope.

(** ** Strings

    [str::trim] and [<[u8]>::trim_ascii], of ASCII text. *)
Definition is_whitespace (c : ascii) : bool := (9 <=? byte_of c) && (byte_of c <=? 13) || (byte_of c =? 32).
Definition is_ascii_whitespace (c : ascii) : bool := is_whitespace c && negb (byte_of c =? 11).
Fixpoint trim_start (p : ascii → bool) (s : string) : string :=
  match s with
  | String c s' => if p c then trim_start p s' else s
  | EmptyString => s
  end.
Fixpoint trim_end (p : ascii → bool) (s : string) : string :=
  match s with
  | EmptyString => EmptyString
  | String c s' =>
      match trim_end p s' with
      | EmptyString => if p c then EmptyString else String c EmptyString
      | t => String c t
      end
  end.
Definition trim (s : string) : string := trim_end is_whitespace (trim_start is_whitespace s).
Definition trim_ascii (s : string) : string :=
  trim_end is_ascii_whitespace (trim_start is_ascii_whitespace s).

(** ** JSON documents

    [serde_json::Value]; a number is told by what [as_u64] tells of it. *)
#[warnings="-register-all"]
Inductive Value :=
| Null
| Bool (b : bool)
| U64 (n : Z)
| OtherNumber (text : string)
| Str (s : string)
| Array (l : list Value)
| Object (m : list (string * Value)).
Fixpoint get (key : string) (m : list (string * Value)) : option Value :=
  match m with
  | [] => None
  | (k, v) :: m => if bool_decide (k = key) then Some v else get key m
  end.
Definition remove (key : string) (m : list (string * Value)) : list (string * Value) :=
  List.filter (λ '(k, _), negb (bool_decide (k = key))) m.
Definition as_str (v : Value) : option string :=
  match v with Str s => Some s | _ => None end.
Definition as_u64 (v : Value) : option Z := match v with U64 n => Some n | _ => None end.
Definition is_object (v : Value) : bool := match v with Object _ => true | _ => false end.
(** [Value::get] of a name, and [as_object]. *)
Definition value_get (key : string) (v : Value) : option Value :=
  match v with Object m => get key m | _ => None end.
Definition as_object (v : Value) : option (list (string * Value)) :=
  match v with Object m => Some m | _ => None end.
(** [Value::pointer] of a path of names, none of which is an index. *)
Fixpoint pointer (path : list string) (v : Value) : option Value :=
  match path with
  | [] => Some v
  | key :: path =>
      match v with
      | Object m => get key m ≫= pointer path
      | _ => None
      end
  end.

Lemma get_remove key k m : get k (remove key m) = if decide (k = key) then None else get k m.
Proof.
  unfold remove. induction m as [|[k' v] m IH]; cbn; [by case_decide|].
  destruct (bool_decide_reflect (k' = key)) as [->|Hne]; cbn; rewrite IH; repeat case_decide; subst;
    rewrite ?bool_decide_true, ?bool_decide_false by congruence; try done.
Qed.
