(* ===== verification/Pools.v ===== *)
(** * Providers and consumers

    The two enumerations every budget, record and counter is keyed by:
    [Provider] of [usage.rs], a provider and its pool in a budget, and
    [Consumer] of [budget.rs], whose a request is. *)
From S2P Require Import Prelude.

Inductive Provider := Anthropic | Codex | Mistral.
Inductive Consumer := Public | Private.

#[export] Instance Provider_eq_dec : EqDecision Provider.
Proof. solve_decision. Defined.
#[export] Instance Consumer_eq_dec : EqDecision Consumer.
Proof. solve_decision. Defined.
#[export] Instance Provider_countable : Countable Provider.
Proof.
  apply (inj_countable'
    (λ p, match p with Anthropic => 0 | Codex => 1 | Mistral => 2 end)
    (λ n, match n with 0 => Anthropic | 1 => Codex | _ => Mistral end)).
  by intros [].
Defined.
#[export] Instance Consumer_countable : Countable Consumer.
Proof.
  apply (inj_countable' (λ c, match c with Public => false | Private => true end)
    (λ b : bool, if b then Private else Public)). by intros [].
Defined.

(** The derived order of the enumeration, in which its [BTreeMap]s iterate. *)
Definition all_providers : list Provider := [Anthropic; Codex; Mistral].
Definition all_consumers : list Consumer := [Public; Private].

Definition for_cluster (cluster : option string) : option Provider :=
  cluster ≫= λ c,
  if bool_decide (c = "anthropic") then Some Anthropic
  else if bool_decide (c = "inference-backend") then Some Codex
  else if bool_decide (c = "mistral") then Some Mistral
  else None.

Definition Consumer_default : Consumer := Private.
Definition Consumer_parse (name : string) : option Consumer :=
  if bool_decide (name = "public") then Some Public
  else if bool_decide (name = "private") then Some Private
  else None.
Definition Consumer_index (c : Consumer) : nat :=
  match c with Public => 0 | Private => 1 end.

(** A two-element array indexed by consumer. *)
Record per_consumer (A : Type) := by_consumer { at_public : A; at_private : A }.
Arguments by_consumer {A} _ _.
Arguments at_public {A} _.
Arguments at_private {A} _.
Definition at_consumer {A} (a : per_consumer A) (c : Consumer) : A :=
  match c with Public => at_public a | Private => at_private a end.
Definition set_consumer {A} (a : per_consumer A) (c : Consumer) (x : A) : per_consumer A :=
  match c with
  | Public => by_consumer x (at_private a)
  | Private => by_consumer (at_public a) x
  end.
Definition both_consumers {A} (x : A) : per_consumer A := by_consumer x x.

Lemma at_set_consumer {A} (a : per_consumer A) c d x :
  at_consumer (set_consumer a c x) d = if decide (c = d) then x else at_consumer a d.
Proof. by destruct c, d. Qed.

(** A [BTreeMap] keyed by provider, in its iteration order. *)
Definition by_provider {A} (m : gmap Provider A) : list (Provider * A) :=
  omap (λ p, pair p <$> m !! p) all_providers.
#[global] Arguments by_provider : simpl never.

Lemma elem_of_by_provider {A} (m : gmap Provider A) p (a : A) :
  (p, a) ∈ by_provider m ↔ m !! p = Some a.
Proof.
  unfold by_provider. rewrite list_elem_of_omap. split.
  - intros (q & _ & Hq). destruct (m !! q) eqn:E; naive_solver.
  - intros Hp. exists p. rewrite Hp. split; [destruct p; set_solver|done].
Qed.
