(* ===== verification/Runs.v ===== *)
(** * Registered runs

    [praxis-gateway/src/runs.rs]: bearer tokens, lifetimes, concurrency and
    usage records of the runs a gateway knows.  An [Instant] and a
    [Duration] are nanoseconds in [Z]; the clocks are arguments, read where
    the code reads them.  What [log_record] writes is kept in the state as
    [journal], newest first.  This file holds the data, the operations and
    the lemmas about single operations; [RunsInvariants] and [RunsQuota]
    prove the properties of whole executions. *)
From S2P Require Import Prelude Crypto Pools.
Local Open Scope Z_scope.

(** ** Data *)
Definition from_secs (n : Z) : Z := n * 1000000000.
Definition as_secs (d : Z) : Z := d / 1000000000.

Definition RECORD_SCHEMA : string := "praxis-run-usage/v2".
Definition TOKEN_PREFIX : string := "praxis-run-".
Definition MAX_RUNS : Z := 4096.
Definition RETENTION : Z := from_secs (24 * 3600).
Definition MAX_UNPROVEN_RUNS : Z := MAX_RUNS / 4.
Definition MAX_RUN_NAME : Z := 128.
Definition MAX_MODELS : Z := 16.

Record Tokens := mkTokens {
  tk_input : Z;
  tk_cache_read : Z;
  tk_output : Z;
  tk_reasoning : Z;
  tk_total : Z;
}.
Definition Tokens_default : Tokens := mkTokens 0 0 0 0 0.
Definition Tokens_add (self other : Tokens) : Tokens := mkTokens
  (sat_add (tk_input self) (tk_input other))
  (sat_add (tk_cache_read self) (tk_cache_read other))
  (sat_add (tk_output self) (tk_output other))
  (sat_add (tk_reasoning self) (tk_reasoning other))
  (sat_add (tk_total self) (tk_total other)).

Record Usage := mkUsage {
  u_tokens : Tokens;
  u_model : option string;
  u_cache_write : Z;
}.

Record Limits := mkLimits { ttl : Z; concurrency : Z }.

(** The form of policy entry that admitted a run ([Admitted] in the code). *)
Inductive AdmittedBy := ByWorkflows | ByCalledWorkflows | ByAnyWorkflow.
#[export] Instance AdmittedBy_eq_dec : EqDecision AdmittedBy.
Proof. solve_decision. Defined.
Definition AdmittedBy_as_str (a : AdmittedBy) : string :=
  match a with
  | ByWorkflows => "workflows"
  | ByCalledWorkflows => "called_workflows"
  | ByAnyWorkflow => "any_workflow"
  end.

Record RunIdentity := mkRunIdentity {
  id_repository : string;
  id_repository_id : Z;
  id_run_id : Z;
  id_run_attempt : Z;
  id_check_run_id : option Z;
  id_jti : string;
  id_workflow_ref : string;
  id_workflow_sha : option string;
  id_entry_workflow_ref : string;
  id_repository_owner_id : Z;
  id_event_name : string;
  id_actor : option string;
  id_admitted_by : AdmittedBy;
  id_consumer : Consumer;
}.

(** A newtype with a checked constructor, [RunName_new]. *)
Inductive RunName := RunName_of (name : string).
Definition run_name_byte (c : ascii) : bool :=
  is_ascii_alphanumeric c || ascii_is "." c || ascii_is "_" c || ascii_is "-" c.
Definition RunName_new (name : string) : option RunName :=
  then_some
    (negb (is_empty name) && (len name <=? MAX_RUN_NAME)
     && string_forallb run_name_byte name)
    (RunName_of name).

Record Quota := mkQuota { quota_max : Z; quota_window : Z }.

Definition div_ceil (a b : Z) : Z := (a + b - 1) / b.
(** [usize::try_from(n).unwrap_or(usize::MAX)]. *)
Definition to_usize (n : Z) : Z := if n <=? U64_MAX then n else U64_MAX.
Definition most_remembered (q : Quota) (ttl : Z) : Z :=
  let remembered := ttl + RETENTION in
  let windows := div_ceil remembered (Z.max (quota_window q) 1) in
  sat_mul (to_usize windows) (quota_max q).

Inductive RunKey :=
| Github (repository_id run_id run_attempt : Z) (check_run_id : option Z)
| Unproven (name : RunName).

Definition RunIdentity_key (self : RunIdentity) : RunKey :=
  Github (id_repository_id self) (id_run_id self) (id_run_attempt self)
    (id_check_run_id self).

Definition subject (key : RunKey) : string :=
  match key with
  | Github repository_id run_id run_attempt (Some check_run_id) =>
      "github-run:" +:+ u64_to_string repository_id +:+ "/" +:+ u64_to_string run_id
      +:+ "/" +:+ u64_to_string run_attempt +:+ "/" +:+ u64_to_string check_run_id
  | Github repository_id run_id run_attempt None =>
      "github-run:" +:+ u64_to_string repository_id +:+ "/" +:+ u64_to_string run_id
      +:+ "/" +:+ u64_to_string run_attempt
  | Unproven (RunName_of name) => "unproven-run:" +:+ name
  end.
Definition is_unproven (key : RunKey) : bool :=
  match key with Unproven _ => true | Github _ _ _ _ => false end.

Inductive RunState := Active | Finished | Expired.
Inductive Refusal := Closed | Busy.
Inductive RegisterError := AlreadyRegistered | Full | OverQuota.
#[export] Instance RunState_eq_dec : EqDecision RunState.
Proof. solve_decision. Defined.
#[export] Instance RegisterError_eq_dec : EqDecision RegisterError.
Proof. solve_decision. Defined.

(** What a run registered with ([Proof] in the code). *)
Inductive RunProof :=
| GithubOidc (repository : string) (repository_id run_id run_attempt : Z)
    (check_run_id : option Z) (workflow_ref : string)
    (workflow_sha : option string) (entry_workflow_ref : string)
    (repository_owner_id : Z) (event_name : string) (actor : option string)
    (admitted_by : AdmittedBy)
| UnprovenProof (run : RunName).

Record RunRecord := mkRunRecord {
  rec_schema : string;
  rec_proof : RunProof;
  rec_state : RunState;
  rec_registered_at_unix : Z;
  rec_expires_at_unix : Z;
  rec_finished_at_unix : option Z;
  rec_requests : Z;
  rec_unmetered : Z;
  rec_tokens : Tokens;
  rec_models : gmap string Tokens;
}.
(** The assignments the code makes to a record's fields. *)
Definition rec_with_state (s : RunState) (f : option Z) (r : RunRecord) : RunRecord :=
  mkRunRecord (rec_schema r) (rec_proof r) s (rec_registered_at_unix r)
    (rec_expires_at_unix r) f (rec_requests r) (rec_unmetered r) (rec_tokens r)
    (rec_models r).
Definition rec_with_usage (requests unmetered : Z) (tokens : Tokens)
    (models : gmap string Tokens) (r : RunRecord) : RunRecord :=
  mkRunRecord (rec_schema r) (rec_proof r) (rec_state r) (rec_registered_at_unix r)
    (rec_expires_at_unix r) (rec_finished_at_unix r) requests unmetered tokens models.

(** The models of a record after [usage]: those of at most [MAX_MODELS]. *)
Definition add_model (usage : Usage) (models : gmap string Tokens) : gmap string Tokens :=
  match u_model usage with
  | None => models
  | Some model =>
      match models !! model with
      | Some tokens => <[model := Tokens_add tokens (u_tokens usage)]> models
      | None =>
          if Z.of_nat (size models) <? MAX_MODELS
          then <[model := u_tokens usage]> models else models
      end
  end.
(** [RunRecord::add]. *)
Definition RunRecord_add (usage : Usage) (r : RunRecord) : RunRecord :=
  rec_with_usage (wrap_add (rec_requests r) 1) (rec_unmetered r)
    (Tokens_add (rec_tokens r) (u_tokens usage)) (add_model usage (rec_models r)) r.

Record Run := mkRun {
  run_record : RunRecord;
  run_token_hash : string;
  run_jti : option string;
  run_consumer : Consumer;
  run_concurrency : Z;
  run_expires : Z;
  run_retain_until : Z;
  run_in_flight : Z;
}.
Definition run_with_record (rec : RunRecord) (r : Run) : Run :=
  mkRun rec (run_token_hash r) (run_jti r) (run_consumer r) (run_concurrency r)
    (run_expires r) (run_retain_until r) (run_in_flight r).
Definition run_with_hash (h : string) (r : Run) : Run :=
  mkRun (run_record r) h (run_jti r) (run_consumer r) (run_concurrency r)
    (run_expires r) (run_retain_until r) (run_in_flight r).
Definition run_with_in_flight (n : Z) (r : Run) : Run :=
  mkRun (run_record r) (run_token_hash r) (run_jti r) (run_consumer r)
    (run_concurrency r) (run_expires r) (run_retain_until r) n.

Definition run_state (r : Run) : RunState := rec_state (run_record r).
Definition is_active (r : Run) : bool := bool_decide (run_state r = Active).

#[export] Instance RunName_eq_dec : EqDecision RunName.
Proof. solve_decision. Defined.
#[export] Instance RunKey_eq_dec : EqDecision RunKey.
Proof. solve_decision. Defined.
#[export] Instance RunKey_countable : Countable RunKey.
Proof.
  apply (inj_countable'
    (λ k, match k with
          | Github a b c d => inl (a, b, c, d)
          | Unproven (RunName_of n) => inr n
          end)
    (λ s, match s with
          | inl (a, b, c, d) => Github a b c d
          | inr n => Unproven (RunName_of n)
          end)).
  by intros [????|[]].
Defined.

Record State := mkState {
  runs : gmap RunKey Run;
  tokens : gmap string RunKey;
  unproven : list Z;
  journal : list RunRecord;
}.
Definition State_default : State := mkState ∅ ∅ [] [].
Definition with_runs (f : gmap RunKey Run → gmap RunKey Run) (st : State) : State :=
  mkState (f (runs st)) (tokens st) (unproven st) (journal st).
Definition with_tokens (f : gmap string RunKey → gmap string RunKey) (st : State) : State :=
  mkState (runs st) (f (tokens st)) (unproven st) (journal st).
Definition with_unproven (f : list Z → list Z) (st : State) : State :=
  mkState (runs st) (tokens st) (f (unproven st)) (journal st).
Definition log_record (r : RunRecord) (st : State) : State :=
  mkState (runs st) (tokens st) (unproven st) (r :: journal st).

(** ** Operations *)
Section operations.
Context `{Crypto}.

Definition token_hash (token : string) : string := sha256 token.
(** [random] stands for the 32 bytes [rand::random] draws. *)
Definition new_token (random : string) : string * string :=
  let token := TOKEN_PREFIX +:+ hex_encode random in (token, token_hash token).

(** The first loop of [State::prune], for one run. *)
Definition expiring (now : Z) (r : Run) : bool := is_active r && (run_expires r <=? now).
Definition expire (now : Z) (r : Run) : Run :=
  if expiring now r
  then run_with_record
         (rec_with_state Expired (rec_finished_at_unix (run_record r)) (run_record r)) r
  else r.
(** The records the first loop logs. *)
Definition expired_records (now : Z) (rs : gmap RunKey Run) : list RunRecord :=
  omap (λ '(_, r), if expiring now r then Some (run_record (expire now r)) else None)
    (map_to_list rs).
Definition kept (now : Z) (r : Run) : bool := now <? run_retain_until r.
Definition State_prune (now : Z) (st : State) : State :=
  let rs := expire now <$> runs st in
  let gone := map_to_list (filter (λ '(_, r), kept now r = false) rs) in
  mkState
    (filter (λ '(_, r), kept now r = true) rs)
    (foldr (λ '(_, r), delete (run_token_hash r)) (tokens st) gone)
    (unproven st)
    (expired_records now (runs st) ++ journal st).

(** A run about to be registered. *)
Record NewRun := mkNewRun {
  new_key : RunKey;
  new_proof : RunProof;
  new_jti : option string;
  new_consumer : Consumer;
  new_token_hash : string;
}.
(** [unix] is the [unix_now()] the code reads. *)
Definition State_insert (run : NewRun) (limits : Limits) (now unix : Z) (st : State)
    : State * RunRecord :=
  let record := mkRunRecord RECORD_SCHEMA (new_proof run) Active unix
    (sat_add unix (as_secs (ttl limits))) None 0 0 Tokens_default ∅ in
  let st := with_tokens <[new_token_hash run := new_key run]> st in
  let st := with_runs
    <[new_key run := mkRun record (new_token_hash run) (new_jti run)
        (new_consumer run) (concurrency limits) (now + ttl limits)
        (now + ttl limits + RETENTION) 0]> st in
  (st, record).

Definition proof_of_identity (identity : RunIdentity) : RunProof :=
  GithubOidc (id_repository identity) (id_repository_id identity) (id_run_id identity)
    (id_run_attempt identity) (id_check_run_id identity) (id_workflow_ref identity)
    (id_workflow_sha identity) (id_entry_workflow_ref identity)
    (id_repository_owner_id identity) (id_event_name identity) (id_actor identity)
    (id_admitted_by identity).

Definition Registered : Type := result RegisterError (string * RunRecord).

Definition register (identity : RunIdentity) (limits : Limits) (now : Z)
    (random : string) (unix : Z) (st : State) : State * Registered :=
  let st := State_prune now st in
  let key := RunIdentity_key identity in
  let '(token, hash) := new_token random in
  match runs st !! key with
  | Some run =>
      if negb (bool_decide (run_jti run = Some (id_jti identity))) || negb (is_active run)
      then (st, Err AlreadyRegistered)
      else
        let old := run_token_hash run in
        let st := with_runs <[key := run_with_hash hash run]> st in
        let st := with_tokens (delete old) st in
        let st := with_tokens <[hash := key]> st in
        (st, Ok (token, run_record run))
  | None =>
      if MAX_RUNS <=? Z.of_nat (size (runs st)) then (st, Err Full)
      else
        let run := mkNewRun key (proof_of_identity identity) (Some (id_jti identity))
          (id_consumer identity) hash in
        let '(st, record) := State_insert run limits now unix st in
        (st, Ok (token, record))
  end.

(** The [while let] loop over the front of the quota's queue. *)
Fixpoint drop_old (window now : Z) (q : list Z) : list Z :=
  match q with
  | oldest :: q' =>
      if window <=? Z.max (now - oldest) 0 then drop_old window now q' else q
  | [] => []
  end.
Definition count_unproven (rs : gmap RunKey Run) : Z :=
  Z.of_nat (length (filter (λ k, is_unproven k = true) (map_to_list rs).*1)).

Definition register_unproven (name : RunName) (limits : Limits) (quota : Quota)
    (now : Z) (random : string) (unix : Z) (st : State) : State * Registered :=
  let st := State_prune now st in
  let key := Unproven name in
  match runs st !! key with
  | Some _ => (st, Err AlreadyRegistered)
  | None =>
      let st := with_unproven (drop_old (quota_window quota) now) st in
      if quota_max quota <=? Z.of_nat (length (unproven st)) then (st, Err OverQuota)
      else if (MAX_UNPROVEN_RUNS <=? count_unproven (runs st))
           || (MAX_RUNS <=? Z.of_nat (size (runs st)))
      then (st, Err Full)
      else
        let st := with_unproven (λ q, q ++ [now]) st in
        let '(token, hash) := new_token random in
        let run := mkNewRun key (UnprovenProof name) None Private hash in
        let '(st, record) := State_insert run limits now unix st in
        (st, Ok (token, record))
  end.

Definition authenticate (token : string) (now : Z) (st : State) : State * option RunKey :=
  let st := State_prune now st in (st, tokens st !! token_hash token).

Definition record (key : RunKey) (now : Z) (st : State) : State * option RunRecord :=
  let st := State_prune now st in (st, run_record <$> runs st !! key).

Definition finish (key : RunKey) (now unix : Z) (st : State) : State * option RunRecord :=
  let st := State_prune now st in
  match runs st !! key with
  | None => (st, None)
  | Some run =>
      if is_active run then
        let rec := rec_with_state Finished (Some unix) (run_record run) in
        let st := with_runs <[key := run_with_record rec run]> st in
        (log_record rec st, Some rec)
      else (st, Some (run_record run))
  end.

(** A request admitted for its run ([Admission], less its [Arc<Runs>]). *)
Record Admission := mkAdmission {
  adm_key : RunKey;
  adm_consumer : Consumer;
  adm_success : bool;
  adm_usage_free : bool;
  adm_settled : bool;
}.

Definition admit_run (key : RunKey) (now : Z) (st : State)
    : State * result Refusal Admission :=
  let st := State_prune now st in
  match runs st !! key with
  | None => (st, Err Closed)
  | Some run =>
      if negb (is_active run) then (st, Err Closed)
      else if run_concurrency run <=? run_in_flight run then (st, Err Busy)
      else
        let st := with_runs
          <[key := run_with_in_flight (wrap_add (run_in_flight run) 1) run]> st in
        (st, Ok (mkAdmission key (run_consumer run) false false false))
  end.

Inductive Outcome := Metered (usage : Usage) | Unmetered | Failed.

Definition settle_run (outcome : Outcome) (run : Run) : Run :=
  let run := run_with_in_flight (sat_sub (run_in_flight run) 1) run in
  let rec := run_record run in
  match outcome with
  | Metered usage => run_with_record (RunRecord_add usage rec) run
  | Unmetered =>
      run_with_record (rec_with_usage (rec_requests rec)
        (wrap_add (rec_unmetered rec) 1) (rec_tokens rec) (rec_models rec) rec) run
  | Failed => run
  end.
(** [Runs::settle], which does not prune. *)
Definition settle (key : RunKey) (outcome : Outcome) (st : State) : State :=
  match runs st !! key with
  | None => st
  | Some run => with_runs <[key := settle_run outcome run]> st
  end.

Definition settle_outcome (self : Admission) (reported : option Usage) : Outcome :=
  if adm_usage_free self then Failed
  else match reported with
       | Some usage => Metered usage
       | None => if adm_success self then Unmetered else Failed
       end.
(** [Drop for Admission]. *)
Definition Admission_drop (self : Admission) (st : State) : State :=
  if adm_settled self then st
  else settle (adm_key self)
    (if adm_success self && negb (adm_usage_free self) then Unmetered else Failed) st.
(** [Admission::settle], and the drop that follows as [self] goes out of
    scope. *)
Definition Admission_settle (self : Admission) (reported : option Usage)
    (st : State) : State :=
  let self := mkAdmission (adm_key self) (adm_consumer self) (adm_success self)
    (adm_usage_free self) true in
  let st := settle (adm_key self) (settle_outcome self reported) st in
  Admission_drop self st.
End operations.

(** [Runs::named]: the registries by name, created on first use. *)
Definition named (name : string) (registries : gmap string State)
    : gmap string State * State :=
  match registries !! name with
  | Some st => (registries, st)
  | None => (<[name := State_default]> registries, State_default)
  end.
