(* ===== verification/Oidc.v ===== *)
(** * GitHub OIDC tokens

    [praxis-gateway/src/oidc.rs]: the policy that says which jobs may register
    runs, the verification of a token, and the cached key set.  The crate
    [jsonwebtoken], the HTTP client and JSON are parameters; the clock is read
    through arguments, one for each read. *)
From S2P Require Import Prelude Pools Runs.
Local Open Scope Z_scope.

Definition GITHUB_ISSUER : string := "https://token.actions.githubusercontent.com".
Definition DEFAULT_AUDIENCE : string := "praxis-credential-broker".
Definition JWKS_TTL : Z := from_secs 3600.
Definition JWKS_MAX_STALE : Z := from_secs (24 * 3600).
Definition JWKS_MIN_REFETCH : Z := from_secs 60.
Definition MAX_JWKS_BYTES : Z := 64 * 1024.
Definition MAX_JWT_BYTES : Z := 8 * 1024.
Definition LEEWAY_SECS : Z := 60.
Definition MAX_JTI : Z := 128.
Definition SHA_HEX_LEN : Z := 40.
Definition REF_PREFIX : string := "refs/".

Inductive OidcError := Malformed | Invalid | WorkflowNotAllowed | Unavailable.

Record Claims := mkClaims {
  cl_iat : Z;
  cl_jti : string;
  cl_repository : string;
  cl_repository_id : string;
  cl_repository_owner_id : string;
  cl_run_id : string;
  cl_run_attempt : string;
  cl_check_run_id : option string;
  cl_job_workflow_ref : string;
  cl_job_workflow_sha : option string;
  cl_workflow_ref : string;
  cl_event_name : string;
  cl_actor : option string;
}.

(** ** The policy *)
Inductive PolicyError :=
| AnyAndListed (field : string)
| NeitherAnyNorListed (field : string)
| NoEvents (field : string)
| NotPlainWorkflow (field : string)
| NoRefOrSha (field : string)
| NotFullRef (field : string)
| NotFullSha (field : string)
| NeedsWorkflows
| NeedsIds
| NeedsEvents.

Record Repositories := mkRepositories {
  rp_any : bool;
  rp_owner_ids : gset Z;
  rp_repository_ids : gset Z;
}.
Definition Repositories_validate (self : Repositories) (field : string) : result PolicyError unit :=
  let listed :=
    negb (bool_decide (rp_owner_ids self = ∅) && bool_decide (rp_repository_ids self = ∅)) in
  match rp_any self, listed with
  | true, true => Err (AnyAndListed field)
  | false, false => Err (NeitherAnyNorListed field)
  | _, _ => Ok tt
  end.
Definition Repositories_contains (self : Repositories) (repository_id owner_id : Z) : bool :=
  rp_any self || bool_decide (owner_id ∈ rp_owner_ids self)
  || bool_decide (repository_id ∈ rp_repository_ids self).

Definition Events : Type := option (gset string).
Definition validate_events (events : Events) (field : string) : result PolicyError unit :=
  match events with
  | Some events => refuse_if (bool_decide (events = ∅)) (NoEvents field)
  | None => Ok tt
  end.
Definition event_allowed (events : Events) (event : string) : bool :=
  is_none_or events (λ events, bool_decide (event ∈ events)).

Record AnyWorkflow := mkAnyWorkflow {
  aw_repositories : Repositories;
  aw_events : Events;
  aw_consumer : Consumer;
}.
Definition AnyWorkflow_validate (self : AnyWorkflow) : result PolicyError unit :=
  Repositories_validate (aw_repositories self) "any_workflow.repositories" ≫= λ _,
  validate_events (aw_events self) "any_workflow".
Definition AnyWorkflow_allows (self : AnyWorkflow) (claims : Claims) (repository_id owner_id : Z)
    : bool :=
  Repositories_contains (aw_repositories self) repository_id owner_id
  && event_allowed (aw_events self) (cl_event_name claims).

Record CalledWorkflow := mkCalledWorkflow {
  cw_workflow : string;
  cw_git_ref : option string;
  cw_sha : option string;
  cw_callers : Repositories;
  cw_events : Events;
  cw_consumer : Consumer;
}.
Definition sha_byte (b : ascii) : bool := is_ascii_digit b || byte_in b "a" "f".
Definition plain_workflow (workflow : string) : bool :=
  (length (filter (λ s, is_empty s = false) (splitn 3 "/" workflow)) =? 3)%nat
  && negb (contains_char "@" workflow).
Definition CalledWorkflow_validate (self : CalledWorkflow) : result PolicyError unit :=
  let field := "called_workflows: " +:+ cw_workflow self in
  refuse_if (negb (plain_workflow (cw_workflow self))) (NotPlainWorkflow field) ≫= λ _,
  refuse_if (is_none (cw_git_ref self) && is_none (cw_sha self)) (NoRefOrSha field) ≫= λ _,
  refuse_if (is_some_and (cw_git_ref self) (λ git_ref, negb (starts_with REF_PREFIX git_ref)))
    (NotFullRef field) ≫= λ _,
  refuse_if (is_some_and (cw_sha self)
      (λ sha, negb ((len sha =? SHA_HEX_LEN) && string_forallb sha_byte sha)))
    (NotFullSha field) ≫= λ _,
  Repositories_validate (cw_callers self) (field +:+ ": callers") ≫= λ _,
  validate_events (cw_events self) field.
Definition CalledWorkflow_allows (self : CalledWorkflow) (claims : Claims)
    (repository_id owner_id : Z) : bool :=
  match strip_prefix (cw_workflow self) (cl_job_workflow_ref claims) ≫= strip_prefix "@" with
  | None => false
  | Some called_ref =>
      let ref_allowed :=
        match cw_git_ref self, cw_sha self with
        | Some git_ref, _ => bool_decide (called_ref = git_ref)
        | None, Some sha => bool_decide (called_ref = sha) || starts_with REF_PREFIX called_ref
        | None, None => false
        end in
      let sha_allowed :=
        is_none_or (cw_sha self) (λ sha, bool_decide (cl_job_workflow_sha claims = Some sha)) in
      ref_allowed && sha_allowed
      && Repositories_contains (cw_callers self) repository_id owner_id
      && event_allowed (cw_events self) (cl_event_name claims)
  end.

Record Policy := mkPolicy {
  po_audience : string;
  po_workflows : gset string;
  po_repository_ids : gset Z;
  po_owner_ids : gset Z;
  po_entry_workflows : option (gset string);
  po_events : gset string;
  po_consumer : Consumer;
  po_called_workflows : list CalledWorkflow;
  po_any_workflow : option AnyWorkflow;
}.
Definition names_workflows (self : Policy) : bool :=
  negb (bool_decide (po_workflows self = ∅) && bool_decide (po_repository_ids self = ∅)
        && bool_decide (po_owner_ids self = ∅)).
Definition proves (self : Policy) : bool :=
  names_workflows self || is_some (po_any_workflow self)
  || negb (bool_decide (length (po_called_workflows self) = 0%nat)).
Definition Policy_validate (self : Policy) : result PolicyError unit :=
  (if names_workflows self || negb (proves self) then
     refuse_if (bool_decide (po_workflows self = ∅)) NeedsWorkflows ≫= λ _,
     refuse_if (bool_decide (po_repository_ids self = ∅) && bool_decide (po_owner_ids self = ∅))
       NeedsIds ≫= λ _,
     refuse_if (bool_decide (po_events self = ∅)) NeedsEvents
   else Ok tt) ≫= λ _,
  try_each CalledWorkflow_validate (po_called_workflows self) ≫= λ _,
  match po_any_workflow self with Some any => AnyWorkflow_validate any | None => Ok tt end.

Definition workflow_repository (job_workflow_ref : string) : string :=
  join "/" (take 2 (splitn 3 "/" job_workflow_ref)).
Definition workflows_allow (self : Policy) (claims : Claims) (repository_id owner_id : Z) : bool :=
  let entry_allowed :=
    match po_entry_workflows self with
    | Some allowed => bool_decide (cl_workflow_ref claims ∈ allowed)
    | None => bool_decide (cl_workflow_ref claims = cl_job_workflow_ref claims)
    end in
  bool_decide (cl_job_workflow_ref claims ∈ po_workflows self)
  && bool_decide (cl_repository claims = workflow_repository (cl_job_workflow_ref claims))
  && (bool_decide (po_repository_ids self = ∅)
      || bool_decide (repository_id ∈ po_repository_ids self))
  && (bool_decide (po_owner_ids self = ∅) || bool_decide (owner_id ∈ po_owner_ids self))
  && entry_allowed
  && bool_decide (cl_event_name claims ∈ po_events self).
Definition admits (self : Policy) (claims : Claims) (repository_id owner_id : Z)
    : option (AdmittedBy * Consumer) :=
  if workflows_allow self claims repository_id owner_id then Some (ByWorkflows, po_consumer self)
  else
    match list_find (λ called, CalledWorkflow_allows called claims repository_id owner_id = true)
            (po_called_workflows self) with
    | Some (_, called) => Some (ByCalledWorkflows, cw_consumer called)
    | None =>
        (λ any, (ByAnyWorkflow, aw_consumer any)) <$>
        option_filter (λ any, AnyWorkflow_allows any claims repository_id owner_id)
          (po_any_workflow self)
    end.

(** ** Keys *)
Section keys.
Context {Key : Type}.

Record KeyCache := mkKeyCache {
  kc_keys : gmap string Key;
  kc_fetched : option Z;
  kc_attempted : option Z;
}.
Definition KeyCache_default : KeyCache := mkKeyCache ∅ None None.

(** [Instant::elapsed] at [now]. *)
Definition elapsed (now t : Z) : Z := Z.max (now - t) 0.

(** The loop that reads the body: [None] stands for a chunk that could not
    be read. *)
Fixpoint read_body (chunks : list (option string)) (body : string) : option string :=
  match chunks with
  | [] => Some body
  | None :: _ => None
  | Some chunk :: chunks =>
      if MAX_JWKS_BYTES <? len body + len chunk then None
      else read_body chunks (body +:+ chunk)
  end.
(** A key of the set: its id and the key, if it has each. *)
Definition Jwk : Type := option string * option Key.
Definition collect_keys (set : list Jwk) : gmap string Key :=
  foldl (λ keys jwk,
    match jwk with
    | (Some kid, Some key) => <[kid := key]> keys
    | _ => keys
    end) ∅ set.
Definition fetch (parse_jwks : string → option (list Jwk)) (response : option (list (option string)))
    : option (gmap string Key) :=
  response ≫= λ chunks, read_body chunks EmptyString ≫= λ body, collect_keys <$> parse_jwks body.

(** The reads of the clock in [key], in order. *)
Record Clock := mkClock {
  t_fresh : Z;
  t_refetch : Z;
  t_attempt : Z;
  t_fetched : Z;
  t_stale : Z;
}.
(** [fetched] is what [fetch] returns, if it is called. *)
Definition key (kid : string) (t : Clock) (fetched : option (gmap string Key)) (cache : KeyCache)
    : KeyCache * result OidcError Key :=
  let fresh := is_some_and (kc_fetched cache) (λ at_, elapsed (t_fresh t) at_ <? JWKS_TTL) in
  match (if fresh then kc_keys cache !! kid else None) with
  | Some key => (cache, Ok key)
  | None =>
      let cache :=
        if is_none_or (kc_attempted cache) (λ at_, JWKS_MIN_REFETCH <=? elapsed (t_refetch t) at_)
        then
          match fetched with
          | Some keys => mkKeyCache keys (Some (t_fetched t)) (Some (t_attempt t))
          | None => mkKeyCache (kc_keys cache) (kc_fetched cache) (Some (t_attempt t))
          end
        else cache in
      if is_none_or (kc_fetched cache) (λ at_, JWKS_MAX_STALE <=? elapsed (t_stale t) at_)
      then (cache, Err Unavailable)
      else (cache, ok_or (kc_keys cache !! kid) Invalid)
  end.
End keys.

(** ** Tokens *)
Inductive Algorithm := RS256 | OtherAlgorithm.
#[export] Instance Algorithm_eq_dec : EqDecision Algorithm.
Proof. solve_decision. Defined.
Record Header := mkHeader { h_alg : Algorithm; h_kid : option string }.
Record Validation := mkValidation {
  va_algorithm : Algorithm;
  va_audience : list string;
  va_issuer : list string;
  va_required_spec_claims : list string;
  va_validate_nbf : bool;
  va_leeway : Z;
}.
Inductive DecodeError := JsonKind | OtherKind.

Section verify.
Context {Key : Type} (decode_header : string → option Header)
  (decode_jwt : string → Key → Validation → result DecodeError Claims)
  (policy : Policy) (issued_after : Z).

Definition validation : Validation :=
  mkValidation RS256 [po_audience policy] [GITHUB_ISSUER] ["exp"; "nbf"; "iss"; "aud"]%string true
    LEEWAY_SECS.
Definition claim_number (s : string) : result OidcError Z := ok_or (parse_u64 s) Malformed.
Definition transpose_number (s : option string) : result OidcError (option Z) :=
  match s with None => Ok None | Some s => Some <$> claim_number s end.

(** What [verify] does with the claims of a token that decodes. *)
Definition identity_of (claims : Claims) : result OidcError RunIdentity :=
  refuse_if (cl_iat claims <? issued_after) Invalid ≫= λ _,
  claim_number (cl_repository_id claims) ≫= λ repository_id,
  claim_number (cl_repository_owner_id claims) ≫= λ owner_id,
  ok_or (admits policy claims repository_id owner_id) WorkflowNotAllowed ≫= λ '(admitted_by, consumer),
  refuse_if (is_empty (cl_jti claims) || (MAX_JTI <? len (cl_jti claims))) Malformed ≫= λ _,
  claim_number (cl_run_id claims) ≫= λ run_id,
  claim_number (cl_run_attempt claims) ≫= λ run_attempt,
  transpose_number (cl_check_run_id claims) ≫= λ check_run_id,
  Ok (mkRunIdentity (cl_repository claims) repository_id run_id run_attempt check_run_id
        (cl_jti claims) (cl_job_workflow_ref claims) (cl_job_workflow_sha claims)
        (cl_workflow_ref claims) owner_id (cl_event_name claims) (cl_actor claims) admitted_by
        consumer).
Definition decode_error (e : DecodeError) : OidcError :=
  match e with JsonKind => Malformed | OtherKind => Invalid end.

Definition verify (jwt : string) (t : Clock) (fetched : option (gmap string Key))
    (cache : KeyCache (Key:=Key)) : KeyCache (Key:=Key) * result OidcError RunIdentity :=
  if MAX_JWT_BYTES <? len jwt then (cache, Err Malformed)
  else
    match decode_header jwt with
    | None => (cache, Err Malformed)
    | Some header =>
        if negb (bool_decide (h_alg header = RS256)) then (cache, Err Invalid)
        else
          match h_kid header with
          | None => (cache, Err Malformed)
          | Some kid =>
              let '(cache, key) := key kid t fetched cache in
              (cache,
               key ≫= λ key, map_err decode_error (decode_jwt jwt key validation) ≫= identity_of)
          end
    end.
End verify.
