(* ===== verification/OidcPolicy.v ===== *)
(** * GitHub OIDC tokens: what verification promises

    A policy that validates admits only what its entries say outright; keys
    are trusted for a bounded time and fetched at a bounded rate, whatever the
    callers present; and an identity is the claims of a token the crate
    verified under such a key. *)
From S2P Require Import Prelude Pools Runs Oidc.
Local Open Scope Z_scope.

(** ** Policies *)

(** Listed by id, or any said outright. *)
Definition pinned (r : Repositories) (repository_id owner_id : Z) : Prop :=
  (rp_any r = true ∧ rp_owner_ids r = ∅ ∧ rp_repository_ids r = ∅) ∨
  (rp_any r = false ∧ (owner_id ∈ rp_owner_ids r ∨ repository_id ∈ rp_repository_ids r)).
Definition event_named (events : Events) (event : string) : Prop :=
  match events with None => True | Some events => event ∈ events end.

(** What a called workflow's entry admits. *)
Record called_ok (called : CalledWorkflow) (claims : Claims) (repository_id owner_id : Z) : Prop := {
  co_workflow : ∃ called_ref,
    cl_job_workflow_ref claims = cw_workflow called +:+ "@" +:+ called_ref ∧
    match cw_git_ref called with
    | Some git_ref => called_ref = git_ref
    | None => is_Some (cw_sha called) ∧
        (cw_sha called = Some called_ref ∨ starts_with REF_PREFIX called_ref = true)
    end;
  co_sha : ∀ sha, cw_sha called = Some sha → cl_job_workflow_sha claims = Some sha;
  co_callers : pinned (cw_callers called) repository_id owner_id;
  co_event : event_named (cw_events called) (cl_event_name claims);
}.
Record workflows_ok (p : Policy) (claims : Claims) (repository_id owner_id : Z) : Prop := {
  wo_workflow : cl_job_workflow_ref claims ∈ po_workflows p;
  wo_repository : cl_repository claims = workflow_repository (cl_job_workflow_ref claims);
  wo_pinned : repository_id ∈ po_repository_ids p ∨ owner_id ∈ po_owner_ids p;
  wo_repository_id : po_repository_ids p ≠ ∅ → repository_id ∈ po_repository_ids p;
  wo_owner_id : po_owner_ids p ≠ ∅ → owner_id ∈ po_owner_ids p;
  wo_entry : match po_entry_workflows p with
    | Some allowed => cl_workflow_ref claims ∈ allowed
    | None => cl_workflow_ref claims = cl_job_workflow_ref claims
    end;
  wo_event : cl_event_name claims ∈ po_events p;
}.
Record any_ok (any : AnyWorkflow) (claims : Claims) (repository_id owner_id : Z) : Prop := {
  ao_repositories : pinned (aw_repositories any) repository_id owner_id;
  ao_event : event_named (aw_events any) (cl_event_name claims);
}.

Lemma Repositories_pinned r field repository_id owner_id :
  Repositories_validate r field = Ok tt →
  Repositories_contains r repository_id owner_id = true ↔ pinned r repository_id owner_id.
Proof.
  unfold Repositories_validate, Repositories_contains, pinned.
  rewrite !orb_true_iff, !bool_decide_eq_true.
  destruct (rp_any r); cbn.
  - destruct (bool_decide_reflect (rp_owner_ids r = ∅)),
      (bool_decide_reflect (rp_repository_ids r = ∅)); cbn; try done. naive_solver.
  - intros _. naive_solver.
Qed.
Lemma event_allowed_named events event : event_allowed events event = true ↔ event_named events event.
Proof. destruct events; cbn; [apply bool_decide_eq_true|done]. Qed.

Lemma called_allows called claims repository_id owner_id :
  CalledWorkflow_validate called = Ok tt →
  CalledWorkflow_allows called claims repository_id owner_id = true ↔
  called_ok called claims repository_id owner_id.
Proof.
  unfold CalledWorkflow_validate. intros Hv.
  apply bind_Ok in Hv as (_ & _ & (_ & _ & (_ & _ & (_ & _ & ([] & Hr & _)%bind_Ok)%bind_Ok)%bind_Ok)%bind_Ok).
  pose proof (Repositories_pinned _ _ repository_id owner_id Hr) as Hp. clear Hr.
  unfold CalledWorkflow_allows. split.
  - destruct (strip_prefix _ _) as [at_ref|] eqn:E1; [|done]. cbn [mbind option_bind].
    destruct (strip_prefix "@" at_ref) as [called_ref|] eqn:E2; [|done].
    apply strip_prefix_Some in E1, E2. subst at_ref.
    rewrite !andb_true_iff, Hp, event_allowed_named. intros [[[Hrf Hs] ?] ?]. split; [|..|done|done].
    + exists called_ref. split; [done|]. destruct (cw_git_ref called) as [g|].
      * by apply bool_decide_eq_true in Hrf.
      * destruct (cw_sha called) as [sha|]; [|done]. split; [by eexists|].
        apply orb_true_iff in Hrf as [->%bool_decide_eq_true|?]; auto.
    + intros sha E. rewrite E in Hs. by apply bool_decide_eq_true in Hs.
  - intros [(r & E & Hrf) Hs Hc He]. rewrite E, strip_prefix_app. cbn [mbind option_bind].
    rewrite strip_prefix_app, !andb_true_iff, Hp, event_allowed_named.
    split_and!; [| |done|done].
    + destruct (cw_git_ref called) as [g|]; [by apply bool_decide_eq_true|].
      destruct Hrf as [[sha E'] Hrf]. rewrite E' in *.
      apply orb_true_iff. rewrite bool_decide_eq_true. naive_solver.
    + destruct (cw_sha called) as [sha|]; [|done]. cbn. apply bool_decide_eq_true. by apply Hs.
Qed.

Lemma Policy_validate_Ok p :
  Policy_validate p = Ok tt →
  (names_workflows p = true →
     po_workflows p ≠ ∅ ∧ (po_repository_ids p ≠ ∅ ∨ po_owner_ids p ≠ ∅) ∧ po_events p ≠ ∅) ∧
  Forall (λ called, CalledWorkflow_validate called = Ok tt) (po_called_workflows p) ∧
  (∀ any, po_any_workflow p = Some any → AnyWorkflow_validate any = Ok tt).
Proof.
  unfold Policy_validate. intros ([] & H1 & ([] & H2 & H3)%bind_Ok)%bind_Ok. split_and!.
  - intros Hn. rewrite Hn in H1. cbn [orb] in H1.
    apply bind_Ok in H1 as ([] & E1%refuse_if_Ok & ([] & E2%refuse_if_Ok & E3%refuse_if_Ok)%bind_Ok).
    apply bool_decide_eq_false in E1, E3. apply andb_false_iff in E2.
    rewrite !bool_decide_eq_false in E2. done.
  - by apply try_each_Ok.
  - intros any E. by rewrite E in H3.
Qed.

Lemma workflows_allow_ok p claims repository_id owner_id :
  Policy_validate p = Ok tt →
  workflows_allow p claims repository_id owner_id = true ↔
  workflows_ok p claims repository_id owner_id.
Proof.
  intros (Hv & _ & _)%Policy_validate_Ok. unfold workflows_allow.
  rewrite !andb_true_iff, !orb_true_iff, !bool_decide_eq_true. split.
  - intros (((((Hw & ?) & Hr) & Ho) & He) & ?).
    assert (names_workflows p = true) as Hn.
    { unfold names_workflows. rewrite bool_decide_eq_false_2; [done|]. set_solver. }
    destruct (Hv Hn) as (_ & Hids & _).
    split; [done|done| | | | |done].
    + destruct Hids as [?|?]; [left|right]; naive_solver.
    + naive_solver.
    + naive_solver.
    + destruct (po_entry_workflows p); by apply bool_decide_eq_true in He.
  - intros [Hw Hre Hpin Hri Hoi He Hev].
    split_and!; try done.
    + destruct (decide (po_repository_ids p = ∅)); auto.
    + destruct (decide (po_owner_ids p = ∅)); auto.
    + by destruct (po_entry_workflows p); apply bool_decide_eq_true.
Qed.
Lemma any_allows any claims repository_id owner_id :
  AnyWorkflow_validate any = Ok tt →
  AnyWorkflow_allows any claims repository_id owner_id = true ↔
  any_ok any claims repository_id owner_id.
Proof.
  unfold AnyWorkflow_validate, AnyWorkflow_allows. intros ([] & Hr & _)%bind_Ok.
  rewrite andb_true_iff, (Repositories_pinned _ _ _ _ Hr), event_allowed_named.
  split; [by intros [? ?]; split|by intros []].
Qed.

(** C17: of a policy that validates, a token is admitted exactly when some
    entry admits it, each form by what it pins: the [workflows] entry a
    workflow it names, run in that workflow's own repository, that repository
    or its owner listed by id; a called workflow's entry the jobs of its file
    at its ref or its commit, for a caller listed by id; [any_workflow] a
    repository listed by id; every repository of GitHub only where an entry
    says so outright; and each for an event it names. The admission is the
    narrowest form's, a called workflow's first entry's, with its consumer. *)
Theorem admits_spec p claims repository_id owner_id :
  Policy_validate p = Ok tt →
  match admits p claims repository_id owner_id with
  | Some (ByWorkflows, c) =>
      workflows_ok p claims repository_id owner_id ∧ c = po_consumer p
  | Some (ByCalledWorkflows, c) =>
      ¬ workflows_ok p claims repository_id owner_id ∧
      ∃ l1 called l2, po_called_workflows p = l1 ++ called :: l2 ∧
        called_ok called claims repository_id owner_id ∧ c = cw_consumer called ∧
        Forall (λ e, ¬ called_ok e claims repository_id owner_id) l1
  | Some (ByAnyWorkflow, c) =>
      ¬ workflows_ok p claims repository_id owner_id ∧
      Forall (λ e, ¬ called_ok e claims repository_id owner_id) (po_called_workflows p) ∧
      ∃ any, po_any_workflow p = Some any ∧ any_ok any claims repository_id owner_id ∧
        c = aw_consumer any
  | None =>
      ¬ workflows_ok p claims repository_id owner_id ∧
      Forall (λ e, ¬ called_ok e claims repository_id owner_id) (po_called_workflows p) ∧
      ∀ any, po_any_workflow p = Some any → ¬ any_ok any claims repository_id owner_id
  end.
Proof.
  intros Hv. pose proof (workflows_allow_ok p claims repository_id owner_id Hv) as Hw.
  apply Policy_validate_Ok in Hv as (_ & Hc & Ha). rewrite Forall_forall in Hc.
  unfold admits. destruct (workflows_allow _ _ _ _); [by split; [apply Hw|]|].
  assert (¬ workflows_ok p claims repository_id owner_id) as Hnw by (rewrite <-Hw; done).
  destruct (list_find _ _) as [[i called]|] eqn:Ef.
  - split; [done|]. apply list_find_Some in Ef as (Hi & Hal & Hb).
    exists (take i (po_called_workflows p)), called, (drop (S i) (po_called_workflows p)).
    split_and!; [by rewrite take_drop_middle| |done|].
    + apply called_allows; [|done]. by eapply Hc, list_elem_of_lookup_2.
    + apply Forall_lookup. intros j e [Hj ?]%lookup_take_Some.
      rewrite <-called_allows by (by eapply Hc, list_elem_of_lookup_2). by eapply Hb.
  - assert (Forall (λ e, ¬ called_ok e claims repository_id owner_id) (po_called_workflows p)) as Hnc.
    { apply list_find_None in Ef. rewrite Forall_forall in Ef |- *. intros e He.
      rewrite <-called_allows by (by apply Hc). by apply Ef. }
    destruct (po_any_workflow p) as [any|] eqn:Ea; [|by cbn].
    cbn [option_filter]. pose proof (any_allows any claims repository_id owner_id (Ha _ eq_refl)) as Hal.
    destruct (AnyWorkflow_allows any claims repository_id owner_id); cbn.
    + split_and!; [done|done|]. exists any. split_and!; [done|by apply Hal|done].
    + split_and!; [done|done|]. intros any' [= <-]. by rewrite <-Hal.
Qed.

(** ** Keys *)
Section keys.
Context {Key : Type}.
Implicit Types (c : KeyCache (Key:=Key)).

(** Whether [key] fetches the key set. *)
Definition fetches (kid : string) (t : Clock) c : bool :=
  is_none (if is_some_and (kc_fetched c) (λ at_, elapsed (t_fresh t) at_ <? JWKS_TTL)
           then kc_keys c !! kid else None) &&
  is_none_or (kc_attempted c) (λ at_, JWKS_MIN_REFETCH <=? elapsed (t_refetch t) at_).
Definition clock_ok (last : Z) (t : Clock) : Prop :=
  last <= t_fresh t <= t_refetch t ∧ t_refetch t <= t_attempt t <= t_fetched t ∧
  t_fetched t <= t_stale t.

(** Executions: calls one after the other, as the cache's mutex makes them,
    of callers who choose the key id. [attempts] are the instants of the
    fetches, the newest first, and [sets] the key sets they returned. *)
Inductive key_run : Z → list Z → list (Z * gmap string Key) → KeyCache (Key:=Key) → Prop :=
| key_run_init last : key_run last [] [] KeyCache_default
| key_run_call last attempts sets c kid t fetched :
    key_run last attempts sets c → clock_ok last t →
    key_run (t_stale t)
      (if fetches kid t c then t_attempt t :: attempts else attempts)
      (if fetches kid t c then
         match fetched with Some keys => (t_fetched t, keys) :: sets | None => sets end
       else sets)
      (key kid t fetched c).1.

Fixpoint apart (w : Z) (l : list Z) : Prop :=
  match l with
  | a :: (b :: _) as r => b + w <= a ∧ apart w r
  | _ => True
  end.
Record cache_ok (last : Z) (attempts : list Z) (sets : list (Z * gmap string Key)) c : Prop := {
  ca_attempted : kc_attempted c = head attempts;
  ca_fetched : kc_fetched c = fst <$> head sets;
  ca_keys : kc_keys c = default ∅ (snd <$> head sets);
  ca_apart : apart JWKS_MIN_REFETCH attempts;
  ca_past : ∀ a, head attempts = Some a → a <= last;
}.

Lemma key_cases kid t fetched c :
  (fetches kid t c = false ∧ (key kid t fetched c).1 = c) ∨
  (fetches kid t c = true ∧ (key kid t fetched c).1 =
    match fetched with
    | Some keys => mkKeyCache keys (Some (t_fetched t)) (Some (t_attempt t))
    | None => mkKeyCache (kc_keys c) (kc_fetched c) (Some (t_attempt t))
    end).
Proof.
  unfold key, fetches. destruct (if is_some_and (kc_fetched c) _ then _ else None); [by left|].
  cbn [is_none andb]. destruct (is_none_or (kc_attempted c) _); [right|left]; (split; [done|]).
  - by destruct fetched; destruct (is_none_or _ _).
  - by destruct (is_none_or _ _).
Qed.
Lemma key_run_ok last attempts sets c : key_run last attempts sets c → cache_ok last attempts sets c.
Proof.
  induction 1 as [last|last attempts sets c kid t fetched _ [Ha Hf Hk Hap Hp] (Ht1 & Ht2 & Ht3)].
  { by split. }
  destruct (key_cases kid t fetched c) as [[-> ->]|[Hfe ->]].
  { split; try done. intros a ?. specialize (Hp a ltac:(done)). lia. }
  rewrite Hfe. unfold fetches in Hfe. apply andb_true_iff in Hfe as [_ Hre]. rewrite Ha in Hre.
  assert (apart JWKS_MIN_REFETCH (t_attempt t :: attempts)) as Hap'.
  { destruct attempts as [|b attempts]; [done|]. split; [|done].
    cbn in Hre. apply Z.leb_le in Hre. unfold elapsed in Hre.
    assert (0 < JWKS_MIN_REFETCH) by done. lia. }
  assert (∀ a, Some (t_attempt t) = Some a → a <= t_stale t) as Hp' by (intros a [= <-]; lia).
  destruct fetched as [keys|]; by split.
Qed.

(** C37: whatever key ids callers present, the key set is fetched at most
    once in [JWKS_MIN_REFETCH]; a key is trusted only as the newest set
    fetched has it, and less than [JWKS_MAX_STALE] after that fetch, so a
    withdrawn key does not outlive it while fetches fail; and the keys are
    unavailable only when no set is that recent. *)
Theorem key_bounded last attempts sets c kid t fetched :
  key_run last attempts sets c → clock_ok last t →
  apart JWKS_MIN_REFETCH (if fetches kid t c then t_attempt t :: attempts else attempts) ∧
  let sets' := if fetches kid t c then
      match fetched with Some keys => (t_fetched t, keys) :: sets | None => sets end
    else sets in
  match (key kid t fetched c).2 with
  | Ok k => ∃ at_ keys rest, sets' = (at_, keys) :: rest ∧ keys !! kid = Some k ∧
      t_fresh t < at_ + JWKS_MAX_STALE
  | Err Unavailable => ∀ at_ keys rest, sets' = (at_, keys) :: rest →
      at_ + JWKS_MAX_STALE <= t_stale t
  | Err e => e = Invalid ∧ ∃ at_ keys rest, sets' = (at_, keys) :: rest ∧ keys !! kid = None
  end.
Proof.
  intros Hrun Ht. pose proof (key_run_ok _ _ _ _ (key_run_call _ _ _ _ kid t fetched Hrun Ht))
    as [_ Hf Hk Hap _].
  pose proof (key_run_ok _ _ _ _ Hrun) as [_ Hf0 Hk0 _ _].
  split; [done|]. clear Hap Hrun. destruct Ht as (Ht1 & Ht2 & Ht3).
  set (sets' := if fetches kid t c then _ else sets) in *. cbv zeta.
  assert (0 < JWKS_TTL ∧ JWKS_TTL <= JWKS_MAX_STALE) as [? ?] by done.
  revert Hf Hk. unfold key.
  destruct (if is_some_and (kc_fetched c) _ then kc_keys c !! kid else None) as [k|] eqn:Ehit.
  - cbn [fst snd]. intros Hf Hk.
    destruct (is_some_and (kc_fetched c) _) eqn:Efresh; [|done].
    rewrite Hf in Efresh. destruct sets' as [|[at_ keys] rest]; [done|]. cbn in Efresh, Hk.
    exists at_, keys, rest. rewrite <-Hk. split_and!; [done|done|].
    apply Z.ltb_lt in Efresh. unfold elapsed in Efresh. lia.
  - set (c' := if is_none_or (kc_attempted c) _ then _ else c).
    destruct (is_none_or (kc_fetched c') _) eqn:Est; cbn [fst snd]; intros Hf Hk.
    + intros at_ keys rest E. rewrite Hf, E in Est. cbn in Est.
      apply Z.leb_le in Est. unfold elapsed in Est. lia.
    + rewrite Hf in Est. destruct sets' as [|[at_ keys] rest]; [done|]. cbn in Est, Hk.
      apply Z.leb_gt in Est. unfold elapsed in Est. rewrite Hk.
      destruct (keys !! kid) as [k|] eqn:Ek; cbn.
      * exists at_, keys, rest. split_and!; [done|done|lia].
      * split; [done|]. eauto.
Qed.
End keys.

(** ** Verification *)
Section verify.
Context {Key : Type} (decode_header : string → option Header)
  (decode_jwt : string → Key → Validation → result DecodeError Claims)
  (policy : Policy) (issued_after : Z).

(** What an identity says of the claims it came from. *)
Record identity_is (claims : Claims) (id : RunIdentity) : Prop := {
  ii_iat : issued_after <= cl_iat claims;
  ii_jti : id_jti id = cl_jti claims ∧ 1 <= len (cl_jti claims) <= MAX_JTI;
  ii_repository : id_repository id = cl_repository claims;
  ii_repository_id : parse_u64 (cl_repository_id claims) = Some (id_repository_id id);
  ii_owner_id : parse_u64 (cl_repository_owner_id claims) = Some (id_repository_owner_id id);
  ii_run_id : parse_u64 (cl_run_id claims) = Some (id_run_id id);
  ii_run_attempt : parse_u64 (cl_run_attempt claims) = Some (id_run_attempt id);
  ii_check_run_id : match cl_check_run_id claims with
    | Some s => ∃ n, parse_u64 s = Some n ∧ id_check_run_id id = Some n
    | None => id_check_run_id id = None
    end;
  ii_workflow : id_workflow_ref id = cl_job_workflow_ref claims ∧
    id_workflow_sha id = cl_job_workflow_sha claims ∧
    id_entry_workflow_ref id = cl_workflow_ref claims;
  ii_event : id_event_name id = cl_event_name claims ∧ id_actor id = cl_actor claims;
  ii_admitted : admits policy claims (id_repository_id id) (id_repository_owner_id id) =
    Some (id_admitted_by id, id_consumer id);
}.

Lemma claim_number_Ok s n : claim_number s = Ok n ↔ parse_u64 s = Some n.
Proof. unfold claim_number. destruct (parse_u64 s); cbn; naive_solver. Qed.

Lemma identity_of_Ok claims id : identity_of policy issued_after claims = Ok id ↔ identity_is claims id.
Proof.
  unfold identity_of. split.
  - intros ([] & H1%refuse_if_Ok & H)%bind_Ok.
    apply bind_Ok in H as (rid & H2%claim_number_Ok & H).
    apply bind_Ok in H as (oid & H3%claim_number_Ok & H).
    apply bind_Ok in H as ([form c] & H4 & H).
    apply bind_Ok in H as ([] & H5%refuse_if_Ok & H).
    apply bind_Ok in H as (run & H6%claim_number_Ok & H).
    apply bind_Ok in H as (att & H7%claim_number_Ok & H).
    apply bind_Ok in H as (chk & H8 & [= <-]).
    apply Z.ltb_ge in H1. apply orb_false_iff in H5 as [H5 H5'%Z.ltb_ge].
    destruct (admits policy claims rid oid) as [fc|] eqn:Ha; [|done]. injection H4 as ->.
    split; cbn; try done.
    + split; [done|]. split; [|done]. destruct (cl_jti claims); [done|]. unfold len. cbn. lia.
    + destruct (cl_check_run_id claims) as [s|]; cbn in H8; [|by injection H8 as <-].
      destruct (claim_number s) as [n|] eqn:E; [|done]. injection H8 as <-.
      apply claim_number_Ok in E. eauto.
  - intros [H1 [H2 H2'] H3 H4 H5 H6 H7 H8 (H9 & H10 & H11) (H12 & H13) H14].
    apply claim_number_Ok in H4, H5, H6, H7.
    rewrite (proj2 (Z.ltb_ge _ _) H1). cbn [refuse_if mbind result_bind].
    rewrite H4. cbn [mbind result_bind]. rewrite H5. cbn [mbind result_bind].
    rewrite H14. cbn [ok_or mbind result_bind].
    assert (is_empty (cl_jti claims) || (MAX_JTI <? len (cl_jti claims)) = false) as ->.
    { apply orb_false_iff. split; [|apply Z.ltb_ge; lia].
      destruct (cl_jti claims); [unfold len in H2'; cbn in H2'; lia|done]. }
    cbn [refuse_if mbind result_bind].
    rewrite H6. cbn [mbind result_bind]. rewrite H7. cbn [mbind result_bind].
    assert (transpose_number (cl_check_run_id claims) = Ok (id_check_run_id id)) as ->.
    { unfold transpose_number. destruct (cl_check_run_id claims) as [s|]; [|by rewrite H8].
      destruct H8 as (n & E%claim_number_Ok & ->). by rewrite E. }
    cbn [mbind result_bind]. f_equal. destruct id; cbn in *; by subst.
Qed.

(** C16: a token registers a run exactly when it is of a bounded size, signed
    with RS256 under a key its id names in the cache, the crate verifies it
    under that key for the policy's audience and GitHub's issuer with expiry
    and start checked, it was not issued before the gateway started, an entry
    of the policy admits it, and its claims are well formed; the run it
    registers is then the one its claims name. *)
Theorem verify_spec jwt t fetched c id :
  (verify decode_header decode_jwt policy issued_after jwt t fetched c).2 = Ok id ↔
  ∃ kid k claims,
    len jwt <= MAX_JWT_BYTES ∧ decode_header jwt = Some (mkHeader RS256 (Some kid)) ∧
    (key kid t fetched c).2 = Ok k ∧
    decode_jwt jwt k (mkValidation RS256 [po_audience policy] [GITHUB_ISSUER]
      ["exp"; "nbf"; "iss"; "aud"]%string true LEEWAY_SECS) = Ok claims ∧
    identity_is claims id.
Proof.
  unfold verify. split.
  - destruct (Z.ltb_spec MAX_JWT_BYTES (len jwt)); [done|].
    destruct (decode_header jwt) as [[alg kid]|]; [|done]. cbn [h_alg h_kid].
    destruct (bool_decide_reflect (alg = RS256)) as [->|]; cbn [negb]; [|done].
    destruct kid as [kid|]; [|done].
    destruct (key kid t fetched c) as [c' [k|e]] eqn:Ek; cbn; [|done].
    destruct (decode_jwt jwt k (validation policy)) as [claims|e] eqn:Ed; cbn; [|done].
    intros Hid%identity_of_Ok. exists kid, k, claims. split_and!; try done. by rewrite Ek.
  - intros (kid & k & claims & Hl & Hh & Hk & Hd & Hid).
    rewrite (proj2 (Z.ltb_ge _ _) Hl), Hh. cbn [h_alg h_kid].
    rewrite bool_decide_eq_true_2 by done. cbn [negb].
    destruct (key kid t fetched c) as [c' r]. cbn in Hk. subst r. cbn [snd mbind result_bind].
    unfold validation. rewrite Hd. cbn. by apply identity_of_Ok.
Qed.
End verify.

(** ** Witnesses *)
Definition sample_called : CalledWorkflow :=
  mkCalledWorkflow "owner/actions/.github/workflows/agent.yml" (Some "refs/heads/main"%string) None
    (mkRepositories false {[70]} ∅) None Public.
Definition sample_policy : Policy := mkPolicy "praxis" ∅ ∅ ∅ None ∅ Private [sample_called] None.
Definition sample_claims : Claims :=
  mkClaims 1000 "jti" "caller/repo" "7" "70" "12" "1" None
    "owner/actions/.github/workflows/agent.yml@refs/heads/main" None
    "caller/repo/.github/workflows/ci.yml@refs/heads/main" "push" None.

Lemma admits_spec_witness :
  admits sample_policy sample_claims 7 70 = Some (ByCalledWorkflows, Public) ∧
  ∃ l1 called l2, po_called_workflows sample_policy = l1 ++ called :: l2 ∧
    called_ok called sample_claims 7 70.
Proof.
  pose proof (admits_spec sample_policy sample_claims 7 70 ltac:(vm_compute; reflexivity)) as Hs.
  assert (admits sample_policy sample_claims 7 70 = Some (ByCalledWorkflows, Public)) as E
    by (vm_compute; reflexivity).
  rewrite E in Hs. split; [exact E|].
  destruct Hs as (_ & l1 & called & l2 & El & Hok & _). exists l1, called, l2. split; assumption.
Defined.

Definition sample_clock (n : Z) : Clock := mkClock n n n n n.
Definition sample_cache : KeyCache (Key:=Z) :=
  (key "k" (sample_clock 0) (Some {["k"%string := 5]}) KeyCache_default).1.
(** An hour on, fetches fail, and the key is still trusted. *)
Lemma key_bounded_witness :
  ∃ at_ (keys : gmap string Z) rest, [(0, {["k"%string := 5]})] = (at_, keys) :: rest ∧
    keys !! "k"%string = Some 5 ∧ from_secs 3600 < at_ + JWKS_MAX_STALE.
Proof.
  assert (key_run (Key:=Z) 0 [0] [(0, {["k"%string := 5]})] sample_cache) as Hrun.
  { apply (key_run_call 0 [] [] KeyCache_default "k" (sample_clock 0) (Some {["k"%string := 5]})).
    - constructor.
    - repeat split; vm_compute; discriminate. }
  destruct (key_bounded 0 [0] [(0, {["k"%string := 5]})] sample_cache "k"
    (sample_clock (from_secs 3600)) None Hrun
    ltac:(repeat split; vm_compute; discriminate)) as [_ Hs].
  assert ((key "k" (sample_clock (from_secs 3600)) None sample_cache).2 = Ok 5) as E
    by (vm_compute; reflexivity).
  assert (fetches "k" (sample_clock (from_secs 3600)) sample_cache = true) as E2
    by (vm_compute; reflexivity).
  rewrite E, E2 in Hs. exact Hs.
Defined.
