(* ===== verification/Prices.v ===== *)
(** * List prices

    [praxis-gateway/src/prices.rs]: the pinned table of rates and the cost of
    one response in millionths of a USD, computed in [f64] as the code does. *)
From S2P Require Import Prelude Runs Float64.
Local Open Scope Z_scope.

Definition PRICES : string := "2026-10-24".

(** USD per million tokens. *)
Record Rates := mkRates {
  r_input : f64;
  r_cache_read : f64;
  r_cache_write : f64;
  r_output : f64;
}.
Definition plain (input cache_read output : f64) : Rates :=
  mkRates input cache_read input output.
Definition claude (input cache_read output : f64) : Rates :=
  mkRates input cache_read (fmul input (decimal 125 2)) output.

Record Price := mkPrice {
  p_model : string;
  p_rates : Rates;
  p_long : option (Z * Rates);
}.
Definition price (model : string) (rates : Rates) : Price := mkPrice model rates None.
Definition openai (model : string) (input cache_read output : f64) : Price :=
  mkPrice model (plain input cache_read output)
    (Some (272000, plain (fmul input (decimal 2 0)) (fmul cache_read (decimal 2 0))
       (fmul output (decimal 15 1)))).

(** [usd n k] is the literal of digits [n], [k] of them after the point. *)
Definition usd : Z → Z → f64 := decimal.
Definition TABLE : list Price := [
  price "claude-fable-5-1" (claude (usd 10 0) (usd 25 2) (usd 50 0));
  price "claude-fable-5" (claude (usd 10 0) (usd 1 0) (usd 50 0));
  price "claude-opus-5-5" (claude (usd 4 0) (usd 2 1) (usd 20 0));
  price "claude-opus-5" (claude (usd 5 0) (usd 5 1) (usd 25 0));
  price "claude-opus-4-8" (claude (usd 5 0) (usd 5 1) (usd 25 0));
  price "claude-opus-4-7" (claude (usd 5 0) (usd 5 1) (usd 25 0));
  price "claude-opus-4-6" (claude (usd 5 0) (usd 5 1) (usd 25 0));
  price "claude-sonnet-5-5" (claude (usd 2 0) (usd 2 1) (usd 10 0));
  price "claude-sonnet-5" (claude (usd 2 0) (usd 2 1) (usd 10 0));
  price "claude-sonnet-4-6" (claude (usd 3 0) (usd 3 1) (usd 15 0));
  mkPrice "claude-haiku-5-5" (claude (usd 1 1) (usd 1 2) (usd 5 1))
    (Some (100000, claude (usd 5 1) (usd 5 2) (usd 25 1)));
  price "claude-haiku-4-5" (claude (usd 1 0) (usd 1 1) (usd 5 0));
  mkPrice "gpt-6.1-sol" (mkRates (usd 2 0) (usd 1 1) (usd 25 1) (usd 10 0))
    (Some (272000, mkRates (usd 4 0) (usd 2 1) (usd 5 0) (usd 15 0)));
  openai "gpt-6-sol" (usd 2 0) (usd 2 1) (usd 10 0);
  openai "gpt-6-astra" (usd 10 0) (usd 1 0) (usd 50 0);
  openai "gpt-6-luna" (usd 1 1) (usd 1 2) (usd 5 1);
  price "gpt-5.3-codex" (plain (usd 175 2) (usd 175 3) (usd 14 0));
  price "zai-glm-5-3" (plain (usd 14 1) (usd 14 2) (usd 44 1))
].

(** The closure [date] of [undated]: [model] less a suffix of a dash and
    [n] bytes, dashes at [dashes] and digits elsewhere. *)
Definition date (model : string) (n : nat) (dashes : list nat) : option string :=
  if (n + 1 <=? String.length model)%nat then
    let '(alias, suffix) := split_at (String.length model - (n + 1)) model in
    match suffix with
    | String c rest =>
        then_some
          (ascii_is "-" c &&
           all_enumerate (λ i b,
             if bool_decide (i ∈ dashes) then ascii_is "-" b else is_ascii_digit b) 0 rest)
          alias
    | EmptyString => None
    end
  else None.
Definition undated (model : string) : option string :=
  or_else (date model 8 []) (date model 10 [4; 7]%nat).

Definition find_price (model : string) : option Price :=
  list_find (λ p, p_model p = model) TABLE ≫= λ '(_, p), Some p.
Definition price_of (model : string) : option Price :=
  or_else (find_price model) (undated model ≫= find_price).
(** The rates for the whole of a request whose prompt is [prompt] tokens. *)
Definition rates_for (p : Price) (prompt : Z) : Rates :=
  match p_long p with
  | Some (above, long) => if above <? prompt then long else p_rates p
  | None => p_rates p
  end.
Definition micros (rates : Rates) (u : Usage) : f64 :=
  let t := u_tokens u in
  let cache_write := Z.min (u_cache_write u) (tk_input t) in
  fadd (fadd (fadd
    (fmul (f64_of_u64 (wrap_sub (tk_input t) cache_write)) (r_input rates))
    (fmul (f64_of_u64 cache_write) (r_cache_write rates)))
    (fmul (f64_of_u64 (tk_cache_read t)) (r_cache_read rates)))
    (fmul (f64_of_u64 (tk_output t)) (r_output rates)).
Definition cost (u : Usage) : option Z :=
  u_model u ≫= λ model,
  price_of model ≫= λ p,
  let prompt := sat_add (tk_input (u_tokens u)) (tk_cache_read (u_tokens u)) in
  Some (f64_to_u64 (fround (micros (rates_for p prompt) u))).

(** ** Snapshots *)

(** [-YYYYMMDD] or [-YYYY-MM-DD]. *)
Definition dated (dashes : list nat) (n : nat) (s : string) : bool :=
  match s with
  | String c rest =>
      bool_decide (String.length rest = n) && ascii_is "-" c &&
      all_enumerate (λ i b,
        if bool_decide (i ∈ dashes) then ascii_is "-" b else is_ascii_digit b) 0 rest
  | EmptyString => false
  end.
Definition date_suffix (s : string) : bool := dated [] 8 s || dated [4; 7]%nat 10 s.

Lemma split_at_eq n s : (split_at n s).1 +:+ (split_at n s).2 = s.
Proof.
  revert s; induction n as [|n IH]; intros [|c s]; cbn; [done..|].
  specialize (IH s). destruct (split_at n s) as [a b]. cbn in *. by rewrite IH.
Qed.
Lemma split_at_length n s :
  (n <= String.length s)%nat → String.length (split_at n s).1 = n.
Proof.
  revert s; induction n as [|n IH]; intros [|c s] Hn; cbn in *; [done|done|lia|].
  specialize (IH s ltac:(lia)). destruct (split_at n s) as [a b]. cbn in *. lia.
Qed.

Lemma date_Some s n dashes a :
  date s n dashes = Some a ↔ ∃ r, s = a +:+ r ∧ dated dashes n r = true.
Proof.
  unfold date, dated. split.
  - destruct (Nat.leb_spec (n + 1) (String.length s)) as [Hn|]; [|done].
    pose proof (split_at_eq (String.length s - (n + 1)) s) as E.
    pose proof (split_at_length (String.length s - (n + 1)) s ltac:(lia)) as L.
    destruct (split_at _ s) as [b r]. cbn [fst snd] in *.
    destruct r as [|c r]; [done|]. unfold then_some.
    destruct (ascii_is "-" c && _) eqn:Hd; [|done]. intros [= ->].
    exists (String c r). split; [done|]. rewrite <-andb_assoc, Hd, andb_true_r.
    apply bool_decide_eq_true. rewrite <-E, length_append in Hn, L.
    cbn [String.length] in *. lia.
  - intros (r & -> & Hd). destruct r as [|c r]; [done|].
    rewrite <-andb_assoc in Hd. apply andb_true_iff in Hd as [Hl%bool_decide_eq_true Hd].
    rewrite length_append. cbn [String.length]. rewrite Hl.
    destruct (Nat.leb_spec (n + 1) (String.length a + S n)); [|lia].
    replace (String.length a + S n - (n + 1))%nat with (String.length a) by lia.
    rewrite split_at_app. by rewrite Hd.
Qed.

Lemma dated_length dashes n s : dated dashes n s = true → String.length s = S n.
Proof.
  destruct s as [|c s]; [done|]. cbn [dated String.length].
  rewrite !andb_true_iff. intros [[E%bool_decide_eq_true _] _]. by f_equal.
Qed.
(** The suffixes of a string are told apart by their lengths. *)
Lemma append_inj_length a b r s :
  a +:+ r = b +:+ s → String.length r = String.length s → a = b ∧ r = s.
Proof.
  intros E L. pose proof (f_equal String.length E) as E'. rewrite !length_append in E'.
  revert b E E'. induction a as [|c a IH]; intros [|c' b] E E'; cbn in *; try lia; [done|].
  simplify_eq. destruct (IH b) as [-> ->]; [done|lia|done].
Qed.
(** Both forms of date at once: the shorter starts where the longer has a
    digit. *)
Lemma dated_exclusive a b r s :
  a +:+ r = b +:+ s → dated [] 8 r = true → dated [4; 7]%nat 10 s = true → False.
Proof.
  intros E Hr Hs. pose proof (dated_length _ _ _ Hr) as Lr.
  pose proof (dated_length _ _ _ Hs) as Ls.
  destruct s as [|c1 [|c2 [|c3 s]]]; try discriminate Ls.
  replace (b +:+ String c1 (String c2 (String c3 s)))
    with ((b +:+ String c1 (String c2 EmptyString)) +:+ String c3 s) in E
    by by rewrite <-append_assoc.
  apply append_inj_length in E as [_ ->]; [|cbn in *; lia].
  cbn [dated all_enumerate] in Hr, Hs.
  apply andb_true_iff in Hr as [[_ Hr]%andb_true_iff _].
  apply andb_true_iff in Hs as [_ [_ [Hs _]%andb_true_iff]%andb_true_iff].
  apply ascii_is_true in Hr as ->. discriminate Hs.
Qed.

Lemma undated_Some s a :
  undated s = Some a ↔ ∃ r, s = a +:+ r ∧ date_suffix r = true.
Proof.
  unfold undated, date_suffix. setoid_rewrite orb_true_iff. split.
  - destruct (date s 8 []) as [b|] eqn:E; cbn.
    + intros [= ->]. apply date_Some in E as (r & -> & ?). eauto.
    + intros (r & -> & ?)%date_Some. eauto.
  - intros (r & -> & [Hr|Hr]).
    + by rewrite (proj2 (date_Some _ _ _ a) (ex_intro _ r (conj eq_refl Hr))).
    + destruct (date (a +:+ r) 8 []) as [b|] eqn:E; cbn.
      * apply date_Some in E as (r' & E & Hr'). by destruct (dated_exclusive b a r' r).
      * apply date_Some. eauto.
Qed.

(** ** The table *)
Lemma table_distinct : NoDup (map p_model TABLE).
Proof. apply (bool_decide_eq_true_1 _). vm_compute. reflexivity. Qed.
Lemma table_undated p : p ∈ TABLE → undated (p_model p) = None.
Proof.
  intros Hp. assert (Forall (λ m, undated m = None) (map p_model TABLE)) as Hf.
  { apply (bool_decide_eq_true_1 _). vm_compute. reflexivity. }
  rewrite Forall_forall in Hf. apply Hf, list_elem_of_fmap. eauto.
Qed.

Lemma find_price_Some m p : find_price m = Some p ↔ p ∈ TABLE ∧ p_model p = m.
Proof.
  unfold find_price. split.
  - destruct (list_find _ TABLE) as [[i q]|] eqn:E; [|done]. intros [= ->].
    apply list_find_Some in E as (Hi & ? & _). split; [|done].
    by eapply list_elem_of_lookup_2.
  - intros [Hp <-].
    destruct (list_find_elem_of (λ q, p_model q = p_model p) TABLE p) as [[i q] E];
      [done..|]. rewrite E. cbn. f_equal.
    apply list_find_Some in E as (Hi & Hm & _).
    apply list_elem_of_lookup in Hp as [j Hj].
    pose proof (NoDup_lookup _ i j (p_model p) table_distinct) as Hij.
    rewrite !list_lookup_fmap, Hi, Hj in Hij. cbn in Hij. rewrite Hm in Hij.
    rewrite (Hij eq_refl eq_refl) in Hi. congruence.
Qed.

Definition prompt_of (u : Usage) : Z :=
  sat_add (tk_input (u_tokens u)) (tk_cache_read (u_tokens u)).
Lemma rates_for_spec p prompt rates :
  rates_for p prompt = rates ↔
  (∃ above, p_long p = Some (above, rates) ∧ above < prompt) ∨
  (rates = p_rates p ∧ ∀ above long, p_long p = Some (above, long) → prompt <= above).
Proof.
  unfold rates_for. destruct (p_long p) as [[above long]|].
  - destruct (Z.ltb_spec above prompt); split.
    + intros <-. left. by exists above.
    + intros [(? & [= -> ->] & _)|(_ & Hle)]; [done|]. specialize (Hle above long eq_refl). lia.
    + intros <-. right. split; [done|]. by intros ? ? [= -> ->].
    + intros [(? & [= -> ->] & ?)|(-> & _)]; [lia|done].
  - split; [intros <-; by right|]. by intros [(? & ? & _)|(-> & _)].
Qed.
Lemma cost_rates u c :
  cost u = Some c ↔
  ∃ p s, p ∈ TABLE ∧ u_model u = Some (p_model p +:+ s) ∧
    (s = EmptyString ∨ date_suffix s = true) ∧
    c = f64_to_u64 (fround (micros (rates_for p (prompt_of u)) u)).
Proof.
  unfold cost, price_of. split.
  - destruct (u_model u) as [m|]; [|done]. cbn [mbind option_bind].
    destruct (find_price m) as [p|] eqn:E; cbn [or_else mbind option_bind].
    + apply find_price_Some in E as [? <-]. intros [= <-].
      exists p, EmptyString. rewrite append_nil_r. auto.
    + destruct (undated m) as [a|] eqn:Eu; [|done]. cbn [mbind option_bind].
      apply undated_Some in Eu as (s & -> & ?).
      destruct (find_price a) as [p|] eqn:Ea; [|done]. cbn [mbind option_bind].
      apply find_price_Some in Ea as [? <-]. intros [= <-]. exists p, s. auto.
  - intros (p & s & Hp & -> & Hs & ->). cbn [mbind option_bind].
    destruct Hs as [->|Hs].
    + rewrite append_nil_r. by rewrite (proj2 (find_price_Some _ p) (conj Hp eq_refl)).
    + assert (undated (p_model p +:+ s) = Some (p_model p)) as Hu
        by (apply undated_Some; eauto).
      destruct (find_price (p_model p +:+ s)) as [q|] eqn:Eq.
      * apply find_price_Some in Eq as [Hq E]. apply table_undated in Hq.
        rewrite E in Hq. congruence.
      * rewrite Hu. cbn [or_else mbind option_bind].
        by rewrite (proj2 (find_price_Some _ p) (conj Hp eq_refl)).
Qed.

(** ** Properties *)

(** C40: a response is priced exactly when the model it names is a model of
    the table, or one followed by a snapshot date in either provider's form,
    and the price is that model's, never that of another model whose name it
    extends. All of its tokens have the model's long-context rates exactly
    when its prompt, cached or not, is over the model's threshold, if it has
    one; at the threshold and below they have the model's own. *)
Theorem cost_spec u c :
  cost u = Some c ↔
  ∃ p s rates, p ∈ TABLE ∧ u_model u = Some (p_model p +:+ s) ∧
    (s = EmptyString ∨ date_suffix s = true) ∧
    (let prompt := sat_add (tk_input (u_tokens u)) (tk_cache_read (u_tokens u)) in
     (∃ above, p_long p = Some (above, rates) ∧ above < prompt) ∨
     (rates = p_rates p ∧ ∀ above long, p_long p = Some (above, long) → prompt <= above)) ∧
    c = f64_to_u64 (fround (micros rates u)).
Proof.
  cbv zeta. setoid_rewrite <-rates_for_spec. rewrite cost_rates. split.
  - intros (p & s & ? & ? & ? & ->). by exists p, s, (rates_for p (prompt_of u)).
  - intros (p & s & rates & ? & ? & ? & <- & ->). by exists p, s.
Qed.

Lemma cost_u64 u c : cost u = Some c → is_u64 c.
Proof.
  unfold cost. destruct (u_model u) as [m|]; [|done]; cbn.
  destruct (price_of m) as [p|]; [|done]; cbn.
  intros [= <-]. apply f64_to_u64_is_u64.
Qed.

(** The table's models are named once, and their rates are ordered. *)
Definition rates_ordered (r : Rates) : bool :=
  flt fzero (r_cache_read r) && flt (r_cache_read r) (r_input r) &&
  fle (r_input r) (r_cache_write r) && flt (r_input r) (r_output r) &&
  is_finite (r_cache_write r) && is_finite (r_output r).
Lemma table_ordered :
  forallb (λ p, rates_ordered (p_rates p) && is_none_or (p_long p) (λ '(_, r), rates_ordered r))
    TABLE = true.
Proof. vm_compute. reflexivity. Qed.

(** ** Known prices *)
Definition priced_usage (m : string) (input cache_read cache_write output : Z) : Usage :=
  mkUsage (mkTokens input cache_read output 0 (input + cache_read + output)) (Some m)
    cache_write.
Example sol_costs :
  map cost [priced_usage "gpt-6.1-sol" 16 0 0 5; priced_usage "gpt-6.1-sol" 2000 2000 1000 10;
    priced_usage "gpt-6.1-sol" 200000 100000 0 1000; priced_usage "gpt-6.1-sol" 0 0 0 0;
    priced_usage "gpt-6.1-sol-2026-09-29" 16 0 0 5; priced_usage "gpt-6.1-sol-2026-0929" 1 0 0 1]
  = [Some 82; Some 4800; Some 835000; Some 0; Some 82; None].
Proof. vm_compute. reflexivity. Qed.
Example claude_costs :
  map cost [priced_usage "claude-opus-5-5" 1050 5000 1000 100;
    priced_usage "claude-haiku-5-5" 100001 0 0 0; priced_usage "claude-opus-5-5" 10 0 50 0;
    priced_usage "claude-haiku-4-5-20251001" 1000000 0 0 0; priced_usage "-20251001" 1 0 0 1]
  = [Some 8200; Some 50001; Some 50; Some 1000000; None].
Proof. vm_compute. reflexivity. Qed.
