(* ===== verification/Budget.v ===== *)
(** * Budget grants

    [praxis-gateway/src/budget.rs]: a window's reading and what each consumer
    was charged of it, the budget policy and its checks, and the grant served
    to a consumer.  The YAML parser and the file are arguments; an error is
    the constructor of its message. *)
From S2P Require Import Prelude Pools Float64.
Local Open Scope Z_scope.

Definition GRANT_SCHEMA : string := "praxis-broker-grant/v1".
Definition FIVE_HOURS : Z := 5 * 3600.
Definition WEEK : Z := 7 * 24 * 3600.
Definition LEAD : f64 := decimal 1 1.
Definition MISTRAL_WINDOW : string := "spend_7d".
Definition percent_100 : f64 := decimal 100 0.

(** ** Readings *)
Record Reading := mkReading {
  rd_used_percent : f64;
  rd_resets_at : Z;
  rd_window_secs : Z;
}.
Record Attributed := mkAttributed {
  att_reading : Reading;
  att_observed_at : Z;
  att_part_way : bool;
  att_restored : bool;
  att_loaded_at : Z;
  att_used : per_consumer f64;
}.

Definition charge (previous : option Attributed) (reading : Reading)
    (consumer : Consumer) (now : Z) : Attributed :=
  let used := both_consumers fzero in
  let '(used, part_way) :=
    match previous with
    | Some previous =>
        if now <? rd_resets_at (att_reading previous) then
          let used := att_used previous in
          let rise := fsub (rd_used_percent reading)
            (rd_used_percent (att_reading previous)) in
          (set_consumer used consumer (fadd (at_consumer used consumer) (fmax rise fzero)),
           att_part_way previous)
        else (set_consumer used consumer (rd_used_percent reading), false)
    | None => (both_consumers (rd_used_percent reading), fgt (rd_used_percent reading) fzero)
    end in
  mkAttributed reading now part_way false 0 used.

Definition restore (self : Attributed) (now : Z) : Attributed :=
  mkAttributed (att_reading self) (att_observed_at self) (att_part_way self) true now
    (att_used self).

(** The window after, and what the call returns. *)
Definition clamp_observed_at (self : Attributed) (now : Z) : Attributed * option Z :=
  if now <? att_observed_at self then
    (mkAttributed (att_reading self) now (att_part_way self) (att_restored self)
       (att_loaded_at self) (att_used self), Some (att_observed_at self))
  else (self, None).

Inductive AttributedError := UsedPercentRange | WindowNotPositive | UsedNotFinite.
Definition Attributed_validate (self : Attributed) : result AttributedError unit :=
  refuse_if (negb (in_range fzero percent_100 (rd_used_percent (att_reading self))))
    UsedPercentRange ≫= λ _,
  refuse_if (rd_window_secs (att_reading self) =? 0) WindowNotPositive ≫= λ _,
  refuse_if
    (existsb (λ c, let n := at_consumer (att_used self) c in
                   negb (is_finite n) || flt n fzero) all_consumers) UsedNotFinite.

(** ** The policy *)
Record BudgetFile := mkBudgetFile {
  bf_shares : gmap Consumer (gmap Provider f64);
  bf_mistral_weekly_usd : option f64;
}.
Record Budget := mkBudget {
  shares : gmap Consumer (gmap Provider f64);
  mistral_weekly_usd : option f64;
}.
Inductive BudgetError :=
| ShareRange (pool : Provider)
| SharesOver (pool : Provider) (total : f64)
| CapNotPositive
| CapMissing
| NotYaml (e : string).

(** A [BTreeMap] keyed by consumer, in its iteration order. *)
Definition by_consumers {A} (m : gmap Consumer A) : list (Consumer * A) :=
  omap (λ c, pair c <$> m !! c) all_consumers.

(** The loop over one consumer's shares. *)
Fixpoint add_shares (pools : list (Provider * f64)) (totals : gmap Provider f64)
    : result BudgetError (gmap Provider f64) :=
  match pools with
  | [] => Ok totals
  | (pool, share) :: pools =>
      if negb (in_range fzero percent_100 share) then Err (ShareRange pool)
      else add_shares pools
             (<[pool := fadd (default fzero (totals !! pool)) share]> totals)
  end.
Fixpoint add_consumers (file : list (Consumer * gmap Provider f64))
    (totals : gmap Provider f64) : result BudgetError (gmap Provider f64) :=
  match file with
  | [] => Ok totals
  | (_, pools) :: file => add_shares (by_provider pools) totals ≫= add_consumers file
  end.

Definition check_budget (file : BudgetFile) : result BudgetError Budget :=
  add_consumers (by_consumers (bf_shares file)) ∅ ≫= λ totals,
  match list_find (λ '(_, total), fgt total percent_100 = true) (by_provider totals) with
  | Some (_, (pool, total)) => Err (SharesOver pool total)
  | None =>
      let cap := bf_mistral_weekly_usd file in
      if is_some_and cap (λ cap, negb (is_finite cap && fgt cap fzero))
      then Err CapNotPositive
      else if is_some (totals !! Mistral) && is_none cap then Err CapMissing
      else Ok (mkBudget (bf_shares file) cap)
  end.

Inductive ReadError := NotFound | OtherError (e : string).

Section parse.
Context (from_yaml : string → result string BudgetFile).

Definition parse (text : string) : result BudgetError Budget :=
  map_err NotYaml (from_yaml text) ≫= check_budget.
(** [read] is what reading the file at the path returns. *)
Definition load (read : result ReadError string) : result (string + BudgetError) (option Budget) :=
  match read with
  | Ok text => map_err inr (Some <$> parse text)
  | Err NotFound => Ok None
  | Err (OtherError e) => Err (inl e)
  end.
End parse.

(** ** Grants *)
Record WindowGrant := mkWindowGrant {
  wg_share_percent : f64;
  wg_allowed_percent : f64;
  wg_used_percent : f64;
  wg_resets_at : option Z;
  wg_hold : bool;
}.
Record PoolGrant := mkPoolGrant {
  pg_hold : bool;
  pg_stale : bool;
  pg_windows : gmap string WindowGrant;
}.
Definition PoolGrant_default : PoolGrant := mkPoolGrant false false ∅.
Record Grant := mkGrant {
  g_schema : string;
  g_consumer : Consumer;
  g_observed_at : Z;
  g_hold : bool;
  g_pools : gmap Provider PoolGrant;
}.
Record Window := mkWindow {
  w_used_percent : f64;
  w_start : Z;
  w_secs : Z;
  w_resets_at : option Z;
  w_stale : bool;
}.

Definition allowed (self : Window) (share : f64) (now : Z) : f64 :=
  if FIVE_HOURS <? w_secs self then
    let elapsed := fdiv (f64_of_u64 (sat_sub now (w_start self))) (f64_of_u64 (w_secs self)) in
    fmul share (fmin (fadd elapsed LEAD) (decimal 1 0))
  else share.
Definition round2 (n : f64) : f64 := fdiv (fround (fmul n percent_100)) percent_100.
Definition Window_grant (self : Window) (share : f64) (now : Z) : WindowGrant :=
  let allowed := allowed self share now in
  let hold := w_stale self || fgt (w_used_percent self) allowed in
  mkWindowGrant share (round2 allowed) (round2 (w_used_percent self)) (w_resets_at self) hold.

Record MistralSpend := mkMistralSpend { ms_micros : Z; ms_since : Z }.

(** A window the gateway keeps, by pool and name. *)
Definition named_window : Type := Provider * string * option Attributed.

(** What the grant reads of a window: [None] for the two [continue]s. *)
Definition read_window (consumer : Consumer) (now : Z) (window : option Attributed)
    : option Window :=
  window ≫= λ window,
  let reading := att_reading window in
  if att_restored window && (rd_resets_at reading <=? now) then None
  else
    let old := FIVE_HOURS <?
      sat_sub now (Z.max (att_observed_at window) (att_loaded_at window)) in
    Some (mkWindow (at_consumer (att_used window) consumer)
      (sat_sub (rd_resets_at reading) (rd_window_secs reading))
      (rd_window_secs reading) (Some (rd_resets_at reading))
      (att_part_way window || old)).

Section grant.
Context (self : Budget) (consumer : Consumer) (windows : list named_window)
  (mistral : option MistralSpend) (now : Z).

Definition spend_window (cap : f64) (spend : MistralSpend) : Window :=
  mkWindow
    (fmul (fdiv (f64_of_u64 (ms_micros spend)) (fmul cap (decimal 1000000 0))) percent_100)
    (ms_since spend) WEEK None false.
(** The vector [read] of a pool. *)
Definition pool_reads (pool : Provider) : list (string * Window) :=
  (if bool_decide (pool = Mistral) then
     match mistral_weekly_usd self, mistral with
     | Some cap, Some spend => [(MISTRAL_WINDOW, spend_window cap spend)]
     | _, _ => []
     end
   else []) ++
  omap (λ '(p, name, window),
    if bool_decide (p = pool) then pair name <$> read_window consumer now window else None)
    windows.

(** The inner loop's body, on the pool's grant and the grant's [hold]. *)
Definition add_window (share : f64) (acc : PoolGrant * bool) (r : string * Window)
    : PoolGrant * bool :=
  let '(pool_grant, hold) := acc in
  let '(name, window) := r in
  let window_grant := Window_grant window share now in
  (mkPoolGrant (pg_hold pool_grant || wg_hold window_grant)
     (pg_stale pool_grant || w_stale window)
     (<[name := window_grant]> (pg_windows pool_grant)),
   hold || (wg_hold window_grant && negb (w_stale window))).
(** The outer loop's body. *)
Definition add_pool (grant : Grant) (entry : Provider * f64) : Grant :=
  let '(pool, share) := entry in
  let '(pool_grant, hold) :=
    match pool_reads pool with
    | [] => (mkPoolGrant true true ∅, g_hold grant)
    | read => foldl (add_window share) (PoolGrant_default, g_hold grant) read
    end in
  mkGrant (g_schema grant) (g_consumer grant) (g_observed_at grant) hold
    (<[pool := pool_grant]> (g_pools grant)).

Definition grant : Grant :=
  match shares self !! consumer with
  | None => mkGrant GRANT_SCHEMA consumer now true ∅
  | Some shares =>
      foldl add_pool (mkGrant GRANT_SCHEMA consumer now false ∅) (by_provider shares)
  end.
End grant.
