(* ===== verification/BudgetGrants.v ===== *)
(** * Budget grants: what they promise

    Charges never lower a figure's sign or touch another consumer's; the
    policy's checks are those its comments give; a grant holds exactly when a
    fresh window is over its allowance, and depends on nothing of the other
    consumer. *)
From S2P Require Import Prelude Pools Float64 Budget.
Local Open Scope Z_scope.

(** ** Charges *)
Definition other (c : Consumer) : Consumer :=
  match c with Public => Private | Private => Public end.

(** A window as a reading can leave it, or a checked state file. *)
Definition att_ok (a : Attributed) : Prop :=
  in_range fzero percent_100 (rd_used_percent (att_reading a)) = true ∧
  rd_window_secs (att_reading a) ≠ 0 ∧
  ∀ c, nonneg (at_consumer (att_used a) c) = true.

Lemma validate_spec a :
  Attributed_validate a = Ok tt ↔
  att_ok a ∧ ∀ c, is_finite (at_consumer (att_used a) c) = true.
Proof.
  unfold Attributed_validate, att_ok. destruct a as [[u r w] o p rs l [x y]].
  cbn [att_reading rd_used_percent rd_window_secs att_used existsb all_consumers
    at_consumer at_public at_private].
  destruct (in_range _ _ u); cbn [negb refuse_if mbind result_bind]; [|naive_solver].
  destruct (Z.eqb_spec w 0) as [->|]; cbn [negb refuse_if mbind result_bind]; [naive_solver|].
  rewrite refuse_if_Ok, !orb_false_iff, !negb_false_iff. split.
  - intros ([F1 L1] & [F2 L2] & _).
    split; [split_and!; [done..|]|]; intros []; cbn; try done; rewrite nonneg_spec.
    + rewrite L1. by destruct x.
    + rewrite L2. by destruct y.
  - intros [(_ & _ & Hn) Hf]. pose proof (Hf Public). pose proof (Hf Private).
    pose proof (Hn Public) as N1. pose proof (Hn Private) as N2. cbn in *.
    rewrite nonneg_spec, negb_true_iff, orb_false_iff in N1, N2. naive_solver.
Qed.

(** A charge replaces the reading, keeps every window well formed, and
    charges: before the previous reading's reset the consumer whose request
    was answered, and no other, the rise since that reading, if it rose;
    after it that consumer alone, with the whole reading; and, with no
    previous reading, both consumers with all of it, the window then being
    part-way unless nothing of it was used. *)
Theorem charge_spec previous reading c now :
  let a := charge previous reading c now in
  att_reading a = reading ∧ att_observed_at a = now ∧ att_restored a = false ∧
  (in_range fzero percent_100 (rd_used_percent reading) = true →
   rd_window_secs reading ≠ 0 →
   (∀ p, previous = Some p → att_ok p) → att_ok a) ∧
  match previous with
  | Some p =>
      if now <? rd_resets_at (att_reading p) then
        att_part_way a = att_part_way p ∧
        at_consumer (att_used a) (other c) = at_consumer (att_used p) (other c) ∧
        at_consumer (att_used a) c =
          fadd (at_consumer (att_used p) c)
            (fmax (fsub (rd_used_percent reading) (rd_used_percent (att_reading p))) fzero)
      else
        att_part_way a = false ∧
        at_consumer (att_used a) c = rd_used_percent reading ∧
        at_consumer (att_used a) (other c) = fzero
  | None =>
      att_part_way a = flt fzero (rd_used_percent reading) ∧
      ∀ c', at_consumer (att_used a) c' = rd_used_percent reading
  end.
Proof.
  intros a. unfold a, charge, att_ok. destruct previous as [p|].
  - destruct (now <? _); cbn.
    + split_and!; try done; [|by destruct c|by destruct c].
      intros Hr Hw Hp. destruct (Hp p eq_refl) as (_ & _ & Hn).
      split_and!; [done..|]. intros c'. rewrite at_set_consumer. case_decide; [|done].
      apply fadd_nonneg; [done|apply fmax_zero_nonneg].
    + split_and!; try done; [|by destruct c..].
      intros Hr Hw _. split_and!; [done..|]. intros c'. rewrite at_set_consumer.
      case_decide; [by eapply in_range_nonneg|by destruct c'].
  - cbn. split_and!; try done; [|by intros []].
    intros Hr Hw _. split_and!; [done..|]. intros []; by eapply in_range_nonneg.
Qed.

(** ** The policy's checks *)

Definition share_of (file : BudgetFile) (c : Consumer) (pool : Provider) : option f64 :=
  bf_shares file !! c ≫= λ pools, pools !! pool.
(** The sum of a pool's shares, in the order of the consumers. *)
Definition total_share (file : BudgetFile) (pool : Provider) : option f64 :=
  match share_of file Public pool, share_of file Private pool with
  | Some a, Some b => Some (fadd (fadd fzero a) b)
  | Some a, None => Some (fadd fzero a)
  | None, Some b => Some (fadd fzero b)
  | None, None => None
  end.
Definition add_share (pools : gmap Provider f64) (pool : Provider) (total : option f64)
    : option f64 :=
  match pools !! pool with
  | Some share => Some (fadd (default fzero total) share)
  | None => total
  end.
Definition shares_ok (pools : gmap Provider f64) : Prop :=
  ∀ pool share, pools !! pool = Some share → in_range fzero percent_100 share = true.

Lemma add_shares_spec l totals :
  NoDup l.*1 →
  match add_shares l totals with
  | Ok totals' =>
      Forall (λ '(_, share), in_range fzero percent_100 share = true) l ∧
      ∀ pool, totals' !! pool = add_share (list_to_map l) pool (totals !! pool)
  | Err e => ∃ pool share, (pool, share) ∈ l ∧
      in_range fzero percent_100 share = false ∧ e = ShareRange pool
  end.
Proof.
  revert totals. induction l as [|[pool share] l IH]; intros totals; cbn [add_shares].
  { intros _. split; [done|]. intros pool. unfold add_share.
    by rewrite (lookup_empty pool : (list_to_map [] : gmap Provider f64) !! pool = None). }
  rewrite fmap_cons, NoDup_cons. intros [Hnin Hnd].
  destruct (in_range fzero percent_100 share) eqn:Er; cbn [negb].
  2: { exists pool, share. split_and!; [by left|done|done]. }
  specialize (IH (<[pool:=fadd (default fzero (totals !! pool)) share]> totals) Hnd).
  destruct (add_shares l _) as [totals'|e].
  - destruct IH as [Hf Ht]. split; [by constructor|]. intros q. rewrite Ht.
    unfold add_share. rewrite list_to_map_cons.
    destruct (decide (pool = q)) as [<-|].
    + rewrite !lookup_insert_eq, not_elem_of_list_to_map_1 by done. done.
    + by rewrite !lookup_insert_ne by done.
  - destruct IH as (q & s & Hq & ? & ->). exists q, s. split_and!; [by right|done|done].
Qed.

Lemma NoDup_by_provider {A} (m : gmap Provider A) : NoDup (by_provider m).*1.
Proof.
  assert (∀ l, NoDup l → NoDup (omap (λ p, pair p <$> m !! p) l).*1 ∧
    ∀ p, p ∈ (omap (λ p, pair p <$> m !! p) l).*1 → p ∈ l) as H.
  { induction l as [|p l IH]; [by split; [constructor|]|].
    rewrite NoDup_cons. intros [Hp Hl]. destruct (IH Hl) as [Hn Hs]. cbn.
    destruct (m !! p); cbn.
    - split; [constructor; [by intros ?%Hs|done]|].
      intros q [->|?]%elem_of_cons; [by left|right; by apply Hs].
    - split; [done|]. intros q ?. right. by apply Hs. }
  apply H. by apply (bool_decide_eq_true_1 _).
Qed.
Lemma by_provider_to_map {A} (m : gmap Provider A) : list_to_map (by_provider m) = m.
Proof.
  apply map_eq. intros p. destruct (m !! p) as [a|] eqn:E.
  - apply elem_of_list_to_map_1; [apply NoDup_by_provider|by apply elem_of_by_provider].
  - apply not_elem_of_list_to_map_1. intros ([q a] & -> & Hq)%list_elem_of_fmap.
    apply elem_of_by_provider in Hq. cbn in E. congruence.
Qed.

Lemma add_shares_pools m totals :
  match add_shares (by_provider m) totals with
  | Ok totals' => shares_ok m ∧ ∀ pool, totals' !! pool = add_share m pool (totals !! pool)
  | Err e => ¬ shares_ok m
  end.
Proof.
  pose proof (add_shares_spec (by_provider m) totals (NoDup_by_provider m)) as H.
  rewrite by_provider_to_map in H. destruct (add_shares _ _) as [t|e].
  - destruct H as [Hf ?]. split; [|done]. intros pool share Hs.
    apply elem_of_by_provider in Hs. rewrite Forall_forall in Hf. apply (Hf _ Hs).
  - destruct H as (pool & share & Hs%elem_of_by_provider & Hr & _). intros Hok.
    rewrite (Hok _ _ Hs) in Hr. done.
Qed.
Lemma add_consumers_spec l totals :
  match add_consumers l totals with
  | Ok totals' => Forall (λ '(_, m), shares_ok m) l ∧
      ∀ pool, totals' !! pool = foldl (λ o '(_, m), add_share m pool o) (totals !! pool) l
  | Err e => ¬ Forall (λ '(_, m), shares_ok m) l
  end.
Proof.
  revert totals. induction l as [|[c m] l IH]; intros totals; cbn [add_consumers]; [done|].
  pose proof (add_shares_pools m totals) as Hm.
  destruct (add_shares (by_provider m) totals) as [t|e]; cbn [mbind result_bind].
  - destruct Hm as [Hm Ht]. specialize (IH t). destruct (add_consumers l t) as [t'|e].
    + destruct IH as [? Ht']. split; [by constructor|]. intros pool. cbn.
      by rewrite Ht', Ht.
    + by intros [_ ?]%Forall_cons.
  - by intros [? _]%Forall_cons.
Qed.

(** The checks of the policy's comments. *)
Definition budget_ok (file : BudgetFile) : Prop :=
  (∀ c pool share, share_of file c pool = Some share →
     in_range fzero percent_100 share = true) ∧
  (∀ pool total, total_share file pool = Some total → fgt total percent_100 = false) ∧
  (∀ cap, bf_mistral_weekly_usd file = Some cap →
     is_finite cap = true ∧ fgt cap fzero = true) ∧
  (is_Some (total_share file Mistral) → is_Some (bf_mistral_weekly_usd file)).

Lemma check_totals file :
  match add_consumers (by_consumers (bf_shares file)) ∅ with
  | Ok totals =>
      (∀ c pool share, share_of file c pool = Some share →
         in_range fzero percent_100 share = true) ∧
      ∀ pool, totals !! pool = total_share file pool
  | Err e => ¬ ∀ c pool share, share_of file c pool = Some share →
         in_range fzero percent_100 share = true
  end.
Proof.
  assert (Forall (λ '(_, m), shares_ok m) (by_consumers (bf_shares file)) ↔
    ∀ c pool share, share_of file c pool = Some share →
      in_range fzero percent_100 share = true) as Hiff.
  { unfold by_consumers, all_consumers, share_of, shares_ok. cbn [omap list_omap]. split.
    - intros Hf [] pool share; destruct (bf_shares file !! Public),
        (bf_shares file !! Private); cbn in *; rewrite ?Forall_cons in Hf; naive_solver.
    - intros Hf. pose proof (Hf Public) as Hpub. pose proof (Hf Private) as Hpriv.
      destruct (bf_shares file !! Public), (bf_shares file !! Private); cbn in *;
        rewrite ?Forall_cons; naive_solver. }
  pose proof (add_consumers_spec (by_consumers (bf_shares file)) ∅) as H.
  destruct (add_consumers _ _) as [totals|e]; rewrite Hiff in H; [|done].
  destruct H as [? Ht]. split; [done|]. intros pool. rewrite Ht, lookup_empty.
  unfold by_consumers, all_consumers, total_share, share_of. cbn [omap list_omap].
  destruct (bf_shares file !! Public) as [m1|], (bf_shares file !! Private) as [m2|]; cbn;
    unfold add_share; try destruct (m1 !! pool); try destruct (m2 !! pool); done.
Qed.

Lemma check_budget_spec file b :
  check_budget file = Ok b ↔
  budget_ok file ∧ b = mkBudget (bf_shares file) (bf_mistral_weekly_usd file).
Proof.
  unfold check_budget, budget_ok. pose proof (check_totals file) as Ht.
  destruct (add_consumers _ _) as [totals|e]; cbn [mbind result_bind]; [|naive_solver].
  destruct Ht as [Hr Ht].
  destruct (list_find _ (by_provider totals)) as [[i [pool total]]|] eqn:Ef.
  { apply list_find_Some in Ef as (Hi & Hgt & _). split; [done|].
    intros [(_ & Hover & _) _]. apply list_elem_of_lookup_2, elem_of_by_provider in Hi.
    rewrite Ht in Hi. specialize (Hover _ _ Hi). congruence. }
  assert (∀ pool total, total_share file pool = Some total → fgt total percent_100 = false)
    as Hover.
  { intros pool total. rewrite <-Ht, <-elem_of_by_provider. intros Hin.
    apply list_find_None in Ef. rewrite Forall_forall in Ef. specialize (Ef _ Hin).
    cbn in Ef. by apply not_true_iff_false. }
  rewrite (Ht Mistral). clear Ef Ht.
  destruct (bf_mistral_weekly_usd file) as [cap|]; cbn [is_some_and is_none].
  - rewrite andb_false_r.
    destruct (is_finite cap) eqn:E1, (fgt cap fzero) eqn:E2; cbn [andb negb].
    2-4: split; [done|]; intros [(_ & _ & Hc & _) _]; destruct (Hc cap eq_refl); congruence.
    split; [intros [= <-]|intros [_ ->]]; [|done].
    split_and!; [done|done|by intros ? [= <-]|by intros _; eexists|done].
  - rewrite andb_true_r. destruct (total_share file Mistral); cbn.
    + split; [done|]. intros [(_ & _ & _ & Hm) _]. by destruct Hm.
    + split; [intros [= <-]|intros [_ ->]]; [|done].
      split_and!; [done..|by intros []|done].
Qed.

(** A policy is accepted exactly when every share is 0 to 100 percent,
    no pool's shares add up to more than the whole, the Mistral cap, if
    given, is a positive number, and it is given if anyone has a share of
    Mistral; it is then the policy as written. *)
Theorem parse_spec from_yaml text b :
  parse from_yaml text = Ok b ↔
  ∃ file, from_yaml text = Ok file ∧ budget_ok file ∧
    b = mkBudget (bf_shares file) (bf_mistral_weekly_usd file).
Proof.
  unfold parse. rewrite bind_Ok. setoid_rewrite check_budget_spec. unfold map_err.
  destruct (from_yaml text) as [f|]; naive_solver.
Qed.

(** ** What a pool's grant says *)
Section pools.
Context (self : Budget) (c : Consumer) (ws : list named_window)
  (mistral : option MistralSpend) (now : Z).

(** A window over its allowance. *)
Definition over (share : f64) (w : Window) : bool :=
  fgt (w_used_percent w) (allowed w share now).
(** A fresh one: the only kind that holds the whole grant. *)
Definition fresh_over (share : f64) (r : string * Window) : bool :=
  over share r.2 && negb (w_stale r.2).

Lemma add_windows share l pg hold :
  foldl (add_window now share) (pg, hold) l =
  (mkPoolGrant
     (pg_hold pg || existsb (λ r, w_stale r.2 || over share r.2) l)
     (pg_stale pg || existsb (λ r, w_stale r.2) l)
     (foldl (λ m r, <[r.1 := Window_grant r.2 share now]> m) (pg_windows pg) l),
   hold || existsb (fresh_over share) l).
Proof.
  revert pg hold. induction l as [|[name w] l IH]; intros [h s m] hold.
  { cbn. by rewrite !orb_false_r. }
  cbn [foldl add_window]. rewrite IH. cbn. unfold fresh_over. cbn. f_equal; [f_equal|].
  - by rewrite !orb_assoc.
  - by rewrite !orb_assoc.
  - rewrite <-orb_assoc. f_equal. f_equal. unfold over. by destruct (w_stale w), (fgt _ _).
Qed.

Definition pool_grant (pool : Provider) (share : f64) : PoolGrant :=
  if decide (pool_reads self c ws mistral now pool = []) then mkPoolGrant true true ∅
  else mkPoolGrant
    (existsb (λ r, w_stale r.2 || over share r.2) (pool_reads self c ws mistral now pool))
    (existsb (λ r, w_stale r.2) (pool_reads self c ws mistral now pool))
    (foldl (λ m r, <[r.1 := Window_grant r.2 share now]> m) ∅ (pool_reads self c ws mistral now pool)).

Lemma add_pool_eq g pool share :
  add_pool self c ws mistral now g (pool, share) =
  mkGrant (g_schema g) (g_consumer g) (g_observed_at g)
    (g_hold g || existsb (fresh_over share) (pool_reads self c ws mistral now pool))
    (<[pool := pool_grant pool share]> (g_pools g)).
Proof.
  unfold add_pool, pool_grant. destruct (pool_reads _ _ _ _ _ pool) as [|r l].
  - cbn. by rewrite orb_false_r.
  - rewrite add_windows. cbn. done.
Qed.
Lemma add_pools_eq l g :
  foldl (add_pool self c ws mistral now) g l =
  mkGrant (g_schema g) (g_consumer g) (g_observed_at g)
    (g_hold g || existsb (λ '(pool, share), existsb (fresh_over share) (pool_reads self c ws mistral now pool)) l)
    (foldl (λ m '(pool, share), <[pool := pool_grant pool share]> m) (g_pools g) l).
Proof.
  revert g. induction l as [|[pool share] l IH]; intros g.
  { destruct g. cbn. by rewrite orb_false_r. }
  cbn [foldl]. rewrite add_pool_eq, IH. cbn. by rewrite orb_assoc.
Qed.
End pools.

Lemma foldl_insert_lookup {A B} (f : Provider → A → B) (l : list (Provider * A)) (m : gmap Provider B) p :
  NoDup l.*1 →
  foldl (λ m '(k, a), <[k := f k a]> m) m l !! p =
  match (list_to_map l : gmap Provider A) !! p with
  | Some a => Some (f p a)
  | None => m !! p
  end.
Proof.
  revert m. induction l as [|[k a] l IH]; intros m; [done|].
  rewrite fmap_cons, NoDup_cons. intros [Hk Hl]. cbn [foldl]. rewrite IH by done.
  rewrite list_to_map_cons. destruct (decide (k = p)) as [->|].
  - rewrite !lookup_insert_eq. by rewrite not_elem_of_list_to_map_1 by done.
  - by rewrite !lookup_insert_ne by done.
Qed.

Lemma grant_eq self c ws mistral now ss :
  shares self !! c = Some ss →
  let g := grant self c ws mistral now in
  g_hold g = existsb (λ '(pool, share),
      existsb (fresh_over now share) (pool_reads self c ws mistral now pool))
    (by_provider ss) ∧
  ∀ pool, g_pools g !! pool =
    (λ share, pool_grant self c ws mistral now pool share) <$> ss !! pool.
Proof.
  intros Hss g. unfold g, grant. rewrite Hss, add_pools_eq. cbn [g_hold g_pools orb]. split; [done|].
  intros pool. rewrite foldl_insert_lookup by apply NoDup_by_provider.
  rewrite by_provider_to_map, lookup_empty. by destruct (ss !! pool).
Qed.

Section windows.
Context (share : f64) (now : Z).
Definition add_grant (m : gmap string WindowGrant) (r : string * Window)
    : gmap string WindowGrant := <[r.1 := Window_grant r.2 share now]> m.

Lemma windows_lookup l m name wg :
  foldl add_grant m l !! name = Some wg →
  m !! name = Some wg ∨ ∃ w, (name, w) ∈ l ∧ wg = Window_grant w share now.
Proof.
  revert m. induction l as [|[n w] l IH]; intros m; [by left|]. cbn [foldl].
  intros [Hm|(w' & ? & ?)]%IH; [|right; exists w'; split; [by right|done]].
  unfold add_grant in Hm. cbn in Hm. destruct (decide (n = name)) as [->|].
  - rewrite lookup_insert_eq in Hm. simplify_eq. right. exists w. split; [by left|done].
  - rewrite lookup_insert_ne in Hm by done. by left.
Qed.
Lemma windows_total l m name :
  is_Some (m !! name) ∨ (∃ w, (name, w) ∈ l) → is_Some (foldl add_grant m l !! name).
Proof.
  revert m. induction l as [|[n w] l IH]; intros m.
  { intros [?|[w ?%elem_of_nil]]; done. }
  intros H. cbn [foldl]. apply IH. unfold add_grant. cbn.
  destruct (decide (n = name)) as [->|]; [left; by rewrite lookup_insert_eq|].
  rewrite lookup_insert_ne by done. destruct H as [?|[w' [[= -> ->]|?]%elem_of_cons]];
    [by left|done|right; eauto].
Qed.
End windows.

Lemma grant_hold_cases self c ws mistral now :
  g_hold (grant self c ws mistral now) = true ↔
  match shares self !! c with
  | None => True
  | Some ss => ∃ pool share name w,
      ss !! pool = Some share ∧ (name, w) ∈ pool_reads self c ws mistral now pool ∧
      w_stale w = false ∧ flt (allowed w share now) (w_used_percent w) = true
  end.
Proof.
  destruct (shares self !! c) as [ss|] eqn:Hss.
  - rewrite (proj1 (grant_eq self c ws mistral now ss Hss)).
    rewrite existsb_exists. setoid_rewrite <-list_elem_of_In. split.
    + intros ([pool share] & Hs & Hx). apply elem_of_by_provider in Hs.
      apply existsb_exists in Hx as ([name w] & Hr & Hx). apply list_elem_of_In in Hr.
      apply andb_true_iff in Hx as [? ?%negb_true_iff].
      exists pool, share, name, w. done.
    + intros (pool & share & name & w & Hs & Hr & Hst & Ho). exists (pool, share).
      split; [by apply elem_of_by_provider|]. apply existsb_exists. exists (name, w).
      split; [by apply list_elem_of_In|].
      unfold fresh_over, over, fgt. unfold flt in Ho. cbn [snd]. by rewrite Ho, Hst.
  - unfold grant. by rewrite Hss.
Qed.

(** C28: a consumer is told to hold all work exactly when the policy does not
    name it, or some window of a pool it has a share of has a fresh reading
    of more than its allowance: a stale or missing reading never stops all
    work, and a stale window never hides a fresh one. One that the policy
    names with no shares is told of no pool, and not to hold. *)
Theorem grant_hold self c ws mistral now :
  (g_hold (grant self c ws mistral now) = true ↔
   shares self !! c = None ∨
   ∃ ss pool share name w, shares self !! c = Some ss ∧
     ss !! pool = Some share ∧ (name, w) ∈ pool_reads self c ws mistral now pool ∧
     w_stale w = false ∧ flt (allowed w share now) (w_used_percent w) = true) ∧
  (shares self !! c = Some ∅ →
   g_hold (grant self c ws mistral now) = false ∧ g_pools (grant self c ws mistral now) = ∅).
Proof.
  pose proof (grant_hold_cases self c ws mistral now) as Hh. split.
  - rewrite Hh. destruct (shares self !! c) as [ss|]; [|by split; [left|]]. split.
    + intros (pool & share & name & w & Hw). right. by exists ss, pool, share, name, w.
    + intros [?|(ss' & pool & share & name & w & [= <-] & Hw)]; [done|]. by exists pool, share, name, w.
  - intros Hs. rewrite Hs in Hh. split.
    + apply not_true_iff_false. intros (pool & share & name & w & Hp & _)%Hh.
      by rewrite lookup_empty in Hp.
    + apply map_eq. intros pool. rewrite (proj2 (grant_eq self c ws mistral now ∅ Hs) pool).
      by rewrite !lookup_empty.
Qed.

(** A pool is in the grant exactly when the consumer has a share of it.
    With nothing read of it, it is stale and holds; otherwise it is stale
    when some window of it is, holds when some window of it does, which a
    stale window does, and tells each window's share, reset and figures. *)
Theorem grant_pools self c ws mistral now pool :
  let reads := pool_reads self c ws mistral now pool in
  match shares self !! c ≫= (.!! pool), g_pools (grant self c ws mistral now) !! pool with
  | None, None => True
  | Some share, Some pg =>
      (pg_stale pg = true ↔ reads = [] ∨ ∃ r, r ∈ reads ∧ w_stale r.2 = true) ∧
      (pg_hold pg = true ↔ reads = [] ∨
         ∃ r, r ∈ reads ∧ wg_hold (Window_grant r.2 share now) = true) ∧
      (∀ name wg, pg_windows pg !! name = Some wg →
         ∃ w, (name, w) ∈ reads ∧ wg = Window_grant w share now) ∧
      (∀ name w, (name, w) ∈ reads → is_Some (pg_windows pg !! name))
  | _, _ => False
  end.
Proof.
  intros reads. destruct (shares self !! c) as [ss|] eqn:Hss; cbn.
  2: { unfold grant. rewrite Hss. cbn. by rewrite lookup_empty. }
  rewrite (proj2 (grant_eq self c ws mistral now ss Hss) pool).
  destruct (ss !! pool) as [share|]; [cbn|done].
  unfold pool_grant. fold reads. case_decide as Hr; cbn.
  - split_and!; [split; auto..| |].
    + intros name wg. by rewrite lookup_empty.
    + intros name w. rewrite Hr. by intros ?%elem_of_nil.
  - split_and!.
    + rewrite existsb_exists. setoid_rewrite <-list_elem_of_In. naive_solver.
    + rewrite existsb_exists. setoid_rewrite <-list_elem_of_In. naive_solver.
    + intros name wg [?|?]%(windows_lookup share now); [|done]. by rewrite lookup_empty in *.
    + intros name w Hw. apply (windows_total share now). eauto.
Qed.

(** ** Privacy *)

(** Windows that differ at most in what the other consumer used. *)
Record att_same (c : Consumer) (a b : Attributed) : Prop := {
  same_reading : att_reading a = att_reading b;
  same_observed : att_observed_at a = att_observed_at b;
  same_part_way : att_part_way a = att_part_way b;
  same_restored : att_restored a = att_restored b;
  same_loaded : att_loaded_at a = att_loaded_at b;
  same_used : at_consumer (att_used a) c = at_consumer (att_used b) c;
}.
Definition view_same (c : Consumer) (v w : named_window) : Prop :=
  v.1 = w.1 ∧ option_Forall2 (att_same c) v.2 w.2.

Lemma read_window_same c now o o' :
  option_Forall2 (att_same c) o o' → read_window c now o = read_window c now o'.
Proof.
  destruct 1 as [a b [E1 E2 E3 E4 E5 E6]|]; [|done].
  unfold read_window; cbn. by rewrite E1, E2, E3, E4, E5, E6.
Qed.
Lemma pool_reads_same self self' c ws ws' mistral now pool :
  Forall2 (view_same c) ws ws' → mistral_weekly_usd self = mistral_weekly_usd self' →
  pool_reads self c ws mistral now pool = pool_reads self' c ws' mistral now pool.
Proof.
  intros Hv E. unfold pool_reads. rewrite E. f_equal. clear E.
  induction Hv as [|[[p n] o] [[p' n'] o'] ws ws' [[= <- <-] Ho] _ IH]; [done|].
  cbn [omap list_omap]. rewrite (read_window_same c now o o' Ho). by rewrite IH.
Qed.

(** C38: what a consumer is told depends on nothing of the other one: two
    policies with the same share for it and the same Mistral cap, and windows
    that differ only in what the other consumer used, give the same grant. *)
Theorem grant_private self self' c ws ws' mistral now :
  shares self !! c = shares self' !! c →
  mistral_weekly_usd self = mistral_weekly_usd self' →
  Forall2 (view_same c) ws ws' →
  grant self c ws mistral now = grant self' c ws' mistral now.
Proof.
  intros Hs Hm Hv. unfold grant. rewrite Hs. destruct (shares self' !! c) as [ss|]; [|done].
  rewrite !add_pools_eq.
  assert (∀ pool, pool_reads self c ws mistral now pool = pool_reads self' c ws' mistral now pool)
    as Hr by (intros; by apply pool_reads_same).
  f_equal.
  - f_equal. induction (by_provider ss) as [|[pool share] l IH]; [done|].
    cbn [existsb]. by rewrite Hr, IH.
  - cbn [g_pools]. generalize (∅ : gmap Provider PoolGrant).
    induction (by_provider ss) as [|[pool share] l IH]; intros m; [done|].
    cbn [foldl].
    replace (pool_grant self c ws mistral now pool share)
      with (pool_grant self' c ws' mistral now pool share) by (unfold pool_grant; by rewrite Hr).
    apply IH.
Qed.

(** ** Witnesses and known grants *)
Definition sample_window (percent : Z) (used_public used_private : Z) : Attributed :=
  mkAttributed (mkReading (decimal percent 0) 20000 18000) 9000 false false 0
    (by_consumer (decimal used_public 0) (decimal used_private 0)).
Definition sample_budget : Budget :=
  mkBudget {[ Public := {[ Codex := decimal 30 0 ]}; Private := {[ Codex := decimal 70 0 ]} ]}
    None.
Example sample_holds :
  map (λ w, g_hold (grant sample_budget Public [(Codex, "five_hour", Some w)] None 10000))
    [sample_window 50 30 20; sample_window 51 31 20] = [false; true].
Proof. vm_compute. reflexivity. Qed.

Lemma grant_private_witness :
  grant sample_budget Public [(Codex, "five_hour", Some (sample_window 50 30 20))] None 10000 =
  grant sample_budget Public [(Codex, "five_hour", Some (sample_window 50 30 45))] None 10000.
Proof.
  apply grant_private; [reflexivity|reflexivity|].
  repeat constructor; reflexivity.
Defined.
