(* ===== verification/BudgetPace.v ===== *)
(** * Budget grants: the pace

    A consumer's allowance of a long window grows with the part of the window
    that has passed, a tenth ahead of it.  Under an accepted policy, and with
    every rounding of the figures counted, it is never negative and never
    more than the share, and it is the whole share by the window's end; so a
    consumer over its share is always held, and one that used nothing never
    is. *)
From S2P Require Import Prelude Pools Float64 Float64Order Budget BudgetGrants.
Local Open Scope Z_scope.

(** ** One window *)
Lemma good_100 : good percent_100.
Proof. by vm_compute. Qed.
Lemma good_LEAD : good LEAD.
Proof. by vm_compute. Qed.
Lemma good_1 : good (decimal 1 0).
Proof. by vm_compute. Qed.
Lemma mag_1 : mag (decimal 1 0) = 2 ^ 1074.
Proof. by vm_compute. Qed.
Lemma LEAD_1 : mag LEAD <= mag (decimal 1 0).
Proof. by vm_compute. Qed.

Lemma fmin_whole (P : f64 → Prop) :
  let m := decimal 1 0 in
  good m ∧ mag m <= mag m ∧ ∀ r, mag r <= mag m → P r → mag r <= mag m.
Proof. split; [apply good_1|]. split; [apply Z.le_refl|by intros]. Qed.
(** The smaller of a float that is not negative and one. *)
Lemma fmin_1 x :
  valid x = true → nonneg x = true →
  good (fmin x (decimal 1 0)) ∧ mag (fmin x (decimal 1 0)) <= mag (decimal 1 0) ∧
  ∀ r, mag r <= mag (decimal 1 0) → (is_finite x = true → mag r <= mag x) →
    mag r <= mag (fmin x (decimal 1 0)).
Proof.
  intros Hv Hn. unfold fmin. assert (is_nan x = false) as -> by by destruct x as [|[]| |[] ? ?].
  change (is_nan (decimal 1 0)) with false. destruct (is_finite x) eqn:Hf.
  - assert (good x) as Hx by done. pose proof (flt_mag _ _ good_1 Hx).
    destruct (flt (decimal 1 0) x) eqn:E; [by apply fmin_whole|].
    assert (mag x <= mag (decimal 1 0)) by (apply Z.nlt_ge; intros ?%H; congruence).
    split; [done|]. split; [done|]. auto.
  - assert (flt (decimal 1 0) x = true) as -> by by destruct x as [|[]| |[] ? ?].
    by apply fmin_whole.
Qed.

Section window.
Context (w : Window) (share : f64) (now : Z)
  (Hshare : good share) (Hnow : is_u64 now) (Hstart : 0 <= w_start w) (Hsecs : is_u64 (w_secs w)).

(** The part of the window that has passed, with the lead. *)
Definition passed : f64 :=
  fadd (fdiv (f64_of_u64 (sat_sub now (w_start w))) (f64_of_u64 (w_secs w))) LEAD.
Lemma passed_spec :
  0 < w_secs w →
  valid passed = true ∧ nonneg passed = true ∧
  (is_finite passed = true → mag LEAD <= mag passed) ∧
  (w_secs w < 2 ^ 53 → w_start w + w_secs w <= now →
     is_finite passed = true → mag (decimal 1 0) <= mag passed).
Proof using Hnow Hstart Hsecs.
  intros Hpos. unfold passed. set (e := sat_sub now (w_start w)).
  assert (is_u64 e) as He by (unfold e; u64_lia).
  pose proof (f64_of_u64_good e He) as Hge. pose proof (f64_of_u64_good (w_secs w) Hsecs) as Hgs.
  assert (0 < mag (f64_of_u64 (w_secs w))) as Hms.
  { pose proof (f64_of_u64_ge 1 (w_secs w) ltac:(lia) ltac:(lia) Hsecs) as H1. pose proof (Z.pow_pos_nonneg 2 1074). lia. }
  destruct (fdiv_faithful _ _ Hge Hgs Hms) as [Hv Hn _ Hq _].
  set (q := fdiv _ _) in *. destruct (is_finite q) eqn:Hf.
  - assert (good q) as Hgq by done.
    destruct (fadd_faithful q LEAD Hgq good_LEAD) as [Hv' Hn' _ Hge' _].
    split_and!; [done|done| |].
    + intros Hf'. apply Hge'; [done| |done]. pose proof (mag_nonneg q). lia.
    + intros H53 Hend Hf'. apply Hge'; [done| |done].
      enough (mag (decimal 1 0) <= mag q) by (pose proof (mag_nonneg LEAD); lia).
      apply Hq; [done| |done]. rewrite mag_1, (f64_of_u64_exact (w_secs w)) by lia.
      pose proof (f64_of_u64_ge (w_secs w) e) as Hes.
      assert (w_secs w <= e) as Hle by (unfold e; u64_lia).
      specialize (Hes ltac:(lia) Hle He). apply Z.mul_le_mono_nonneg_r; [|done]. lia.
  - assert (fadd q LEAD = S754_infinity false) as -> by by destruct q as [|[]| |[] ? ?].
    done.
Qed.

Lemma allowed_bounds :
  let a := allowed w share now in
  good a ∧ mag a <= mag share ∧
  (w_secs w <= FIVE_HOURS ∨ w_secs w < 2 ^ 53 ∧ w_start w + w_secs w <= now → mag share <= mag a) ∧
  (mag (decimal 1 0) <= mag share → mag LEAD <= mag a).
Proof using All.
  intros a. unfold a, allowed. destruct (Z.ltb_spec FIVE_HOURS (w_secs w)) as [Hlong|Hshort].
  2: { split; [done|]. split; [done|]. split; [done|]. pose proof LEAD_1. lia. }
  fold passed. destruct passed_spec as (Hv & Hn & Hlead & Hend); [unfold FIVE_HOURS in *; lia|].
  destruct (fmin_1 passed Hv Hn) as (Hgm & Hm1 & Hmr). set (m := fmin passed _) in *.
  pose proof (fmul_faithful share m Hshare Hgm) as Hf. pose proof (mag_nonneg share) as H0.
  assert (good (fmul share m) ∧ mag (fmul share m) <= mag share) as [Hg Hle].
  { apply (faithful_good _ _ _ _ Hf); [apply Hshare|]. rewrite mag_1 in Hm1.
    rewrite (Z.mul_comm (2 ^ 1074)). by apply Z.mul_le_mono_nonneg_l. }
  destruct Hf as [_ _ _ Hge _]. split; [done|]. split; [done|]. split.
  - intros [?|[H53 Hdone]]; [lia|]. apply Hge; [apply Hshare| |apply Hg].
    specialize (Hmr (decimal 1 0) ltac:(lia) (Hend H53 Hdone)). rewrite mag_1 in Hmr.
    rewrite (Z.mul_comm (2 ^ 1074)). by apply Z.mul_le_mono_nonneg_l.
  - intros H1. apply Hge; [apply good_LEAD| |apply Hg].
    specialize (Hmr LEAD LEAD_1 Hlead). rewrite mag_1 in H1.
    apply Z.mul_le_mono_nonneg; [by apply Z.pow_nonneg|done|apply mag_nonneg|done].
Qed.
End window.

(** ** As time passes *)
Lemma two_64 : mag (f64_of_u64 (2 ^ 64)) = 2 ^ 64 * 2 ^ 1074.
Proof. vm_compute. reflexivity. Qed.
(** A part of a window of at least a second is no more than its seconds. *)
Lemma part_good n secs :
  is_u64 n → is_u64 secs → 0 < secs →
  let q := fdiv (f64_of_u64 n) (f64_of_u64 secs) in
  0 < mag (f64_of_u64 secs) ∧ good q ∧ mag q <= 2 ^ 64 * 2 ^ 1074.
Proof.
  intros Hn Hs Hpos q. pose proof (f64_of_u64_good n Hn) as Hgn. pose proof (f64_of_u64_good secs Hs) as Hgs.
  pose proof (f64_of_u64_ge 1 secs ltac:(lia) ltac:(lia) Hs) as H1. pose proof (Z.pow_pos_nonneg 2 1074) as Hp.
  assert (0 < mag (f64_of_u64 secs)) as Hms by lia. split; [done|].
  pose proof (fdiv_faithful _ _ Hgn Hgs Hms) as Hf. pose proof (f64_of_u64_good n Hn) as (Hvn & _).
  pose proof (mag_nonneg (f64_of_u64 n)) as H0.
  destruct (faithful_good _ _ _ (f64_of_u64 n) Hf Hvn) as [Hg Hle]; [nia|]. split; [done|].
  pose proof (f64_of_u64_faithful n ltac:(u64_lia)) as [_ _ Hmax _ _].
  destruct (Hmax (f64_of_u64 (2 ^ 64))) as [_ Hm]; [vm_compute; reflexivity|rewrite two_64; u64_unfold; nia|].
  rewrite two_64 in Hm. fold q in Hle. lia.
Qed.
Lemma part_mono n k secs :
  is_u64 n → is_u64 k → is_u64 secs → 0 < secs → n <= k →
  mag (fdiv (f64_of_u64 n) (f64_of_u64 secs)) <= mag (fdiv (f64_of_u64 k) (f64_of_u64 secs)).
Proof.
  intros Hn Hk Hs Hpos Hle. pose proof (f64_of_u64_mono n k Hn Hk Hle) as Hm.
  pose proof (f64_of_u64_good n Hn) as Hgn. pose proof (f64_of_u64_good k Hk) as Hgk.
  pose proof (f64_of_u64_good secs Hs) as Hgs.
  destruct (part_good n secs Hn Hs Hpos) as (Hms & (_ & Fn & _) & _).
  destruct (part_good k secs Hk Hs Hpos) as (_ & (_ & Fk & _) & _).
  pose proof (fdiv_faithful _ _ Hgn Hgs Hms) as Dn. pose proof (fdiv_faithful _ _ Hgk Hgs Hms) as Dk.
  destruct (decide (mag (f64_of_u64 n) = mag (f64_of_u64 k))) as [E|Hne].
  - destruct (decide (mag (f64_of_u64 n) = 0)) as [Z0|Hnz].
    + rewrite Z0 in Dn. rewrite (faithful_zero _ _ Dn). apply mag_nonneg.
    + by rewrite (good_mag_inj _ _ Hgn Hgk E Hnz).
  - eapply (faithful_mono _ _ _ _ _ Dn Dk Fn Fk). pose proof (Z.pow_pos_nonneg 2 1074). nia.
Qed.
Lemma lead_good x :
  good x → mag x <= 2 ^ 64 * 2 ^ 1074 → good (fadd x LEAD).
Proof.
  intros Hx Hm. pose proof (fadd_faithful x LEAD Hx good_LEAD) as Hf.
  eapply (faithful_good _ _ _ (f64_of_u64 (2 ^ 65)) Hf); [vm_compute; reflexivity|].
  assert (mag (f64_of_u64 (2 ^ 65)) = 2 ^ 65 * 2 ^ 1074) as -> by (vm_compute; reflexivity).
  pose proof LEAD_1. rewrite mag_1 in *. pose proof (Z.pow_pos_nonneg 2 1074). lia.
Qed.
Lemma lead_mono x y :
  good x → good y → mag y <= 2 ^ 64 * 2 ^ 1074 → mag x <= mag y → mag (fadd x LEAD) <= mag (fadd y LEAD).
Proof.
  intros Hx Hy Hm Hle. destruct (lead_good x Hx ltac:(lia)) as (_ & Fx & _).
  destruct (lead_good y Hy Hm) as (_ & Fy & _).
  pose proof (fadd_faithful x LEAD Hx good_LEAD) as Dx. pose proof (fadd_faithful y LEAD Hy good_LEAD) as Dy.
  destruct (decide (mag x = mag y)) as [E|Hne].
  - destruct (decide (mag x = 0)) as [Z0|Hnz].
    + assert (∀ z, good z → mag z = 0 → fadd z LEAD = LEAD) as Hz.
      { intros z Hz Ez. destruct (good_cases z Hz) as [[b ->]|(m & e & -> & He)]; [done|].
        cbn in Ez. pose proof (Z.pow_pos_nonneg 2 (e + 1074)). nia. }
      rewrite !Hz by (done || lia). done.
    + by rewrite (good_mag_inj _ _ Hx Hy E Hnz).
  - eapply (faithful_mono _ _ _ _ _ Dx Dy Fx Fy). lia.
Qed.
Lemma fmin_1_mag x : good x → mag (fmin x (decimal 1 0)) = Z.min (mag x) (mag (decimal 1 0)).
Proof.
  intros Hx. unfold fmin. assert (is_nan x = false) as -> by (by destruct (good_cases x Hx) as [[? ->]|(? & ? & -> & _)]).
  change (is_nan (decimal 1 0)) with false. pose proof (flt_mag _ _ good_1 Hx) as Hlt.
  destruct (flt (decimal 1 0) x).
  - assert (mag (decimal 1 0) < mag x) by by apply Hlt. lia.
  - assert (¬ mag (decimal 1 0) < mag x) by (intros ?%Hlt; done). lia.
Qed.
Lemma share_mono share x y :
  good share → good x → good y → mag y <= mag (decimal 1 0) → mag x <= mag y →
  mag (fmul share x) <= mag (fmul share y).
Proof.
  intros Hs Hx Hy H1 Hle. pose proof (fmul_faithful share x Hs Hx) as Dx. pose proof (fmul_faithful share y Hs Hy) as Dy.
  destruct (decide (mag share * mag x = mag share * mag y)) as [E|Hne].
  - destruct (decide (mag share * mag x = 0)) as [Z0|Hnz].
    + rewrite Z0 in Dx. rewrite (faithful_zero _ _ Dx). apply mag_nonneg.
    + assert (mag share ≠ 0) as Hsz by (intros Z0; by rewrite Z0 in Hnz).
      apply Z.mul_cancel_l in E; [|done]. rewrite (good_mag_inj x y Hx Hy E); [done|].
      intros Z0. by rewrite Z0, Z.mul_0_r in Hnz.
  - assert (∀ z, good z → mag z <= mag (decimal 1 0) → is_finite (fmul share z) = true) as Hfin.
    { intros z Hz Hm. pose proof (mag_nonneg share). rewrite mag_1 in Hm.
      destruct (faithful_good _ _ _ share (fmul_faithful share z Hs Hz)) as [(_ & Hf & _) _]; [apply Hs|nia|done]. }
    eapply (faithful_mono _ _ _ _ _ Dx Dy); [apply Hfin; [done|lia]|by apply Hfin|].
    pose proof (mag_nonneg share). assert (mag share * mag x <= mag share * mag y) by nia. lia.
Qed.

(** The allowance of a window never shrinks as time passes. *)
Lemma allowed_later w share now later :
  good share → is_u64 now → is_u64 later → 0 <= w_start w → is_u64 (w_secs w) → now <= later →
  fle (allowed w share now) (allowed w share later) = true.
Proof.
  intros Hs Hn Hl Hst Hse Hle. pose proof (allowed_bounds w share now Hs Hn Hst Hse) as [Ha _].
  pose proof (allowed_bounds w share later Hs Hl Hst Hse) as [Hb _]. apply fle_mag; [done|done|].
  unfold allowed. destruct (Z.ltb_spec FIVE_HOURS (w_secs w)) as [Hlong|]; [|done].
  assert (0 < w_secs w) as Hpos by (unfold FIVE_HOURS in Hlong; lia).
  assert (is_u64 (sat_sub now (w_start w))) as H1 by u64_lia.
  assert (is_u64 (sat_sub later (w_start w))) as H2 by u64_lia.
  assert (sat_sub now (w_start w) <= sat_sub later (w_start w)) as H12 by u64_lia.
  destruct (part_good _ _ H1 Hse Hpos) as (_ & G1 & M1). destruct (part_good _ _ H2 Hse Hpos) as (_ & G2 & M2).
  pose proof (lead_mono _ _ G1 G2 M2 (part_mono _ _ _ H1 H2 Hse Hpos H12)) as Hlead.
  pose proof (lead_good _ G1 M1) as L1. pose proof (lead_good _ G2 M2) as L2.
  apply share_mono; [done|..].
  - apply (fmin_1 _ (proj1 L1)), L1.
  - apply (fmin_1 _ (proj1 L2)), L2.
  - rewrite fmin_1_mag by done. lia.
  - rewrite !fmin_1_mag by done. lia.
Qed.

(** ** A grant *)

(** ** What is told

    A figure to the hundredth: it keeps the order of the figures. *)
Lemma percent_fine x : good x → mag x <= mag percent_100 →
  good (fmul x percent_100) ∧ mag (fmul x percent_100) <= mag (f64_of_u64 10000).
Proof.
  intros Hx Hle. apply (faithful_good (mag x * mag percent_100) (2 ^ 1074)).
  - by apply fmul_faithful; [|apply good_100].
  - done.
  - assert (mag percent_100 = 100 * 2 ^ 1074) as E by (vm_compute; reflexivity).
    assert (mag (f64_of_u64 10000) = 10000 * 2 ^ 1074) as E2 by (vm_compute; reflexivity).
    rewrite E in *. rewrite E2. pose proof (Z.pow_pos_nonneg 2 1074 ltac:(lia) ltac:(lia)). nia.
Qed.
Lemma fmul_100_mono x y :
  good x → good y → mag y <= mag percent_100 → mag x <= mag y →
  mag (fmul x percent_100) <= mag (fmul y percent_100).
Proof.
  intros Hx Hy Hle Hxy. destruct (decide (mag x = mag y)) as [E|Hne].
  - destruct (decide (mag x = 0)) as [Z0|Hz]; [|by rewrite (good_mag_inj x y Hx Hy E Hz)].
    pose proof (fmul_faithful x percent_100 Hx good_100) as Dx. rewrite Z0 in Dx.
    rewrite (faithful_zero _ _ Dx). apply mag_nonneg.
  - destruct (percent_fine x Hx ltac:(lia)) as [(_ & Fx & _) _].
    destruct (percent_fine y Hy Hle) as [(_ & Fy & _) _].
    eapply (faithful_mono _ _ _ _ _ (fmul_faithful x _ Hx good_100) (fmul_faithful y _ Hy good_100) Fx Fy).
    assert (0 < mag percent_100) by (vm_compute; reflexivity). nia.
Qed.
Lemma fdiv_100_good x : good x → good (fdiv x percent_100).
Proof.
  intros Hx. assert (mag percent_100 = 100 * 2 ^ 1074) as E by (vm_compute; reflexivity).
  apply (faithful_good (mag x * 2 ^ 1074) (mag percent_100) _ x).
  - apply fdiv_faithful; [done|apply good_100|vm_compute; reflexivity].
  - apply Hx.
  - rewrite E. pose proof (mag_nonneg x). pose proof (Z.pow_pos_nonneg 2 1074 ltac:(lia) ltac:(lia)). nia.
Qed.
Lemma fdiv_100_mono x y :
  good x → good y → mag x <= mag y → mag (fdiv x percent_100) <= mag (fdiv y percent_100).
Proof.
  intros Hx Hy Hxy. assert (0 < mag percent_100) as Hp by (vm_compute; reflexivity).
  pose proof (fdiv_faithful x percent_100 Hx good_100 Hp) as Dx.
  destruct (decide (mag x = mag y)) as [E|Hne].
  - destruct (decide (mag x = 0)) as [Z0|Hz]; [|by rewrite (good_mag_inj x y Hx Hy E Hz)].
    rewrite Z0 in Dx. rewrite (faithful_zero _ _ Dx). apply mag_nonneg.
  - destruct (fdiv_100_good x Hx) as (_ & Fx & _). destruct (fdiv_100_good y Hy) as (_ & Fy & _).
    eapply (faithful_mono _ _ _ _ _ Dx (fdiv_faithful y _ Hy good_100 Hp) Fx Fy).
    pose proof (Z.pow_pos_nonneg 2 1074 ltac:(lia) ltac:(lia)). nia.
Qed.
Lemma round2_good x : good x → mag x <= mag percent_100 → good (round2 x).
Proof.
  intros Hx Hle. destruct (percent_fine x Hx Hle) as [Hg Hm].
  by apply fdiv_100_good, fround_spec.
Qed.
Lemma round2_mono x y :
  good x → good y → mag y <= mag percent_100 → mag x <= mag y → mag (round2 x) <= mag (round2 y).
Proof.
  intros Hx Hy Hle Hxy. destruct (percent_fine x Hx ltac:(lia)) as [Gx Lx].
  destruct (percent_fine y Hy Hle) as [Gy Ly].
  destruct (fround_spec _ Gx Lx) as (Rx & Mx & _). destruct (fround_spec _ Gy Ly) as (Ry & My & _).
  apply fdiv_100_mono; [done..|]. rewrite Mx, My. apply Z.mul_le_mono_nonneg_r; [lia|].
  apply Z.div_le_mono; [lia|]. pose proof (fmul_100_mono x y Hx Hy Hle Hxy). lia.
Qed.
(** [told] is the number of hundredths nearest to [x]. *)
Definition to_hundredth (x told : f64) : Prop :=
  ∃ n, 0 <= n <= 10000 ∧ mag told = mag (fdiv (f64_of_u64 n) percent_100) ∧
    2 * Z.abs (n * 2 ^ 1074 - mag (fmul x percent_100)) <= 2 ^ 1074.
Lemma round2_hundredth x : good x → mag x <= mag percent_100 → to_hundredth x (round2 x).
Proof.
  intros Hx Hle. destruct (percent_fine x Hx Hle) as [Hg Hm].
  destruct (fround_spec _ Hg Hm) as (Hr & Er & Hn). exists (nearest (fmul x percent_100)).
  assert (mag (f64_of_u64 (nearest (fmul x percent_100))) = nearest (fmul x percent_100) * 2 ^ 1074) as E
    by (apply f64_of_u64_exact; lia).
  assert (good (f64_of_u64 (nearest (fmul x percent_100)))) as Hgn by (apply f64_of_u64_good; u64_lia).
  split; [done|]. split.
  - apply Z.le_antisymm; apply fdiv_100_mono; try done; lia.
  - unfold nearest. assert (2 ^ 1074 = 2 * 2 ^ 1073) as E2 by (rewrite <-(Z.pow_succ_r 2 1073) by lia; done).
    pose proof (Z.mul_div_le (mag (fmul x percent_100) + 2 ^ 1073) (2 ^ 1074) ltac:(lia)).
    pose proof (Z.mul_succ_div_gt (mag (fmul x percent_100) + 2 ^ 1073) (2 ^ 1074) ltac:(lia)). lia.
Qed.
(** The allowance told. *)
Section told.
Context (w : Window) (share : f64) (now : Z) (Hshare : good share) (H100 : mag share <= mag percent_100)
  (Hnow : is_u64 now) (Hstart : 0 <= w_start w) (Hsecs : is_u64 (w_secs w)).
Local Abbreviation a := (allowed w share now).
Lemma told_bounds :
  to_hundredth a (round2 a) ∧ fle fzero (round2 a) = true ∧ fle (round2 a) (round2 share) = true ∧
  (fle share a = true → fle (round2 share) (round2 a) = true).
Proof using All.
  destruct (allowed_bounds w share now Hshare Hnow Hstart Hsecs) as (Ha & Hle & _).
  assert (mag a <= mag percent_100) as Ha100 by lia.
  pose proof (round2_good a Ha Ha100) as Hta. pose proof (round2_good share Hshare H100) as Hts.
  split; [by apply round2_hundredth|]. split; [rewrite <-nonneg_fle; apply Hta|].
  split; [apply fle_mag; [done..|]; by apply round2_mono|].
  intros H1. apply fle_mag in H1; [|done..]. apply fle_mag; [done..|]. by apply round2_mono.
Qed.
Lemma told_later later :
  now <= later → is_u64 later → fle (round2 a) (round2 (allowed w share later)) = true.
Proof using All.
  intros Hl Hu. destruct (allowed_bounds w share now Hshare Hnow Hstart Hsecs) as (Ha & Hle & _).
  destruct (allowed_bounds w share later Hshare Hu Hstart Hsecs) as (Hb & Hle' & _).
  pose proof (allowed_later w share now later Hshare Hnow Hu Hstart Hsecs Hl) as Hm.
  apply fle_mag in Hm; [|done..]. apply fle_mag; [apply round2_good; [done|lia]..|].
  apply round2_mono; [done..|lia|done].
Qed.
End told.


(** What Rust's types say of the figures. *)
Definition file_typed (file : BudgetFile) : Prop :=
  (∀ c pool share, share_of file c pool = Some share → valid share = true) ∧
  (∀ cap, bf_mistral_weekly_usd file = Some cap → valid cap = true).
Definition att_typed (a : Attributed) : Prop :=
  (∀ c, valid (at_consumer (att_used a) c) = true) ∧
  is_u64 (rd_resets_at (att_reading a)) ∧ is_u64 (rd_window_secs (att_reading a)).
Definition named_typed (r : named_window) : Prop := ∀ a, r.2 = Some a → att_typed a.
Definition spend_typed (s : MistralSpend) : Prop := is_u64 (ms_micros s) ∧ is_u64 (ms_since s).
Record read_typed (w : Window) : Prop := {
  rt_used : valid (w_used_percent w) = true;
  rt_start : 0 <= w_start w;
  rt_secs : is_u64 (w_secs w);
}.

Lemma pool_reads_typed self c ws mistral now pool name w :
  (∀ cap, mistral_weekly_usd self = Some cap → valid cap = true) →
  Forall named_typed ws → (∀ s, mistral = Some s → spend_typed s) →
  (name, w) ∈ pool_reads self c ws mistral now pool → read_typed w.
Proof.
  intros Hcap Hws Hm. unfold pool_reads. rewrite elem_of_app. intros [Hw|Hw].
  - case_bool_decide; [|by apply elem_of_nil in Hw].
    destruct (mistral_weekly_usd self) as [cap|]; [|by apply elem_of_nil in Hw].
    destruct mistral as [s|]; [|by apply elem_of_nil in Hw].
    apply list_elem_of_singleton in Hw as [= -> ->]. destruct (Hm s eq_refl) as [Hmicros Hsince].
    split; cbn; [|u64_lia|by vm_compute]. apply fmul_valid; [apply fdiv_valid|by vm_compute].
  - apply list_elem_of_omap in Hw as ([[p n] a] & Ha & Hr). case_bool_decide; [|done].
    apply fmap_Some in Hr as (w' & Hr & [= -> ->]). unfold read_window in Hr.
    destruct a as [a|]; [|done]. cbn [mbind option_bind] in Hr.
    rewrite Forall_forall in Hws. destruct (Hws _ Ha a eq_refl) as (Hu & Hres & Hsecs).
    destruct (_ && _); [done|]. injection Hr as <-. split; cbn; [apply Hu|u64_lia|done].
Qed.

Section accepted.
Context (file : BudgetFile) (b : Budget) (c : Consumer) (ws : list named_window)
  (mistral : option MistralSpend) (now : Z)
  (Hb : check_budget file = Ok b) (Hfile : file_typed file) (Hnow : is_u64 now)
  (Hws : Forall named_typed ws) (Hmistral : ∀ s, mistral = Some s → spend_typed s).

Lemma accepted_share ss pool share :
  shares b !! c = Some ss → ss !! pool = Some share → good share ∧ mag share <= mag percent_100.
Proof using Hb Hfile.
  intros Hss Hs. apply check_budget_spec in Hb as [(Hrange & _) ->]. destruct Hfile as [Hv _].
  assert (share_of file c pool = Some share) as Hf.
  { unfold share_of. cbn in Hss. by rewrite Hss. }
  apply (in_range_good _ _ good_100 (Hv _ _ _ Hf)), (Hrange _ _ _ Hf).
Qed.
Lemma accepted_reads ss pool share name w :
  shares b !! c = Some ss → ss !! pool = Some share →
  (name, w) ∈ pool_reads b c ws mistral now pool →
  good share ∧ read_typed w.
Proof using All.
  intros Hss Hs Hr. split; [by apply (accepted_share ss pool)|].
  apply check_budget_spec in Hb as [_ ->]. destruct Hfile as [_ Hcap].
  eapply pool_reads_typed; [|exact Hws|exact Hmistral|exact Hr]; exact Hcap.
Qed.

(** Under a policy the gateway accepts, the allowance of each window
    read is never negative and never more than the consumer's share of it; it
    is the whole share in a short window, and in a longer one by its end, and
    from its start, of a share of at least one percent, a tenth of a percent.
    So a consumer over its share of a fresh window is told to hold, whatever
    else was read, and one that used nothing of any fresh window is not. *)
Theorem pace_bounds ss :
  shares b !! c = Some ss →
  (∀ pool share name w,
     ss !! pool = Some share → (name, w) ∈ pool_reads b c ws mistral now pool →
     let a := allowed w share now in
     fle fzero a = true ∧ fle a share = true ∧
     (w_secs w <= FIVE_HOURS ∨ w_secs w < 2 ^ 53 ∧ w_start w + w_secs w <= now →
      fle share a = true) ∧
     (fle (decimal 1 0) share = true → fle LEAD a = true)) ∧
  ((∃ pool share name w,
      ss !! pool = Some share ∧ (name, w) ∈ pool_reads b c ws mistral now pool ∧
      w_stale w = false ∧ flt share (w_used_percent w) = true) →
   g_hold (grant b c ws mistral now) = true) ∧
  ((∀ pool name w,
      is_Some (ss !! pool) → (name, w) ∈ pool_reads b c ws mistral now pool →
      w_stale w = false → flt fzero (w_used_percent w) = false) →
   g_hold (grant b c ws mistral now) = false).
Proof using All.
  intros Hss. pose proof (grant_eq b c ws mistral now ss Hss) as [Hhold _]. cbv zeta in Hhold.
  rewrite Hhold. clear Hhold. split_and!.
  - intros pool share name w Hs Hr a. destruct (accepted_reads ss pool share name w Hss Hs Hr) as [Hg [Hu Hst Hse]].
    destruct (allowed_bounds w share now Hg Hnow Hst Hse) as (Ha & Hle & Hwhole & Hlead).
    rewrite <-nonneg_fle. split; [apply Ha|]. split; [by apply fle_mag|]. split.
    + intros Hend. apply fle_mag; [done|done|]. by apply Hwhole.
    + intros H1. apply fle_mag; [apply good_LEAD|done|]. apply Hlead.
      apply fle_mag in H1; [done|apply good_1|done].
  - intros (pool & share & name & w & Hs & Hr & Hst & Hover).
    destruct (accepted_reads ss pool share name w Hss Hs Hr) as [Hg [Hu H0 Hse]].
    destruct (allowed_bounds w share now Hg Hnow H0 Hse) as (Ha & Hle & _).
    apply existsb_exists. exists (pool, share). split; [by apply list_elem_of_In, elem_of_by_provider|].
    apply existsb_exists. exists (name, w). split; [by apply list_elem_of_In|].
    unfold fresh_over, over. cbn [snd]. rewrite Hst, andb_true_r.
    by apply (flt_trans_good _ share).
  - intros Hnone. apply not_true_iff_false. intros ([pool share] & Hs & Hx)%existsb_exists.
    apply list_elem_of_In, elem_of_by_provider in Hs.
    apply existsb_exists in Hx as ([name w] & Hr & Hx). apply list_elem_of_In in Hr.
    unfold fresh_over, over in Hx. cbn [snd] in Hx. apply andb_true_iff in Hx as [Hover Hst%negb_true_iff].
    destruct (accepted_reads ss pool share name w Hss Hs Hr) as [Hg [Hu H0 Hse]].
    destruct (allowed_bounds w share now Hg Hnow H0 Hse) as (Ha & _).
    specialize (Hnone pool name w ltac:(by eexists) Hr Hst).
    rewrite (flt_trans_good fzero (allowed w share now) _ good_zero Ha Hu) in Hnone;
      [done|apply mag_nonneg|exact Hover].
Qed.
End accepted.

(** ** Witness *)
Definition sample_file : BudgetFile := mkBudgetFile (shares sample_budget) None.
(** A tenth of its week into a window. *)
Definition week_window (used : Z) : Attributed :=
  mkAttributed (mkReading (decimal 51 0) 700000 WEEK) 150000 false false 0
    (by_consumer (decimal used 0) (decimal 20 0)).
Definition week_windows (used : Z) : list named_window := [(Codex, "secondary"%string, Some (week_window used))].
Example paced :
  map (λ used, (λ w, allowed w (decimal 30 0) 155680) <$>
      read_window Public 155680 (Some (week_window used))) [5; 7]%Z =
    [Some (decimal 6 0); Some (decimal 6 0)] ∧
  map (λ used, g_hold (grant sample_budget Public (week_windows used) None 155680)) [5; 7]%Z =
    [false; true].
Proof. vm_compute. done. Qed.

Lemma sample_file_ok : check_budget sample_file = Ok sample_budget.
Proof. vm_compute. reflexivity. Qed.
Lemma sample_file_typed : file_typed sample_file.
Proof.
  split; [|intros cap Hcap; discriminate Hcap].
  intros [] [] share Hs; vm_compute in Hs; try discriminate Hs; injection Hs as <-; reflexivity.
Qed.
Lemma pace_bounds_witness :
  g_hold (grant sample_budget Public (week_windows 31) None 155680) = true ∧
  g_hold (grant sample_budget Public (week_windows 0) None 155680) = false.
Proof.
  pose proof sample_file_ok as Hb. pose proof sample_file_typed as Hf.
  assert (∀ used, valid (decimal used 0) = true → Forall named_typed (week_windows used)) as Hw.
  { intros used Hu. apply Forall_singleton. intros a Ha. injection Ha as <-.
    split; [intros []; [exact Hu|reflexivity]|]. split; vm_compute; split; discriminate. }
  destruct (pace_bounds sample_file sample_budget Public (week_windows 31) None 155680 Hb Hf
    ltac:(u64_lia) (Hw 31 eq_refl) ltac:(intros s Hs; discriminate Hs) {[ Codex := decimal 30 0 ]} eq_refl)
    as (_ & Hover & _).
  destruct (pace_bounds sample_file sample_budget Public (week_windows 0) None 155680 Hb Hf
    ltac:(u64_lia) (Hw 0 eq_refl) ltac:(intros s Hs; discriminate Hs) {[ Codex := decimal 30 0 ]} eq_refl)
    as (_ & _ & Hnone).
  split.
  - apply Hover. exists Codex, (decimal 30 0), "secondary"%string.
    eexists. split; [reflexivity|]. split; [left; reflexivity|]. split; vm_compute; reflexivity.
  - apply Hnone. intros pool name w [share Hs] Hr Hst.
    destruct pool; [vm_compute in Hs; discriminate Hs| |vm_compute in Hs; discriminate Hs].
    apply list_elem_of_singleton in Hr. injection Hr as -> ->. vm_compute. reflexivity.
Defined.
