(* ===== verification/Operators.v ===== *)
(** * Operator tokens

    [praxis-gateway/src/operators.rs]: the tokens file and its checks, whom a
    token belongs to, and the slots of an operator's concurrency, taken and
    returned with two atomic instructions by threads that interleave. *)
From S2P Require Import Prelude Crypto Pools Budget Runs.
From stdpp Require Import sorting.
Local Open Scope Z_scope.

Definition OPERATOR_TOKEN_PREFIX : string := "praxis-operator-".
Definition MAX_OPERATORS : Z := 16.
Definition MAX_NAME_LEN : Z := 64.
Definition DEFAULT_CONCURRENCY : Z := 8.
Definition default_concurrency : Z := DEFAULT_CONCURRENCY.

(** ** Data *)
Record Entry := mkEntry {
  e_name : string;
  e_token_sha256 : string;
  e_clusters : gset string;
  e_concurrency : Z;
  e_consumer : Consumer;
}.
Definition TokensFile : Type := list Entry.

(** An operator, less [in_flight], which threads share. *)
Record Operator := mkOperator {
  op_name : string;
  op_clusters : gset string;
  op_concurrency : Z;
  op_consumer : Consumer;
}.
Inductive OpRefusal := Forbidden | OpBusy.
Definition Operator_subject (self : Operator) : string := "operator:" +:+ op_name self.

Definition name_le (a b : Operator) : Prop := String.leb (op_name a) (op_name b) = true.
#[export] Instance name_le_dec : RelDecision name_le.
Proof. intros a b. unfold name_le. apply _. Defined.

(** ** The tokens file *)
Inductive OperatorsError :=
| NotTokensFile (e : string)
| TooManyOperators
| BadName (name : string)
| BadHash (name : string)
| NoConcurrency (name : string)
| NoClusters (name : string)
| NotInjected (name cluster : string)
| NamedTwice (name : string)
| SharedToken.

Definition operator_name_byte (b : ascii) : bool :=
  is_ascii_lowercase b || is_ascii_digit b || ascii_is "-" b.
Definition named_well (name : string) : bool :=
  negb (is_empty name) && (len name <=? MAX_NAME_LEN) && string_forallb operator_name_byte name.

Section operators.
Context `{Crypto}.

Definition operator_of (entry : Entry) : Operator :=
  mkOperator (e_name entry) (e_clusters entry) (e_concurrency entry) (e_consumer entry).

(** The loop over the entries, with the names seen. *)
Fixpoint add_entries (injected : gset string) (entries : list Entry)
    (by_hash : gmap string Operator) (names : gset string) : result OperatorsError (gmap string Operator) :=
  match entries with
  | [] => Ok by_hash
  | entry :: entries =>
      let name := e_name entry in
      refuse_if (negb (named_well name)) (BadName name) ≫= λ _,
      ok_or (hex_decode32 (e_token_sha256 entry)) (BadHash name) ≫= λ hash,
      refuse_if (e_concurrency entry =? 0) (NoConcurrency name) ≫= λ _,
      refuse_if (bool_decide (e_clusters entry = ∅)) (NoClusters name) ≫= λ _,
      match head (elements (e_clusters entry ∖ injected)) with
      | Some cluster => Err (NotInjected name cluster)
      | None =>
          refuse_if (bool_decide (name ∈ names)) (NamedTwice name) ≫= λ _,
          refuse_if (is_some (by_hash !! hash)) SharedToken ≫= λ _,
          add_entries injected entries (<[hash := operator_of entry]> by_hash)
            ({[name]} ∪ names)
      end
  end.

Context (from_yaml : string → result string TokensFile).

Definition Operators_parse (text : string) (injected : gset string)
    : result OperatorsError (gmap string Operator) :=
  map_err NotTokensFile (from_yaml text) ≫= λ file,
  refuse_if (MAX_OPERATORS <? Z.of_nat (length file)) TooManyOperators ≫= λ _,
  add_entries injected file ∅ ∅.
Definition Operators_load (read : result ReadError string) (injected : gset string)
    : result (string + OperatorsError) (gmap string Operator) :=
  match read with
  | Ok text => map_err inr (Operators_parse text injected)
  | Err NotFound => Ok ∅
  | Err (OtherError e) => Err (inl e)
  end.

Definition sorted (self : gmap string Operator) : list Operator :=
  merge_sort name_le (map_to_list self).*2.
Definition names (self : gmap string Operator) : list string := op_name <$> sorted self.

Definition Operators_authenticate (self : gmap string Operator) (token : string)
    : option (string * Operator) :=
  if negb (starts_with OPERATOR_TOKEN_PREFIX token) then None
  else let hash := sha256 token in pair hash <$> self !! hash.
End operators.

(** ** Slots

    What a thread is doing with one operator: nothing, about to take back the
    increment that found the operator busy, or answering a request it holds a
    slot for.  [in_flight] is the atomic counter they share. *)
Inductive Thread := Idle | Undoing | Holding.
#[export] Instance Thread_eq_dec : EqDecision Thread.
Proof. solve_decision. Defined.

Record Shared := mkShared { in_flight : Z; threads : list Thread }.
Definition set_thread (i : nat) (t : Thread) (n : Z) (s : Shared) : Shared :=
  mkShared n (<[i := t]> (threads s)).

(** [Operator::admit] up to its first atomic instruction, which decides. *)
Definition admit_slot (self : Operator) (cluster : string) (i : nat) (s : Shared)
    : Shared * result OpRefusal unit :=
  if bool_decide (cluster ∈ op_clusters self) then
    let n := wrap_add (in_flight s) 1 in
    if op_concurrency self <=? in_flight s then (set_thread i Undoing n s, Err OpBusy)
    else (set_thread i Holding n s, Ok tt)
  else (s, Err Forbidden).
(** Its [fetch_sub], and [Drop for Slot]. *)
Definition release (i : nat) (s : Shared) : Shared :=
  set_thread i Idle (wrap_sub (in_flight s) 1) s.

Inductive slot_step (self : Operator) : Shared → Shared → Prop :=
| step_admit cluster i s : threads s !! i = Some Idle →
    slot_step self s (admit_slot self cluster i s).1
| step_undo i s : threads s !! i = Some Undoing → slot_step self s (release i s)
| step_drop i s : threads s !! i = Some Holding → slot_step self s (release i s).

(** ** The tokens file: properties *)
Section file.
Context `{Crypto}.

Definition entry_ok (injected : gset string) (e : Entry) : Prop :=
  named_well (e_name e) = true ∧ is_Some (hex_decode32 (e_token_sha256 e)) ∧
  e_concurrency e ≠ 0 ∧ e_clusters e ≠ ∅ ∧ e_clusters e ⊆ injected.
Definition hash_of (e : Entry) : option string := hex_decode32 (e_token_sha256 e).
(** The keys [add_entries] gives a list of entries. *)
Definition index (entries : list Entry) : list (string * Operator) :=
  omap (λ e, (λ h, (h, operator_of e)) <$> hash_of e) entries.

Lemma head_elements_None (X : gset string) : head (elements X) = None ↔ X = ∅.
Proof.
  split.
  - intros Hh. apply set_eq. intros x. rewrite <-elem_of_elements.
    destruct (elements X); [|done]. set_solver.
  - by intros ->.
Qed.

Lemma add_entries_cons injected e entries m names m' :
  add_entries injected (e :: entries) m names = Ok m' ↔
  entry_ok injected e ∧ (e_name e ∉ names) ∧
  ∃ h, hash_of e = Some h ∧ m !! h = None ∧
    add_entries injected entries (<[h := operator_of e]> m) (({[e_name e]} : gset string) ∪ names)
      = Ok m'.
Proof.
  cbn [add_entries]. unfold entry_ok. fold (hash_of e).
  destruct (named_well (e_name e)); cbn [negb refuse_if mbind result_bind].
  2: { split; [done|]. by intros ((? & _) & _). }
  destruct (hash_of e) as [h|]; cbn [ok_or mbind result_bind].
  2: { split; [done|]. by intros ((_ & [? ?] & _) & _). }
  destruct (Z.eqb_spec (e_concurrency e) 0); cbn [refuse_if mbind result_bind].
  { split; [done|]. by intros ((_ & _ & ? & _) & _). }
  destruct (bool_decide_reflect (e_clusters e = ∅)) as [Hc|Hc]; cbn [refuse_if mbind result_bind].
  { split; [done|]. by intros ((_ & _ & _ & ? & _) & _). }
  destruct (head (elements (e_clusters e ∖ injected))) as [c|] eqn:Hi.
  { split; [done|]. intros ((_ & _ & _ & _ & Hsub) & _).
    rewrite (proj2 (head_elements_None _)) in Hi; [done|set_solver]. }
  apply head_elements_None in Hi.
  destruct (bool_decide_reflect (e_name e ∈ names)) as [Hn|Hn]; cbn [refuse_if mbind result_bind].
  { split; [done|]. by intros (_ & ? & _). }
  destruct (m !! h) as [o|] eqn:Hm; cbn [is_some is_none negb refuse_if mbind result_bind].
  { split; [done|]. intros (_ & _ & h' & [= <-] & ? & _). congruence. }
  split.
  - intros ?. split_and!; [done|by eexists|done|done|set_solver|done|eauto].
  - by intros (_ & _ & h' & [= <-] & _ & ?).
Qed.

Lemma index_cons e entries h :
  hash_of e = Some h → index (e :: entries) = (h, operator_of e) :: index entries.
Proof. intros Hh. unfold index. cbn. by rewrite Hh. Qed.

Lemma add_entries_Ok injected entries m names m' :
  add_entries injected entries m names = Ok m' ↔
  Forall (entry_ok injected) entries ∧
  NoDup (e_name <$> entries) ∧ Forall (λ e, e_name e ∉ names) entries ∧
  NoDup (index entries).*1 ∧ Forall (λ k, m !! k = None) (index entries).*1 ∧
  m' = list_to_map (index entries) ∪ m.
Proof.
  revert m names m'. induction entries as [|e entries IH]; intros m names m'.
  { cbn. rewrite (left_id_L (A:=gmap string Operator) ∅ (∪)). split; [intros [= <-]|by intros (_ & _ & _ & _ & _ & ->)].
    split_and!; [done|constructor|done|constructor|done|done]. }
  rewrite add_entries_cons, fmap_cons, !Forall_cons, NoDup_cons. split.
  - intros (He & Hn & h & Hh & Hm & Hrec). rewrite IH in Hrec.
    destruct Hrec as (Hok & Hnd & Hns & Hkd & Hks & ->).
    rewrite (index_cons _ _ _ Hh), fmap_cons, NoDup_cons, Forall_cons. cbn [fst].
    rewrite Forall_forall in Hns. rewrite Forall_forall in Hks.
    split_and!; try done.
    + intros (e' & E & Hin)%list_elem_of_fmap. specialize (Hns e' Hin). set_solver.
    + apply Forall_forall. intros e' Hin. specialize (Hns e' Hin). set_solver.
    + intros Hin. specialize (Hks h Hin). cbn beta in Hks. by rewrite lookup_insert_eq in Hks.
    + apply Forall_forall. intros k Hin. specialize (Hks k Hin).
      cbn beta in Hks. by apply lookup_insert_None in Hks as [? _].
    + rewrite list_to_map_cons, <-insert_union_l, insert_union_r; [done|].
      apply not_elem_of_list_to_map_1. intros Hin. specialize (Hks h Hin).
      cbn beta in Hks. by rewrite lookup_insert_eq in Hks.
  - intros ((He & Hok) & (Hnin & Hnd) & (Hn & Hns) & Hkd & Hks & ->).
    assert (is_Some (hash_of e)) as [h Hh] by apply He.
    rewrite (index_cons _ _ _ Hh) in Hkd, Hks |- *. rewrite fmap_cons in Hkd, Hks.
    rewrite NoDup_cons in Hkd. rewrite Forall_cons in Hks. cbn [fst] in Hkd, Hks.
    destruct Hkd as [Hk Hkd], Hks as [Hm Hks]. split_and!; [done|done|].
    exists h. split_and!; [done|done|]. apply IH. split_and!; [done|done| |done| |].
    + rewrite Forall_forall in Hns |- *. intros e' Hin Hbad.
      specialize (Hns e' Hin). apply elem_of_union in Hbad as [E%elem_of_singleton|?];
        [|done]. apply Hnin, list_elem_of_fmap. eauto.
    + rewrite Forall_forall in Hks |- *. intros k Hin. rewrite lookup_insert_ne; [by apply Hks|].
      by intros ->.
    + rewrite list_to_map_cons, <-insert_union_l, insert_union_r; [done|].
      by apply not_elem_of_list_to_map_1.
Qed.

(** What the checks of a tokens file come to. *)
Record file_ok (injected : gset string) (file : TokensFile) : Prop := {
  fo_count : Z.of_nat (length file) <= MAX_OPERATORS;
  fo_entries : Forall (entry_ok injected) file;
  fo_names : NoDup (e_name <$> file);
  fo_hashes : NoDup (index file).*1;
}.

Lemma Operators_parse_Ok from_yaml text injected m :
  Operators_parse from_yaml text injected = Ok m ↔
  ∃ file, from_yaml text = Ok file ∧ file_ok injected file ∧ m = list_to_map (index file).
Proof.
  unfold Operators_parse, map_err. destruct (from_yaml text) as [file|e]; cbn [mbind result_bind].
  2: { split; [done|]. by intros (? & ? & _). }
  destruct (Z.ltb_spec MAX_OPERATORS (Z.of_nat (length file)));
    cbn [refuse_if mbind result_bind].
  { split; [done|]. intros (f & [= <-] & [Hc _ _ _] & _). lia. }
  rewrite add_entries_Ok, (right_id_L (A:=gmap string Operator) ∅ (∪)). split.
  - intros (He & Hn & _ & Hh & _ & ->). exists file. by split_and!.
  - intros (f & [= <-] & [Hc He Hn Hh] & ->).
    split_and!; try done; apply Forall_forall; intros x _; [set_solver|apply lookup_empty].
Qed.

Lemma elem_of_index file h o :
  (h, o) ∈ index file ↔ ∃ e, e ∈ file ∧ hash_of e = Some h ∧ o = operator_of e.
Proof.
  unfold index. rewrite list_elem_of_omap. split.
  - intros (e & He & Hh). exists e. destruct (hash_of e); naive_solver.
  - intros (e & He & Hh & ->). exists e. by rewrite Hh.
Qed.

Lemma same_name file e e' :
  NoDup (e_name <$> file) → e ∈ file → e' ∈ file → e_name e = e_name e' → e = e'.
Proof.
  intros Hn [i Hi]%list_elem_of_lookup [j Hj]%list_elem_of_lookup E.
  assert (i = j) as ->; [|congruence].
  apply (NoDup_lookup _ i j (e_name e) Hn); rewrite list_lookup_fmap.
  - by rewrite Hi.
  - by rewrite Hj, E.
Qed.

(** C36: of a tokens file that passes the checks, a bearer token is an
    operator's exactly when it starts as operator tokens do and its SHA-256
    is the one an entry of the file gives, and the operator is then that
    entry's, with its clusters, its positive concurrency and its consumer;
    no two entries could claim the token, or the name. *)
Theorem operator_authenticate_spec from_yaml text injected m token h o :
  Operators_parse from_yaml text injected = Ok m →
  Operators_authenticate m token = Some (h, o) ↔
  ∃ file e, from_yaml text = Ok file ∧ e ∈ file ∧ entry_ok injected e ∧
    starts_with OPERATOR_TOKEN_PREFIX token = true ∧ h = sha256 token ∧
    hex_decode32 (e_token_sha256 e) = Some (sha256 token) ∧ o = operator_of e ∧
    (∀ e', e' ∈ file → e_name e' = e_name e ∨
       hex_decode32 (e_token_sha256 e') = Some (sha256 token) → operator_of e' = o).
Proof.
  intros (file & Hf & [_ He Hn Hh] & ->)%Operators_parse_Ok.
  unfold Operators_authenticate. destruct (starts_with _ token) eqn:Hp; cbn [negb].
  2: { split; [done|]. intros (f & e & _ & _ & _ & ? & _). congruence. }
  assert (∀ k x, (list_to_map (index file) : gmap string Operator) !! k = Some x ↔
    (k, x) ∈ index file) as Hlook.
  { intros k x. split; [apply elem_of_list_to_map_2|by apply elem_of_list_to_map_1]. }
  rewrite fmap_Some. split.
  - intros (x & Hx & [= -> <-]). apply Hlook in Hx as Hix.
    apply elem_of_index in Hix as (e & Hin & Hhe & ->).
    exists file, e. split_and!; try done; [by apply (Forall_forall (entry_ok injected) file)|].
    intros e' Hin' [E|E].
    + f_equal. by apply (same_name file).
    + apply (inj Some). rewrite <-Hx. symmetry. apply Hlook, elem_of_index. eauto.
  - intros (f & e & Ef & Hin & _ & _ & -> & Hhe & -> & _). rewrite Hf in Ef.
    injection Ef as <-. exists (operator_of e). split; [|done].
    apply Hlook, elem_of_index. eauto.
Qed.
End file.

(** ** Slots: properties *)
Definition busy (t : Thread) : bool := match t with Idle => false | _ => true end.
Definition is_holding (t : Thread) : bool := match t with Holding => true | _ => false end.
Definition is_undoing (t : Thread) : bool := match t with Undoing => true | _ => false end.
Definition count (p : Thread → bool) (ts : list Thread) : Z :=
  Z.of_nat (length (filter (λ t, p t = true) ts)).
Definition holding (ts : list Thread) : Z := count is_holding ts.
Definition weight (p : Thread → bool) (t : Thread) : Z := if p t then 1 else 0.

Lemma count_cons p t ts : count p (t :: ts) = weight p t + count p ts.
Proof.
  unfold count, weight. rewrite filter_cons. destruct (p t), (decide _); try done; cbn; lia.
Qed.
Lemma count_insert p ts i t t' :
  ts !! i = Some t → count p (<[i := t']> ts) = count p ts - weight p t + weight p t'.
Proof.
  revert i. induction ts as [|u ts IH]; intros [|i]; try done.
  - intros [= ->]. change (<[0%nat := t']> (t :: ts)) with (t' :: ts). rewrite !count_cons. lia.
  - intros Hi. specialize (IH i Hi).
    change (<[S i := t']> (u :: ts)) with (u :: <[i := t']> ts). rewrite !count_cons. lia.
Qed.
Lemma count_le p ts : 0 <= count p ts <= Z.of_nat (length ts).
Proof. unfold count. pose proof (length_filter (λ t, p t = true) ts). lia. Qed.

Section slots.
Context (self : Operator).

(** Executions of [n] threads from an idle operator. *)
Inductive slots_run (n : nat) : Shared → Prop :=
| slots_init : slots_run n (mkShared 0 (replicate n Idle))
| slots_next s s' : slots_run n s → slot_step self s s' → slots_run n s'.

Record slots_ok (n : nat) (s : Shared) : Prop := {
  so_threads : length (threads s) = n;
  so_in_flight : in_flight s = count busy (threads s);
  so_holding : holding (threads s) <= op_concurrency self;
}.

Lemma count_replicate p n : p Idle = false → count p (replicate n Idle) = 0.
Proof.
  intros Hp. induction n as [|n IH]; [done|]. cbn [replicate].
  rewrite count_cons, IH. unfold weight. by rewrite Hp.
Qed.
Lemma set_thread_holding s i t t' n' :
  threads s !! i = Some t →
  holding (threads (set_thread i t' n' s)) = holding (threads s) -
    weight is_holding t + weight is_holding t'.
Proof. intros. by apply count_insert. Qed.
Lemma holding_le_busy ts : holding ts <= count busy ts.
Proof.
  unfold holding. induction ts as [|[] ts IH]; [done|..]; rewrite !count_cons;
    unfold weight; cbn -[count]; lia.
Qed.

Lemma slots_run_ok n s :
  0 <= op_concurrency self → Z.of_nat n <= U64_MAX → slots_run n s → slots_ok n s.
Proof.
  intros Hc Hn. induction 1 as [|s s' _ [Hl Hf Hh] Hstep].
  { split; cbn; [by rewrite length_replicate|by rewrite count_replicate|].
    unfold holding. rewrite count_replicate; done. }
  pose proof (count_le busy (threads s)) as Hle.
  destruct Hstep as [cluster i s Hi|i s Hi|i s Hi].
  - unfold admit_slot. case_bool_decide; [|by split].
    pose proof (count_insert busy (threads s) i Idle) as Hci.
    assert (count busy (threads s) < Z.of_nat (length (threads s))) as Hlt.
    { pose proof (Hci Holding Hi) as E. unfold weight in E. cbn -[count] in E.
      pose proof (count_le busy (<[i:=Holding]> (threads s))) as E2.
      rewrite length_insert in E2. lia. }
    destruct (Z.leb_spec (op_concurrency self) (in_flight s)); cbn [fst];
      (split; [cbn; by rewrite length_insert|..]).
    + cbn. rewrite (Hci Undoing Hi), wrap_add_small by lia. unfold weight. cbn -[count]. lia.
    + rewrite (set_thread_holding _ _ Idle) by done. unfold weight. cbn -[count]. lia.
    + cbn. rewrite (Hci Holding Hi), wrap_add_small by lia. unfold weight. cbn -[count]. lia.
    + rewrite (set_thread_holding _ _ Idle) by done. unfold weight. cbn.
      pose proof (holding_le_busy (threads s)). lia.
  - split; cbn; [by rewrite length_insert| |].
    + rewrite (count_insert busy _ _ Undoing) by done. unfold weight. cbn.
      pose proof (count_insert busy _ _ _ Idle Hi) as E. unfold weight in E. cbn -[count] in E.
      pose proof (count_le busy (<[i:=Idle]> (threads s))).
      unfold wrap_sub. rewrite Z.mod_small by (unfold U64_MAX in *; lia). lia.
    + unfold holding. rewrite (count_insert _ _ _ Undoing) by done. unfold weight. cbn -[count]. unfold holding in Hh. lia.
  - split; cbn; [by rewrite length_insert| |].
    + rewrite (count_insert busy _ _ Holding) by done. unfold weight. cbn.
      pose proof (count_insert busy _ _ _ Idle Hi) as E. unfold weight in E. cbn -[count] in E.
      pose proof (count_le busy (<[i:=Idle]> (threads s))).
      unfold wrap_sub. rewrite Z.mod_small by (unfold U64_MAX in *; lia). lia.
    + unfold holding. rewrite (count_insert _ _ _ Holding) by done. unfold weight. cbn.
      unfold holding in Hh. lia.
Qed.

(** C35: however the threads interleave, no more requests hold a slot of an
    operator than its concurrency; the counter is what they hold plus the
    increments about to be taken back, so it never drifts; and a request is
    refused as busy only when those together are the whole concurrency. *)
Theorem slots_bounded n s :
  0 <= op_concurrency self → Z.of_nat n <= U64_MAX → slots_run n s →
  holding (threads s) <= op_concurrency self ∧
  in_flight s = holding (threads s) + count is_undoing (threads s) ∧
  ∀ cluster i s', threads s !! i = Some Idle →
    admit_slot self cluster i s = (s', Err OpBusy) →
    op_concurrency self <=
      holding (threads s) + count is_undoing (threads s).
Proof.
  intros Hc Hn Hrun. destruct (slots_run_ok n s Hc Hn Hrun) as [_ Hf Hh].
  assert (in_flight s =
    holding (threads s) + count is_undoing (threads s)) as E.
  { rewrite Hf. clear. unfold holding.
    induction (threads s) as [|[] ts IH]; [done|..]; rewrite !count_cons; unfold weight; cbn -[count]; lia. }
  split_and!; [done|done|]. intros cluster i s' Hi. unfold admit_slot.
  case_bool_decide; [|done]. destruct (Z.leb_spec (op_concurrency self) (in_flight s)); [lia|done].
Qed.
End slots.

(** No run's subject is an operator's, and no two operators share one. *)
Lemma operator_subject_apart o k : Operator_subject o ≠ subject k.
Proof. by destruct k as [? ? ? []|[?]]. Qed.
Lemma operator_subject_inj o o' : Operator_subject o = Operator_subject o' → op_name o = op_name o'.
Proof. apply (inj (String.append "operator:")). Qed.

(** ** Witnesses *)
#[local] Existing Instance toy_crypto.
Definition sample_token : string := "praxis-operator-alice".
Definition sample_entry : Entry :=
  mkEntry "alice" (fit 64 sample_token) {["anthropic"]} 2 Public.
Definition sample_yaml (text : string) : result string TokensFile := Ok [sample_entry].
Definition sample_operators : gmap string Operator :=
  {[ sha256 sample_token := operator_of sample_entry ]}.

Lemma operator_authenticate_spec_witness :
  ∃ file e, sample_yaml "yaml" = Ok file ∧ e ∈ file ∧ e_name e = "alice".
Proof.
  assert (Operators_parse sample_yaml "yaml" {["anthropic"]} = Ok sample_operators) as Hp
    by (vm_compute; reflexivity).
  assert (Operators_authenticate sample_operators sample_token =
    Some (sha256 sample_token, operator_of sample_entry)) as Ha by (vm_compute; reflexivity).
  apply (operator_authenticate_spec sample_yaml "yaml" {["anthropic"]} sample_operators
    sample_token (sha256 sample_token) (operator_of sample_entry) Hp) in Ha.
  destruct Ha as (file & e & Hf & He & _ & _ & _ & _ & Ho & _).
  exists file, e. split; [exact Hf|]. split; [exact He|].
  exact (eq_sym (f_equal op_name Ho)).
Defined.

Lemma slots_bounded_witness :
  holding [Holding; Idle] <= op_concurrency (operator_of sample_entry) ∧
  1 = holding [Holding; Idle] + count is_undoing [Holding; Idle].
Proof.
  assert (slots_run (operator_of sample_entry) 2 (mkShared 1 [Holding; Idle])) as Hrun.
  { replace (mkShared 1 [Holding; Idle])
      with (admit_slot (operator_of sample_entry) "anthropic" 0 (mkShared 0 [Idle; Idle])).1
      by (vm_compute; reflexivity).
    apply (slots_next _ _ (mkShared 0 [Idle; Idle])); [apply slots_init|].
    by apply step_admit. }
  destruct (slots_bounded (operator_of sample_entry) 2 (mkShared 1 [Holding; Idle])
    ltac:(vm_compute; discriminate) ltac:(vm_compute; discriminate) Hrun) as (H1 & H2 & _).
  split; [exact H1|exact H2].
Defined.
