(* ===== verification/Usage.v ===== *)
(** * Broker usage

    [praxis-gateway/src/usage.rs]: the counts and windows [/usage] serves,
    the list-price spend of the trailing week, and the windows kept in the
    usage state file.  The clock is an argument, as in the code's [_at]
    functions; a lock's critical section is one function on the state it
    guards.  [UsageWeek], [UsageBroker] and [UsageState] prove its
    properties. *)
From S2P Require Import Prelude Headers Float64 Pools Runs Prices Budget Operators.
Local Open Scope Z_scope.

(** ** Counts *)
Record Counts := mkCounts { c_requests : Z; c_unmetered : Z; c_tokens : Tokens }.
Definition Counts_default : Counts := mkCounts 0 0 Tokens_default.
Definition Counts_settle (self : Counts) (usage : option Usage) (success : bool) : Counts :=
  match usage with
  | Some usage => mkCounts (sat_add (c_requests self) 1) (c_unmetered self)
      (Tokens_add (c_tokens self) (u_tokens usage))
  | None =>
      if success
      then mkCounts (c_requests self) (sat_add (c_unmetered self) 1) (c_tokens self)
      else self
  end.

Record UnprovenRuns := mkUnprovenRuns {
  ur_registered : Z;
  ur_refused : Z;
  ur_counts : Counts;
}.
Definition UnprovenRuns_default : UnprovenRuns := mkUnprovenRuns 0 0 Counts_default.

(** ** Windows as a response reports them *)
Inductive Status := Allowed | AllowedWarning | Rejected.
Record AnthropicWindow := mkAnthropicWindow {
  aw_utilization : option f64;
  aw_reset : option Z;
  aw_status : option Status;
  aw_observed_at : Z;
  aw_restored : bool;
}.
Record CodexWindow := mkCodexWindow {
  cw_used_percent : option f64;
  cw_window_minutes : option Z;
  cw_reset_after_seconds : option Z;
  cw_observed_at : Z;
  cw_restored : bool;
}.

Section headers.
Context `{HeaderMap H}.
Implicit Type headers : H.

(** A header that occurs once, as text. *)
Definition text headers (name : string) : option string :=
  match hm_get_all name headers with
  | [value] => hm_to_str value
  | _ => None
  end.
Definition number headers (name : string) : option Z :=
  text headers name ≫= parse_u64.
Definition percent headers (name : string) (max : f64) : option f64 :=
  option_filter (λ n, is_finite n && in_range fzero max n) (text headers name ≫= parse_f64).

Definition Status_parse (s : string) : option Status :=
  if bool_decide (s = "allowed") then Some Allowed
  else if bool_decide (s = "allowed_warning") then Some AllowedWarning
  else if bool_decide (s = "rejected") then Some Rejected
  else None.
Definition one : f64 := decimal 1 0.

Definition anthropic_window headers (window : string) (now : Z) : option AnthropicWindow :=
  let prefix := "anthropic-ratelimit-unified-" +:+ window in
  let utilization := percent headers (prefix +:+ "-utilization") one in
  let reset := number headers (prefix +:+ "-reset") in
  let status := text headers (prefix +:+ "-status") ≫= Status_parse in
  then_some (is_some utilization || is_some reset || is_some status)
    (mkAnthropicWindow utilization reset status now false).
Definition codex_window headers (window : string) (now : Z) : option CodexWindow :=
  let prefix := "x-codex-" +:+ window in
  let used_percent := percent headers (prefix +:+ "-used-percent") percent_100 in
  let window_minutes := number headers (prefix +:+ "-window-minutes") in
  let reset_after_seconds := number headers (prefix +:+ "-reset-after-seconds") in
  then_some (is_some used_percent || is_some window_minutes || is_some reset_after_seconds)
    (mkCodexWindow used_percent window_minutes reset_after_seconds now false).
End headers.

(** ** Spend *)
Definition SPEND_HOURS : Z := 7 * 24.

Inductive Charge := Priced (micros : Z) | Unpriced | ChargeUnmetered.
Record Tally := mkTally { t_micros : Z; t_unpriced : Z; t_unmetered : Z }.
Definition Tally_default : Tally := mkTally 0 0 0.
Definition Tally_add (self other : Tally) : Tally :=
  mkTally (sat_add (t_micros self) (t_micros other))
    (sat_add (t_unpriced self) (t_unpriced other))
    (sat_add (t_unmetered self) (t_unmetered other)).
(** The [match] on a charge in [Week::add]. *)
Definition Tally_charge (tally : Tally) (charge : Charge) : Tally :=
  match charge with
  | Priced micros =>
      mkTally (sat_add (t_micros tally) micros) (t_unpriced tally) (t_unmetered tally)
  | Unpriced => mkTally (t_micros tally) (sat_add (t_unpriced tally) 1) (t_unmetered tally)
  | ChargeUnmetered =>
      mkTally (t_micros tally) (t_unpriced tally) (sat_add (t_unmetered tally) 1)
  end.

Record Bucket := mkBucket { b_hour : Z; b_tally : Tally }.
(** The buckets of a [Week], from the front of its queue. *)
Definition Week : Type := list Bucket.

Fixpoint Week_expire (hour : Z) (self : Week) : Week :=
  match self with
  | bucket :: rest => if b_hour bucket + SPEND_HOURS <=? hour then Week_expire hour rest else self
  | [] => []
  end.
Definition charge_bucket (c : Charge) (b : Bucket) : Bucket :=
  mkBucket (b_hour b) (Tally_charge (b_tally b) c).
(** The charge goes to the last bucket, if it is of this hour or later, or
    else to a new one after it. *)
Fixpoint charge_back (hour : Z) (c : Charge) (self : Week) : Week :=
  match self with
  | [] => [charge_bucket c (mkBucket hour Tally_default)]
  | [last] =>
      if hour <=? b_hour last then [charge_bucket c last]
      else [last; charge_bucket c (mkBucket hour Tally_default)]
  | b :: rest => b :: charge_back hour c rest
  end.
Definition Week_add (hour : Z) (charge : Charge) (self : Week) : Week :=
  charge_back hour charge (Week_expire hour self).
Definition Week_sum (hour : Z) (self : Week) : Tally :=
  foldl (λ sum b, if hour <? b_hour b + SPEND_HOURS then Tally_add sum (b_tally b) else sum)
    Tally_default self.

Record Spend := mkSpend {
  sp_since : Z;
  sp_runs : per_consumer Week;
  sp_operators : gmap string Week;
  sp_mistral : per_consumer Week;
}.
Record Spent := mkSpent {
  s_total : f64;
  s_unpriced_requests : Z;
  s_unmetered_requests : Z;
}.
Definition Spent_of (tally : Tally) : Spent :=
  mkSpent (fdiv (f64_of_u64 (t_micros tally)) (decimal 1000000 0)) (t_unpriced tally)
    (t_unmetered tally).
Record SpendView := mkSpendView {
  v_currency : string;
  v_basis : string;
  v_prices : string;
  v_window_days : Z;
  v_since : Z;
  v_all : Spent;
  v_runs : Spent;
  v_by_operator : gmap string Spent;
}.

(** What [view] sums: the runs and the operators it shows. *)
Definition view_runs (self : Spend) (hour : Z) (public_operators : option (gset string)) : Tally :=
  let runs := Week_sum hour (at_consumer (sp_runs self) Public) in
  if is_none public_operators
  then Tally_add runs (Week_sum hour (at_consumer (sp_runs self) Private)) else runs.
Definition shown_operators (self : Spend) (public_operators : option (gset string))
    : gmap string Week :=
  filter (λ '(name, _), is_none_or public_operators (λ public, bool_decide (name ∈ public)) = true)
    (sp_operators self).
Definition Spend_view (self : Spend) (hour : Z) (public_operators : option (gset string))
    : SpendView :=
  let runs := view_runs self hour public_operators in
  let shown := shown_operators self public_operators in
  let all := foldl (λ all '(_, week), Tally_add all (Week_sum hour week)) runs
    (map_to_list shown) in
  mkSpendView "USD" "list" PRICES (SPEND_HOURS / 24) (sp_since self) (Spent_of all)
    (Spent_of runs) ((λ week, Spent_of (Week_sum hour week)) <$> shown).

(** ** The snapshot *)
Record AnthropicUsage := mkAnthropicUsage {
  an_counts : Counts;
  an_unified_5h : option AnthropicWindow;
  an_unified_7d : option AnthropicWindow;
}.
Record CodexUsage := mkCodexUsage {
  cx_counts : Counts;
  cx_primary : option CodexWindow;
  cx_secondary : option CodexWindow;
}.
Record Snapshot := mkSnapshot {
  sn_schema : string;
  sn_started_at : Z;
  sn_anthropic : AnthropicUsage;
  sn_codex : CodexUsage;
  sn_mistral : Counts;
  sn_operators : gmap string Counts;
  sn_unproven_runs : option UnprovenRuns;
  sn_spend : option SpendView;
  sn_attributed : list (option Attributed);
  sn_public_operators : gset string;
}.
Definition Snapshot_default (now : Z) : Snapshot :=
  mkSnapshot "praxis-broker-usage/v1" now (mkAnthropicUsage Counts_default None None)
    (mkCodexUsage Counts_default None None) Counts_default ∅ None None
    [None; None; None; None] ∅.
(** Assignments to the fields of a snapshot. *)
Definition sn_with_providers (a : AnthropicUsage) (c : CodexUsage) (m : Counts) (s : Snapshot)
    : Snapshot :=
  mkSnapshot (sn_schema s) (sn_started_at s) a c m (sn_operators s) (sn_unproven_runs s)
    (sn_spend s) (sn_attributed s) (sn_public_operators s).
Definition sn_with_operators (o : gmap string Counts) (p : gset string) (s : Snapshot) : Snapshot :=
  mkSnapshot (sn_schema s) (sn_started_at s) (sn_anthropic s) (sn_codex s) (sn_mistral s) o
    (sn_unproven_runs s) (sn_spend s) (sn_attributed s) p.
Definition sn_with_unproven (u : option UnprovenRuns) (s : Snapshot) : Snapshot :=
  mkSnapshot (sn_schema s) (sn_started_at s) (sn_anthropic s) (sn_codex s) (sn_mistral s)
    (sn_operators s) u (sn_spend s) (sn_attributed s) (sn_public_operators s).
Definition sn_with_spend (v : option SpendView) (s : Snapshot) : Snapshot :=
  mkSnapshot (sn_schema s) (sn_started_at s) (sn_anthropic s) (sn_codex s) (sn_mistral s)
    (sn_operators s) (sn_unproven_runs s) v (sn_attributed s) (sn_public_operators s).
Definition sn_with_attributed (l : list (option Attributed)) (s : Snapshot) : Snapshot :=
  mkSnapshot (sn_schema s) (sn_started_at s) (sn_anthropic s) (sn_codex s) (sn_mistral s)
    (sn_operators s) (sn_unproven_runs s) (sn_spend s) l (sn_public_operators s).

Definition WINDOWS : list (Provider * string) :=
  [(Anthropic, "unified_5h"); (Anthropic, "unified_7d"); (Codex, "primary");
   (Codex, "secondary")]%string.
Definition MAX_LISTED_OPERATORS : Z := 4 * MAX_OPERATORS.

(** The two locked values: the counts and, if it is metered, the spend. *)
Record BrokerUsage := mkBrokerUsage { bu_state : Snapshot; bu_spend : option Spend }.
Definition BrokerUsage_default (now : Z) : BrokerUsage :=
  mkBrokerUsage (Snapshot_default now) None.
Definition on_state (f : Snapshot → Snapshot) (b : BrokerUsage) : BrokerUsage :=
  mkBrokerUsage (f (bu_state b)) (bu_spend b).
Definition on_spend (f : option Spend → option Spend) (b : BrokerUsage) : BrokerUsage :=
  mkBrokerUsage (bu_state b) (f (bu_spend b)).

(** ** Operations of [BrokerUsage] *)
Record Payer := mkPayer {
  pay_operator : option string;
  pay_consumer : Consumer;
  pay_provider : option Provider;
}.

Definition meter_spend_at (now : Z) (self : BrokerUsage) : BrokerUsage :=
  on_spend (λ spend,
    match spend with
    | Some _ => spend
    | None => Some (mkSpend now (both_consumers []) ((λ _, []) <$> sn_operators (bu_state self))
                      (both_consumers []))
    end) self.

Definition charge_of (usage : option Usage) (success : bool) : option Charge :=
  match usage with
  | Some usage => Some (match cost usage with Some micros => Priced micros | None => Unpriced end)
  | None => if success then Some ChargeUnmetered else None
  end.
(** What [settle_spend_at] does to the spend once there is a charge. *)
Definition charge_spend (payer : Payer) (hour : Z) (charge : Charge) (spend : Spend) : Spend :=
  let consumer := pay_consumer payer in
  let add := Week_add hour charge in
  let mistral :=
    if bool_decide (pay_provider payer = Some Mistral)
    then set_consumer (sp_mistral spend) consumer (add (at_consumer (sp_mistral spend) consumer))
    else sp_mistral spend in
  match pay_operator payer with
  | None =>
      mkSpend (sp_since spend)
        (set_consumer (sp_runs spend) consumer (add (at_consumer (sp_runs spend) consumer)))
        (sp_operators spend) mistral
  | Some operator =>
      match sp_operators spend !! operator with
      | Some week =>
          mkSpend (sp_since spend) (sp_runs spend)
            (<[operator := add week]> (sp_operators spend)) mistral
      | None => spend
      end
  end.
Definition settle_spend_at (payer : Payer) (usage : option Usage) (success : bool) (now : Z)
    (self : BrokerUsage) : BrokerUsage :=
  match charge_of usage success with
  | Some charge => on_spend (fmap (charge_spend payer (now / 3600) charge)) self
  | None => self
  end.

Definition settle_provider (provider : Provider) (usage : option Usage) (success : bool)
    (s : Snapshot) : Snapshot :=
  let a := sn_anthropic s in
  let c := sn_codex s in
  match provider with
  | Anthropic => sn_with_providers
      (mkAnthropicUsage (Counts_settle (an_counts a) usage success) (an_unified_5h a)
         (an_unified_7d a)) c (sn_mistral s) s
  | Codex => sn_with_providers a
      (mkCodexUsage (Counts_settle (cx_counts c) usage success) (cx_primary c)
         (cx_secondary c)) (sn_mistral s) s
  | Mistral => sn_with_providers a c (Counts_settle (sn_mistral s) usage success) s
  end.

Definition declare_operator (operator : string) (consumer : Consumer) (self : BrokerUsage)
    : BrokerUsage :=
  let state := bu_state self in
  let declare (operators : gmap string Counts) : Snapshot :=
    sn_with_operators operators
      (if bool_decide (consumer = Public) then {[operator]} ∪ sn_public_operators state
       else sn_public_operators state ∖ {[operator]}) state in
  if is_some (sn_operators state !! operator) then
    mkBrokerUsage (declare (sn_operators state)) (bu_spend self)
  else if MAX_LISTED_OPERATORS <=? Z.of_nat (size (sn_operators state)) then self
  else
    mkBrokerUsage (declare (<[operator := Counts_default]> (sn_operators state)))
      ((λ spend, mkSpend (sp_since spend) (sp_runs spend)
          (<[operator := []]> (sp_operators spend)) (sp_mistral spend)) <$> bu_spend self).

Definition settle_operator (operator : string) (usage : option Usage) (success : bool)
    (s : Snapshot) : Snapshot :=
  match sn_operators s !! operator with
  | Some counts =>
      sn_with_operators (<[operator := Counts_settle counts usage success]> (sn_operators s))
        (sn_public_operators s) s
  | None => s
  end.
Definition declare_unproven (s : Snapshot) : Snapshot :=
  sn_with_unproven (Some (default UnprovenRuns_default (sn_unproven_runs s))) s.
Definition unproven_registration (admitted : bool) (s : Snapshot) : Snapshot :=
  let runs := default UnprovenRuns_default (sn_unproven_runs s) in
  sn_with_unproven (Some
    (if admitted
     then mkUnprovenRuns (sat_add (ur_registered runs) 1) (ur_refused runs) (ur_counts runs)
     else mkUnprovenRuns (ur_registered runs) (sat_add (ur_refused runs) 1) (ur_counts runs))) s.
Definition settle_unproven (usage : option Usage) (success : bool) (s : Snapshot) : Snapshot :=
  let runs := default UnprovenRuns_default (sn_unproven_runs s) in
  sn_with_unproven (Some (mkUnprovenRuns (ur_registered runs) (ur_refused runs)
    (Counts_settle (ur_counts runs) usage success))) s.

(** The two locks of [snapshot_at] are taken one after the other: [state]
    and [spend] are what each guards when it is held. *)
Definition snapshot_at (now : Z) (granted : bool) (state : Snapshot) (spend : option Spend)
    : Snapshot :=
  let public := then_some granted (sn_public_operators state) in
  sn_with_spend ((λ spend, Spend_view spend (now / 3600) public) <$> spend) state.
Definition grant_at (budget : Budget) (consumer : Consumer) (now : Z) (state : Snapshot)
    (spend : option Spend) : Grant :=
  let mistral := (λ spend, mkMistralSpend
      (t_micros (Week_sum (now / 3600) (at_consumer (sp_mistral spend) consumer)))
      (sp_since spend)) <$> spend in
  let windows := zip_with (λ '(provider, name) window, (provider, name, window)) WINDOWS
    (sn_attributed state) in
  grant budget consumer windows mistral now.

(** *** Capturing windows *)
Section capture.
Context `{HeaderMap H}.

(** A window's slot after a response, what was read of it, and whether it
    changed. *)
Definition capture_anthropic (headers : H) (now : Z) (index : nat) (name : string)
    (window_secs : Z) (slot : option AnthropicWindow)
    : option AnthropicWindow * list (nat * option Reading) * bool :=
  match anthropic_window headers name now with
  | Some window =>
      (Some window,
       match aw_utilization window, aw_reset window with
       | Some utilization, Some resets_at =>
           [(index, Some (mkReading (fmul utilization percent_100) resets_at window_secs))]
       | _, _ => []
       end, true)
  | None => (slot, [], false)
  end.
Definition capture_codex (headers : H) (now : Z) (index : nat) (name : string)
    (slot : option CodexWindow) : option CodexWindow * list (nat * option Reading) * bool :=
  match codex_window headers name now with
  | Some window =>
      if bool_decide (cw_window_minutes window = Some 0) then (None, [(index, None)], true)
      else
        (Some window,
         match cw_used_percent window, cw_window_minutes window, cw_reset_after_seconds window with
         | Some used_percent, Some minutes, Some after =>
             [(index, Some (mkReading used_percent (sat_add now after) (sat_mul minutes 60)))]
         | _, _, _ => []
         end, true)
  | None => (slot, [], false)
  end.
(** The loop that charges what was read. *)
Definition charge_window (consumer : Consumer) (now : Z) (attributed : list (option Attributed))
    (r : nat * option Reading) : list (option Attributed) :=
  let '(index, reading) := r in
  let previous := mjoin (attributed !! index) in
  <[index := (λ reading, charge previous reading consumer now) <$> reading]> attributed.

(** The state after, and whether the state file is to be told. *)
Definition capture_at (provider : Provider) (consumer : Consumer) (headers : H) (now : Z)
    (s : Snapshot) : Snapshot * bool :=
  let a := sn_anthropic s in
  let c := sn_codex s in
  let '(s, read, changed) :=
    match provider with
    | Anthropic =>
        let '(w5, r5, c5) := capture_anthropic headers now 0 "5h" FIVE_HOURS (an_unified_5h a) in
        let '(w7, r7, c7) := capture_anthropic headers now 1 "7d" WEEK (an_unified_7d a) in
        (sn_with_providers (mkAnthropicUsage (an_counts a) w5 w7) c (sn_mistral s) s,
         r5 ++ r7, c5 || c7)
    | Codex =>
        let '(w1, r1, c1) := capture_codex headers now 2 "primary" (cx_primary c) in
        let '(w2, r2, c2) := capture_codex headers now 3 "secondary" (cx_secondary c) in
        (sn_with_providers a (mkCodexUsage (cx_counts c) w1 w2) (sn_mistral s) s,
         r1 ++ r2, c1 || c2)
    | Mistral => (s, [], false)
    end in
  (sn_with_attributed (foldl (charge_window consumer now) (sn_attributed s) read) s, changed).
End capture.

(** ** The windows kept across restarts *)
Record Windows := mkWindows {
  ws_unified_5h : option AnthropicWindow;
  ws_unified_7d : option AnthropicWindow;
  ws_primary : option CodexWindow;
  ws_secondary : option CodexWindow;
  ws_attributed : list (option Attributed);
}.
Definition windows (state : Snapshot) : Windows :=
  mkWindows (an_unified_5h (sn_anthropic state)) (an_unified_7d (sn_anthropic state))
    (cx_primary (sn_codex state)) (cx_secondary (sn_codex state)) (sn_attributed state).

Definition aw_restore (w : AnthropicWindow) : AnthropicWindow :=
  mkAnthropicWindow (aw_utilization w) (aw_reset w) (aw_status w) (aw_observed_at w) true.
Definition cw_restore (w : CodexWindow) : CodexWindow :=
  mkCodexWindow (cw_used_percent w) (cw_window_minutes w) (cw_reset_after_seconds w)
    (cw_observed_at w) true.
(** [BrokerUsage::restore]. *)
Definition restore_windows (ws : Windows) (state : Snapshot) : Snapshot :=
  let a := sn_anthropic state in
  let c := sn_codex state in
  sn_with_attributed (ws_attributed ws)
    (sn_with_providers
       (mkAnthropicUsage (an_counts a) (aw_restore <$> ws_unified_5h ws)
          (aw_restore <$> ws_unified_7d ws))
       (mkCodexUsage (cx_counts c) (cw_restore <$> ws_primary ws) (cw_restore <$> ws_secondary ws))
       (sn_mistral state) state).

Inductive WindowsError :=
| UtilizationRange (name : string)
| CodexPercentRange (name : string)
| MinutesInvalid (name : string)
| ResetOverflows (name : string)
| AttributedInvalid (index : nat) (e : AttributedError).

Definition validate_anthropic (w : string * option AnthropicWindow) : result WindowsError unit :=
  let '(name, window) := w in
  refuse_if (is_some_and (window ≫= aw_utilization) (λ n, negb (in_range fzero one n)))
    (UtilizationRange name).
Definition validate_codex (w : string * option CodexWindow) : result WindowsError unit :=
  let '(name, window) := w in
  match window with
  | None => Ok tt
  | Some window =>
      refuse_if (is_some_and (cw_used_percent window) (λ n, negb (in_range fzero percent_100 n)))
        (CodexPercentRange name) ≫= λ _,
      refuse_if (is_some_and (cw_window_minutes window)
                   (λ n, (n =? 0) || is_none (checked_mul n 60)))
        (MinutesInvalid name) ≫= λ _,
      refuse_if (is_some_and (cw_reset_after_seconds window)
                   (λ n, is_none (checked_add (cw_observed_at window) n)))
        (ResetOverflows name)
  end.
Definition validate_attributed (w : nat * option Attributed) : result WindowsError unit :=
  let '(index, window) := w in
  match window with
  | None => Ok tt
  | Some window => map_err (AttributedInvalid index) (Attributed_validate window)
  end.
Definition Windows_validate (self : Windows) : result WindowsError unit :=
  try_each validate_anthropic
    [("unified_5h", ws_unified_5h self); ("unified_7d", ws_unified_7d self)]%string ≫= λ _,
  try_each validate_codex
    [("primary", ws_primary self); ("secondary", ws_secondary self)]%string ≫= λ _,
  try_each validate_attributed (imap pair (ws_attributed self)).

(** Each window after, and its [observed_at] as stored if it was changed. *)
Definition aw_clamp (now : Z) (w : AnthropicWindow) : AnthropicWindow * option Z :=
  if now <? aw_observed_at w then
    (mkAnthropicWindow (aw_utilization w) (aw_reset w) (aw_status w) now (aw_restored w),
     Some (aw_observed_at w))
  else (w, None).
Definition cw_clamp (now : Z) (w : CodexWindow) : CodexWindow * option Z :=
  if now <? cw_observed_at w then
    let ahead := cw_observed_at w - now in
    (mkCodexWindow (cw_used_percent w) (cw_window_minutes w)
       ((λ n, wrap_add n ahead) <$> cw_reset_after_seconds w) now (cw_restored w),
     Some (cw_observed_at w))
  else (w, None).
Definition clamp_slot {A} (f : A → A * option Z) (name : string) (slot : option A)
    : option A * list (string * Z) :=
  match slot with
  | None => (None, [])
  | Some w =>
      let '(w, observed_at) := f w in
      (Some w, match observed_at with Some t => [(name, t)] | None => [] end)
  end.
Definition Windows_clamp_observed_at (now : Z) (self : Windows) : Windows * list (string * Z) :=
  let '(w5, l5) := clamp_slot (aw_clamp now) "unified_5h" (ws_unified_5h self) in
  let '(w7, l7) := clamp_slot (aw_clamp now) "unified_7d" (ws_unified_7d self) in
  let '(w1, l1) := clamp_slot (cw_clamp now) "primary" (ws_primary self) in
  let '(w2, l2) := clamp_slot (cw_clamp now) "secondary" (ws_secondary self) in
  let attributed := imap (λ index w,
    clamp_slot (λ a, clamp_observed_at a now)
      ("attributed[" +:+ u64_to_string (Z.of_nat index) +:+ "]") w) (ws_attributed self) in
  (mkWindows w5 w7 w1 w2 attributed.*1, l5 ++ l7 ++ l1 ++ l2 ++ concat attributed.*2).
