(* ===== verification/UsageWeek.v ===== *)
(** * The trailing week of spend

    A [Week]'s buckets refine a plain list of charges: what [Week_sum] says
    is the sum of the charges of the last [SPEND_HOURS] hours, however the
    clock stepped, and the buckets never outnumber those hours. *)
From S2P Require Import Prelude Pools Runs Usage.
From stdpp Require Import sorting.
Local Open Scope Z_scope.
#[local] Arguments SPEND_HOURS : simpl never.

(** ** The specification *)

(** The charges a payer was charged, the oldest first, each with the hour of
    the clock. *)
Definition history : Type := list (Z * Charge).
Definition charge_ok (c : Charge) : Prop :=
  match c with Priced micros => is_u64 micros | _ => True end.
(** The latest hour seen. *)
Definition latest (hs : list (Z * Charge)) : Z := foldl (λ m e, Z.max m e.1) 0 hs.
(** Each charge at its hour, or at the latest before it if the clock stepped
    back. *)
Fixpoint effective (m : Z) (hs : list (Z * Charge)) : list (Z * Charge) :=
  match hs with
  | [] => []
  | (hour, c) :: hs => (Z.max m hour, c) :: effective (Z.max m hour) hs
  end.
Definition tally_of (cs : list Charge) : Tally := foldl Tally_charge Tally_default cs.
(** The charges still in the week that ends at [hour]. *)
Definition in_week (hour : Z) (hs : history) : list Charge :=
  (filter (λ e, hour < e.1 + SPEND_HOURS) (effective 0 hs)).*2.

Definition week_of (hs : history) : Week :=
  foldl (λ w e, Week_add e.1 e.2 w) [] hs.

(** ** Sums *)
Definition Tally_ok (t : Tally) : Prop :=
  is_u64 (t_micros t) ∧ is_u64 (t_unpriced t) ∧ is_u64 (t_unmetered t).

Lemma Tally_ok_default : Tally_ok Tally_default.
Proof. repeat split; cbn; u64_lia. Qed.
Lemma Tally_charge_ok t c : Tally_ok t → charge_ok c → Tally_ok (Tally_charge t c).
Proof.
  intros (?&?&?) ?. destruct c; cbn in *; split_and!; cbn; try done;
    apply sat_add_u64; try done; u64_lia.
Qed.
Lemma Tally_add_ok s t : Tally_ok s → Tally_ok t → Tally_ok (Tally_add s t).
Proof. intros (?&?&?) (?&?&?). split_and!; cbn; by apply sat_add_u64. Qed.
Lemma Tally_add_charge s t c :
  Tally_ok s → Tally_ok t → charge_ok c →
  Tally_add s (Tally_charge t c) = Tally_charge (Tally_add s t) c.
Proof.
  intros (?&?&?) (?&?&?) ?. destruct s, t, c; unfold Tally_add; cbn in *; f_equal; u64_lia.
Qed.
Lemma Tally_add_default_r s : Tally_ok s → Tally_add s Tally_default = s.
Proof. intros (?&?&?). destruct s; unfold Tally_add; cbn in *. f_equal; u64_lia. Qed.

Section sums.
Context (h : Z).
Definition add_bucket (sum : Tally) (b : Bucket) : Tally :=
  if h <? b_hour b + SPEND_HOURS then Tally_add sum (b_tally b) else sum.

Lemma sum_ok w t : Forall (λ b, Tally_ok (b_tally b)) w → Tally_ok t →
  Tally_ok (foldl add_bucket t w).
Proof.
  intros Hw. revert t. induction Hw as [|b w Hb _ IH]; intros t Ht; [done|]. cbn. apply IH.
  unfold add_bucket. destruct (_ <? _); [by apply Tally_add_ok|done].
Qed.
Lemma sum_expire hour w t :
  hour <= h → foldl add_bucket t (Week_expire hour w) = foldl add_bucket t w.
Proof.
  intros Hh. induction w as [|b w IH]; [done|]. cbn [Week_expire].
  destruct (Z.leb_spec (b_hour b + SPEND_HOURS) hour); [|done]. rewrite IH. cbn.
  unfold add_bucket at 3. destruct (Z.ltb_spec h (b_hour b + SPEND_HOURS)); [lia|done].
Qed.
(** A charge to the last hour that counts. *)
Lemma sum_charge_back hour c w t m :
  Forall (λ b, Tally_ok (b_tally b) ∧ b_hour b <= m) w → Tally_ok t → charge_ok c →
  (∀ b, last w = Some b → hour <= b_hour b → b_hour b = m) → hour <= m →
  (last w = None ∨ (∃ b, last w = Some b ∧ b_hour b < hour) → hour = m) →
  foldl add_bucket t (charge_back hour c w) =
  if h <? m + SPEND_HOURS then Tally_charge (foldl add_bucket t w) c
  else foldl add_bucket t w.
Proof.
  intros Hw Ht Hc Hlast Hle Hnew. revert t Ht.
  induction w as [|b w IH]; intros t Ht.
  { cbn. rewrite (Hnew (or_introl eq_refl)). unfold add_bucket; cbn.
    destruct (_ <? _); [|done].
    rewrite Tally_add_charge, Tally_add_default_r by (done || apply Tally_ok_default). done. }
  apply Forall_cons in Hw as [[Hb Hbm] Hw].
  destruct w as [|b' w].
  - cbn [charge_back]. destruct (Z.leb_spec hour (b_hour b)) as [Hbh|Hbh].
    + rewrite <-(Hlast b eq_refl Hbh). cbn [foldl]. unfold add_bucket.
      cbn [b_hour charge_bucket b_tally]. destruct (h <? b_hour b + _); [|done].
      by apply Tally_add_charge.
    + assert (hour = m) as -> by (apply Hnew; right; eauto).
      cbn [foldl]. unfold add_bucket. cbn [b_hour charge_bucket b_tally].
      destruct (h <? m + _); [|done].
      assert (Tally_ok (if h <? b_hour b + SPEND_HOURS then Tally_add t (b_tally b) else t)).
      { destruct (_ <? _); [by apply Tally_add_ok|done]. }
      rewrite Tally_add_charge, Tally_add_default_r by (done || apply Tally_ok_default). done.
  - change (charge_back hour c (b :: b' :: w)) with (b :: charge_back hour c (b' :: w)).
    change (foldl add_bucket t (b :: charge_back hour c (b' :: w)))
      with (foldl add_bucket (add_bucket t b) (charge_back hour c (b' :: w))).
    rewrite IH; [done|done|exact Hlast|exact Hnew|].
    unfold add_bucket. destruct (h <? b_hour b + _); [by apply Tally_add_ok|done].
Qed.
End sums.

(** ** The invariant *)
Definition before (a b : Bucket) : Prop := b_hour a < b_hour b.
(** The buckets of a payer whose latest hour is [m]. *)
Record week_ok (m : Z) (w : Week) : Prop := {
  wk_sorted : StronglySorted before w;
  wk_tallies : Forall (λ b, Tally_ok (b_tally b)) w;
  wk_hours : Forall (λ b, m - SPEND_HOURS < b_hour b <= m) w;
  wk_last : ∀ b, last w = Some b → b_hour b = m;
  wk_empty : w = [] → m = 0;
}.

Lemma expire_ok m hour w :
  StronglySorted before w → Forall (λ b, b_hour b <= m) w → hour <= m →
  StronglySorted before (Week_expire hour w) ∧
  Forall (λ b, hour - SPEND_HOURS < b_hour b) (Week_expire hour w).
Proof.
  intros Hs Hf Hh. induction Hs as [|b w Hs IH Hb]; [by split; constructor|]. apply Forall_cons in Hf as [? Hf].
  cbn [Week_expire]. destruct (Z.leb_spec (b_hour b + SPEND_HOURS) hour); [by apply IH|].
  split; [by constructor|]. constructor; [lia|].
  eapply Forall_impl; [exact Hb|]. intros x Hx. unfold before in Hx. cbv beta. lia.
Qed.
Lemma expire_empty hour w b :
  last w = Some b → Week_expire hour w = [] → b_hour b + SPEND_HOURS <= hour.
Proof.
  induction w as [|b' w IH]; [done|]. intros Hl. cbn [Week_expire].
  destruct (Z.leb_spec (b_hour b' + SPEND_HOURS) hour); [|done].
  destruct w as [|b'' w]; [by injection Hl as <-|by apply IH].
Qed.
Lemma expire_suffix hour w : ∃ k, Week_expire hour w = drop k w.
Proof.
  induction w as [|b w [k IH]]; [by exists 0%nat|]. cbn.
  destruct (_ <=? _); [by exists (S k)|by exists 0%nat].
Qed.
Lemma last_drop {A} k (l : list A) x : last (drop k l) = Some x → last l = Some x.
Proof.
  revert l; induction k as [|k IH]; intros [|y l]; cbn; try done.
  intros H. apply IH in H. destruct l; [done|exact H].
Qed.

Lemma charge_back_cases hour c w :
  (∃ w' b, w = w' ++ [b] ∧ hour <= b_hour b ∧ charge_back hour c w = w' ++ [charge_bucket c b]) ∨
  ((∀ b, last w = Some b → b_hour b < hour) ∧
   charge_back hour c w = w ++ [charge_bucket c (mkBucket hour Tally_default)]).
Proof.
  induction w as [|b w IH]; [by right|]. destruct w as [|b' w].
  - cbn. destruct (Z.leb_spec hour (b_hour b)).
    + left. by exists [], b.
    + right. split; [|done]. by intros ? [= <-].
  - change (charge_back hour c (b :: b' :: w)) with (b :: charge_back hour c (b' :: w)).
    destruct IH as [(w' & b0 & E & ? & ->)|[? ->]].
    + left. exists (b :: w'), b0. by rewrite E.
    + by right.
Qed.

(** What expiring for a new hour leaves. *)
Lemma week_expire_ok m w hour :
  week_ok m w → 0 <= hour →
  let w' := Week_expire hour w in
  StronglySorted before w' ∧ Forall (λ b, Tally_ok (b_tally b)) w' ∧
  Forall (λ b, Z.max m hour - SPEND_HOURS < b_hour b <= m) w' ∧
  (∀ b, last w' = Some b → b_hour b = m) ∧ (w' = [] → m <= hour).
Proof.
  intros [Hs Ht Hh Hl He] H0 w'.
  destruct (expire_ok (Z.max m hour) hour w) as [Hs' Hf']; [done| |lia|].
  { eapply Forall_impl; [done|]. cbn. lia. }
  assert (w' = [] → m <= hour) as He'.
  { intros E. destruct (last w) as [b|] eqn:Eb.
    - rewrite <-(Hl b eq_refl). assert (0 < SPEND_HOURS) by done.
      pose proof (expire_empty hour w b Eb E). lia.
    - apply last_None in Eb. specialize (He Eb). lia. }
  subst w'. destruct (expire_suffix hour w) as [k Ek]. rewrite Ek in *.
  apply (Forall_drop _ k) in Ht, Hh. split_and!; try done.
  - apply Forall_forall. intros b Hb. rewrite Forall_forall in Hf', Hh.
    specialize (Hf' b Hb). specialize (Hh b Hb). cbn in *. lia.
  - intros b Hb. by eapply Hl, last_drop.
Qed.

Lemma week_add_ok m w hour c :
  week_ok m w → charge_ok c → 0 <= hour → week_ok (Z.max m hour) (Week_add hour c w).
Proof.
  intros Hok Hc H0. destruct (week_expire_ok m w hour Hok H0) as (Hs & Ht & Hh & Hl & He).
  unfold Week_add. revert Hs Ht Hh Hl He. generalize (Week_expire hour w). clear w Hok.
  intros w Hs Ht Hh Hl He. assert (0 < SPEND_HOURS) by done.
  destruct (charge_back_cases hour c w) as [(w' & b & -> & Hb & ->)|[Hb ->]].
  - assert (b_hour b = m) as Em by (apply Hl; apply last_snoc).
    apply Forall_app in Ht as [Ht [Htb _]%Forall_cons].
    apply Forall_app in Hh as [Hh [Hhb _]%Forall_cons].
    apply StronglySorted_app in Hs as (Hs1 & Hs2 & _). split.
    + apply StronglySorted_app_2; [|done|repeat constructor].
      intros x1 x2 ? ->%list_elem_of_singleton. apply (Hs1 x1 b); [done|]. by left.
    + apply Forall_app. split; [done|]. constructor; [|done]. by apply Tally_charge_ok.
    + apply Forall_app. split; [|constructor; [cbn; lia|done]].
      eapply Forall_impl; [exact Hh|]. cbn. lia.
    + intros b' Hb'. rewrite last_snoc in Hb'. injection Hb' as <-. cbn. lia.
    + intros E. by destruct w'.
  - assert (Z.max m hour = hour) as ->.
    { destruct (last w) as [b|] eqn:E; [|apply last_None in E; specialize (He E); lia].
      specialize (Hb b eq_refl). specialize (Hl b eq_refl). lia. }
    split.
    + apply StronglySorted_app_2; [|done|repeat constructor].
      intros x1 x2 Hx ->%list_elem_of_singleton. unfold before. cbn.
      destruct (last w) as [b|] eqn:E; [|apply last_None in E as ->; set_solver].
      specialize (Hb b eq_refl). specialize (Hl b eq_refl).
      rewrite Forall_forall in Hh. specialize (Hh x1 Hx). cbn in Hh. lia.
    + apply Forall_app. split; [done|]. constructor; [|done].
      apply Tally_charge_ok; [apply Tally_ok_default|done].
    + apply Forall_app. split; [|constructor; [cbn; lia|done]].
      apply Forall_forall. intros b' Hb'. rewrite Forall_forall in Hh.
      specialize (Hh b' Hb'). cbn in Hh. split; [lia|].
      destruct (last w) as [b|] eqn:E; [|apply last_None in E as ->; set_solver].
      specialize (Hb b eq_refl). specialize (Hl b eq_refl). lia.
    + intros b' Hb'. rewrite last_snoc in Hb'. injection Hb' as <-. done.
    + intros E. by destruct w.
Qed.

Lemma week_length m w :
  StronglySorted before w → Forall (λ b, m - SPEND_HOURS < b_hour b <= m) w →
  Z.of_nat (length w) <= SPEND_HOURS.
Proof.
  assert (∀ lo, StronglySorted before w → Forall (λ b, lo < b_hour b <= m) w →
    Z.of_nat (length w) <= Z.max (m - lo) 0) as H.
  { intros lo Hs. revert lo. induction Hs as [|b w Hs IH Hb]; intros lo Hr; [cbn; lia|].
    apply Forall_cons in Hr as [? Hr].
    enough (Z.of_nat (length w) <= Z.max (m - b_hour b) 0) by (cbn; lia).
    apply IH. apply Forall_forall. intros x Hx. rewrite Forall_forall in Hb, Hr.
    specialize (Hb x Hx). specialize (Hr x Hx). unfold before in Hb. cbn in Hr. lia. }
  intros Hs Hr. specialize (H _ Hs Hr). assert (0 < SPEND_HOURS) by done. lia.
Qed.
Lemma latest_snoc hs e : latest (hs ++ [e]) = Z.max (latest hs) e.1.
Proof. unfold latest. by rewrite foldl_app. Qed.
Lemma week_of_snoc hs e : week_of (hs ++ [e]) = Week_add e.1 e.2 (week_of hs).
Proof. unfold week_of. by rewrite foldl_app. Qed.
Lemma effective_snoc m hs e :
  effective m (hs ++ [e]) =
  effective m hs ++ [(Z.max (foldl (λ m e, Z.max m e.1) m hs) e.1, e.2)].
Proof.
  revert m. induction hs as [|[h c] hs IH]; intros m; [by destruct e|]. cbn. by rewrite IH.
Qed.
Definition history_ok (hs : history) : Prop := Forall (λ e, 0 <= e.1 ∧ charge_ok e.2) hs.

Lemma week_of_ok hs : history_ok hs → week_ok (latest hs) (week_of hs).
Proof.
  induction hs as [|[h c] hs IH] using rev_ind; intros Hh.
  { split; cbn; [constructor|done|done|done|done]. }
  apply Forall_app in Hh as [Hh [[? ?] _]%Forall_cons].
  rewrite latest_snoc, week_of_snoc. apply week_add_ok; auto.
Qed.

(** ** The refinement *)
Lemma Week_sum_eq h w : Week_sum h w = foldl (add_bucket h) Tally_default w.
Proof. done. Qed.

Lemma sum_add h hour c m w :
  week_ok m w → charge_ok c → 0 <= hour → Z.max m hour <= h →
  Week_sum h (Week_add hour c w) =
  if h <? Z.max m hour + SPEND_HOURS then Tally_charge (Week_sum h w) c else Week_sum h w.
Proof.
  intros Hok Hc H0 Hh. destruct (week_expire_ok m w hour Hok H0) as (Hs & Ht & Hhs & Hl & He).
  rewrite !Week_sum_eq, <-(sum_expire h hour w) by lia. unfold Week_add.
  apply sum_charge_back; try done.
  - apply Forall_forall. intros b Hb. rewrite Forall_forall in Ht, Hhs.
    split; [by apply Ht|]. specialize (Hhs b Hb). cbn in Hhs. lia.
  - intros b Hb ?. rewrite (Hl b Hb) in *. lia.
  - lia.
  - intros [E|(b & E & ?)].
    + apply last_None in E. specialize (He E). lia.
    + rewrite (Hl b E) in *. lia.
Qed.

(** Asking about an hour before the latest is asking about the latest. *)
Lemma sum_latest h m w : week_ok m w → Week_sum h w = Week_sum (Z.max h m) w.
Proof.
  intros [_ _ Hh _ _]. rewrite !Week_sum_eq. generalize Tally_default.
  induction Hh as [|b w Hb _ IH]; intros t; [done|]. cbn [foldl]. rewrite IH. f_equal.
  unfold add_bucket.
  destruct (Z.ltb_spec h (b_hour b + SPEND_HOURS)),
    (Z.ltb_spec (Z.max h m) (b_hour b + SPEND_HOURS)); [done|lia|lia|done].
Qed.

Lemma in_week_snoc h hs e :
  in_week h (hs ++ [e]) =
  in_week h hs ++ (if h <? Z.max (latest hs) e.1 + SPEND_HOURS then [e.2] else []).
Proof.
  unfold in_week. rewrite effective_snoc, filter_app, fmap_app. f_equal.
  fold (latest hs). rewrite filter_cons. cbn.
  destruct (Z.ltb_spec h (Z.max (latest hs) e.1 + SPEND_HOURS)), (decide _); done || lia.
Qed.

Lemma sum_after h hs :
  history_ok hs → latest hs <= h → Week_sum h (week_of hs) = tally_of (in_week h hs).
Proof.
  induction hs as [|[hr c] hs IH] using rev_ind; intros Hh Hle; [done|].
  apply Forall_app in Hh as [Hh [[? ?] _]%Forall_cons].
  rewrite latest_snoc in Hle. cbn in *.
  rewrite week_of_snoc, in_week_snoc.
  rewrite (sum_add h hr c (latest hs)) by (auto using week_of_ok).
  rewrite IH by (done || lia). cbn [fst snd].
  destruct (h <? _); [|by rewrite app_nil_r]. unfold tally_of. by rewrite foldl_app.
Qed.

Lemma week_refines_sum hs h :
  history_ok hs → Week_sum h (week_of hs) = tally_of (in_week (Z.max h (latest hs)) hs).
Proof.
  intros Hh. rewrite (sum_latest h (latest hs)) by (by apply week_of_ok).
  apply sum_after; [done|lia].
Qed.

(** C30: whatever the charges and however the clock stepped between them,
    the hourly buckets say what the plain list of charges would: the sum at
    an hour is that of the charges of the [SPEND_HOURS] hours up to it, or up
    to the latest hour charged if the clock is behind it, each charge taken
    at the latest hour seen when it was made; and they never outnumber the
    hours of the week. *)
Theorem week_refines hs h :
  history_ok hs →
  Week_sum h (week_of hs) = tally_of (in_week (Z.max h (latest hs)) hs) ∧
  Z.of_nat (length (week_of hs)) <= SPEND_HOURS.
Proof.
  intros Hh. split; [by apply week_refines_sum|].
  destruct (week_of_ok hs Hh) as [Hs _ Hr _ _]. revert Hs Hr. apply week_length.
Qed.

(** ** Witness *)
Definition sample_history : history :=
  [(10, Priced 5); (12, Unpriced); (9, Priced 7); (178, ChargeUnmetered)].
Lemma week_refines_witness :
  Week_sum 178 (week_of sample_history) = mkTally 7 1 1 ∧
  Week_sum 178 (week_of sample_history) =
    tally_of (in_week (Z.max 178 (latest sample_history)) sample_history).
Proof.
  split; [vm_compute; reflexivity|].
  apply (week_refines sample_history 178).
  repeat constructor; vm_compute; discriminate.
Defined.
