(* ===== verification/UsageBroker.v ===== *)
(** * Broker usage: executions

    Any sequence of the operations of [Usage] by the filters that share a
    registry.  [Ledger] is the abstract specification of the spend meter, the
    plain lists of what each payer was charged; the hourly weeks refine it.
    The invariant bounds what a registry keeps. *)
From S2P Require Import Prelude Headers Float64 Pools Runs Prices Budget Operators Usage UsageWeek.
Local Open Scope Z_scope.

(** ** The specification of the spend meter *)
Record Ledger := mkLedger {
  lg_since : Z;
  lg_runs : per_consumer history;
  lg_operators : gmap string history;
  lg_mistral : per_consumer history;
}.
Definition map_consumers {A B} (f : A → B) (a : per_consumer A) : per_consumer B :=
  by_consumer (f (at_public a)) (f (at_private a)).
Definition Spend_of (l : Ledger) : Spend :=
  mkSpend (lg_since l) (map_consumers week_of (lg_runs l)) (week_of <$> lg_operators l)
    (map_consumers week_of (lg_mistral l)).

Definition ledger_charge (payer : Payer) (hour : Z) (charge : Charge) (l : Ledger) : Ledger :=
  let consumer := pay_consumer payer in
  let add (h : history) : history := h ++ [(hour, charge)] in
  let mistral :=
    if bool_decide (pay_provider payer = Some Mistral)
    then set_consumer (lg_mistral l) consumer (add (at_consumer (lg_mistral l) consumer))
    else lg_mistral l in
  match pay_operator payer with
  | None => mkLedger (lg_since l)
      (set_consumer (lg_runs l) consumer (add (at_consumer (lg_runs l) consumer)))
      (lg_operators l) mistral
  | Some operator =>
      match lg_operators l !! operator with
      | Some h => mkLedger (lg_since l) (lg_runs l) (<[operator := add h]> (lg_operators l)) mistral
      | None => l
      end
  end.

Lemma at_map_consumers {A B} (f : A → B) a c :
  at_consumer (map_consumers f a) c = f (at_consumer a c).
Proof. by destruct c. Qed.
Lemma set_map_consumers {A B} (f : A → B) a c x :
  set_consumer (map_consumers f a) c (f x) = map_consumers f (set_consumer a c x).
Proof. by destruct c. Qed.

Lemma charge_spend_refines payer hour charge l :
  charge_spend payer hour charge (Spend_of l) = Spend_of (ledger_charge payer hour charge l).
Proof.
  assert (∀ a, Week_add hour charge (week_of a) = week_of (a ++ [(hour, charge)])) as Hadd
    by (intros a; by rewrite week_of_snoc).
  unfold charge_spend, ledger_charge, Spend_of. cbn [sp_operators sp_runs sp_mistral sp_since].
  rewrite !at_map_consumers, !Hadd, !set_map_consumers.
  destruct (pay_operator payer) as [o|].
  - rewrite lookup_fmap. destruct (lg_operators l !! o) as [h|] eqn:Ho; cbn; [|done].
    rewrite Hadd, <-fmap_insert. by case_bool_decide.
  - cbn. by case_bool_decide.
Qed.

(** ** Events *)
Section events.
Context `{HeaderMap H}.

Inductive usage_event :=
| UMeter (now : Z)
| USpend (payer : Payer) (usage : option Usage) (success : bool) (now : Z)
| USettle (provider : Provider) (usage : option Usage) (success : bool)
| UDeclareOperator (operator : string) (consumer : Consumer)
| USettleOperator (operator : string) (usage : option Usage) (success : bool)
| UDeclareUnproven
| UUnproven (admitted : bool)
| USettleUnproven (usage : option Usage) (success : bool)
| UCapture (provider : Provider) (consumer : Consumer) (headers : H) (now : Z).

Definition usage_step (b : BrokerUsage) (e : usage_event) : BrokerUsage :=
  match e with
  | UMeter now => meter_spend_at now b
  | USpend payer usage success now => settle_spend_at payer usage success now b
  | USettle provider usage success => on_state (settle_provider provider usage success) b
  | UDeclareOperator operator consumer => declare_operator operator consumer b
  | USettleOperator operator usage success =>
      on_state (settle_operator operator usage success) b
  | UDeclareUnproven => on_state declare_unproven b
  | UUnproven admitted => on_state (unproven_registration admitted) b
  | USettleUnproven usage success => on_state (settle_unproven usage success) b
  | UCapture provider consumer headers now =>
      on_state (λ s, (capture_at provider consumer headers now s).1) b
  end.
Definition usage_run (now : Z) (es : list usage_event) : BrokerUsage :=
  foldl usage_step (BrokerUsage_default now) es.

(** The meter's specification over the same events: [listed] are the
    operators the snapshot lists. *)
Definition ledger_step (listed : gset string) (l : option Ledger) (e : usage_event)
    : option Ledger :=
  match e with
  | UMeter now =>
      match l with
      | Some l => Some l
      | None => Some (mkLedger now (both_consumers []) (gset_to_gmap [] listed)
                        (both_consumers []))
      end
  | USpend payer usage success now =>
      match charge_of usage success with
      | Some c => ledger_charge payer (now / 3600) c <$> l
      | None => l
      end
  | UDeclareOperator operator _ =>
      if bool_decide (operator ∈ listed) || (MAX_LISTED_OPERATORS <=? Z.of_nat (size listed)) then l
      else (λ l, mkLedger (lg_since l) (lg_runs l) (<[operator := []]> (lg_operators l))
                   (lg_mistral l)) <$> l
  | _ => l
  end.
Definition listed (b : BrokerUsage) : gset string := dom (sn_operators (bu_state b)).
Fixpoint ledger_run (b : BrokerUsage) (l : option Ledger) (es : list usage_event) : option Ledger :=
  match es with
  | [] => l
  | e :: es => ledger_run (usage_step b e) (ledger_step (listed b) l e) es
  end.

Lemma usage_step_refines b l e :
  bu_spend b = Spend_of <$> l →
  bu_spend (usage_step b e) = Spend_of <$> ledger_step (listed b) l e.
Proof.
  intros Hb. destruct e; cbn [usage_step ledger_step on_state bu_spend]; try done.
  - unfold meter_spend_at, on_spend. cbn. rewrite Hb. destruct l as [l|]; cbn; [done|].
    f_equal. unfold Spend_of. cbn. f_equal.
    apply map_eq. intros k. rewrite !lookup_fmap, lookup_gset_to_gmap. unfold listed.
    destruct (sn_operators (bu_state b) !! k) as [x|] eqn:Hk.
    + rewrite option_guard_True by (apply elem_of_dom; eauto). done.
    + rewrite option_guard_False by (by apply not_elem_of_dom). done.
  - unfold settle_spend_at. destruct (charge_of usage success) as [c|]; [|done].
    cbn. rewrite Hb. destruct l as [l|]; cbn; [|done]. f_equal. apply charge_spend_refines.
  - unfold declare_operator, listed. cbv zeta. rewrite size_dom.
    destruct (sn_operators (bu_state b) !! operator) as [c|] eqn:Ho; cbn [is_some is_none negb].
    + rewrite (bool_decide_eq_true_2 (operator ∈ _)) by (apply elem_of_dom; eauto). done.
    + rewrite (bool_decide_eq_false_2 (operator ∈ _)) by (by apply not_elem_of_dom). cbn [orb].
      destruct (_ <=? _); [done|]. cbn. rewrite Hb. destruct l as [l|]; cbn; [|done].
      unfold Spend_of. cbn. by rewrite fmap_insert.
Qed.

Lemma usage_run_refines es b l :
  bu_spend b = Spend_of <$> l →
  bu_spend (foldl usage_step b es) = Spend_of <$> ledger_run b l es.
Proof.
  revert b l. induction es as [|e es IH]; intros b l Hb; [done|]. cbn.
  apply IH. by apply usage_step_refines.
Qed.
End events.

(** ** What the snapshot says of spend *)
Definition spent (h : Z) (hs : history) : Tally :=
  tally_of (in_week (Z.max h (latest hs)) hs).

Section view.
Context `{HeaderMap H}.

Definition usage_event_ok (e : usage_event (H:=H)) : Prop :=
  match e with USpend _ _ _ now => 0 <= now | _ => True end.
Definition ledger_ok (l : Ledger) : Prop :=
  (∀ c, history_ok (at_consumer (lg_runs l) c)) ∧
  (∀ c, history_ok (at_consumer (lg_mistral l) c)) ∧
  map_Forall (λ _, history_ok) (lg_operators l).

Lemma charge_of_ok usage success c : charge_of usage success = Some c → charge_ok c.
Proof.
  unfold charge_of. destruct usage as [u|]; [|destruct success; [|done]; by intros [= <-]].
  intros [= <-]. destruct (cost u) eqn:E; [|done]. by eapply cost_u64.
Qed.
Lemma history_ok_snoc hs hour c :
  history_ok hs → 0 <= hour → charge_ok c → history_ok (hs ++ [(hour, c)]).
Proof. intros. apply Forall_app. split; [done|]. by constructor. Qed.
Lemma set_consumer_Forall {A} (P : A → Prop) a c x :
  (∀ d, P (at_consumer a d)) → P x → ∀ d, P (at_consumer (set_consumer a c x) d).
Proof. intros Ha Hx d. rewrite at_set_consumer. by case_decide. Qed.

Lemma ledger_charge_ok payer hour c l :
  0 <= hour → charge_ok c → ledger_ok l → ledger_ok (ledger_charge payer hour c l).
Proof.
  intros Hnow Hc (Hr & Hm & Ho). unfold ledger_charge.
  assert (∀ d, history_ok (at_consumer
    (if bool_decide (pay_provider payer = Some Mistral)
     then set_consumer (lg_mistral l) (pay_consumer payer)
       (at_consumer (lg_mistral l) (pay_consumer payer) ++ [(hour, c)])
     else lg_mistral l) d)) as Hm'.
  { case_bool_decide; [|done].
    apply (set_consumer_Forall history_ok); [done|]. by apply history_ok_snoc. }
  destruct (pay_operator payer) as [o|].
  - destruct (lg_operators l !! o) as [h|] eqn:E; [|done]. split_and!; cbn; [done|done|].
    apply map_Forall_insert_2; [|done]. apply history_ok_snoc; try done. by apply (Ho o).
  - split_and!; cbn; [|done|done].
    apply (set_consumer_Forall history_ok); [done|]. by apply history_ok_snoc.
Qed.
Lemma ledger_step_ok X l e :
  usage_event_ok e → (∀ x, l = Some x → ledger_ok x) →
  ∀ x, ledger_step X l e = Some x → ledger_ok x.
Proof.
  intros He Hl. destruct e; cbn; try done.
  - destruct l as [l|]; [by apply Hl|]. intros x [= <-].
    split_and!; cbn; [intros []; constructor|intros []; constructor|].
    intros k hs [_ <-]%lookup_gset_to_gmap_Some. constructor.
  - destruct (charge_of usage success) as [c|] eqn:Ec; [|done].
    destruct l as [l|]; [|done]. intros x [= <-].
    apply ledger_charge_ok; [|by eapply charge_of_ok|by apply Hl].
    cbn in He. by apply Z.div_pos.
  - destruct (_ || _); [done|]. destruct l as [l|]; [|done]. intros x [= <-].
    destruct (Hl l eq_refl) as (? & ? & Ho). split_and!; cbn; [done..|].
    apply map_Forall_insert_2; [constructor|done].
Qed.
Lemma ledger_run_ok es b l :
  Forall usage_event_ok es → (∀ x, l = Some x → ledger_ok x) →
  ∀ x, ledger_run b l es = Some x → ledger_ok x.
Proof.
  intros Hes. revert b l. induction Hes as [|e es He _ IH]; intros b l Hl; [done|].
  cbn. apply IH. by apply ledger_step_ok.
Qed.

Lemma sum_spent h hs : history_ok hs → Week_sum h (week_of hs) = spent h hs.
Proof. intros Hh. apply (week_refines_sum hs h Hh). Qed.

(** The operators shown, in the ledger's terms. *)
Definition shown_ledger (l : Ledger) (public_operators : option (gset string))
    : gmap string history :=
  filter (λ '(name, _), is_none_or public_operators (λ public, bool_decide (name ∈ public)) = true)
    (lg_operators l).
Lemma shown_operators_refines l o :
  shown_operators (Spend_of l) o = week_of <$> shown_ledger l o.
Proof.
  apply map_eq. intros k. unfold shown_operators, shown_ledger. cbn [Spend_of sp_operators].
  rewrite lookup_fmap, !map_lookup_filter, lookup_fmap.
  destruct (lg_operators l !! k) as [hs|]; [|done]. cbn.
  by destruct (guard _).
Qed.
Lemma shown_ledger_lookup l granted (public : gset string) name hs :
  shown_ledger l (then_some granted public) !! name = Some hs ↔
  lg_operators l !! name = Some hs ∧ (granted = true → name ∈ public).
Proof.
  unfold shown_ledger. rewrite map_lookup_filter_Some. destruct granted; cbn.
  - rewrite bool_decide_eq_true. naive_solver.
  - naive_solver.
Qed.
Lemma fold_shown h runs (m : gmap string history) :
  (∀ name hs, m !! name = Some hs → history_ok hs) →
  foldl (λ all '(_, week), Tally_add all (Week_sum h week)) runs (map_to_list (week_of <$> m)) =
  foldl (λ t e, Tally_add t (spent h e.2)) runs (map_to_list m).
Proof.
  intros Hm. rewrite map_to_list_fmap.
  assert (Forall (λ e, history_ok e.2) (map_to_list m)) as Hf.
  { apply Forall_forall. intros [name hs] Hin%elem_of_map_to_list. by eapply Hm. }
  revert runs. induction Hf as [|[name hs] l Hh _ IH]; intros runs; [done|].
  cbn -[Week_sum week_of spent Tally_add]. rewrite sum_spent by done. apply IH.
Qed.

(** What a view of a ledger's spend shows. *)
Definition ledger_runs (granted : bool) (h : Z) (l : Ledger) : Tally :=
  if granted then spent h (at_public (lg_runs l))
  else Tally_add (spent h (at_public (lg_runs l))) (spent h (at_private (lg_runs l))).
Definition ledger_shown (granted : bool) (public : gset string) (l : Ledger) (name : string)
    (hs : history) : Prop :=
  lg_operators l !! name = Some hs ∧ (granted = true → name ∈ public).
Record view_of (granted : bool) (public : gset string) (h : Z) (l : Ledger) (v : SpendView) : Prop := {
  vo_since : v_since v = lg_since l;
  vo_runs : v_runs v = Spent_of (ledger_runs granted h l);
  vo_operators : ∀ name s, v_by_operator v !! name = Some s ↔
    ∃ hs, ledger_shown granted public l name hs ∧ s = Spent_of (spent h hs);
  vo_all : ∃ shown : list (string * history),
    NoDup shown.*1 ∧ (∀ name hs, (name, hs) ∈ shown ↔ ledger_shown granted public l name hs) ∧
    v_all v = Spent_of (foldl (λ t e, Tally_add t (spent h e.2)) (ledger_runs granted h l) shown);
}.
Lemma view_runs_refines granted public h l :
  ledger_ok l → view_runs (Spend_of l) h (then_some granted public) = ledger_runs granted h l.
Proof.
  intros (Hr & _ & _). unfold view_runs. cbn [Spend_of sp_runs]. rewrite !at_map_consumers.
  rewrite (sum_spent h _ (Hr Public)), (sum_spent h _ (Hr Private)). by destruct granted.
Qed.
Lemma Spend_view_refines granted public h l :
  ledger_ok l → view_of granted public h l (Spend_view (Spend_of l) h (then_some granted public)).
Proof.
  intros Hok. pose proof (view_runs_refines granted public h l Hok) as Hruns.
  destruct Hok as (_ & _ & Ho). unfold Spend_view. rewrite shown_operators_refines, Hruns.
  split; cbn [v_since v_runs v_by_operator v_all]; [done|done| |].
  - intros name s. rewrite <-map_fmap_compose, lookup_fmap, fmap_Some. cbn.
    setoid_rewrite shown_ledger_lookup. split.
    + intros (hs & [Hhs ?] & ->). exists hs. split; [done|]. by rewrite sum_spent by (by eapply Ho).
    + intros (hs & [Hhs ?] & ->). exists hs. split; [done|]. by rewrite sum_spent by (by eapply Ho).
  - set (m := shown_ledger l (then_some granted public)).
    exists (map_to_list m). split_and!; [apply NoDup_fst_map_to_list| |].
    + intros name hs. rewrite elem_of_map_to_list. apply shown_ledger_lookup.
    + rewrite fold_shown; [done|]. intros name hs [Hhs _]%shown_ledger_lookup. by eapply Ho.
Qed.

(** C29: over any execution, the spend [/usage] shows is that of the plain
    ledger of charges: the runs' total is what the runs were charged in the
    trailing week, the public runs only once a budget grants shares; each
    operator shown, the public ones only once it does, is shown what it was
    charged; the overall total is their sum; and Mistral's part, for the
    grants, is each consumer's own. *)
Theorem usage_spend_refines t0 es now granted :
  Forall usage_event_ok es →
  let b := usage_run t0 es in
  let h := now / 3600 in
  let state := bu_state b in
  match ledger_run (BrokerUsage_default t0) None es,
        sn_spend (snapshot_at now granted state (bu_spend b)), bu_spend b with
  | None, None, None => True
  | Some l, Some v, Some sp =>
      let runs := if granted then spent h (at_public (lg_runs l))
        else Tally_add (spent h (at_public (lg_runs l))) (spent h (at_private (lg_runs l))) in
      v_since v = lg_since l ∧ v_runs v = Spent_of runs ∧
      (∀ name s, v_by_operator v !! name = Some s ↔
         ∃ hs, lg_operators l !! name = Some hs ∧
           (granted = true → name ∈ sn_public_operators state) ∧ s = Spent_of (spent h hs)) ∧
      (∃ shown : list (string * history),
         NoDup shown.*1 ∧
         (∀ name hs, (name, hs) ∈ shown ↔ lg_operators l !! name = Some hs ∧
            (granted = true → name ∈ sn_public_operators state)) ∧
         v_all v = Spent_of (foldl (λ t e, Tally_add t (spent h e.2)) runs shown)) ∧
      ∀ c, Week_sum h (at_consumer (sp_mistral sp) c) = spent h (at_consumer (lg_mistral l) c)
  | _, _, _ => False
  end.
Proof.
  intros Hes b h state.
  pose proof (usage_run_refines es (BrokerUsage_default t0) None eq_refl) as Hsp.
  pose proof (ledger_run_ok es (BrokerUsage_default t0) None Hes ltac:(done)) as Hl.
  fold (usage_run t0 es) in Hsp. fold b in Hsp. rewrite Hsp.
  destruct (ledger_run _ None es) as [l|]; [|done]. specialize (Hl l eq_refl).
  destruct (Spend_view_refines granted (sn_public_operators state) h l Hl) as [Hs Hr Ho Ha].
  cbn [fmap option_fmap option_map snapshot_at sn_spend sn_with_spend].
  split; [exact Hs|]. split; [exact Hr|]. split; [|split; [exact Ha|]].
  - intros name s. etrans; [apply (Ho name s)|]. unfold ledger_shown. naive_solver.
  - destruct Hl as (_ & Hm & _). intros c. cbn [Spend_of sp_mistral].
    rewrite at_map_consumers. by apply sum_spent.
Qed.
End view.

(** ** What a registry keeps *)
Section bounds.
Context `{HeaderMap H}.

Record usage_ok (b : BrokerUsage) : Prop := {
  us_attributed : length (sn_attributed (bu_state b)) = length WINDOWS;
  us_operators : Z.of_nat (size (sn_operators (bu_state b))) <= MAX_LISTED_OPERATORS;
  us_public : sn_public_operators (bu_state b) ⊆ dom (sn_operators (bu_state b));
  us_payers : ∀ sp, bu_spend b = Some sp → dom (sp_operators sp) = dom (sn_operators (bu_state b));
}.

Lemma charge_windows_length consumer now l attributed :
  length (foldl (charge_window consumer now) attributed l) = length attributed.
Proof.
  revert attributed. induction l as [|[i r] l IH]; intros a; [done|]. cbn [foldl].
  rewrite IH. apply length_insert.
Qed.
(** What [capture_at] leaves alone. *)
Lemma capture_frame provider consumer (headers : H) now s :
  let s' := (capture_at provider consumer headers now s).1 in
  sn_operators s' = sn_operators s ∧ sn_public_operators s' = sn_public_operators s ∧
  length (sn_attributed s') = length (sn_attributed s) ∧
  an_counts (sn_anthropic s') = an_counts (sn_anthropic s) ∧
  cx_counts (sn_codex s') = cx_counts (sn_codex s) ∧ sn_mistral s' = sn_mistral s ∧
  sn_unproven_runs s' = sn_unproven_runs s ∧ sn_spend s' = sn_spend s.
Proof.
  unfold capture_at. destruct provider.
  - destruct (capture_anthropic _ _ _ _ _ _) as [[? ?] ?], (capture_anthropic _ _ _ _ _ _) as [[? ?] ?].
    cbn. by rewrite charge_windows_length.
  - destruct (capture_codex _ _ _ _ _) as [[? ?] ?], (capture_codex _ _ _ _ _) as [[? ?] ?].
    cbn. by rewrite charge_windows_length.
  - done.
Qed.

Lemma usage_ok_state f b :
  usage_ok b →
  (let s := bu_state b in dom (sn_operators (f s)) = dom (sn_operators s) ∧
    sn_public_operators (f s) = sn_public_operators s ∧
    length (sn_attributed (f s)) = length (sn_attributed s)) →
  usage_ok (on_state f b).
Proof.
  intros [] (E1 & E2 & E3). split; cbn; rewrite ?E1, ?E2, ?E3; try done.
  by rewrite <-size_dom, E1, size_dom.
Qed.

Lemma ledger_dom payer hour c sp :
  dom (sp_operators (charge_spend payer hour c sp)) = dom (sp_operators sp).
Proof.
  unfold charge_spend. destruct (pay_operator payer) as [o|]; [|done].
  destruct (sp_operators sp !! o) as [w|] eqn:E; [|done]. cbn.
  apply (elem_of_dom_2 (D:=gset string)) in E. rewrite dom_insert_L. set_solver.
Qed.

Lemma usage_step_ok b e : usage_ok b → usage_ok (usage_step b e).
Proof.
  intros Hok. destruct e; cbn [usage_step]; 
    try (apply usage_ok_state; [done|done]).
  - unfold meter_spend_at. destruct Hok as [? ? ? Hp]. split; cbn; try done.
    intros sp. destruct (bu_spend b) as [sp'|]; [apply Hp|]. intros [= <-]. cbn.
    by rewrite dom_fmap_L.
  - unfold settle_spend_at. destruct (charge_of usage success) as [c|]; [|done].
    destruct Hok as [? ? ? Hp]. split; cbn; try done. intros sp (sp' & Hsp & ->)%fmap_Some.
    rewrite ledger_dom. by apply Hp.
  - apply usage_ok_state; [done|by destruct provider].
  - unfold declare_operator. destruct Hok as [Hl Ho Hp Hd].
    destruct (sn_operators (bu_state b) !! operator) as [c|] eqn:E; cbn [is_some is_none negb].
    + apply (elem_of_dom_2 (D:=gset string)) in E.
      split; cbn; try done. case_bool_decide; set_solver.
    + destruct (Z.leb_spec MAX_LISTED_OPERATORS (Z.of_nat (size (sn_operators (bu_state b)))));
        [done|]. split; cbn; [done| | |].
      * rewrite map_size_insert_None by done. lia.
      * rewrite dom_insert_L. case_bool_decide; set_solver.
      * intros sp (sp' & Hsp & ->)%fmap_Some. cbn. rewrite !dom_insert_L. by rewrite (Hd sp').
  - apply usage_ok_state; [done|]. unfold settle_operator. cbv zeta.
    destruct (sn_operators (bu_state b) !! operator) as [c|] eqn:E; [|done].
    cbn. split_and!; [|done|done]. apply (elem_of_dom_2 (D:=gset string)) in E.
    rewrite dom_insert_L. set_solver.
  - apply usage_ok_state; [done|].
    destruct (capture_frame provider consumer headers now (bu_state b)) as (E & ? & ? & _).
    cbv beta zeta. by rewrite E.
Qed.

(** What a registry keeps is bounded, however long it runs: its four
    window slots, at most [MAX_LISTED_OPERATORS] operators, the public ones
    among them, and, once spend is metered, a week for each of those and the
    runs and no other payer. *)
Theorem usage_bounded t0 es : usage_ok (usage_run (H:=H) t0 es).
Proof.
  unfold usage_run.
  assert (usage_ok (BrokerUsage_default t0)) as Hok by by split.
  revert Hok. generalize (BrokerUsage_default t0).
  induction es as [|e es IH]; intros b Hok; [done|]. cbn. by apply IH, usage_step_ok.
Qed.
End bounds.

(** ** Whose spend is shown *)

(** Once a budget grants shares, the spend anyone reads depends only on
    the public consumer's runs and the public operators: two meters that
    agree on those show the same. *)
Theorem snapshot_public now state sp sp' :
  sp_since sp = sp_since sp' →
  at_public (sp_runs sp) = at_public (sp_runs sp') →
  (∀ name, name ∈ sn_public_operators state → sp_operators sp !! name = sp_operators sp' !! name) →
  snapshot_at now true state (Some sp) = snapshot_at now true state (Some sp').
Proof.
  intros Hs Hr Ho. unfold snapshot_at. cbn [fmap option_fmap option_map then_some].
  assert (shown_operators sp (Some (sn_public_operators state)) =
    shown_operators sp' (Some (sn_public_operators state))) as E.
  { apply map_eq. intros k. unfold shown_operators. rewrite !map_lookup_filter. cbn.
    destruct (bool_decide_reflect (k ∈ sn_public_operators state)) as [Hk|Hk].
    - by rewrite (Ho k Hk).
    - by destruct (sp_operators sp !! k), (sp_operators sp' !! k). }
  unfold Spend_view, view_runs. cbn [is_none at_consumer]. by rewrite E, Hs, Hr.
Qed.

(** ** Witnesses *)
#[local] Existing Instance header_map.
Definition sample_events : list (usage_event (H:=list (string * string))) :=
  [UDeclareOperator "alice" Public; UMeter 3600;
   USpend (mkPayer None Private (Some Codex)) (Some (priced_usage "gpt-6.1-sol" 16 0 0 5)) true 3700;
   USpend (mkPayer (Some "alice") Public (Some Mistral)) None true 7300].

Lemma usage_spend_refines_witness :
  ∃ l v, ledger_run (BrokerUsage_default 0) None sample_events = Some l ∧
    sn_spend (snapshot_at 7300 false (bu_state (usage_run 0 sample_events))
      (bu_spend (usage_run 0 sample_events))) = Some v ∧
    v_runs v = Spent_of (Tally_add (spent 2 (at_public (lg_runs l)))
      (spent 2 (at_private (lg_runs l)))).
Proof.
  pose proof (usage_spend_refines 0 sample_events 7300 false
    ltac:(repeat constructor; vm_compute; discriminate)) as Hs.
  cbv zeta in Hs.
  destruct (ledger_run (BrokerUsage_default 0) None sample_events) as [l|] eqn:El;
    [|vm_compute in El; discriminate El].
  destruct (sn_spend (snapshot_at 7300 false (bu_state (usage_run 0 sample_events))
      (bu_spend (usage_run 0 sample_events)))) as [v|] eqn:Ev; [|vm_compute in Ev; discriminate Ev].
  destruct (bu_spend (usage_run 0 sample_events)) as [sp|]; [|destruct Hs].
  destruct Hs as (_ & Hr & _). exists l, v. split; [reflexivity|]. split; [reflexivity|].
  exact Hr.
Defined.
Example sample_total :
  (λ v, s_total (v_runs v)) <$> sn_spend (snapshot_at 7300 false
    (bu_state (usage_run 0 sample_events)) (bu_spend (usage_run 0 sample_events)))
  = Some (decimal 82 6).
Proof. vm_compute. reflexivity. Qed.

Definition sample_spend (private : Z) : Spend :=
  mkSpend 0 (by_consumer [mkBucket 1 (mkTally 5 0 0)] [mkBucket 1 (mkTally private 0 0)]) ∅
    (both_consumers []).
Lemma snapshot_public_witness :
  snapshot_at 3600 true (Snapshot_default 0) (Some (sample_spend 1)) =
  snapshot_at 3600 true (Snapshot_default 0) (Some (sample_spend 2)).
Proof. apply snapshot_public; [reflexivity|reflexivity|intros name Hn; reflexivity]. Defined.
