(* ===== verification/UsageState.v ===== *)
(** * The usage state file

    What [usage.rs] keeps across restarts: reading the file back
    ([read_state]), the registries named from it, the thread that writes it
    as the windows change ([StateWriter]), and the replacement of the file
    ([write_state]).  JSON is a parameter. *)
From S2P Require Import Prelude Crypto Headers Files Float64 Pools Budget BudgetGrants Usage.
From stdpp Require Import sorting.
Local Open Scope Z_scope.

Definition STATE_SCHEMA : string := "praxis-broker-usage-state/v1".
Definition STATE_INTERVAL : Z := 5.

Record StateFile := mkStateFile {
  sf_schema : string;
  sf_registries : gmap string Windows;
}.
Inductive StateError :=
| CannotRead (e : string)
| NotStateFile (e : string)
| OtherSchema (schema : string)
| InvalidRegistry (name : string) (e : WindowsError).

(** ** Reading *)

(** A [BTreeMap]'s entries, in their iteration order. *)
Definition key_le {A} (a b : string * A) : Prop := String.leb a.1 b.1 = true.
#[export] Instance key_le_dec {A} : RelDecision (key_le (A:=A)).
Proof. intros a b. unfold key_le. apply _. Defined.
Definition in_key_order {A} (m : gmap string A) : list (string * A) :=
  merge_sort key_le (map_to_list m).
Lemma elem_of_in_key_order {A} (m : gmap string A) name a :
  (name, a) ∈ in_key_order m ↔ m !! name = Some a.
Proof. unfold in_key_order. by rewrite merge_sort_Permutation, elem_of_map_to_list. Qed.

(** The loop over the registries: the first invalid one is an error. *)
Fixpoint check_registries (l : list (string * Windows)) : result StateError unit :=
  match l with
  | [] => Ok tt
  | (name, ws) :: l =>
      map_err (InvalidRegistry name) (Windows_validate ws) ≫= λ _, check_registries l
  end.
(** What the loop makes of a valid registry: the windows clamped, and the
    attributed ones marked restored. *)
Definition load_windows (now : Z) (ws : Windows) : Windows :=
  let '(ws, _) := Windows_clamp_observed_at now ws in
  mkWindows (ws_unified_5h ws) (ws_unified_7d ws) (ws_primary ws) (ws_secondary ws)
    (map (option_map (λ a, restore a now)) (ws_attributed ws)).

Section state_file.
Context (from_json : string → result string StateFile)
  (to_json : StateFile → result string string).

Definition read_state (read : result string string) (now : Z)
    : result StateError (gmap string Windows) :=
  map_err CannotRead read ≫= λ text,
  map_err NotStateFile (from_json text) ≫= λ file,
  refuse_if (negb (bool_decide (sf_schema file = STATE_SCHEMA))) (OtherSchema (sf_schema file))
    ≫= λ _,
  check_registries (in_key_order (sf_registries file)) ≫= λ _,
  Ok (load_windows now <$> sf_registries file).

(** What [keep_state] takes up. *)
Definition restored_windows (read : result string string) (now : Z) : gmap string Windows :=
  default ∅ (result_ok (read_state read now)).

(** ** Writing *)

Definition temporary (path : string) : string := path +:+ ".tmp".
Definition replace_file (m : Metadata) (path text : string) : prog :=
  let tmp := temporary path in
  call (Create tmp m) (call (Write tmp text) (call (Sync tmp) (call (Rename tmp path) (Stop true)))).
Definition write_state (m : Metadata) (path : string) (registries : gmap string Windows) : prog :=
  match to_json (mkStateFile STATE_SCHEMA registries) with
  | Ok text => replace_file m path text
  | Err _ => Stop false
  end.
End state_file.

(** [BrokerUsage::named]: a registry, which starts with the windows restored
    for its name, if any. *)
Record Registries := mkRegistries {
  rg_usage : gmap string BrokerUsage;
  rg_restored : gmap string Windows;
}.
Definition usage_named (name : string) (now : Z) (self : Registries) : Registries * BrokerUsage :=
  match rg_usage self !! name with
  | Some usage => (self, usage)
  | None =>
      let usage := BrokerUsage_default now in
      let usage :=
        match rg_restored self !! name with
        | Some windows => on_state (restore_windows windows) usage
        | None => usage
        end in
      (mkRegistries (<[name := usage]> (rg_usage self)) (delete name (rg_restored self)), usage)
  end.
Definition all_windows (self : Registries) : gmap string Windows :=
  (λ usage, windows (bu_state usage)) <$> rg_usage self.

(** ** Replacing a file *)
Lemma temporary_ne path : temporary path ≠ path.
Proof.
  intros E. apply (f_equal String.length) in E. unfold temporary in E.
  rewrite length_append in E. cbn in E. lia.
Qed.
(** Until the rename, [path] and what is above it are as they were. *)
Definition replacing (path text : string) (d d' : Disk) : Prop :=
  (∀ dir, above dir path → same_at dir d d') ∧
  (same_at path d d' ∨ (holds d' path text ∧ past d' path ⊆ possible d path)).
Lemma above_temporary dir path : above dir path → dir ≠ temporary path.
Proof.
  intros [Hu _] ->. unfold under in Hu. rewrite orb_true_iff, bool_decide_eq_true in Hu.
  destruct Hu as [E|[r E]%starts_with_true]; [by apply (temporary_ne path)|].
  apply (f_equal String.length) in E. unfold temporary in E. rewrite !length_append in E. cbn in E. lia.
Qed.
Lemma attempt_replacing o d0 d d1 b path text :
  same_at path d0 d → (∀ dir, above dir path → same_at dir d0 d) → attempt o d d1 b →
  (∀ q, touched o q = bool_decide (q = temporary path)) →
  same_at path d0 d1 ∧ replacing path text d0 d1.
Proof.
  intros H1 H2 Ha Ht. assert (∀ q, q ≠ temporary path → same_at q d0 d → same_at q d0 d1) as Hf.
  { intros q Hq Hd. etrans; [exact Hd|]. eapply attempt_frame; [exact Ha|].
    by rewrite Ht, bool_decide_eq_false. }
  assert (same_at path d0 d1) as Hp by (apply Hf; [apply not_eq_sym, temporary_ne|done]).
  split; [done|]. split; [|by left]. intros dir Hdir. apply Hf; [by apply above_temporary|by apply H2].
Qed.
Lemma replace_file_runs m path text d :
  runs (replacing path text d) (replace_file m path text)
    (λ b d', replacing path text d d' ∧ (b = true → holds d' path text)) d.
Proof.
  assert (replacing path text d d) as Hd by (split; [done|by left]).
  unfold replace_file. apply runs_call; [done| |].
  { intros d1 Ha. destruct (attempt_replacing _ d d d1 _ path text (reflexivity _) (proj1 Hd) Ha); done. }
  intros d1 H1. destruct (attempt_replacing _ d d d1 _ path text (reflexivity _) (proj1 Hd)
    (attempt_ok _ _ _ H1) ltac:(done)) as [Hs1 Hr1].
  cbn in H1. assert (∃ m', d1 !! temporary path = Some (mkFile EmptyString false m')) as [m' Hm].
  { destruct (d !! temporary path) as [f|]; [destruct (is_file _); [|done]|];
      injection H1 as <-; [rewrite lookup_edit|rewrite lookup_relink]; eauto. }
  clear H1. apply runs_call; [done| |].
  { intros d2 Ha. destruct (attempt_replacing _ d d1 d2 _ path text Hs1 (proj1 Hr1) Ha); done. }
  intros d2 H2. destruct (attempt_replacing _ d d1 d2 _ path text Hs1 (proj1 Hr1)
    (attempt_ok _ _ _ H2) ltac:(done)) as [Hs2 Hr2].
  cbn [perform] in H2. rewrite Hm in H2. injection H2 as <-.
  apply runs_call; [done| |].
  { intros d3 Ha. destruct (attempt_replacing _ d _ d3 _ path text Hs2 (proj1 Hr2) Ha); done. }
  intros d3 H3. destruct (attempt_replacing _ d _ d3 _ path text Hs2 (proj1 Hr2)
    (attempt_ok _ _ _ H3) ltac:(done)) as [Hs3 Hr3].
  cbn [perform] in H3. rewrite lookup_edit in H3. injection H3 as <-. set (d3 := edit _ _ (edit _ _ _)) in *.
  assert (d3 !! temporary path = Some (mkFile text true m')) as Hm3 by apply lookup_edit.
  clearbody d3. apply runs_call; [done| |].
  { intros d4 Ha. by inversion Ha; subst. }
  intros d4 H4. cbn [perform] in H4. rewrite Hm3 in H4. injection H4 as <-.
  pose proof (not_eq_sym (temporary_ne path)) as Hne. set (d4 := relink _ _ _).
  assert (holds d4 path text) as Hh by (exists m'; apply lookup_relink).
  assert (replacing path text d d4) as Hr4.
  { split.
    - intros dir Ha. etrans; [by apply Hr3|]. pose proof (above_temporary _ _ Ha).
      etrans; [by apply edit_same|]. etrans; apply relink_same; [done|apply Ha].
    - right. split; [done|]. unfold d4. rewrite past_relink, lookup_relink_ne, lookup_edit_ne,
        past_relink_ne by done. unfold possible. destruct Hs3 as [E P]. cbn [edit past].
      rewrite E. set_solver. }
  by apply runs_stop.
Qed.
Lemma replacing_crash path text d d' d'' :
  replacing path text d d' → crash d' d'' →
  after_crash d path (contents d'' path) ∨ contents d'' path = Some text.
Proof.
  intros [Hdirs Hp] Hc. destruct (Hc path) as [(o & Ho & Hs)|(Hn & dir & Ha & Hne)].
  - destruct Hp as [[E P]|[[m Hm] P]]; unfold possible in Ho.
    + left. left. exists o. split; [|done]. rewrite E in Ho. unfold possible. set_solver.
    + rewrite elem_of_cons in Ho. destruct Ho as [->|Ho]; [right|left; left; exists o; by split; [apply P|]].
      rewrite Hm in Hs. destruct Hs as (s & -> & Hs). by rewrite Hs.
  - left. right. split; [done|]. exists dir. split; [done|]. intros E.
    destruct (Hdirs dir Ha) as [_ P]. rewrite E in P. by apply Hne, list_nil_subseteq.
Qed.

(** C32: wherever writing the state file stops or fails, and through a crash
    then, the file holds what a crash before the write could have left, or the
    whole new state: the new one takes the name only once all of it is synced,
    and is never there in part. Where the write succeeds a reader finds the
    new one. Its directory is not synced, so until it is a crash may still
    bring the old one back. *)
Theorem write_state_atomic to_json m path ws d d' :
  visits (write_state to_json m path ws) d d' →
  (∀ d'', crash d' d'' →
     after_crash d path (contents d'' path) ∨
     ∃ text, to_json (mkStateFile STATE_SCHEMA ws) = Ok text ∧ contents d'' path = Some text) ∧
  (contents d' path = contents d path ∨
   ∃ text, to_json (mkStateFile STATE_SCHEMA ws) = Ok text ∧
     contents d' path = Some text ∧ synced d' path) ∧
  (returns (write_state to_json m path ws) d d' true →
   ∃ text, to_json (mkStateFile STATE_SCHEMA ws) = Ok text ∧
     contents d' path = Some text ∧ synced d' path).
Proof.
  intros Hv. unfold write_state in *.
  destruct (to_json _) as [text|e].
  2: { inversion Hv; subst. split_and!; [|by left|intros Hr; inversion Hr].
       intros d'' Hc. left. apply Hc. }
  destruct (replace_file_runs m path text d) as [Hvisits Hreturns].
  assert (holds d' path text → contents d' path = Some text ∧ synced d' path) as Hh.
  { intros [m' Hm]. unfold contents, synced. rewrite Hm. split; [done|]. by intros f [= <-]. }
  split_and!.
  - intros d'' Hc. destruct (replacing_crash path text d d' d'' (Hvisits d' Hv) Hc); [by left|right].
    by exists text.
  - destruct (Hvisits d' Hv) as [_ [[E _]|[H _]]]; [left; unfold contents; by rewrite E|right].
    exists text. split; [done|by apply Hh].
  - intros Hr. exists text. split; [done|]. by apply Hh, (Hreturns _ _ Hr).
Qed.

(** ** The writer

    The threads that capture windows, each of which changes a registry and
    then calls [StateWriter::changed], and the one that writes, over a set of
    registries whose windows are any [W].  [all_windows] reads the registries
    one at a time. *)
Section writer.
Context {W : Type}.

(** Where the writing thread is: waiting for [dirty]; sleeping the interval;
    having cleared [dirty]; or reading the registries. *)
Inductive writer_pc := Waiting | Sleeping | Cleared | Reading (todo : list string) (acc : gmap string W).

(** [w_telling]: a registry for each capture that has changed its windows and
    not yet set [dirty].  [w_failed]: the last write failed. *)
Record Writer := mkWriter {
  w_cur : gmap string W;
  w_captured : gset string;
  w_telling : list string;
  w_dirty : bool;
  w_pc : writer_pc;
  w_file : gmap string W;
  w_failed : bool;
}.
Definition Writer_new (cur file : gmap string W) : Writer :=
  mkWriter cur ∅ [] false Waiting file false.

Definition w_goto (pc : writer_pc) (s : Writer) : Writer :=
  mkWriter (w_cur s) (w_captured s) (w_telling s) (w_dirty s) pc (w_file s) (w_failed s).
(** The critical section of [capture_at]. *)
Definition w_capture (r : string) (w : W) (s : Writer) : Writer :=
  mkWriter (<[r := w]> (w_cur s)) ({[r]} ∪ w_captured s) (r :: w_telling s) (w_dirty s) (w_pc s)
    (w_file s) (w_failed s).
(** [changed], of the capture of [w_telling] that [l1] comes before. *)
Definition w_changed (l1 l2 : list string) (s : Writer) : Writer :=
  mkWriter (w_cur s) (w_captured s) (l1 ++ l2) true (w_pc s) (w_file s) (w_failed s).
Definition w_clear (s : Writer) : Writer :=
  mkWriter (w_cur s) (w_captured s) (w_telling s) false Cleared (w_file s) (w_failed s).
(** [write_state]'s result. *)
Definition w_written (acc : gmap string W) (s : Writer) : Writer :=
  mkWriter (w_cur s) (w_captured s) (w_telling s) (w_dirty s) Waiting acc false.
Definition w_lost (s : Writer) : Writer :=
  mkWriter (w_cur s) (w_captured s) (w_telling s) (w_dirty s) Waiting (w_file s) true.

(** The steps of [write_next], in its order. *)
Inductive write_step : Writer → Writer → Prop :=
| ws_wake s : w_pc s = Waiting → w_dirty s = true → write_step s (w_goto Sleeping s)
| ws_clear s : w_pc s = Sleeping → write_step s (w_clear s)
| ws_start s l : w_pc s = Cleared → l ≡ₚ elements (dom (w_cur s)) →
    write_step s (w_goto (Reading l ∅) s)
| ws_read s r todo acc w : w_pc s = Reading (r :: todo) acc → w_cur s !! r = Some w →
    write_step s (w_goto (Reading todo (<[r := w]> acc)) s)
| ws_written s acc : w_pc s = Reading [] acc → write_step s (w_written acc s).
Inductive writer_step : Writer → Writer → Prop :=
| ws_capture s r w : writer_step s (w_capture r w s)
| ws_changed s l1 r l2 : w_telling s = l1 ++ r :: l2 → writer_step s (w_changed l1 l2 s)
| ws_write s s' : write_step s s' → writer_step s s'
| ws_fail s acc : w_pc s = Reading [] acc → writer_step s (w_lost s).
Inductive writer_run (cur file : gmap string W) : Writer → Prop :=
| wr_init : writer_run cur file (Writer_new cur file)
| wr_step s s' : writer_run cur file s → writer_step s s' → writer_run cur file s'.

(** A captured registry's newest windows are written, or will be. *)
Definition kept_or_due (s : Writer) (r : string) : Prop :=
  r ∈ w_telling s ∨ w_dirty s = true ∨
  match w_pc s with
  | Sleeping | Cleared => True
  | Reading todo acc => r ∈ todo ∨ acc !! r = w_cur s !! r
  | Waiting => w_failed s = true ∨ w_file s !! r = w_cur s !! r
  end.
Record writer_ok (s : Writer) : Prop := {
  wo_captured : w_captured s ⊆ dom (w_cur s);
  wo_kept : ∀ r, r ∈ w_captured s → kept_or_due s r;
  wo_todo : ∀ todo acc, w_pc s = Reading todo acc → ∀ r, r ∈ todo → r ∈ dom (w_cur s);
}.

Lemma writer_step_ok s s' : writer_ok s → writer_step s s' → writer_ok s'.
Proof.
  intros [Hc Hk Ht] Hstep. destruct Hstep as [s r w|s l1 r l2 Hl|s s' Hw|s acc Hpc].
  - split; cbn.
    + rewrite dom_insert_L. set_solver.
    + intros r' Hr'. destruct (decide (r' = r)) as [->|Hne]; [left; by left|].
      assert (r' ∈ w_captured s) as Hin by set_solver.
      destruct (Hk r' Hin) as [?|[?|Hpc]]; [left; by right|by right; left|right; right].
      cbn. rewrite lookup_insert_ne by done. exact Hpc.
    + intros todo acc Hpc r' ?. rewrite dom_insert_L. specialize (Ht _ _ Hpc r'). set_solver.
  - split; cbn; [done| |done]. intros r' Hr'. right. by left.
  - destruct Hw as [s Hpc Hd|s Hpc|s l Hpc Hl|s r todo acc w Hpc Hr|s acc Hpc].
    + split; cbn; [done| |done]. intros r' Hr'. right. by left.
    + split; cbn; [done| |done]. intros r' Hr'. right. by right.
    + split; cbn; [done| |].
      * intros r' Hr'. destruct (Hk r' Hr') as [?|[?|_]]; [by left|by right; left|right; right].
        cbn. left. rewrite Hl. apply elem_of_elements, Hc, Hr'.
      * intros todo acc [= <- <-] r'. by rewrite Hl, elem_of_elements.
    + split; cbn; [done| |].
      * intros r' Hr'. destruct (Hk r' Hr') as [?|[?|H]]; [by left|by right; left|right; right].
        rewrite Hpc in H. cbn. destruct (decide (r' = r)) as [->|Hne].
        { right. by rewrite lookup_insert_eq. }
        rewrite lookup_insert_ne by done. destruct H as [[->|?]%elem_of_cons|?]; [done|by left|by right].
      * intros todo' acc' [= <- <-] r' ?. eapply Ht; [done|]. by right.
    + split; cbn; [done| |done]. intros r' Hr'.
      destruct (Hk r' Hr') as [?|[?|H]]; [by left|by right; left|right; right].
      rewrite Hpc in H. cbn. right. destruct H as [?%elem_of_nil|?]; done.
  - split; cbn; [done| |done]. intros r' Hr'.
    destruct (Hk r' Hr') as [?|[?|H]]; [by left|by right; left|right; right; by left].
Qed.
Lemma writer_run_ok cur file s : writer_run cur file s → writer_ok s.
Proof.
  induction 1 as [|s s' _ IH Hs]; [|by eapply writer_step_ok].
  by split; cbn; [set_solver|set_solver|].
Qed.

Lemma read_all s todo acc :
  w_pc s = Reading todo acc → (∀ r, r ∈ todo → r ∈ dom (w_cur s)) →
  ∃ acc', rtc write_step s (w_goto (Reading [] acc') s).
Proof.
  intros Hpc Hd. 
  assert (∀ s0, w_cur s0 = w_cur s → w_goto (w_pc s0) s = s0 → w_pc s0 = Reading todo acc →
    ∃ acc', rtc write_step s0 (w_goto (Reading [] acc') s)) as H.
  { clear Hpc. revert acc. induction todo as [|r todo IH]; intros acc s0 Hcur Hgo Hpc.
    - exists acc. rewrite <-Hpc, Hgo. done.
    - destruct (w_cur s !! r) as [w|] eqn:Hr.
      + destruct (IH ltac:(intros r' ?; apply Hd; by right) (<[r := w]> acc)
          (w_goto (Reading todo (<[r := w]> acc)) s0)) as [acc' Hacc]; try done.
        { by rewrite <-Hgo. }
        exists acc'. eapply rtc_l; [|exact Hacc]. eapply ws_read; [done|by rewrite Hcur].
      + apply not_elem_of_dom in Hr. destruct Hr. apply Hd. by left. }
  apply H; [done|by destruct s|done].
Qed.

(** What the writing thread's steps leave alone. *)
Lemma write_step_frame s s' :
  rtc write_step s s' → w_cur s' = w_cur s ∧ w_captured s' = w_captured s ∧
  w_telling s' = w_telling s.
Proof.
  induction 1 as [|s s1 s' Hs _ (E1 & E2 & E3)]; [done|]. rewrite E1, E2, E3.
  by destruct Hs.
Qed.
Lemma write_steps_ok s s' : writer_ok s → rtc write_step s s' → writer_ok s'.
Proof.
  intros Hok Hs. induction Hs as [|s s1 s' Hs _ IH]; [done|].
  apply IH. by eapply writer_step_ok, ws_write.
Qed.

Lemma finish_reading s todo acc :
  writer_ok s → w_pc s = Reading todo acc →
  ∃ s', rtc write_step s s' ∧ w_pc s' = Waiting ∧ w_failed s' = false ∧ w_dirty s' = w_dirty s.
Proof.
  intros Hok Hpc. destruct (read_all s todo acc Hpc (wo_todo s Hok _ _ Hpc)) as [acc' Hr].
  exists (w_written acc' (w_goto (Reading [] acc') s)). split_and!; try done.
  eapply rtc_r; [exact Hr|]. by apply ws_written.
Qed.
Lemma finish_cleared s :
  writer_ok s → w_pc s = Cleared →
  ∃ s', rtc write_step s s' ∧ w_pc s' = Waiting ∧ w_failed s' = false ∧ w_dirty s' = w_dirty s.
Proof.
  intros Hok Hpc.
  assert (write_step s (w_goto (Reading (elements (dom (w_cur s))) ∅) s)) as Hs
    by by apply ws_start.
  destruct (finish_reading (w_goto (Reading (elements (dom (w_cur s))) ∅) s) _ _
    (writer_step_ok _ _ Hok (ws_write _ _ Hs)) eq_refl) as (s' & Hr & ?).
  exists s'. split; [by eapply rtc_l|done].
Qed.
Definition quiet (s : Writer) : Prop :=
  w_pc s = Waiting ∧ w_failed s = false ∧ w_dirty s = false.
Lemma finish_sleeping s :
  writer_ok s → w_pc s = Sleeping → ∃ s', rtc write_step s s' ∧ quiet s'.
Proof.
  intros Hok Hpc. assert (write_step s (w_clear s)) as Hs by by apply ws_clear.
  destruct (finish_cleared (w_clear s) (writer_step_ok _ _ Hok (ws_write _ _ Hs)) eq_refl)
    as (s' & Hr & ? & ? & ?).
  exists s'. split; [by eapply rtc_l|done].
Qed.
Lemma finish_waiting s :
  writer_ok s → w_pc s = Waiting → w_dirty s = true → ∃ s', rtc write_step s s' ∧ quiet s'.
Proof.
  intros Hok Hpc Hd. assert (write_step s (w_goto Sleeping s)) as Hs by by apply ws_wake.
  destruct (finish_sleeping _ (writer_step_ok _ _ Hok (ws_write _ _ Hs)) eq_refl) as (s' & ? & ?).
  exists s'. split; [by eapply rtc_l|done].
Qed.
Lemma finish s :
  writer_ok s → w_dirty s = true ∨ w_pc s ≠ Waiting → ∃ s', rtc write_step s s' ∧ quiet s'.
Proof.
  intros Hok Hdue.
  assert (∀ s1, rtc write_step s s1 → w_pc s1 = Waiting → w_failed s1 = false →
    ∃ s', rtc write_step s s' ∧ quiet s') as Hthen.
  { intros s1 H1 Hpc Hf. destruct (w_dirty s1) eqn:Hd; [|by exists s1].
    destruct (finish_waiting s1 (write_steps_ok _ _ Hok H1) Hpc Hd) as (s' & ? & ?).
    exists s'. split; [by etrans|done]. }
  destruct (w_pc s) eqn:Hpc.
  - destruct Hdue as [Hd|]; [|done]. by apply finish_waiting.
  - by apply finish_sleeping.
  - destruct (finish_cleared s Hok Hpc) as (s1 & ? & ? & ? & _). by eapply Hthen.
  - destruct (finish_reading s _ _ Hok Hpc) as (s1 & ? & ? & ? & _). by eapply Hthen.
Qed.

(** C31: however captures and the writing thread interleave, once no capture
    is between changing its windows and saying so: if the writer has nothing
    due and its last write succeeded, the file holds the newest windows of
    every registry captured; and if it has something due, its next steps, with
    writes that succeed and no more captures, leave the newest in the file. *)
Theorem newest_written cur file s :
  writer_run cur file s → w_telling s = [] →
  (quiet s → ∀ r, r ∈ w_captured s → w_file s !! r = w_cur s !! r) ∧
  (w_dirty s = true ∨ w_pc s ≠ Waiting →
   ∃ s', rtc write_step s s' ∧ quiet s' ∧
     ∀ r, r ∈ w_captured s → w_file s' !! r = w_cur s !! r).
Proof.
  intros Hrun Ht. pose proof (writer_run_ok _ _ _ Hrun) as Hok.
  assert (∀ s, writer_ok s → w_telling s = [] → quiet s →
    ∀ r, r ∈ w_captured s → w_file s !! r = w_cur s !! r) as Hq.
  { intros s0 Hok0 Ht0 (Hpc & Hf & Hd) r Hr.
    destruct (wo_kept s0 Hok0 r Hr) as [Hin|[?|H]]; [|congruence|].
    - rewrite Ht0 in Hin. by apply elem_of_nil in Hin.
    - rewrite Hpc in H. destruct H as [?|?]; [congruence|done]. }
  split; [by apply Hq|]. intros Hdue.
  destruct (finish s Hok Hdue) as (s' & Hs' & Hquiet). exists s'. split_and!; [done|done|].
  destruct (write_step_frame s s' Hs') as (<- & <- & E). apply Hq; [|by rewrite E|done].
  by eapply write_steps_ok.
Qed.
End writer.

(** ** What a restart takes up *)

(** The fields serde reads as [u64] are that. *)
Definition cw_typed (w : CodexWindow) : Prop :=
  is_u64 (cw_observed_at w) ∧ ∀ n, cw_reset_after_seconds w = Some n → is_u64 n.
Definition slot_all {A} (P : A → Prop) (slot : option A) : Prop := ∀ a, slot = Some a → P a.
Definition windows_typed (ws : Windows) : Prop :=
  slot_all cw_typed (ws_primary ws) ∧ slot_all cw_typed (ws_secondary ws).

Record aw_loaded (now : Z) (w w' : AnthropicWindow) : Prop := {
  al_same : aw_utilization w' = aw_utilization w ∧ aw_reset w' = aw_reset w ∧
    aw_status w' = aw_status w;
  al_observed : aw_observed_at w' = Z.min (aw_observed_at w) now;
}.
Record cw_loaded (now : Z) (w w' : CodexWindow) : Prop := {
  cl_same : cw_used_percent w' = cw_used_percent w ∧ cw_window_minutes w' = cw_window_minutes w;
  cl_observed : cw_observed_at w' = Z.min (cw_observed_at w) now;
  (** The reset, relative in the window, is the same instant. *)
  cl_reset : Z.add (cw_observed_at w') <$> cw_reset_after_seconds w' =
    Z.add (cw_observed_at w) <$> cw_reset_after_seconds w;
}.
Record att_loaded (now : Z) (a a' : Attributed) : Prop := {
  tl_same : att_reading a' = att_reading a ∧ att_used a' = att_used a ∧
    att_part_way a' = att_part_way a;
  tl_observed : att_observed_at a' = Z.min (att_observed_at a) now;
  tl_restored : att_restored a' = true ∧ att_loaded_at a' = now;
}.
Record windows_loaded (now : Z) (ws ws' : Windows) : Prop := {
  wl_5h : option_Forall2 (aw_loaded now) (ws_unified_5h ws) (ws_unified_5h ws');
  wl_7d : option_Forall2 (aw_loaded now) (ws_unified_7d ws) (ws_unified_7d ws');
  wl_primary : option_Forall2 (cw_loaded now) (ws_primary ws) (ws_primary ws');
  wl_secondary : option_Forall2 (cw_loaded now) (ws_secondary ws) (ws_secondary ws');
  wl_attributed : Forall2 (option_Forall2 (att_loaded now)) (ws_attributed ws) (ws_attributed ws');
}.

Lemma clamp_slot_fst {A} (f : A → A * option Z) name slot :
  (clamp_slot f name slot).1 = (λ a, (f a).1) <$> slot.
Proof. destruct slot as [a|]; cbn; [|done]. by destruct (f a). Qed.
Lemma aw_clamp_loaded now w : aw_loaded now w (aw_clamp now w).1.
Proof.
  unfold aw_clamp. destruct (Z.ltb_spec now (aw_observed_at w)); split; cbn; (done || lia).
Qed.
Lemma codex_sum_fits w n :
  validate_codex ("w"%string, Some w) = Ok tt → cw_reset_after_seconds w = Some n →
  cw_observed_at w + n <= U64_MAX.
Proof.
  unfold validate_codex. destruct (is_some_and (cw_used_percent w) _); [done|].
  cbn [refuse_if mbind result_bind]. destruct (is_some_and (cw_window_minutes w) _); [done|].
  cbn [refuse_if mbind result_bind]. intros Hr E. rewrite E in Hr. cbn in Hr. unfold checked_add in Hr.
  destruct (Z.leb_spec (cw_observed_at w + n) U64_MAX); [done|]. by cbn in Hr.
Qed.
Lemma cw_clamp_loaded now w :
  is_u64 now → cw_typed w → validate_codex ("w"%string, Some w) = Ok tt →
  cw_loaded now w (cw_clamp now w).1.
Proof.
  intros Hnow [Ho Hr] Hv. unfold cw_clamp.
  destruct (Z.ltb_spec now (cw_observed_at w)); split; cbn; try (done || lia).
  destruct (cw_reset_after_seconds w) as [n|] eqn:E; cbn; [|done]. f_equal.
  pose proof (codex_sum_fits w n Hv E). specialize (Hr n eq_refl).
  rewrite wrap_add_small; u64_lia.
Qed.
Lemma att_clamp_loaded now a : att_loaded now a (restore (clamp_observed_at a now).1 now).
Proof.
  unfold clamp_observed_at. destruct (Z.ltb_spec now (att_observed_at a)); split; cbn; (done || lia).
Qed.
(** The name is only for the message. *)
Lemma validate_codex_name n m w : validate_codex (n, Some w) = Ok tt → validate_codex (m, Some w) = Ok tt.
Proof.
  unfold validate_codex. destruct (is_some_and (cw_used_percent w) _); [discriminate|].
  cbn [refuse_if mbind result_bind].
  destruct (is_some_and (cw_window_minutes w) _); [discriminate|].
  cbn [refuse_if mbind result_bind].
  by destruct (is_some_and (cw_reset_after_seconds w) _).
Qed.
Lemma option_Forall2_fmap_r {A} (R : A → A → Prop) f (slot : option A) :
  slot_all (λ a, R a (f a)) slot → option_Forall2 R slot (f <$> slot).
Proof. destruct slot as [a|]; intros Hs; constructor. by apply Hs. Qed.

Lemma load_windows_loaded now ws :
  is_u64 now → windows_typed ws → Windows_validate ws = Ok tt →
  windows_loaded now ws (load_windows now ws).
Proof.
  intros Hnow [T1 T2] Hv. unfold Windows_validate in Hv.
  apply bind_Ok in Hv as ([] & _ & ([] & Hc & _)%bind_Ok).
  apply try_each_Ok in Hc. rewrite !Forall_cons in Hc. destruct Hc as (V1 & V2 & _).
  unfold load_windows, Windows_clamp_observed_at.
  destruct (clamp_slot (aw_clamp now) "unified_5h" _) as [w5 l5] eqn:E5.
  destruct (clamp_slot (aw_clamp now) "unified_7d" _) as [w7 l7] eqn:E7.
  destruct (clamp_slot (cw_clamp now) "primary" _) as [w1 l1] eqn:E1.
  destruct (clamp_slot (cw_clamp now) "secondary" _) as [w2 l2] eqn:E2.
  apply (f_equal fst) in E5, E7, E1, E2.
  rewrite clamp_slot_fst in E5. rewrite clamp_slot_fst in E7.
  rewrite clamp_slot_fst in E1. rewrite clamp_slot_fst in E2.
  cbn [fst] in E5, E7, E1, E2. subst. split; cbn [ws_unified_5h ws_unified_7d ws_primary
    ws_secondary ws_attributed].
  - apply option_Forall2_fmap_r. intros a _. apply aw_clamp_loaded.
  - apply option_Forall2_fmap_r. intros a _. apply aw_clamp_loaded.
  - apply option_Forall2_fmap_r. intros a Ha. rewrite Ha in V1. apply cw_clamp_loaded; auto.
    by eapply validate_codex_name.
  - apply option_Forall2_fmap_r. intros a Ha. rewrite Ha in V2. apply cw_clamp_loaded; auto.
    by eapply validate_codex_name.
  - rewrite Forall2_lookup. intros i.
    rewrite !list_lookup_fmap, list_lookup_imap.
    destruct (ws_attributed ws !! i) as [o|]; cbn; [|constructor]. constructor.
    rewrite clamp_slot_fst. destruct o as [a|]; cbn; constructor. apply att_clamp_loaded.
Qed.

Lemma check_registries_Ok l :
  check_registries l = Ok tt ↔ Forall (λ '(_, ws), Windows_validate ws = Ok tt) l.
Proof.
  induction l as [|[name ws] l IH]; [done|]. cbn [check_registries].
  rewrite Forall_cons, <-IH. unfold map_err.
  destruct (Windows_validate ws) as [[]|e]; cbn [mbind result_bind].
  - split; [by split|by intros [_ ?]].
  - split; [done|by intros [? _]].
Qed.

Section restart.
Context (from_json : string → result string StateFile).

(** C34: a restart takes up the state file whole or not at all: only one of
    the schema, every registry of which is valid. What it takes up of each
    registry are the same windows, none observed in the future, each Codex
    window's reset the same instant as stored, and each attributed window
    marked as restored, with the same reading and the same use. *)
Theorem read_state_spec text now m :
  is_u64 now →
  (∀ file, from_json text = Ok file → map_Forall (λ _, windows_typed) (sf_registries file)) →
  read_state from_json (Ok text) now = Ok m →
  ∃ file, from_json text = Ok file ∧ sf_schema file = STATE_SCHEMA ∧
    map_Forall (λ _ ws, Windows_validate ws = Ok tt) (sf_registries file) ∧
    ∀ name, option_Forall2 (windows_loaded now) (sf_registries file !! name) (m !! name).
Proof.
  intros Hnow Htyped. unfold read_state. cbn [map_err mbind result_bind].
  destruct (from_json text) as [file|e]; [|done]. cbn [map_err mbind result_bind].
  destruct (bool_decide_reflect (sf_schema file = STATE_SCHEMA)) as [Hs|]; [|done].
  cbn [negb refuse_if mbind result_bind].
  destruct (check_registries _) as [[]|e] eqn:Hc; [|done]. cbn [mbind result_bind].
  intros [= <-]. exists file.
  assert (map_Forall (λ _ ws, Windows_validate ws = Ok tt) (sf_registries file)) as Hv.
  { intros name ws Hws. apply check_registries_Ok in Hc. rewrite Forall_forall in Hc.
    apply (Hc (name, ws)). by apply elem_of_in_key_order. }
  split_and!; [done|done|done|].
  intros name. rewrite lookup_fmap. apply option_Forall2_fmap_r. intros ws Hws.
  apply load_windows_loaded; [done|by eapply (Htyped file)|by apply (Hv name)].
Qed.
End restart.

(** ** Witnesses *)
Definition sample_meta : Metadata := mkMetadata Regular 1000 384.
Definition sample_disk : Disk := settled {[ "state" := mkFile "old" true sample_meta ]}.
Definition sample_json (f : StateFile) : result string string := Ok "new"%string.
Definition sample_write : prog := write_state sample_json sample_meta "state" ∅.
Lemma write_state_atomic_witness :
  let d' := (exec sample_write sample_disk).1 in
  (∀ d1 d'', visits sample_write sample_disk d1 → crash d1 d'' →
     contents d'' "state" = Some "old"%string ∨ contents d'' "state" = Some "new"%string) ∧
  contents d' "state" = Some "new"%string.
Proof.
  pose proof (exec_returns sample_write sample_disk) as Hr.
  assert ((exec sample_write sample_disk).2 = true) as Hok by (vm_compute; reflexivity).
  rewrite Hok in Hr. cbv zeta. split.
  - intros d1 d'' Hv Hc.
    destruct (proj1 (write_state_atomic sample_json sample_meta "state" ∅ sample_disk d1 Hv) d'' Hc)
      as [[(o & Ho & Hs)|(_ & dir & _ & Hne)]|(text & [= <-] & E)].
    + left. apply list_elem_of_singleton in Ho. subst o. destruct Hs as (s & E & Hd).
      rewrite E. f_equal. exact (Hd eq_refl).
    + destruct Hne. reflexivity.
    + right. exact E.
  - destruct (write_state_atomic sample_json sample_meta "state" ∅ sample_disk _
      (returns_visits _ _ _ _ Hr)) as (_ & _ & Hd).
    destruct (Hd Hr) as (text & [= <-] & E & _). exact E.
Defined.

Definition sample_writer : Writer := w_capture "usage" 7 (Writer_new {["usage" := 3]} ∅).
Lemma newest_written_witness :
  ∃ s', rtc write_step (w_changed [] [] sample_writer) s' ∧ w_file s' !! "usage"%string = Some 7.
Proof.
  destruct (newest_written {["usage" := 3]} ∅ (w_changed [] [] sample_writer)) as [_ Hdue].
  - eapply wr_step; [|by apply (ws_changed sample_writer [] "usage" [])].
    eapply wr_step; [constructor|]. apply ws_capture.
  - reflexivity.
  - destruct (Hdue (or_introl eq_refl)) as (s' & Hs & _ & Hf). exists s'.
    split; [exact Hs|]. rewrite (Hf "usage"%string); [|vm_compute; done]. vm_compute. reflexivity.
Defined.

(** A write that fails is not tried again until another capture. *)
Example failed_write_not_retried :
  ∃ s, writer_run {["usage" := 3]} ∅ s ∧ w_telling s = [] ∧ w_dirty s = false ∧
    w_pc s = Waiting ∧ w_file s !! "usage"%string ≠ w_cur s !! "usage"%string.
Proof.
  set (s0 := w_changed [] [] sample_writer).
  set (s1 := w_clear (w_goto Sleeping s0)).
  set (s2 := w_goto (Reading [] {["usage"%string := 7]}) (w_goto (Reading ["usage"%string] ∅) s1)).
  exists (w_lost s2). split_and!; try done.
  apply (wr_step _ _ s2); [|by apply (ws_fail s2 {["usage"%string := 7]})].
  apply (wr_step _ _ (w_goto (Reading ["usage"%string] ∅) s1)).
  2: { apply ws_write. apply (ws_read _ "usage" [] ∅ 7); reflexivity. }
  apply (wr_step _ _ s1); [|apply ws_write, ws_start; [done|vm_compute; done]].
  apply (wr_step _ _ (w_goto Sleeping s0)); [|by apply ws_write, ws_clear].
  apply (wr_step _ _ s0); [|by apply ws_write, ws_wake].
  apply (wr_step _ _ sample_writer); [|by apply (ws_changed sample_writer [] "usage" [])].
  eapply wr_step; [constructor|]. apply ws_capture.
Qed.

Definition sample_windows : Windows :=
  mkWindows None None
    (Some (mkCodexWindow (Some (decimal 19 0)) (Some 300) (Some 60) 1100 false)) None
    [None; None; Some (mkAttributed (mkReading (decimal 19 0) 1160 18000) 1100 false false 0
                         (both_consumers (decimal 19 0))); None].
Definition sample_state_file : StateFile := mkStateFile STATE_SCHEMA {["usage" := sample_windows]}.
(** The clock started 100 s behind. *)
Lemma read_state_spec_witness :
  ∃ m, read_state (λ _, Ok sample_state_file) (Ok "json"%string) 1000 = Ok m ∧
    option_Forall2 (windows_loaded 1000) (sf_registries sample_state_file !! "usage"%string)
      (m !! "usage"%string).
Proof.
  destruct (read_state (λ _, Ok sample_state_file) (Ok "json"%string) 1000) as [m|e] eqn:E;
    [|vm_compute in E; discriminate E].
  exists m. split; [reflexivity|].
  destruct (read_state_spec (λ _, Ok sample_state_file) "json" 1000 m) as (file & Hf & _ & _ & H).
  - u64_lia.
  - intros file [= <-]. intros name ws Hws. cbn [sample_state_file sf_registries] in Hws. apply lookup_singleton_Some in Hws as [_ <-].
    split; [|by intros]. intros w [= <-]. split; [cbn; u64_lia|]. intros n [= <-]. u64_lia.
  - exact E.
  - injection Hf as <-. apply H.
Defined.
