(* ===== verification/UsageWindows.v ===== *)
(** * Broker usage: what holds of every window

    A registry keeps five kinds of figures of the providers' windows: two
    slots of Anthropic's, two of Codex's and the attributed ones.  What holds
    of each kind wherever a window comes from, a response, a charge or the
    state file, holds of a registry's windows: the lemmas here carry such a
    property through the operations that touch them, so that [UsageReload]
    and [UsageTyped] argue of one window at a time. *)
From S2P Require Import Prelude Headers Float64 Pools Budget Operators Usage UsageBroker UsageState.
Local Open Scope Z_scope.

(** ** Slots *)
Lemma slot_all_None {A} (P : A → Prop) : slot_all P None.
Proof. done. Qed.
Lemma slot_all_Some {A} (P : A → Prop) a : slot_all P (Some a) ↔ P a.
Proof. split; [intros H; by apply H|intros ? ? [= <-]; done]. Qed.
Lemma slot_all_fmap {A B} (f : A → B) (P : A → Prop) (Q : B → Prop) slot :
  (∀ a, P a → Q (f a)) → slot_all P slot → slot_all Q (f <$> slot).
Proof. intros Hf Hs b (a & -> & ->)%fmap_Some. by apply Hf, Hs. Qed.
Lemma slot_all_impl {A} (P Q : A → Prop) slot : (∀ a, P a → Q a) → slot_all P slot → slot_all Q slot.
Proof. intros Hf Hs a Ha. by apply Hf, Hs. Qed.
Lemma slot_refuse {A} (P : A → Prop) (f : A → bool) slot :
  slot_all P slot → (∀ a, P a → f a = false) → is_some_and slot f = false.
Proof. destruct slot as [a|]; [|done]. intros Hs Hf. cbn. by apply Hf, Hs. Qed.
#[export] Hint Resolve slot_all_None : core.

(** ** The windows of a registry *)
Section all.
Context (A : AnthropicWindow → Prop) (C : CodexWindow → Prop) (T : Attributed → Prop).
Record windows_all (ws : Windows) : Prop := {
  wa_5h : slot_all A (ws_unified_5h ws);
  wa_7d : slot_all A (ws_unified_7d ws);
  wa_primary : slot_all C (ws_primary ws);
  wa_secondary : slot_all C (ws_secondary ws);
  wa_attributed : Forall (slot_all T) (ws_attributed ws);
}.
Lemma default_all now : windows_all (windows (Snapshot_default now)).
Proof. split; try done. by repeat constructor. Qed.
End all.

Lemma windows_all_impl A C T A' C' T' ws :
  (∀ w, A w → A' w) → (∀ w, C w → C' w) → (∀ a, T a → T' a) →
  windows_all A C T ws → windows_all A' C' T' ws.
Proof.
  intros HA HC HT [H5 H7 H1 H2 Ha]. split; try by eapply slot_all_impl.
  eapply Forall_impl; [exact Ha|]. intros slot. by apply slot_all_impl.
Qed.

Lemma windows_all_and A C T A' C' T' ws :
  windows_all A C T ws → windows_all A' C' T' ws →
  windows_all (λ w, A w ∧ A' w) (λ w, C w ∧ C' w) (λ a, T a ∧ T' a) ws.
Proof.
  intros [H5 H7 H1 H2 Ha] [H5' H7' H1' H2' Ha'].
  split; try by intros w Hw; split; auto.
  apply Forall_lookup. intros i slot Hs a Ea. rewrite Forall_lookup in Ha, Ha'.
  split; [by apply (Ha i slot)|by apply (Ha' i slot)].
Qed.

Section operations.
Context (A A' : AnthropicWindow → Prop) (C C' : CodexWindow → Prop) (T T' : Attributed → Prop).

Lemma load_all now ws :
  (∀ w, A w → A' (aw_clamp now w).1) → (∀ w, C w → C' (cw_clamp now w).1) →
  (∀ a, T a → T' (restore (clamp_observed_at a now).1 now)) →
  windows_all A C T ws → windows_all A' C' T' (load_windows now ws).
Proof.
  intros HA HC HT [H5 H7 H1 H2 Ha]. unfold load_windows, Windows_clamp_observed_at.
  destruct (clamp_slot (aw_clamp now) "unified_5h" _) as [w5 l5] eqn:E5.
  destruct (clamp_slot (aw_clamp now) "unified_7d" _) as [w7 l7] eqn:E7.
  destruct (clamp_slot (cw_clamp now) "primary" _) as [w1 l1] eqn:E1.
  destruct (clamp_slot (cw_clamp now) "secondary" _) as [w2 l2] eqn:E2.
  apply (f_equal fst) in E5, E7, E1, E2. rewrite clamp_slot_fst in E5, E7. rewrite clamp_slot_fst in E1, E2.
  cbn [fst] in E5, E7, E1, E2. subst.
  split; cbn [ws_unified_5h ws_unified_7d ws_primary ws_secondary ws_attributed];
    try by eapply slot_all_fmap.
  apply Forall_map. apply Forall_lookup. intros i slot.
  rewrite list_lookup_fmap, list_lookup_imap. intros (p & (s & Hs & ->)%fmap_Some & ->)%fmap_Some.
  rewrite clamp_slot_fst. rewrite Forall_lookup in Ha. specialize (Ha i s Hs).
  rewrite <-option_fmap_compose. by eapply slot_all_fmap.
Qed.
Lemma load_windows_length now ws :
  length (ws_attributed (load_windows now ws)) = length (ws_attributed ws).
Proof.
  unfold load_windows, Windows_clamp_observed_at.
  destruct (clamp_slot _ _ _), (clamp_slot _ _ _), (clamp_slot _ _ _), (clamp_slot _ _ _).
  cbn [ws_attributed]. by rewrite length_map, length_fmap, length_imap.
Qed.
(** A registry named with the windows restored for it. *)
Lemma restore_all ws s :
  (∀ w, A w → A' (aw_restore w)) → (∀ w, C w → C' (cw_restore w)) → (∀ a, T a → T' a) →
  windows_all A C T ws → windows_all A' C' T' (windows (restore_windows ws s)).
Proof.
  intros HA HC HT [H5 H7 H1 H2 Ha]. split; cbn; try by eapply slot_all_fmap.
  eapply Forall_impl; [exact Ha|]. intros slot. by apply slot_all_impl.
Qed.
End operations.

(** ** A capture *)
Section capture.
Context `{HeaderMap H}.
Context (A : AnthropicWindow → Prop) (C : CodexWindow → Prop) (T : Attributed → Prop)
  (R : Budget.Reading → Prop) (provider : Provider) (consumer : Consumer) (headers : H) (now : Z).

(** What the windows a response reports have, and what is read of them. *)
Record reports : Prop := {
  rp_anthropic : ∀ name w, anthropic_window headers name now = Some w → A w;
  rp_anthropic_read : ∀ name secs w u reset,
    anthropic_window headers name now = Some w → aw_utilization w = Some u →
    aw_reset w = Some reset → secs = FIVE_HOURS ∨ secs = WEEK →
    R (mkReading (fmul u percent_100) reset secs);
  rp_codex : ∀ name w,
    provider = Codex → name = "primary"%string ∨ name = "secondary"%string →
    codex_window headers name now = Some w → cw_window_minutes w ≠ Some 0 → C w;
  rp_codex_read : ∀ name w u minutes after,
    codex_window headers name now = Some w → minutes ≠ 0 → cw_used_percent w = Some u →
    cw_window_minutes w = Some minutes → cw_reset_after_seconds w = Some after →
    R (mkReading u (sat_add now after) (sat_mul minutes 60));
  rp_charge : ∀ previous r, slot_all T previous → R r → T (charge previous r consumer now);
}.
Hypothesis Hall : reports.

Lemma capture_anthropic_all i name secs slot :
  secs = FIVE_HOURS ∨ secs = WEEK → slot_all A slot →
  let '(slot', l, _) := capture_anthropic headers now i name secs slot in
  slot_all A slot' ∧ Forall (λ r, slot_all R r.2) l.
Proof using Hall.
  intros Hsecs Hs. unfold capture_anthropic.
  destruct (anthropic_window headers name now) as [w|] eqn:Ew; [|done].
  split; [apply slot_all_Some; by eapply rp_anthropic|].
  destruct (aw_utilization w) as [u|] eqn:Eu; [|done]. destruct (aw_reset w) as [r|] eqn:Er; [|done].
  apply Forall_singleton, slot_all_Some. by eapply rp_anthropic_read.
Qed.
Lemma capture_codex_all i name slot :
  provider = Codex → name = "primary"%string ∨ name = "secondary"%string → slot_all C slot →
  let '(slot', l, _) := capture_codex headers now i name slot in
  slot_all C slot' ∧ Forall (λ r, slot_all R r.2) l.
Proof using Hall.
  intros Hp Hname Hs. unfold capture_codex.
  destruct (codex_window headers name now) as [w|] eqn:Ew; [|done].
  case_bool_decide as Hz; [split; [done|by apply Forall_singleton]|].
  split; [apply slot_all_Some; by eapply rp_codex|].
  destruct (cw_used_percent w) as [u|] eqn:Eu; [|done].
  destruct (cw_window_minutes w) as [m|] eqn:Em; [|done].
  destruct (cw_reset_after_seconds w) as [a|] eqn:Ea; [|done].
  apply Forall_singleton, slot_all_Some. eapply rp_codex_read; [done..|congruence|done|done|done].
Qed.
Lemma charge_windows_all l attributed :
  Forall (λ r, slot_all R r.2) l → Forall (slot_all T) attributed →
  Forall (slot_all T) (foldl (charge_window consumer now) attributed l).
Proof using Hall.
  intros Hl. revert attributed. induction Hl as [|[i r] l Hr _ IH]; intros attributed Ha; [done|].
  cbn [foldl]. apply IH. cbn in Hr. apply Forall_insert; [done|].
  apply (slot_all_fmap _ R); [|done]. intros x Hx. apply (rp_charge Hall); [|done].
  rewrite Forall_lookup in Ha. intros a E. destruct (attributed !! i) as [s|] eqn:Es; [|done].
  by apply (Ha i s Es).
Qed.
Lemma capture_all s :
  windows_all A C T (windows s) →
  windows_all A C T (windows (capture_at provider consumer headers now s).1).
Proof using Hall.
  intros [H5 H7 H1 H2 Ha]. unfold windows in *.
  cbn [ws_unified_5h ws_unified_7d ws_primary ws_secondary ws_attributed] in *.
  unfold capture_at. destruct provider eqn:Hp.
  - pose proof (capture_anthropic_all 0 "5h" FIVE_HOURS _ ltac:(by left) H5) as C1.
    pose proof (capture_anthropic_all 1 "7d" WEEK _ ltac:(by right) H7) as C2.
    destruct (capture_anthropic _ _ _ _ _ _) as [[? ?] ?], (capture_anthropic _ _ _ _ _ _) as [[? ?] ?].
    destruct C1, C2. split; cbn; try done. apply charge_windows_all; [by apply Forall_app|done].
  - pose proof (capture_codex_all 2 "primary" _ Hp ltac:(by left) H1) as C1.
    pose proof (capture_codex_all 3 "secondary" _ Hp ltac:(by right) H2) as C2.
    destruct (capture_codex _ _ _ _ _) as [[? ?] ?], (capture_codex _ _ _ _ _) as [[? ?] ?].
    destruct C1, C2. split; cbn; try done. apply charge_windows_all; [by apply Forall_app|done].
  - by split.
Qed.

Lemma step_windows b e :
  (∀ provider consumer (headers : H) now, e ≠ UCapture provider consumer headers now) →
  windows (bu_state (usage_step b e)) = windows (bu_state b).
Proof.
  intros He. destruct e; cbn [usage_step]; try done.
  - unfold settle_spend_at. by destruct (charge_of usage success).
  - by destruct provider0.
  - unfold declare_operator. destruct (is_some _); [done|].
    by destruct (MAX_LISTED_OPERATORS <=? _).
  - cbn. unfold settle_operator. by destruct (sn_operators (bu_state b) !! operator).
  - by destruct (He provider0 consumer0 headers0 now0).
Qed.
End capture.
