(* ===== verification/UsageReload.v ===== *)
(** * Broker usage: the state file is always taken up again

    What a registry keeps of the windows is what [Windows_validate] accepts,
    whatever the responses, so that the file one process wrote is not refused
    by the next but for a float read back out of its range: over any captures
    and restarts every figure is in its range, and what a consumer used, a sum
    of floats, stays finite.  The invariant is of the readings first, then of
    the slots, then of a registry's whole life. *)
From S2P Require Import Prelude Headers Float64 Float64Order Pools Budget BudgetGrants Operators.
From S2P Require Import Usage UsageBroker UsageState UsageWindows.
Local Open Scope Z_scope.

(** ** Figures *)

(** A figure from zero to [hi]. *)
Definition figure (hi x : f64) : Prop := good x ∧ mag x <= mag hi.

Lemma good_hundred : good percent_100.
Proof. by vm_compute. Qed.
Lemma good_one : good one.
Proof. by vm_compute. Qed.
Lemma mag_hundred : mag percent_100 = 100 * 2 ^ 1074.
Proof. by vm_compute. Qed.
Lemma mag_one : mag one = 2 ^ 1074.
Proof. by vm_compute. Qed.
Lemma hundred_saturation : mag percent_100 <= mag saturation.
Proof. rewrite mag_saturation, mag_hundred. pose proof (Z.pow_pos_nonneg 2 1074). lia. Qed.

Lemma figure_in_range hi x : good hi → figure hi x → in_range fzero hi x = true.
Proof. intros Hhi Hx. apply in_range_good; [done|apply Hx|done]. Qed.
Lemma figure_zero hi : figure hi fzero.
Proof. split; [apply good_zero|apply mag_nonneg]. Qed.
Lemma figure_widen lo hi x : figure lo x → mag lo <= mag hi → figure hi x.
Proof. intros [? ?] ?. split; [done|lia]. Qed.
(** A utilization as a percentage. *)
Lemma figure_percent u : figure one u → figure percent_100 (fmul u percent_100).
Proof.
  intros [Hu Hle]. eapply faithful_good; [apply fmul_faithful; [done|apply good_hundred]| |].
  - apply good_hundred.
  - rewrite mag_one in Hle. apply Z.mul_le_mono_nonneg_r; [apply mag_nonneg|done].
Qed.
(** What a rise adds. *)
Lemma figure_rise used x y :
  figure saturation used → figure percent_100 x → figure percent_100 y →
  figure saturation (fadd used (fmax (fsub x y) fzero)).
Proof.
  intros [Hu Hm] [Hx Hmx] [Hy _]. destruct (fsub_good x y Hx Hy) as [Hd Hmd].
  apply fadd_saturates; try done. rewrite mag_hundred in Hmx. lia.
Qed.

Section header.
Context `{HeaderMap H}.
Implicit Type headers : H.

Lemma percent_figure headers name hi x :
  good hi → percent headers name hi = Some x → figure hi x.
Proof.
  intros Hhi. unfold percent, option_filter. destruct (text headers name) as [s|]; [|done]. cbn.
  destruct (parse_f64 s) as [y|] eqn:Hp; [|done]. cbn.
  destruct (is_finite y && in_range fzero hi y) eqn:Hr; [|done]. intros [= <-].
  apply andb_true_iff in Hr as [_ Hr]. apply in_range_good in Hr; [done|done|].
  by eapply parse_f64_valid.
Qed.
Lemma number_u64 headers name n : number headers name = Some n → is_u64 n.
Proof. unfold number. intros (s & _ & Hn)%bind_Some. by eapply parse_u64_is_u64. Qed.
End header.

(** ** Windows *)
Record aw_ok (w : AnthropicWindow) : Prop := {
  awk_utilization : slot_all (figure one) (aw_utilization w);
}.
Record cw_ok (w : CodexWindow) : Prop := {
  cwk_percent : slot_all (figure percent_100) (cw_used_percent w);
  cwk_minutes : slot_all (λ n, n ≠ 0 ∧ is_u64 (n * 60)) (cw_window_minutes w);
  cwk_observed : is_u64 (cw_observed_at w);
  cwk_reset : slot_all (λ n, 0 <= n ∧ is_u64 (cw_observed_at w + n)) (cw_reset_after_seconds w);
}.
Record reading_ok (r : Budget.Reading) : Prop := {
  rk_percent : figure percent_100 (rd_used_percent r);
  rk_secs : rd_window_secs r ≠ 0;
}.
Record att_kept (a : Attributed) : Prop := {
  ak_reading : reading_ok (att_reading a);
  ak_used : ∀ c, figure saturation (at_consumer (att_used a) c);
}.
Definition windows_ok : Windows → Prop := windows_all aw_ok cw_ok att_kept.

(** *** What the checks ask

    Of the figures, and of the lengths of time. *)
Definition aw_in (w : AnthropicWindow) : Prop :=
  slot_all (λ x, in_range fzero one x = true) (aw_utilization w).
Definition cw_in (w : CodexWindow) : Prop :=
  slot_all (λ x, in_range fzero percent_100 x = true) (cw_used_percent w).
Definition att_in (a : Attributed) : Prop :=
  in_range fzero percent_100 (rd_used_percent (att_reading a)) = true ∧
  ∀ c, is_finite (at_consumer (att_used a) c) = true ∧ nonneg (at_consumer (att_used a) c) = true.
Definition figures_in : Windows → Prop := windows_all aw_in cw_in att_in.
Definition cw_lengths (w : CodexWindow) : Prop :=
  slot_all (λ n, n ≠ 0 ∧ n * 60 <= U64_MAX) (cw_window_minutes w) ∧
  slot_all (λ n, cw_observed_at w + n <= U64_MAX) (cw_reset_after_seconds w).
Definition att_length (a : Attributed) : Prop := rd_window_secs (att_reading a) ≠ 0.
Definition lengths_in : Windows → Prop := windows_all (λ _, True) cw_lengths att_length.

Lemma refuse_slot {A E} (P : A → Prop) (f : A → bool) slot (e : E) :
  (∀ a, f a = false ↔ P a) → refuse_if (is_some_and slot f) e = Ok tt ↔ slot_all P slot.
Proof.
  intros Hf. rewrite refuse_if_Ok. destruct slot as [a|]; [|by split].
  rewrite slot_all_Some. apply Hf.
Qed.
Lemma anthropic_valid name slot : validate_anthropic (name, slot) = Ok tt ↔ slot_all aw_in slot.
Proof.
  unfold validate_anthropic. rewrite (refuse_slot (λ x, in_range fzero one x = true))
    by (intros x; by rewrite negb_false_iff).
  destruct slot as [w|]; [|by split]. by rewrite slot_all_Some.
Qed.
Lemma codex_valid name slot :
  validate_codex (name, slot) = Ok tt ↔ slot_all (λ w, cw_in w ∧ cw_lengths w) slot.
Proof.
  destruct slot as [w|]; [|by split]. rewrite slot_all_Some. unfold validate_codex.
  setoid_rewrite bind_unit_Ok. setoid_rewrite bind_unit_Ok.
  rewrite (refuse_slot (λ x, in_range fzero percent_100 x = true)), (refuse_slot (λ n, n ≠ 0 ∧ n * 60 <= U64_MAX)),
    (refuse_slot (λ n, cw_observed_at w + n <= U64_MAX)); [done|..].
  - intros n. unfold checked_add. destruct (Z.leb_spec (cw_observed_at w + n) U64_MAX); cbn; (split; [try done; lia|try done; lia]).
  - intros n. rewrite orb_false_iff, Z.eqb_neq. unfold checked_mul.
    destruct (Z.leb_spec (n * 60) U64_MAX); cbn; split; intros [? ?]; (done || lia).
  - intros x. by rewrite negb_false_iff.
Qed.
Lemma attributed_valid i slot :
  validate_attributed (i, slot) = Ok tt ↔ slot_all (λ a, att_in a ∧ att_length a) slot.
Proof.
  destruct slot as [a|]; [|by split]. rewrite slot_all_Some. unfold validate_attributed.
  assert (map_err (AttributedInvalid i) (Attributed_validate a) = Ok tt ↔ Attributed_validate a = Ok tt) as ->.
  { destruct (Attributed_validate a) as [[]|e]; by split. }
  rewrite validate_spec. unfold att_ok, att_in, att_length. naive_solver.
Qed.
Lemma windows_valid ws : Windows_validate ws = Ok tt ↔ figures_in ws ∧ lengths_in ws.
Proof.
  unfold Windows_validate. rewrite (bind_unit_Ok (try_each validate_anthropic _)).
  rewrite (bind_unit_Ok (try_each validate_codex _)).
  rewrite !try_each_Ok, !Forall_cons, !Forall_nil, !anthropic_valid, !codex_valid.
  assert (Forall (λ w, validate_attributed w = Ok tt) (imap pair (ws_attributed ws)) ↔
    Forall (slot_all (λ a, att_in a ∧ att_length a)) (ws_attributed ws)) as ->.
  { rewrite !Forall_lookup. setoid_rewrite list_lookup_imap. split.
    - intros H i slot Hs. apply (attributed_valid i), (H i). by rewrite Hs.
    - intros H i w (slot & Hs & ->)%fmap_Some. by apply attributed_valid, (H i). }
  split.
  - intros ((H5 & H7 & _) & (H1 & H2 & _) & Ha). split.
    + split; [done|done| | |].
      * eapply slot_all_impl; [|exact H1]. by intros w [? _].
      * eapply slot_all_impl; [|exact H2]. by intros w [? _].
      * eapply Forall_impl; [exact Ha|]. intros slot. apply slot_all_impl. by intros a [? _].
    + split; [done|done| | |].
      * eapply slot_all_impl; [|exact H1]. by intros w [_ ?].
      * eapply slot_all_impl; [|exact H2]. by intros w [_ ?].
      * eapply Forall_impl; [exact Ha|]. intros slot. apply slot_all_impl. by intros a [_ ?].
  - intros [[H5 H7 H1 H2 Ha] [_ _ L1 L2 La]]. split_and!; try done.
    + by intros w Hw; split; [apply H1|apply L1].
    + by intros w Hw; split; [apply H2|apply L2].
    + rewrite Forall_lookup in *. intros i slot Hs a Es. split; [by apply (Ha i slot)|by apply (La i slot)].
Qed.
(** What is kept passes them. *)
Lemma windows_ok_lengths ws : windows_ok ws → lengths_in ws.
Proof.
  apply windows_all_impl; [done| |].
  - intros w [_ Hm _ Hr]. split; (eapply slot_all_impl; [|eassumption]); intros n; [|intros [_ ?]; u64_lia].
    intros [? ?]. split; [done|u64_lia].
  - by intros a [[_ ?] _].
Qed.
Lemma windows_ok_figures ws : windows_ok ws → figures_in ws.
Proof.
  apply windows_all_impl.
  - intros w [Hu]. eapply slot_all_impl; [|exact Hu]. intros x. by apply figure_in_range, good_one.
  - intros w [Hp _ _ _]. eapply slot_all_impl; [|exact Hp]. intros x. by apply figure_in_range, good_hundred.
  - intros a [[Hp _] Hu]. split; [by apply figure_in_range; [apply good_hundred|]|].
    intros c. destruct (Hu c) as [(_ & ? & ?) _]. done.
Qed.
Lemma windows_ok_valid ws : windows_ok ws → Windows_validate ws = Ok tt.
Proof. intros Hw. apply windows_valid. split; [by apply windows_ok_figures|by apply windows_ok_lengths]. Qed.
Lemma windows_ok_typed ws : windows_ok ws → windows_typed ws.
Proof.
  assert (∀ slot, slot_all cw_ok slot → slot_all cw_typed slot) as Hc.
  { intros slot Hs w Hw. destruct (Hs w Hw) as [_ _ Ho Hr]. split; [done|].
    intros n Hn. destruct (Hr n Hn). u64_lia. }
  intros [_ _ H1 H2 _]. split; by apply Hc.
Qed.

(** ** A restart keeps them *)
Lemma cw_clamp_ok now w : is_u64 now → cw_ok w → cw_ok (cw_clamp now w).1.
Proof.
  intros Hnow [Hp Hm Ho Hr]. unfold cw_clamp. destruct (Z.ltb_spec now (cw_observed_at w)); [|done].
  split; cbn; [done|done|done|]. eapply slot_all_fmap; [|exact Hr]. intros n [H0 Hn]. rewrite wrap_add_small; u64_lia.
Qed.
Lemma att_load_kept now a : att_kept a → att_kept (restore (clamp_observed_at a now).1 now).
Proof. intros [? ?]. unfold clamp_observed_at. by destruct (now <? _). Qed.
(** What the file keeps of the windows: not what serde skips. *)
Definition stored (ws : Windows) : Windows :=
  mkWindows (ws_unified_5h ws) (ws_unified_7d ws) (ws_primary ws) (ws_secondary ws)
    (map (option_map (λ a, mkAttributed (att_reading a) (att_observed_at a) (att_part_way a)
                             false 0 (att_used a))) (ws_attributed ws)).
(** The file as it is read: serde_json prints a float so that it can be told
    from every other, but may read it a little off, as the feature that reads
    it exactly is not enabled; [F] is what it reads for each. The rest is
    read as it was written. *)
Definition reread (F : f64 → f64) (ws : Windows) : Windows :=
  let anthropic w := mkAnthropicWindow (F <$> aw_utilization w) (aw_reset w) (aw_status w)
                       (aw_observed_at w) (aw_restored w) in
  let codex w := mkCodexWindow (F <$> cw_used_percent w) (cw_window_minutes w)
                   (cw_reset_after_seconds w) (cw_observed_at w) (cw_restored w) in
  let attributed a :=
    mkAttributed (mkReading (F (rd_used_percent (att_reading a))) (rd_resets_at (att_reading a))
                    (rd_window_secs (att_reading a)))
      (att_observed_at a) (att_part_way a) (att_restored a) (att_loaded_at a)
      (by_consumer (F (at_consumer (att_used a) Public)) (F (at_consumer (att_used a) Private))) in
  mkWindows (anthropic <$> ws_unified_5h ws) (anthropic <$> ws_unified_7d ws)
    (codex <$> ws_primary ws) (codex <$> ws_secondary ws)
    (map (option_map attributed) (ws_attributed ws)).
(** Each figure is in its range; a sum is at most what no sum gets past. *)
Definition figures_kept : Windows → Prop :=
  windows_all (λ w, slot_all (figure one) (aw_utilization w))
    (λ w, slot_all (figure percent_100) (cw_used_percent w))
    (λ a, figure percent_100 (rd_used_percent (att_reading a)) ∧
          ∀ c, figure saturation (at_consumer (att_used a) c)).
Lemma reread_all F (A : AnthropicWindow → Prop) (C C' : CodexWindow → Prop) (T T' : Attributed → Prop) ws :
  (∀ w w', C w → cw_window_minutes w' = cw_window_minutes w →
     cw_reset_after_seconds w' = cw_reset_after_seconds w → cw_observed_at w' = cw_observed_at w → C' w') →
  (∀ a a', T a → rd_window_secs (att_reading a') = rd_window_secs (att_reading a) → T' a') →
  windows_all A C T ws → windows_all (λ _, True) C' T' (reread F ws).
Proof.
  intros HC HT [H5 H7 H1 H2 Ha]. split; try done; cbn.
  - eapply slot_all_fmap; [|exact H1]. intros w Hw. by apply (HC w).
  - eapply slot_all_fmap; [|exact H2]. intros w Hw. by apply (HC w).
  - apply Forall_map. eapply Forall_impl; [exact Ha|]. intros slot.
    apply slot_all_fmap. intros a Hs. by apply (HT a).
Qed.
Lemma reread_typed F ws : windows_ok ws → windows_typed (reread F ws).
Proof.
  intros Hw. assert (windows_all (λ _, True) cw_typed att_length (reread F ws)) as [_ _ H1 H2 _]; [|by split].
  eapply (reread_all F aw_ok cw_ok cw_typed att_kept); [| |exact Hw].
  - intros w w' [_ _ Ho Hr] _ Er Eo. split; [by rewrite Eo|]. rewrite Er. intros n Hn.
    destruct (Hr n Hn). u64_lia.
  - intros a a' [[_ Hs] _] E. unfold att_length. by rewrite E.
Qed.
Lemma reread_lengths F ws : windows_ok ws → lengths_in (reread F ws).
Proof.
  intros Hw. eapply (reread_all F aw_ok cw_ok _ att_kept); [| |exact Hw].
  - intros w w' [_ Hm _ Hr] Em Er Eo. unfold cw_lengths. rewrite Em, Er, Eo.
    split; (eapply slot_all_impl; [|eassumption]); intros n [? ?]; [split; [done|]|]; u64_lia.
  - intros a a' [[_ Hs] _] E. unfold att_length. by rewrite E.
Qed.
Lemma reread_ok F ws : windows_ok ws → figures_kept (reread F ws) → windows_ok (reread F ws).
Proof.
  intros Hw Hf. set (lengths_ok w := slot_all (λ n, n ≠ 0 ∧ is_u64 (n * 60)) (cw_window_minutes w) ∧
    is_u64 (cw_observed_at w) ∧
    slot_all (λ n, 0 <= n ∧ is_u64 (cw_observed_at w + n)) (cw_reset_after_seconds w)).
  assert (windows_all (λ _, True) lengths_ok att_length (reread F ws)) as Hl.
  { eapply (reread_all F aw_ok cw_ok lengths_ok att_kept); [| |exact Hw].
    - intros w w' [_ Hm Ho Hr] Em Er Eo. unfold lengths_ok. by rewrite Em, Er, Eo.
    - intros a a' [[_ Hs] _] E. unfold att_length. by rewrite E. }
  eapply windows_all_impl; [| | |exact (windows_all_and _ _ _ _ _ _ _ Hf Hl)].
  - by intros w [? _].
  - by intros w [? (? & ? & ?)].
  - by intros a [[? ?] ?].
Qed.
Lemma stored_ok ws : windows_ok ws → windows_ok (stored ws).
Proof.
  intros [H5 H7 H1 H2 Ha]. split; try done. cbn. apply Forall_map.
  eapply Forall_impl; [exact Ha|]. intros slot. apply slot_all_fmap. by intros a [? ?].
Qed.
Lemma load_ok now ws : is_u64 now → windows_ok ws → windows_ok (load_windows now ws).
Proof.
  intros Hnow. apply load_all; [|by intros; apply cw_clamp_ok|apply att_load_kept].
  intros w [?]. unfold aw_clamp. by destruct (now <? _).
Qed.

(** ** A capture keeps them *)
Lemma charge_kept previous reading consumer now :
  slot_all att_kept previous → reading_ok reading →
  att_kept (charge previous reading consumer now).
Proof.
  intros Hp Hr. pose proof (rk_percent _ Hr) as Hx.
  assert (figure saturation (rd_used_percent reading)) as Hs
    by (eapply figure_widen; [done|apply hundred_saturation]).
  split; [by destruct previous as [p|]; [unfold charge; destruct (now <? _)|]|].
  unfold charge. destruct previous as [p|]; [|by intros []].
  apply slot_all_Some in Hp as [Hpr Hpu]. destruct (now <? _); cbn; intros c; rewrite at_set_consumer.
  - case_decide; [|done]. by apply figure_rise; [|..|apply Hpr].
  - case_decide; [done|]. destruct c; apply figure_zero.
Qed.

Section capture.
Context `{HeaderMap H}.
Implicit Type headers : H.

(** The one thing asked of a response: its lengths of time are seconds of
    an unsigned integer. *)
Definition codex_fits headers (now : Z) (window : string) : Prop :=
  let prefix := "x-codex-" +:+ window in
  slot_all (λ n, is_u64 (n * 60)) (number headers (prefix +:+ "-window-minutes")) ∧
  slot_all (λ n, is_u64 (now + n)) (number headers (prefix +:+ "-reset-after-seconds")).

Lemma anthropic_window_ok headers name now w :
  anthropic_window headers name now = Some w → aw_ok w.
Proof.
  unfold anthropic_window. cbv zeta. destruct (_ || _); [|done]. intros [= <-].
  split. intros x. apply percent_figure, good_one.
Qed.
Lemma codex_window_percent headers name now w :
  codex_window headers name now = Some w → slot_all (figure percent_100) (cw_used_percent w).
Proof.
  unfold codex_window. cbv zeta. destruct (_ || _); [|done]. intros Hw%(inj Some). subst w.
  intros x. apply percent_figure, good_hundred.
Qed.
Lemma codex_window_ok headers name now w :
  is_u64 now → codex_fits headers now name → codex_window headers name now = Some w →
  cw_window_minutes w ≠ Some 0 → cw_ok w.
Proof.
  intros Hnow [Hmin Hreset] Hw. pose proof (codex_window_percent _ _ _ _ Hw) as Hp. revert Hw Hp.
  unfold codex_window. cbv zeta. destruct (_ || _); [|done]. intros Hw%(inj Some). subst w.
  cbn [cw_used_percent cw_window_minutes]. intros Hp Hz.
  split; cbn [cw_used_percent cw_window_minutes cw_observed_at cw_reset_after_seconds]; [done| |done|].
  - intros n Hn. split; [|by apply Hmin]. intros ->. by rewrite Hn in Hz.
  - intros n Hn. split; [|by apply Hreset]. apply number_u64 in Hn. u64_lia.
Qed.
(** What is read of any response. *)
Lemma anthropic_reading_ok w u reset secs :
  aw_ok w → aw_utilization w = Some u → secs = FIVE_HOURS ∨ secs = WEEK →
  reading_ok (mkReading (fmul u percent_100) reset secs).
Proof. intros [Hu] Eu Hs. split; [by apply figure_percent, Hu|]. by destruct Hs; subst. Qed.
Lemma codex_window_u64 headers name now w :
  codex_window headers name now = Some w →
  slot_all is_u64 (cw_window_minutes w) ∧ slot_all is_u64 (cw_reset_after_seconds w) ∧
  cw_observed_at w = now.
Proof.
  unfold codex_window. cbv zeta. destruct (_ || _); [|done]. intros Hw%(inj Some). subst w.
  split; [|split; [|done]]; intros n; apply number_u64.
Qed.
Lemma codex_reading_ok headers name now w u minutes after :
  codex_window headers name now = Some w → minutes ≠ 0 → cw_used_percent w = Some u →
  cw_window_minutes w = Some minutes →
  reading_ok (mkReading u (sat_add now after) (sat_mul minutes 60)).
Proof.
  intros Hw Hz Hu Hm. split; [by apply (codex_window_percent _ _ _ _ Hw)|].
  destruct (codex_window_u64 _ _ _ _ Hw) as [Hm' _]. specialize (Hm' _ Hm). cbn. u64_lia.
Qed.

Definition event_fits (e : usage_event (H:=H)) : Prop :=
  match e with
  | UCapture Codex _ headers now =>
      is_u64 now ∧ codex_fits headers now "primary" ∧ codex_fits headers now "secondary"
  | _ => True
  end.
Lemma capture_ok provider consumer headers now s :
  event_fits (UCapture provider consumer headers now) → windows_ok (windows s) →
  windows_ok (windows (capture_at provider consumer headers now s).1).
Proof.
  intros Hfits. apply (capture_all _ _ _ reading_ok). split.
  - intros name w. apply anthropic_window_ok.
  - intros name secs w u reset Hw Hu _ Hs. eapply anthropic_reading_ok; [|done|done].
    by eapply anthropic_window_ok.
  - intros name w -> Hname. destruct Hfits as (Hnow & F1 & F2).
    apply codex_window_ok; [done|]. by destruct Hname as [-> | ->].
  - intros name w u minutes after Hw Hz Hu Hm _. by eapply codex_reading_ok.
  - intros previous r. apply charge_kept.
Qed.
End capture.

(** ** Processes and their state file *)

(** The registries of the process running, and what the file holds of each
    registry, as it was at some moment. *)
Record Process := mkProcess { p_registries : Registries; p_file : gmap string Windows }.
Definition registries_of (usage : gmap string BrokerUsage) (p : Process) : Process :=
  mkProcess (mkRegistries usage (rg_restored (p_registries p))) (p_file p).

Section lifetime.
Context `{HeaderMap H}.

(** A filter names its registry; a request changes it; the writing thread
    takes the windows of one registry, at any moment, into the next file; a
    process ends and another takes up the file, at its own time, with every
    figure in it read back in its range, or cannot read it. *)
Inductive lifetime : Process → Prop :=
| life_first : lifetime (mkProcess (mkRegistries ∅ ∅) ∅)
| life_named p name now :
    lifetime p → lifetime (mkProcess (usage_named name now (p_registries p)).1 (p_file p))
| life_event p name usage e :
    lifetime p → rg_usage (p_registries p) !! name = Some usage → event_fits (H:=H) e →
    lifetime (registries_of (<[name := usage_step usage e]> (rg_usage (p_registries p))) p)
| life_write p name ws :
    lifetime p → all_windows (p_registries p) !! name = Some ws →
    lifetime (mkProcess (p_registries p) (<[name := stored ws]> (p_file p)))
| life_forget p name :
    lifetime p → lifetime (mkProcess (p_registries p) (delete name (p_file p)))
| life_restart F p now :
    lifetime p → is_u64 now → map_Forall (λ _, figures_kept) (reread F <$> p_file p) →
    lifetime (mkProcess (mkRegistries ∅ (load_windows now <$> (reread F <$> p_file p))) (p_file p))
| life_lost p : lifetime p → lifetime (mkProcess (mkRegistries ∅ ∅) (p_file p)).

Lemma usage_step_windows b e :
  event_fits (H:=H) e → windows_ok (windows (bu_state b)) →
  windows_ok (windows (bu_state (usage_step b e))).
Proof.
  intros He Hok. destruct e; try (rewrite step_windows; [exact Hok|discriminate]).
  by apply capture_ok.
Qed.
Lemma restored_state_ok ws now :
  windows_ok ws → windows_ok (windows (restore_windows ws (Snapshot_default now))).
Proof. by apply restore_all; [intros ? [?]|intros ? [????]|]. Qed.

Record process_ok (p : Process) : Prop := {
  pk_usage : map_Forall (λ _ b, windows_ok (windows (bu_state b))) (rg_usage (p_registries p));
  pk_restored : map_Forall (λ _, windows_ok) (rg_restored (p_registries p));
  pk_file : map_Forall (λ _, windows_ok) (p_file p);
}.
Lemma named_ok p name now :
  process_ok p → process_ok (mkProcess (usage_named name now (p_registries p)).1 (p_file p)).
Proof.
  intros [Hu Hr Hf]. unfold usage_named.
  destruct (rg_usage (p_registries p) !! name) as [b|] eqn:Eb; [by split|].
  split; cbn; [|by apply map_Forall_delete|done]. apply map_Forall_insert_2; [|done].
  destruct (rg_restored (p_registries p) !! name) as [ws|] eqn:Ew.
  - by apply restored_state_ok, (Hr name).
  - apply default_all.
Qed.
Lemma lifetime_ok p : lifetime p → process_ok p.
Proof.
  induction 1 as [|p name now _ IH|p name b e _ IH Hb He|p name ws _ IH Hws|p name _ IH|F p now _ IH Hnow Hkept|p _ IH].
  - split; apply map_Forall_empty.
  - by apply named_ok.
  - destruct IH as [Hu Hr Hf]. split; cbn; [|done|done]. apply map_Forall_insert_2; [|done].
    apply usage_step_windows; [done|by apply (Hu name)].
  - destruct IH as [Hu Hr Hf]. split; cbn; [done|done|]. apply map_Forall_insert_2; [|done].
    apply stored_ok. unfold all_windows in Hws. rewrite lookup_fmap in Hws.
    apply fmap_Some in Hws as (b & Hb & ->). by apply (Hu name).
  - destruct IH as [Hu Hr Hf]. split; cbn; [done|done|]. by apply map_Forall_delete.
  - destruct IH as [Hu Hr Hf]. split; cbn; [apply map_Forall_empty| |done].
    intros name ws'. rewrite lookup_fmap. intros (ws & Hws & ->)%fmap_Some.
    apply load_ok; [done|]. pose proof (Hkept name ws Hws) as Hk. rewrite lookup_fmap in Hws.
    apply fmap_Some in Hws as (ws0 & Hws0 & ->). by apply reread_ok; [apply (Hf name)|].
  - destruct IH as [Hu Hr Hf]. split; cbn; [apply map_Forall_empty|apply map_Forall_empty|done].
Qed.

(** C33: whatever the responses a process had, as long as the lengths of time
    in them are seconds of a [u64], and the restarts before it, as long as
    each read figures in their ranges and no sum of more than [2 ^ 60],
    nothing but the floats that the next process reads in the state file can
    have the file refused: it is taken up exactly when each figure, as serde_json
    reads it back, is in its range, and then as the windows read, each as of
    before the restart; nothing that was kept is ever out of its range. *)
Theorem state_reloads F from_json text now p :
  lifetime p → is_u64 now →
  let file := reread F <$> p_file p in
  from_json text = Ok (mkStateFile STATE_SCHEMA file) →
  map_Forall (λ _, figures_in) (p_file p) ∧
  (is_ok (read_state from_json (Ok text) now) = true ↔ map_Forall (λ _, figures_in) file) ∧
  (map_Forall (λ _, figures_in) file →
   read_state from_json (Ok text) now = Ok (load_windows now <$> file) ∧
   map_Forall (λ _ ws, windows_loaded now ws (load_windows now ws)) file).
Proof.
  intros [_ _ Hf]%lifetime_ok Hnow file Hjson.
  assert (map_Forall (λ _, lengths_in) file) as Hl.
  { intros name ws'. unfold file. rewrite lookup_fmap. intros (ws & Hws & ->)%fmap_Some.
    by apply reread_lengths, (Hf name). }
  assert (read_state from_json (Ok text) now =
    (check_registries (in_key_order file) ≫= λ _, Ok (load_windows now <$> file))) as E.
  { unfold read_state. cbn [map_err mbind result_bind]. rewrite Hjson.
    cbn [map_err mbind result_bind sf_schema sf_registries]. by rewrite bool_decide_true. }
  assert (check_registries (in_key_order file) = Ok tt ↔ map_Forall (λ _, figures_in) file) as Hc.
  { rewrite check_registries_Ok, Forall_forall. split.
    - intros Hv name ws Hws. apply windows_valid, (Hv (name, ws)). by apply elem_of_in_key_order.
    - intros Hv [name ws] Hin%elem_of_in_key_order. apply windows_valid.
      split; [by apply (Hv name)|by apply (Hl name)]. }
  split; [|split].
  - intros name ws Hws. by apply windows_ok_figures, (Hf name).
  - rewrite E, <-Hc. by destruct (check_registries _) as [[]|e].
  - intros Hin. rewrite E, (proj2 Hc Hin). split; [done|]. intros name ws Hws.
    apply load_windows_loaded; [done| |].
    { revert Hws. unfold file. rewrite lookup_fmap. intros (ws0 & Hws0 & ->)%fmap_Some.
      by apply reread_typed, (Hf name). }
    apply windows_valid. split; [by apply (Hin name)|by apply (Hl name)].
Qed.
End lifetime.

(** ** Witness and examples *)
#[local] Existing Instance header_map.
Definition codex_headers (percent minutes after : string) : list (string * string) :=
  [("x-codex-primary-used-percent", percent); ("x-codex-primary-window-minutes", minutes);
   ("x-codex-primary-reset-after-seconds", after)]%string.
Definition captured (headers : list (string * string)) (now : Z) : Process :=
  let named := (usage_named "usage" now (mkRegistries ∅ ∅)).1 in
  let usage := usage_step (BrokerUsage_default now) (UCapture Codex Private headers now) in
  mkProcess (mkRegistries {["usage" := usage]} (rg_restored named))
    {["usage" := stored (windows (bu_state usage))]}.

Lemma captured_lifetime headers now :
  event_fits (UCapture Codex Private headers now) → lifetime (captured headers now).
Proof.
  intros He. set (p0 := mkProcess (usage_named "usage" now (mkRegistries ∅ ∅)).1 ∅).
  assert (lifetime p0) as H0 by exact (life_named _ "usage" now life_first).
  apply (life_write (registries_of {["usage" := usage_step (BrokerUsage_default now)
    (UCapture Codex Private headers now)]} p0) "usage" _); [|reflexivity].
  exact (life_event p0 "usage" (BrokerUsage_default now) _ H0 eq_refl He).
Qed.
Definition sample_headers : list (string * string) := codex_headers "42.5" "300" "600".
(** A reading a little more than what was written. *)
Definition sample_reading (x : f64) : f64 := fadd x (decimal 1 14).
Definition sample_file_of (F : f64 → f64) : StateFile :=
  mkStateFile STATE_SCHEMA (reread F <$> p_file (captured sample_headers 1000)).
Lemma state_reloads_witness :
  sample_reading (decimal 425 1) ≠ decimal 425 1 ∧
  ∃ m, read_state (λ _, Ok (sample_file_of sample_reading)) (Ok "json"%string) 2000 = Ok m ∧
  (cw_used_percent <$> (m !! "usage"%string ≫= ws_primary)) =
    Some (Some (sample_reading (decimal 425 1))).
Proof.
  split; [vm_compute; discriminate|].
  destruct (state_reloads (H:=list (string * string)) sample_reading
    (λ _, Ok (sample_file_of sample_reading)) "json" 2000 (captured sample_headers 1000))
    as (_ & Hin & Hread).
  - apply captured_lifetime. split; [u64_lia|].
    split; split; intros n Hn; vm_compute in Hn; try discriminate Hn; injection Hn as <-; u64_lia.
  - u64_lia.
  - reflexivity.
  - destruct (Hread (proj1 Hin ltac:(vm_compute; reflexivity))) as [E _].
    eexists. split; [exact E|]. vm_compute. reflexivity.
Defined.
(** A figure at the top of its range, read back above it, is refused with
    the whole file. *)
Example figure_read_past_its_range :
  let usage := usage_step (BrokerUsage_default 1000)
    (UCapture Codex Private (codex_headers "100" "300" "600") 1000) in
  let file := {["usage" := stored (windows (bu_state usage))]} in
  (read_state (λ _, Ok (mkStateFile STATE_SCHEMA file)) (Ok "json"%string) 2000 ≠
     Err (InvalidRegistry "usage" (CodexPercentRange "primary"))) ∧
  read_state (λ _, Ok (mkStateFile STATE_SCHEMA (reread sample_reading <$> file))) (Ok "json"%string) 2000 =
    Err (InvalidRegistry "usage" (CodexPercentRange "primary")).
Proof. split; vm_compute; [discriminate|reflexivity]. Qed.

(** What the hypothesis on lengths of time rules out: a window of more
    minutes than a [u64] has seconds is kept as captured, and written, but
    the file is then refused, with every other registry's windows. *)
Example long_window_refused :
  let minutes := "400000000000000000"%string in
  let usage := usage_step (BrokerUsage_default 1000)
    (UCapture Codex Private (codex_headers "42.5" minutes "600") 1000) in
  let file := {["default" := sample_windows; "usage" := stored (windows (bu_state usage))]} in
  read_state (λ _, Ok (mkStateFile STATE_SCHEMA file)) (Ok "json"%string) 2000 =
    Err (InvalidRegistry "usage" (MinutesInvalid "primary")).
Proof. vm_compute. reflexivity. Qed.
