(* ===== verification/RunsInvariants.v ===== *)
(** * Registered runs: invariants of every execution

    An execution is any sequence of the operations of [Runs], by whatever
    callers, each taken atomically as the registry's mutex makes them.  The
    well-formedness invariant [State_ok] holds in every reachable state; the
    theorems that follow read the authentication, admission, lifecycle and
    accounting guarantees off it. *)
From S2P Require Import Prelude Crypto Pools Runs.
Local Open Scope Z_scope.

(** ** Well-formed states *)
Definition Tokens_ok (t : Tokens) : Prop :=
  is_u64 (tk_input t) ∧ is_u64 (tk_cache_read t) ∧ is_u64 (tk_output t) ∧
  is_u64 (tk_reasoning t) ∧ is_u64 (tk_total t).

Definition proof_names (key : RunKey) (p : RunProof) : Prop :=
  match key, p with
  | Github a b c d, GithubOidc _ a' b' c' d' _ _ _ _ _ _ _ =>
      a' = a ∧ b' = b ∧ c' = c ∧ d' = d
  | Unproven n, UnprovenProof n' => n' = n
  | _, _ => False
  end.

Record record_ok (key : RunKey) (r : RunRecord) : Prop := {
  ro_proof : proof_names key (rec_proof r);
  ro_finished : rec_state r = Finished ↔ is_Some (rec_finished_at_unix r);
  ro_requests : is_u64 (rec_requests r);
  ro_unmetered : is_u64 (rec_unmetered r);
  ro_tokens : Tokens_ok (rec_tokens r);
  ro_models : map_Forall (λ _, Tokens_ok) (rec_models r);
  ro_n_models : Z.of_nat (size (rec_models r)) <= MAX_MODELS;
}.
Record run_ok (key : RunKey) (r : Run) : Prop := {
  ok_record : record_ok key (run_record r);
  ok_in_flight : 0 <= run_in_flight r <= run_concurrency r;
  ok_concurrency : 1 <= run_concurrency r <= U64_MAX;
  ok_retain : run_retain_until r = run_expires r + RETENTION;
  ok_jti : run_jti r = None ↔ is_unproven key = true;
  ok_consumer : is_unproven key = true → run_consumer r = Private;
}.
(** The token index holds the current token of every run kept, and nothing
    else. *)
Definition tokens_ok (ts : gmap string RunKey) (rs : gmap RunKey Run) : Prop :=
  ∀ h k, ts !! h = Some k ↔ ∃ r, rs !! k = Some r ∧ run_token_hash r = h.
Record State_ok (st : State) : Prop := {
  ok_tokens : tokens_ok (tokens st) (runs st);
  ok_runs : map_Forall run_ok (runs st);
  ok_size : Z.of_nat (size (runs st)) <= MAX_RUNS;
  ok_unproven : count_unproven (runs st) <= MAX_UNPROVEN_RUNS;
}.

(** ** Executions *)
Inductive event :=
| EvRegister (identity : RunIdentity) (limits : Limits) (now : Z) (random : string) (unix : Z)
| EvRegisterUnproven (name : RunName) (limits : Limits) (quota : Quota) (now : Z)
    (random : string) (unix : Z)
| EvAuthenticate (token : string) (now : Z)
| EvRecord (key : RunKey) (now : Z)
| EvFinish (key : RunKey) (now unix : Z)
| EvAdmit (key : RunKey) (now : Z)
| EvSettle (key : RunKey) (outcome : Outcome).

(** [Registrar::load] admits only limits of these. *)
Definition limits_ok (l : Limits) : Prop := 0 <= ttl l ∧ 1 <= concurrency l <= U64_MAX.
Definition outcome_ok (o : Outcome) : Prop :=
  match o with Metered u => Tokens_ok (u_tokens u) | _ => True end.

Section executions.
Context `{Crypto}.

Definition apply_event (e : event) (st : State) : State :=
  match e with
  | EvRegister identity limits now random unix =>
      (register identity limits now random unix st).1
  | EvRegisterUnproven name limits quota now random unix =>
      (register_unproven name limits quota now random unix st).1
  | EvAuthenticate token now => (authenticate token now st).1
  | EvRecord key now => (record key now st).1
  | EvFinish key now unix => (finish key now unix st).1
  | EvAdmit key now => (admit_run key now st).1
  | EvSettle key outcome => settle key outcome st
  end.
(** The 32 random bytes of a new token have not been drawn before. *)
Definition fresh (random : string) (st : State) : Prop :=
  tokens st !! (new_token random).2 = None.
Definition event_ok (e : event) (st : State) : Prop :=
  match e with
  | EvRegister _ limits _ random _ => limits_ok limits ∧ fresh random st
  | EvRegisterUnproven _ limits _ _ random _ => limits_ok limits ∧ fresh random st
  | EvSettle _ outcome => outcome_ok outcome
  | _ => True
  end.
Inductive reachable : State → Prop :=
| reachable_init : reachable State_default
| reachable_step e st : reachable st → event_ok e st → reachable (apply_event e st).
End executions.

(** ** Pruning *)
Lemma lookup_foldr_delete (l : list (RunKey * Run)) (ts : gmap string RunKey) h k :
  foldr (λ '(_, r), delete (run_token_hash r)) ts l !! h = Some k ↔
  ts !! h = Some k ∧ ∀ k' r, (k', r) ∈ l → run_token_hash r ≠ h.
Proof.
  induction l as [|[k' r] l IH]; cbn.
  - split; [intros ?; split; [done|]; by intros ?? ?%elem_of_nil|by intros [? _]].
  - rewrite lookup_delete. case_decide as Hh.
    + split; [done|]. intros [_ Hn]. by destruct (Hn k' r); [left|].
    + rewrite IH. split; intros [? Hn]; (split; [done|]); intros k2 r2.
      * intros [[= -> ->]|?]%elem_of_cons; eauto.
      * intros ?. apply (Hn k2 r2). by right.
Qed.

Lemma expire_frame now r :
  run_token_hash (expire now r) = run_token_hash r ∧
  run_jti (expire now r) = run_jti r ∧
  run_consumer (expire now r) = run_consumer r ∧
  run_concurrency (expire now r) = run_concurrency r ∧
  run_expires (expire now r) = run_expires r ∧
  run_retain_until (expire now r) = run_retain_until r ∧
  run_in_flight (expire now r) = run_in_flight r.
Proof. unfold expire. by destruct (expiring now r). Qed.
Lemma expire_hash now r : run_token_hash (expire now r) = run_token_hash r.
Proof. apply expire_frame. Qed.
Lemma expire_kept now r : kept now (expire now r) = kept now r.
Proof. unfold kept, expire. by destruct (expiring now r). Qed.

Lemma prune_lookup now st k :
  runs (State_prune now st) !! k =
  runs st !! k ≫= λ r, if kept now r then Some (expire now r) else None.
Proof.
  unfold State_prune; cbn [runs]. rewrite map_lookup_filter, lookup_fmap.
  destruct (runs st !! k) as [r|]; [|done].
  cbn [fmap option_fmap option_map mbind option_bind].
  case_guard as Hk; cbn; rewrite expire_kept in Hk; [by rewrite Hk|].
  by destruct (kept now r).
Qed.
Lemma expire_idemp now r : expire now (expire now r) = expire now r.
Proof. unfold expire at 2 3. destruct (expiring now r) eqn:E; [done|]. unfold expire. by rewrite E. Qed.
(** What was pruned once is not changed by pruning it again at once. *)
Lemma prune_runs_idemp now st :
  runs (State_prune now (State_prune now st)) = runs (State_prune now st).
Proof.
  apply map_eq. intros k. rewrite !prune_lookup.
  destruct (runs st !! k) as [r|]; [|done]. cbn [mbind option_bind].
  destruct (kept now r) eqn:E; [|done]. cbn [mbind option_bind].
  by rewrite expire_kept, E, expire_idemp.
Qed.
Lemma prune_lookup_Some now st k r' :
  runs (State_prune now st) !! k = Some r' ↔
  ∃ r, runs st !! k = Some r ∧ kept now r = true ∧ r' = expire now r.
Proof.
  rewrite prune_lookup. destruct (runs st !! k) as [r|]; cbn.
  - destruct (kept now r) eqn:E; split.
    + intros [= <-]. eauto.
    + by intros (? & [= <-] & _ & ->).
    + done.
    + intros (? & [= <-] & Hk & _). congruence.
  - split; [done|]. by intros (? & ? & _).
Qed.

Lemma run_ok_expire now k r : run_ok k r → run_ok k (expire now r).
Proof.
  intros Hok. unfold expire. destruct (expiring now r) eqn:E; [|done].
  destruct Hok as [[] ? ? ? ? ?]. unfold expiring, is_active in E.
  apply andb_true_iff in E as [Hact%bool_decide_eq_true _].
  unfold run_state in Hact. rewrite Hact in ro_finished0.
  split; [split|..]; cbn; try done. rewrite <-ro_finished0. by split.
Qed.

(** ** Counting unproven runs *)
Definition unproven_keys (rs : gmap RunKey Run) : gset RunKey :=
  filter (λ k, is_unproven k = true) (dom rs).
Lemma count_unproven_dom rs : count_unproven rs = Z.of_nat (size (unproven_keys rs)).
Proof.
  unfold count_unproven. f_equal.
  rewrite <-(size_list_to_set (C:=gset RunKey)
    (filter (λ k, is_unproven k = true) (map_to_list rs).*1)).
  - f_equal. apply set_eq. intros k. unfold unproven_keys.
    rewrite elem_of_list_to_set, list_elem_of_filter, elem_of_filter, elem_of_dom.
    rewrite list_elem_of_fmap. unfold is_Some. split.
    + intros (? & [? r] & -> & ?%elem_of_map_to_list). eauto.
    + intros (? & r & ?). split; [done|]. exists (k, r).
      by rewrite elem_of_map_to_list.
  - apply NoDup_filter, NoDup_fst_map_to_list.
Qed.
Lemma count_unproven_mono rs rs' :
  dom rs ⊆ dom rs' → count_unproven rs <= count_unproven rs'.
Proof.
  intros Hd. rewrite !count_unproven_dom. apply Nat2Z.inj_le, subseteq_size.
  unfold unproven_keys. set_solver.
Qed.
Lemma count_unproven_insert k r rs :
  count_unproven (<[k:=r]> rs) <=
  count_unproven rs + (if is_unproven k then 1 else 0).
Proof.
  rewrite !count_unproven_dom. unfold unproven_keys. rewrite dom_insert_L.
  destruct (is_unproven k) eqn:Hk.
  - transitivity (Z.of_nat (size ({[k]} ∪ filter (λ k, is_unproven k = true) (dom rs)))).
    + apply Nat2Z.inj_le, subseteq_size. set_solver.
    + pose proof (size_union_alt {[k]} (filter (λ k, is_unproven k = true) (dom rs))) as Hs.
      rewrite size_singleton in Hs.
      pose proof (subseteq_size (filter (λ k, is_unproven k = true) (dom rs) ∖ {[k]})
        (filter (λ k, is_unproven k = true) (dom rs)) ltac:(set_solver)). lia.
  - rewrite Z.add_0_r. apply Nat2Z.inj_le, subseteq_size.
    intros k'. rewrite !elem_of_filter, elem_of_union, elem_of_singleton.
    intros [? [->|?]]; [congruence|done].
Qed.
Lemma dom_prune now st : dom (runs (State_prune now st)) ⊆ dom (runs st).
Proof.
  intros k. rewrite !elem_of_dom. unfold is_Some.
  intros (r & (r0 & ? & _)%prune_lookup_Some). eauto.
Qed.
Lemma size_dom_mono (rs rs' : gmap RunKey Run) :
  dom rs ⊆ dom rs' → (size rs <= size rs')%nat.
Proof. intros. rewrite <-!size_dom. by apply subseteq_size. Qed.

(** ** Each operation keeps states well formed *)
Lemma prune_ok now st : State_ok st → State_ok (State_prune now st).
Proof.
  intros [Ht Hr Hs Hu]. pose proof (dom_prune now st) as Hd. split.
  - intros h k. unfold State_prune at 1. cbn [tokens].
    rewrite lookup_foldr_delete, (Ht h k). setoid_rewrite elem_of_map_to_list.
    setoid_rewrite prune_lookup_Some. split.
    + intros [(r & Hk & Hh) Hgone]. destruct (kept now r) eqn:Ek.
      * exists (expire now r). rewrite expire_hash. eauto 6.
      * destruct (Hgone k (expire now r)); [|by rewrite expire_hash].
        apply map_lookup_filter_Some. rewrite expire_kept, lookup_fmap, Hk. done.
    + intros (r' & (r & Hk & Ek & ->) & Hh). rewrite expire_hash in Hh.
      split; [eauto|]. intros k' r' [Hk' Ek']%map_lookup_filter_Some Heq.
      rewrite lookup_fmap in Hk'. apply fmap_Some in Hk' as (r0 & Hk' & ->).
      rewrite expire_kept in Ek'. rewrite expire_hash in Heq.
      assert (tokens st !! h = Some k) as E1 by (apply Ht; eauto).
      assert (tokens st !! h = Some k') as E2 by (apply Ht; eauto).
      simplify_eq. congruence.
  - intros k r' (r & Hk & _ & ->)%prune_lookup_Some. by apply run_ok_expire, Hr.
  - pose proof (size_dom_mono _ _ Hd). lia.
  - pose proof (count_unproven_mono _ _ Hd). lia.
Qed.

(** Changing a kept run but not its token. *)
Lemma update_run_ok st k r r' :
  State_ok st → runs st !! k = Some r → run_ok k r' →
  run_token_hash r' = run_token_hash r →
  State_ok (with_runs <[k := r']> st).
Proof.
  intros [Ht Hr Hs Hu] Hk Hr' Hh.
  assert (dom (<[k:=r']> (runs st)) ⊆ dom (runs st)) as Hd.
  { rewrite dom_insert_L. apply (elem_of_dom_2 (D:=gset RunKey)) in Hk. set_solver. }
  split; cbn.
  - intros h k2. rewrite (Ht h k2). setoid_rewrite lookup_insert_Some. split.
    + intros (r2 & Hk2 & ?). destruct (decide (k = k2)) as [->|]; [|eauto 6].
      exists r'. simplify_eq. auto.
    + intros (r2 & [[-> ->]|[? ?]] & ?); [exists r|]; naive_solver congruence.
  - by apply map_Forall_insert_2.
  - pose proof (size_dom_mono _ _ Hd). lia.
  - pose proof (count_unproven_mono _ _ Hd). lia.
Qed.

(** Replacing a run's token by a fresh one. *)
Lemma rotate_ok st k r h :
  State_ok st → runs st !! k = Some r → tokens st !! h = None →
  State_ok (with_tokens <[h := k]> (with_tokens (delete (run_token_hash r))
    (with_runs <[k := run_with_hash h r]> st))).
Proof.
  intros [Ht Hr Hs Hu] Hk Hfresh.
  assert (dom (<[k:=run_with_hash h r]> (runs st)) ⊆ dom (runs st)) as Hd.
  { rewrite dom_insert_L. pose proof (elem_of_dom_2 (D:=gset RunKey) _ _ _ Hk). set_solver. }
  assert (∀ k2 r2, runs st !! k2 = Some r2 → run_token_hash r2 ≠ h) as Hnew.
  { intros k2 r2 Hk2 <-. enough (tokens st !! run_token_hash r2 = Some k2) by congruence.
    apply Ht; eauto. }
  split; cbn.
  - intros h2 k2. setoid_rewrite lookup_insert_Some. rewrite lookup_delete_Some, (Ht h2 k2).
    split.
    + intros [[-> ->]|(? & ? & r2 & Hk2 & Hh2)].
      * exists (run_with_hash h2 r). auto.
      * destruct (decide (k = k2)) as [->|]; [|eauto 6]. congruence.
    + intros (r2 & [[-> <-]|[? Hk2]] & Hh2); [by left|right].
      split; [intros ->; by eapply Hnew|]. split; [|eauto].
      intros E. assert (tokens st !! h2 = Some k) by (apply Ht; eauto).
      assert (tokens st !! h2 = Some k2) by (apply Ht; eauto). congruence.
  - apply map_Forall_insert_2; [|done]. destruct (Hr k r Hk). by split.
  - pose proof (size_dom_mono _ _ Hd). lia.
  - pose proof (count_unproven_mono _ _ Hd). lia.
Qed.

(** The queue of the quota and the journal are not part of well-formedness. *)
Lemma State_ok_frame st st' :
  runs st' = runs st → tokens st' = tokens st → State_ok st → State_ok st'.
Proof. intros Er Et [? ? ? ?]. split; by rewrite ?Er, ?Et. Qed.

Lemma Tokens_ok_default : Tokens_ok Tokens_default.
Proof. repeat split; cbn; u64_lia. Qed.
Lemma Tokens_ok_add a b : Tokens_ok a → Tokens_ok b → Tokens_ok (Tokens_add a b).
Proof.
  intros (?&?&?&?&?) (?&?&?&?&?). unfold Tokens_ok; cbn.
  split_and!; auto with u64.
Qed.

Lemma insert_ok st new limits now unix :
  State_ok st → limits_ok limits →
  runs st !! new_key new = None → tokens st !! new_token_hash new = None →
  Z.of_nat (size (runs st)) < MAX_RUNS →
  (is_unproven (new_key new) = true → count_unproven (runs st) < MAX_UNPROVEN_RUNS) →
  proof_names (new_key new) (new_proof new) →
  (new_jti new = None ↔ is_unproven (new_key new) = true) →
  (is_unproven (new_key new) = true → new_consumer new = Private) →
  State_ok (State_insert new limits now unix st).1.
Proof.
  intros [Ht Hr Hs Hu] [Httl Hcon] Hnone Hfresh Hsize Hcount Hproof Hjti Hcons.
  assert (∀ k r, runs st !! k = Some r → run_token_hash r ≠ new_token_hash new) as Hnew.
  { intros k r Hk E. enough (tokens st !! new_token_hash new = Some k) by congruence.
    apply Ht; eauto. }
  split; cbn.
  - intros h k. setoid_rewrite lookup_insert_Some. rewrite (Ht h k). split.
    + intros [[<- <-]|(? & r & ? & ?)]; [by eexists; split; [left|]|].
      exists r. split; [right; split; [congruence|done]|done].
    + intros (r & [[-> <-]|[? ?]] & <-); [by left|right]. split; [|by eauto].
      intros E. by eapply Hnew.
  - apply map_Forall_insert_2; [|done].
    split; [split|..]; cbn; try done; try apply map_Forall_empty;
      try apply Tokens_ok_default; try u64_lia.
  - rewrite map_size_insert_None by done. lia.
  - pose proof (count_unproven_insert (new_key new)
      (mkRun (mkRunRecord RECORD_SCHEMA (new_proof new) Active unix
        (sat_add unix (as_secs (ttl limits))) None 0 0 Tokens_default ∅)
        (new_token_hash new) (new_jti new) (new_consumer new) (concurrency limits)
        (now + ttl limits) (now + ttl limits + RETENTION) 0) (runs st)).
    destruct (is_unproven (new_key new)); [specialize (Hcount eq_refl)|]; lia.
Qed.

Section preservation.
Context `{Crypto}.

Lemma fresh_prune random now st : fresh random st → fresh random (State_prune now st).
Proof.
  unfold fresh. intros Hf. apply eq_None_not_Some. intros [k Hk].
  apply lookup_foldr_delete in Hk as [Hk _]. congruence.
Qed.

Lemma register_ok identity limits now random unix st :
  State_ok st → limits_ok limits → fresh random st →
  State_ok (register identity limits now random unix st).1.
Proof.
  intros Hok Hl Hf%(fresh_prune _ now). apply (prune_ok now) in Hok.
  unfold register, fresh in *. set (st' := State_prune now st) in *.
  destruct (new_token random) as [token hash]. cbn in Hf.
  destruct (runs st' !! _) as [run|] eqn:Hk.
  - destruct (_ || _); [done|]. by apply rotate_ok.
  - destruct (MAX_RUNS <=? _) eqn:Hfull; [done|]. apply Z.leb_gt in Hfull.
    rewrite (surjective_pairing (State_insert _ _ _ _ _)); cbn [fst].
    by apply insert_ok.
Qed.

Lemma register_unproven_ok name limits quota now random unix st :
  State_ok st → limits_ok limits → fresh random st →
  State_ok (register_unproven name limits quota now random unix st).1.
Proof.
  intros Hok Hl Hf%(fresh_prune _ now). apply (prune_ok now) in Hok.
  unfold register_unproven, fresh in *. set (st' := State_prune now st) in *.
  destruct (runs st' !! _) as [run|] eqn:Hk; [done|].
  set (st2 := with_unproven (drop_old (quota_window quota) now) st').
  assert (State_ok st2) as Hok2 by (by apply (State_ok_frame st')).
  destruct (quota_max quota <=? _); [done|].
  destruct (_ || _) eqn:Hfull; [done|].
  apply orb_false_iff in Hfull as [Hu%Z.leb_gt Hs%Z.leb_gt].
  destruct (new_token random) as [token hash]. cbn in Hf.
  rewrite (surjective_pairing (State_insert _ _ _ _ _)); cbn [fst].
  apply insert_ok; try done. by apply (State_ok_frame st').
Qed.

Lemma run_ok_in_flight k r n :
  run_ok k r → 0 <= n <= run_concurrency r → run_ok k (run_with_in_flight n r).
Proof. intros [] ?. by split. Qed.
Lemma run_ok_record k r rec :
  run_ok k r → record_ok k rec → run_ok k (run_with_record rec r).
Proof. intros [] ?. by split. Qed.

Lemma finish_ok key now unix st : State_ok st → State_ok (finish key now unix st).1.
Proof.
  intros Hok%(prune_ok now). unfold finish. set (st' := State_prune now st) in *.
  destruct (runs st' !! key) as [run|] eqn:Hk; [|done].
  destruct (is_active run); [|done]. cbn [fst].
  apply (State_ok_frame (with_runs
    <[key := run_with_record (rec_with_state Finished (Some unix) (run_record run)) run]> st'));
    [done|done|].
  eapply update_run_ok; [done..| |done].
  pose proof (ok_runs _ Hok _ _ Hk) as Hr. cbn beta in Hr.
  apply run_ok_record; [done|]. destruct Hr as [[] _ _ _ _ _].
  by split.
Qed.

Lemma admit_ok key now st : State_ok st → State_ok (admit_run key now st).1.
Proof.
  intros Hok%(prune_ok now). unfold admit_run. set (st' := State_prune now st) in *.
  destruct (runs st' !! key) as [run|] eqn:Hk; [|done].
  destruct (negb _); [done|]. destruct (_ <=? _) eqn:Hb; [done|]. cbn [fst].
  eapply update_run_ok; [done..| |done].
  pose proof (ok_runs _ Hok _ _ Hk) as Hr. cbn beta in Hr.
  apply run_ok_in_flight; [done|]. apply Z.leb_gt in Hb.
  pose proof (ok_in_flight _ _ Hr). pose proof (ok_concurrency _ _ Hr).
  rewrite wrap_add_small; lia.
Qed.

Lemma add_model_ok u models :
  Tokens_ok (u_tokens u) → map_Forall (λ _, Tokens_ok) models →
  Z.of_nat (size models) <= MAX_MODELS →
  map_Forall (λ _, Tokens_ok) (add_model u models) ∧
  Z.of_nat (size (add_model u models)) <= MAX_MODELS.
Proof.
  intros Hu Hm Hs. unfold add_model. destruct (u_model u) as [m|]; [|done].
  destruct (models !! m) as [t|] eqn:Ht.
  - split; [|rewrite map_size_insert_Some by done; done].
    apply map_Forall_insert_2; [|done]. apply Tokens_ok_add; [|done]. by eapply Hm.
  - destruct (_ <? _) eqn:Hlt; [|done]. apply Z.ltb_lt in Hlt.
    split; [by apply map_Forall_insert_2|].
    rewrite map_size_insert_None by done. unfold MAX_MODELS in *. lia.
Qed.

Lemma settle_run_ok k r outcome :
  run_ok k r → outcome_ok outcome → run_ok k (settle_run outcome r).
Proof.
  intros Hr Ho. unfold settle_run.
  pose proof (ok_in_flight _ _ Hr). pose proof (ok_concurrency _ _ Hr).
  assert (run_ok k (run_with_in_flight (sat_sub (run_in_flight r) 1) r)) as Hr'.
  { apply run_ok_in_flight; [done|]. u64_lia. }
  destruct outcome as [u| |]; [| |done].
  - destruct Hr' as [[] ? ? ? ? ?]. apply run_ok_record; [by split; [split|..]|].
    destruct (add_model_ok u (rec_models (run_record r))); [done..|].
    split; try done; cbn; auto with u64. by apply Tokens_ok_add.
  - destruct Hr' as [[] ? ? ? ? ?]. apply run_ok_record; [by split; [split|..]|].
    split; try done; cbn; auto with u64.
Qed.

Lemma settle_ok key outcome st :
  State_ok st → outcome_ok outcome → State_ok (settle key outcome st).
Proof.
  intros Hok Ho. unfold settle. destruct (runs st !! key) as [r|] eqn:Hk; [|done].
  eapply update_run_ok; [done..| |by destruct outcome].
  apply settle_run_ok; [|done]. by apply (ok_runs _ Hok).
Qed.

Lemma apply_event_ok e st : State_ok st → event_ok e st → State_ok (apply_event e st).
Proof.
  destruct e; cbn [apply_event event_ok]; intros Hok He.
  - by apply register_ok; destruct He.
  - by apply register_unproven_ok; destruct He.
  - by apply prune_ok.
  - by apply prune_ok.
  - by apply finish_ok.
  - by apply admit_ok.
  - by apply settle_ok.
Qed.
End preservation.

Lemma State_ok_default : State_ok State_default.
Proof.
  split; cbn; try done. intros h k. rewrite lookup_empty.
  split; [done|]. intros (? & ? & _). by rewrite lookup_empty in *.
Qed.

(** ** How one step changes one run *)

(** What may happen to a run while it is remembered: it keeps who it is and
    its limits, its state only moves away from [Active], and once it has, it
    keeps its finish time and admits nothing. *)
Record evolves (r r' : Run) : Prop := {
  ev_proof : rec_proof (run_record r') = rec_proof (run_record r);
  ev_jti : run_jti r' = run_jti r;
  ev_consumer : run_consumer r' = run_consumer r;
  ev_concurrency : run_concurrency r' = run_concurrency r;
  ev_expires : run_expires r' = run_expires r;
  ev_retain : run_retain_until r' = run_retain_until r;
  ev_state : run_state r' = run_state r ∨ run_state r = Active;
  ev_closed : run_state r ≠ Active →
    rec_finished_at_unix (run_record r') = rec_finished_at_unix (run_record r) ∧
    run_in_flight r' <= run_in_flight r;
}.
#[export] Instance evolves_preorder : PreOrder evolves.
Proof.
  split; [by split; auto|]. intros r1 r2 r3 [] [].
  split; try congruence; [naive_solver congruence|].
  intros Hc. destruct (ev_closed0 Hc). destruct ev_closed1; [|split; [congruence|lia]].
  destruct ev_state0; congruence.
Qed.

Lemma evolves_expire now r : evolves r (expire now r).
Proof.
  unfold expire, expiring, is_active. destruct (bool_decide _ && _) eqn:E; [|done].
  apply andb_true_iff in E as [Ha%bool_decide_eq_true _]. by split; auto.
Qed.
Lemma evolves_hash h r : evolves r (run_with_hash h r).
Proof. by split; auto. Qed.
Lemma evolves_settle outcome r :
  0 <= run_in_flight r → evolves r (settle_run outcome r).
Proof.
  intros ?. destruct outcome; (split; auto); intros _; (split; [done|]); cbn; u64_lia.
Qed.

(** A step leaves run [k], known as [r], in one of three ways: it evolves, or
    its retention is over and it is forgotten, or forgotten and registered
    anew. *)
Definition step_of_run (now : option Z) (r : Run) (o : option Run) : Prop :=
  match o with
  | Some r' => evolves r r' ∨ ∃ t, now = Some t ∧ run_retain_until r <= t
  | None => ∃ t, now = Some t ∧ run_retain_until r <= t
  end.
Definition event_now (e : event) : option Z :=
  match e with
  | EvRegister _ _ now _ _ | EvRegisterUnproven _ _ _ now _ _ | EvAuthenticate _ now
  | EvRecord _ now | EvFinish _ now _ | EvAdmit _ now => Some now
  | EvSettle _ _ => None
  end.

Lemma step_forgotten now r o : run_retain_until r <= now → step_of_run (Some now) r o.
Proof. intros. destruct o; cbn; [right|]; eauto. Qed.
Lemma step_evolved now r o : (∃ r', o = Some r' ∧ evolves r r') → step_of_run now r o.
Proof. intros (r' & -> & ?). by left. Qed.

Lemma prune_cases now st k r :
  runs st !! k = Some r →
  (∃ r', runs (State_prune now st) !! k = Some r' ∧ evolves r r') ∨
  run_retain_until r <= now.
Proof.
  intros Hk. rewrite prune_lookup, Hk. cbn. unfold kept.
  destruct (Z.ltb_spec now (run_retain_until r)); [left|by right].
  eauto using evolves_expire.
Qed.

Section steps.
Context `{Crypto}.

Lemma lookup_insert_evolves (m : gmap RunKey Run) k k' r1 r' r :
  m !! k = Some r → m !! k' = Some r1 → evolves r1 r' →
  ∃ r2, <[k' := r']> m !! k = Some r2 ∧ evolves r r2.
Proof.
  intros Hk Hk' Hev. destruct (decide (k' = k)) as [->|].
  - rewrite lookup_insert_eq. simplify_eq. eauto.
  - rewrite lookup_insert_ne by done. by exists r.
Qed.
Lemma lookup_insert_fresh (m : gmap RunKey Run) k k' r' r :
  m !! k = Some r → m !! k' = None →
  ∃ r2, <[k' := r']> m !! k = Some r2 ∧ evolves r r2.
Proof.
  intros Hk Hk'. rewrite lookup_insert_ne by congruence.
  by exists r.
Qed.

Lemma register_step identity limits now random unix st k r :
  runs (State_prune now st) !! k = Some r →
  ∃ r', runs (register identity limits now random unix st).1 !! k = Some r' ∧ evolves r r'.
Proof.
  intros Hk. unfold register. destruct (new_token random) as [token hash].
  destruct (runs _ !! RunIdentity_key identity) as [run|] eqn:Hrun.
  - destruct (_ || _); [by eexists|].
    by eapply lookup_insert_evolves; [..|apply evolves_hash].
  - destruct (MAX_RUNS <=? _); [by eexists|]. by eapply lookup_insert_fresh.
Qed.
Lemma register_unproven_step name limits quota now random unix st k r :
  runs (State_prune now st) !! k = Some r →
  ∃ r', runs (register_unproven name limits quota now random unix st).1 !! k = Some r' ∧
    evolves r r'.
Proof.
  intros Hk. unfold register_unproven.
  destruct (runs _ !! Unproven name) eqn:Hrun; [by eexists|].
  destruct (quota_max quota <=? _); [by eexists|]. destruct (_ || _); [by eexists|].
  destruct (new_token random) as [token hash]. by eapply lookup_insert_fresh.
Qed.
Lemma finish_step key now unix st k r :
  runs (State_prune now st) !! k = Some r →
  ∃ r', runs (finish key now unix st).1 !! k = Some r' ∧ evolves r r'.
Proof.
  intros Hk. unfold finish. destruct (runs _ !! key) as [run|] eqn:Hrun; [|by eexists].
  unfold is_active. case_bool_decide as Ha; [|by eexists].
  eapply lookup_insert_evolves; [done..|]. by split; auto.
Qed.
Lemma admit_step key now st k r :
  runs (State_prune now st) !! k = Some r →
  ∃ r', runs (admit_run key now st).1 !! k = Some r' ∧ evolves r r'.
Proof.
  intros Hk. unfold admit_run. destruct (runs _ !! key) as [run|] eqn:Hrun; [|by eexists].
  unfold is_active. case_bool_decide as Ha; cbn [negb]; [|by eexists].
  destruct (_ <=? _); [by eexists|].
  eapply lookup_insert_evolves; [done..|]. by split; auto.
Qed.

Lemma event_step_of_run e st k r :
  State_ok st → runs st !! k = Some r →
  step_of_run (event_now e) r (runs (apply_event e st) !! k).
Proof.
  intros Hok Hk.
  assert (∀ now (f : gmap RunKey Run),
    (∀ r1, runs (State_prune now st) !! k = Some r1 →
       ∃ r2, f !! k = Some r2 ∧ evolves r1 r2) →
    step_of_run (Some now) r (f !! k)) as Hpruned.
  { intros now f Hf. destruct (prune_cases now st k r Hk) as [(r1 & Hr1 & He)|];
      [|by apply step_forgotten].
    destruct (Hf _ Hr1) as (r2 & ? & ?). apply step_evolved.
    exists r2. split; [done|]. by etrans. }
  destruct e; cbn [apply_event event_now].
  - apply Hpruned. intros. by apply register_step.
  - apply Hpruned. intros. by apply register_unproven_step.
  - apply Hpruned. by eexists.
  - apply Hpruned. by eexists.
  - apply Hpruned. intros. by apply finish_step.
  - apply Hpruned. intros. by apply admit_step.
  - apply step_evolved. unfold settle.
    destruct (runs st !! key) as [run|] eqn:Hrun; [|by eexists].
    eapply lookup_insert_evolves; [done..|]. apply evolves_settle.
    apply (ok_in_flight key), (ok_runs _ Hok), Hrun.
Qed.
End steps.

(** ** Requests in flight *)

(** What an operation that does not settle leaves of each run: one that was
    there after pruning is [R]-related to what it was, a new one is [N]. *)
Section keeps.
Context (R : Run → Run → Prop) (N : Run → Prop).
Definition keeps (pruned rs : gmap RunKey Run) : Prop :=
  ∀ k r', rs !! k = Some r' →
    (∃ r, pruned !! k = Some r ∧ R r r') ∨ (pruned !! k = None ∧ N r').

Context `{!Reflexive R}.
Lemma keeps_refl rs : keeps rs rs.
Proof using All. intros k r Hk. eauto. Qed.
Lemma keeps_update rs k r r' : rs !! k = Some r → R r r' → keeps rs (<[k := r']> rs).
Proof using All. intros Hr Hi k2 r2 [[<- <-]|[? Hk2]]%lookup_insert_Some; eauto. Qed.
Lemma keeps_new rs k r' : rs !! k = None → N r' → keeps rs (<[k := r']> rs).
Proof using All. intros Hr Hi k2 r2 [[<- <-]|[? Hk2]]%lookup_insert_Some; eauto. Qed.

Definition unused (r : Run) : Prop :=
  run_in_flight r = 0 ∧ rec_requests (run_record r) = 0 ∧ rec_unmetered (run_record r) = 0 ∧
  rec_tokens (run_record r) = Tokens_default ∧ rec_models (run_record r) = ∅.
Hypothesis Rhash : ∀ h r, R r (run_with_hash h r).
Hypothesis Rfinish : ∀ unix r,
  R r (run_with_record (rec_with_state Finished (Some unix) (run_record r)) r).
Hypothesis Nnew : ∀ r, unused r → N r.
Lemma event_keeps `{Crypto} e st now :
  event_now e = Some now →
  (∀ key, e = EvAdmit key now → ∀ n r, R r (run_with_in_flight n r)) →
  keeps (runs (State_prune now st)) (runs (apply_event e st)).
Proof using All.
  intros Hnow Hadm. destruct e; simplify_eq/=; try apply keeps_refl.
  - unfold register. destruct (new_token random) as [token hash].
    destruct (runs (State_prune _ _) !! _) as [run|] eqn:Hrun.
    + destruct (_ || _); [apply keeps_refl|]. by eapply keeps_update.
    + destruct (MAX_RUNS <=? _); [apply keeps_refl|]. eapply keeps_new; [done|]. by apply Nnew.
  - unfold register_unproven.
    destruct (runs (State_prune _ _) !! _) as [run|] eqn:Hrun; [apply keeps_refl|].
    destruct (quota_max quota <=? _); [apply keeps_refl|].
    destruct (_ || _); [apply keeps_refl|].
    destruct (new_token random) as [token hash]. eapply keeps_new; [done|]. by apply Nnew.
  - unfold finish. destruct (runs (State_prune _ _) !! _) as [run|] eqn:Hrun; [|apply keeps_refl].
    destruct (is_active run); [|apply keeps_refl]. by eapply keeps_update.
  - unfold admit_run. destruct (runs (State_prune _ _) !! _) as [run|] eqn:Hrun; [|apply keeps_refl].
    destruct (negb _); [apply keeps_refl|]. destruct (_ <=? _); [apply keeps_refl|].
    eapply keeps_update; [done|]. by eapply Hadm.
Qed.
End keeps.

Section in_flight.
Context `{Crypto}.

Lemma event_keeps_in_flight e st now :
  event_now e = Some now → (∀ key, e ≠ EvAdmit key now) →
  keeps (λ r r', run_in_flight r' = run_in_flight r) (λ r, run_in_flight r = 0)
    (runs (State_prune now st)) (runs (apply_event e st)).
Proof.
  intros Hnow Hadm. apply event_keeps; try done; [by intros r []|]. intros key He. by destruct (Hadm key).
Qed.

(** Executions with the admissions that are outstanding.  An admission ends by
    [Admission::settle] or by being dropped, exactly once, as the compiler
    makes a value's owner do; [success] and [usage_free] may be set meanwhile.
    No request outlasts the retention of its run, a day past the run's end. *)
Definition retained (now : Z) (st : State) (l : list Admission) : Prop :=
  Forall (λ a, is_Some (runs (State_prune now st) !! adm_key a)) l.
Definition end_admission (a : Admission) (how : option (option Usage)) (st : State) : State :=
  match how with
  | Some reported => Admission_settle a reported st
  | None => Admission_drop a st
  end.
Inductive held : State → list Admission → Prop :=
| held_init : held State_default []
| held_event e now st l :
    held st l → event_ok e st → event_now e = Some now →
    (∀ key, e ≠ EvAdmit key now) → retained now st l → held (apply_event e st) l
| held_admit key now st l :
    held st l → retained now st l →
    held (admit_run key now st).1
      (match (admit_run key now st).2 with Ok a => a :: l | Err _ => l end)
| held_set st l1 a a' l2 :
    held st (l1 ++ a :: l2) → adm_key a' = adm_key a → adm_settled a' = false →
    held st (l1 ++ a' :: l2)
| held_end st l1 a l2 how :
    held st (l1 ++ a :: l2) → match how with
                              | Some (Some u) => Tokens_ok (u_tokens u)
                              | _ => True
                              end → held (end_admission a how st) (l1 ++ l2).

Definition holds_of (k : RunKey) (l : list Admission) : Z :=
  Z.of_nat (length (filter (λ a, adm_key a = k) l)).
Record held_inv (st : State) (l : list Admission) : Prop := {
  hi_ok : State_ok st;
  hi_open : Forall (λ a, adm_settled a = false) l;
  hi_kept : Forall (λ a, is_Some (runs st !! adm_key a)) l;
  hi_count : ∀ k r, runs st !! k = Some r → run_in_flight r = holds_of k l;
}.

Lemma holds_of_cons k a l :
  holds_of k (a :: l) = holds_of k l + (if decide (adm_key a = k) then 1 else 0).
Proof. unfold holds_of. rewrite filter_cons. case_decide; cbn; lia. Qed.
Lemma holds_of_middle k l1 a l2 : holds_of k (l1 ++ a :: l2) = holds_of k (a :: l1 ++ l2).
Proof. unfold holds_of. by rewrite <-Permutation_middle. Qed.
Lemma holds_of_none k l : Forall (λ a, adm_key a ≠ k) l → holds_of k l = 0.
Proof.
  induction 1 as [|a l Ha _ IH]; [done|]. by rewrite holds_of_cons, decide_False, IH.
Qed.

Lemma end_admission_settle a how st :
  adm_settled a = false →
  ∃ o, end_admission a how st = settle (adm_key a) o st ∧
    (match how with Some (Some u) => Tokens_ok (u_tokens u) | _ => True end →
     outcome_ok o).
Proof.
  intros Ha. destruct how as [reported|]; cbn; [|unfold Admission_drop; rewrite Ha].
  - exists (settle_outcome a reported). split; [done|]. unfold settle_outcome.
    destruct (adm_usage_free a); [done|]. destruct reported; [done|].
    by destruct (adm_success a).
  - eexists. split; [done|]. by destruct (_ && _).
Qed.

Lemma held_inv_event e now st l :
  held_inv st l → event_ok e st → event_now e = Some now →
  (∀ key, e ≠ EvAdmit key now) → retained now st l → held_inv (apply_event e st) l.
Proof.
  intros [Hok Hopen Hkept Hcount] He Hnow Hadm Hret.
  pose proof (event_keeps_in_flight e st now Hnow Hadm) as Hkeeps.
  split; [by apply apply_event_ok|done| |].
  - eapply Forall_impl; [exact Hret|]. cbn beta. intros a [r1 Hr1].
    destruct (runs st !! adm_key a) as [r|] eqn:Hr; [|by rewrite prune_lookup, Hr in Hr1].
    pose proof (event_step_of_run e st (adm_key a) r Hok Hr) as Hs. rewrite Hnow in Hs.
    destruct (runs (apply_event e st) !! adm_key a) eqn:E; [by eexists|].
    destruct Hs as (t & [= <-] & Hle). apply prune_lookup_Some in Hr1 as (r0 & ? & Hk & _).
    simplify_eq. unfold kept in Hk. apply Z.ltb_lt in Hk. lia.
  - intros k r' Hr'. destruct (Hkeeps k r' Hr') as [(r1 & Hr1 & ->)|[Hnone ->]].
    + apply prune_lookup_Some in Hr1 as (r & Hr & _ & ->).
      destruct (expire_frame now r) as (_&_&_&_&_&_&->). by apply Hcount.
    + symmetry. apply holds_of_none. eapply Forall_impl; [exact Hret|]. cbn beta.
      intros a [r1 Hr1] <-. congruence.
Qed.

Lemma admit_cases key now st :
  State_ok st →
  let st0 := State_prune now st in
  match admit_run key now st with
  | (st', Ok a) => ∃ run, runs st0 !! key = Some run ∧ run_state run = Active ∧
      now < run_expires run ∧ run_in_flight run < run_concurrency run ∧
      st' = with_runs <[key := run_with_in_flight (run_in_flight run + 1) run]> st0 ∧
      a = mkAdmission key (run_consumer run) false false false
  | (st', Err Closed) => st' = st0 ∧
      (∀ run, runs st0 !! key = Some run → run_state run ≠ Active)
  | (st', Err Busy) => st' = st0 ∧ ∃ run, runs st0 !! key = Some run ∧
      run_state run = Active ∧ run_in_flight run = run_concurrency run
  end.
Proof.
  intros Hok%(prune_ok now) st0. unfold admit_run. fold st0 in Hok |- *.
  destruct (runs st0 !! key) as [run|] eqn:Hk; [|done].
  unfold is_active. case_bool_decide as Ha; cbn [negb].
  2: { split; [done|]. intros r ?. by simplify_eq. }
  pose proof (ok_runs _ Hok _ _ Hk) as Hr. cbn beta in Hr.
  pose proof (ok_in_flight _ _ Hr). pose proof (ok_concurrency _ _ Hr).
  destruct (Z.leb_spec (run_concurrency run) (run_in_flight run)).
  { split; [done|]. exists run. repeat split; [done..|lia]. }
  exists run. rewrite wrap_add_small by lia. repeat split; [done..| |lia].
  apply prune_lookup_Some in Hk as (r & _ & _ & ->). clear -Ha.
  unfold expire, expiring, is_active in *. destruct (bool_decide _ && _) eqn:E; [done|].
  rewrite bool_decide_eq_true_2 in E by done. by apply Z.leb_gt in E.
Qed.

Lemma settle_frame key o st k :
  runs (settle key o st) !! k =
  (if decide (key = k) then settle_run o else id) <$> runs st !! k.
Proof.
  unfold settle. destruct (runs st !! key) as [r|] eqn:Hr; cbn.
  - rewrite lookup_insert. case_decide; subst; [by rewrite Hr|].
    by destruct (runs st !! k).
  - case_decide; subst; [by rewrite Hr|]. by destruct (runs st !! k).
Qed.

Lemma held_inv_admit key now st l :
  held_inv st l → retained now st l →
  held_inv (admit_run key now st).1
    (match (admit_run key now st).2 with Ok a => a :: l | Err _ => l end).
Proof.
  intros [Hok Hopen Hkept Hcount] Hret.
  assert (held_inv (State_prune now st) l) as Hinv.
  { split; [by apply prune_ok|done|exact Hret|].
    intros k r' (r & Hr & _ & ->)%prune_lookup_Some.
    destruct (expire_frame now r) as (_&_&_&_&_&_&->). by apply Hcount. }
  pose proof (admit_cases key now st Hok) as Ha.
  pose proof (admit_ok key now st Hok) as Hok'.
  destruct (admit_run key now st) as [st' [a|[]]]; cbv beta iota zeta in Ha;
    cbn [fst snd] in Hok' |- *; [|by destruct Ha as [-> _]..].
  destruct Ha as (run & Hrun & _ & _ & _ & -> & ->). destruct Hinv as [_ _ _ Hc].
  split; [done|by constructor| |].
  - constructor; cbn; [by rewrite lookup_insert_eq|].
    eapply Forall_impl; [exact Hret|]. cbn beta. intros a Ha. cbn.
    rewrite lookup_insert. by case_decide.
  - intros k r. cbn. rewrite holds_of_cons, lookup_insert. cbn [adm_key].
    case_decide as E; [intros [= <-]; subst|intros Hk].
    + cbn. by rewrite (Hc _ _ Hrun).
    + rewrite (Hc _ _ Hk). lia.
Qed.

Lemma held_inv_end st l1 a l2 o :
  held_inv st (l1 ++ a :: l2) → outcome_ok o →
  held_inv (settle (adm_key a) o st) (l1 ++ l2).
Proof.
  intros [Hok Hopen Hkept Hcount] Ho.
  rewrite Forall_app, Forall_cons in Hopen, Hkept.
  split; [by apply settle_ok|apply Forall_app; tauto| |].
  - apply Forall_app. destruct Hkept as (H1 & _ & H2).
    split; (eapply Forall_impl; [done|]); cbn beta; intros b [r Hr];
      rewrite settle_frame, Hr; by eexists.
  - intros k r'. rewrite settle_frame. intros (r & Hr & ->)%fmap_Some.
    pose proof (Hcount _ _ Hr) as Hc. rewrite holds_of_middle, holds_of_cons in Hc.
    case_decide; [|cbn; lia].
    assert (run_in_flight (settle_run o r) = sat_sub (run_in_flight r) 1) as -> by
      (by destruct o).
    unfold holds_of in *. u64_lia.
Qed.

Lemma held_inv_holds st l : held st l → held_inv st l.
Proof.
  induction 1 as [|e now st l _ IH ? ? ? ?|key now st l _ IH ?
    |st l1 a a' l2 _ IH Hkey Hopen|st l1 a l2 how _ IH Hu].
  - split; [apply State_ok_default|done..].
  - by eapply held_inv_event.
  - by apply held_inv_admit.
  - destruct IH as [Hok Ho Hk Hc]. rewrite Forall_app, Forall_cons in Ho, Hk.
    split; [done|..].
    + rewrite Forall_app, Forall_cons. naive_solver.
    + rewrite Forall_app, Forall_cons, Hkey. naive_solver.
    + intros k r Hr. rewrite (Hc k r Hr), !holds_of_middle, !holds_of_cons. by rewrite Hkey.
  - assert (adm_settled a = false) as Ha.
    { destruct IH as [_ Ho _ _]. rewrite Forall_app, Forall_cons in Ho. naive_solver. }
    destruct (end_admission_settle a how st Ha) as (o & -> & Ho). apply held_inv_end; auto.
Qed.
End in_flight.

(** ** Properties *)
Section properties.
Context `{Crypto}.

Lemma reachable_State_ok st : reachable st → State_ok st.
Proof. induction 1; auto using State_ok_default, apply_event_ok. Qed.

(** C2: every state the registry can reach is well formed: the token index
    holds exactly the current token of every run kept; at most [MAX_RUNS] runs
    are kept, at most [MAX_UNPROVEN_RUNS] of them unproven; each run's record
    names the run, is finished exactly when it has a finish time, keeps totals
    for at most [MAX_MODELS] models and only [u64] counts, and holds between
    zero and its limit of concurrency slots. *)
Theorem reachable_ok st : reachable st → State_ok st.
Proof. apply reachable_State_ok. Qed.
End properties.

Section run_properties.
Context `{Crypto}.

(** C18: in every execution, as long as requests end within their run's
    retention, a run's slot counter is exactly the number of its requests
    outstanding, never more than its concurrency limit: no slot leaks however
    a request ends, and none is freed twice. *)
Theorem held_exact st l k r :
  held st l → runs st !! k = Some r →
  run_in_flight r = holds_of k l ∧ holds_of k l <= run_concurrency r.
Proof.
  intros Hh Hr. destruct (held_inv_holds _ _ Hh) as [Hok _ _ Hc].
  pose proof (ok_in_flight _ _ (ok_runs _ Hok _ _ Hr)) as Hi.
  rewrite (Hc _ _ Hr) in *. lia.
Qed.

(** C23: [admit_run] in every reachable state, on every branch: it admits exactly
    the requests of an active run before its deadline and below its
    concurrency, and takes one slot; it answers [Busy] exactly when every slot
    of an active run is taken, and [Closed] for any other run, changing nothing
    but what pruning does. *)
Theorem admit_spec key now st :
  reachable st →
  let st0 := State_prune now st in
  match admit_run key now st with
  | (st', Ok a) => ∃ run, runs st0 !! key = Some run ∧ run_state run = Active ∧
      now < run_expires run ∧ run_in_flight run < run_concurrency run ∧
      st' = with_runs <[key := run_with_in_flight (run_in_flight run + 1) run]> st0 ∧
      a = mkAdmission key (run_consumer run) false false false
  | (st', Err Closed) => st' = st0 ∧
      (∀ run, runs st0 !! key = Some run → run_state run ≠ Active)
  | (st', Err Busy) => st' = st0 ∧ ∃ run, runs st0 !! key = Some run ∧
      run_state run = Active ∧ run_in_flight run = run_concurrency run
  end.
Proof. intros Hr. by apply admit_cases, reachable_State_ok. Qed.

(** C24: what one step may do to a run: it keeps its identity, limits and
    deadline; its state only leaves [Active], after which its finish time
    stays and it admits nothing more; and it is forgotten, or replaced by a new
    registration, only once its retention, a day past its deadline, is over. *)
Theorem run_lifecycle e st k r :
  reachable st → runs st !! k = Some r →
  step_of_run (event_now e) r (runs (apply_event e st) !! k).
Proof. intros Hr. by apply event_step_of_run, reachable_State_ok. Qed.

(** A fresh token for a run, in place of its old one or of none. *)
Lemma tokens_rotate ts rs k r h :
  tokens_ok ts rs → rs !! k = Some r → ts !! h = None →
  (∀ h', <[h := k]> (delete (run_token_hash r) ts) !! h' = Some k ↔ h' = h) ∧
  (∀ k', k' ≠ k → ∀ h',
    <[h := k]> (delete (run_token_hash r) ts) !! h' = Some k' ↔ ts !! h' = Some k').
Proof.
  intros Ht Hk Hf. split.
  - intros h'. rewrite lookup_insert_Some, lookup_delete_Some, (Ht _ k). split; [|by left].
    intros [[? _]|(_ & Hne & r' & Hr' & <-)]; [done|]. by simplify_eq.
  - intros k' Hne h'. rewrite lookup_insert_Some, lookup_delete_Some.
    split; [naive_solver|]. intros Hk'. right. split; [congruence|]. split; [|done].
    intros E. enough (ts !! h' = Some k) by congruence. rewrite <-E. apply Ht. eauto.
Qed.
Lemma tokens_add ts rs k h :
  tokens_ok ts rs → rs !! k = None → ts !! h = None →
  (∀ h', <[h := k]> ts !! h' = Some k ↔ h' = h) ∧
  (∀ k', k' ≠ k → ∀ h', <[h := k]> ts !! h' = Some k' ↔ ts !! h' = Some k').
Proof.
  intros Ht Hk Hf. split.
  - intros h'. rewrite lookup_insert_Some, (Ht _ k). split; [|by left].
    intros [[? _]|(_ & r & Hr & _)]; congruence.
  - intros k' Hne h'. rewrite lookup_insert_Some. split; [naive_solver|].
    intros. right. split; congruence.
Qed.

Definition token_of (k : RunKey) (st : State) (token : string) : Prop :=
  tokens st !! token_hash token = Some k.

(** C20: registering a job's run, on every branch.  A run already known is
    given a new token only to the OIDC token that registered it and only while
    active; the old token then names nothing, and its record, limits and
    deadline stay.  A run not known is added, active, unless the registry is
    full.  In both cases the token returned is the one token that
    authenticates the run, and no other run changes. *)
Theorem register_spec identity limits now random unix st :
  reachable st → fresh random st →
  let st0 := State_prune now st in
  let key := RunIdentity_key identity in
  match register identity limits now random unix st with
  | (st', Err e) => st' = st0 ∧
      match runs st0 !! key with
      | Some run => e = AlreadyRegistered ∧
          (run_jti run ≠ Some (id_jti identity) ∨ run_state run ≠ Active)
      | None => e = Full ∧ MAX_RUNS <= Z.of_nat (size (runs st0))
      end
  | (st', Ok (token, rec)) =>
      token = (new_token random).1 ∧
      (∀ t, token_of key st' t ↔ token_hash t = token_hash token) ∧
      (∀ k, k ≠ key → runs st' !! k = runs st0 !! k ∧
        ∀ t, token_of k st' t ↔ token_of k st0 t) ∧
      match runs st0 !! key with
      | Some run => run_jti run = Some (id_jti identity) ∧ run_state run = Active ∧
          rec = run_record run ∧
          runs st' !! key = Some (run_with_hash (token_hash token) run)
      | None => ∃ run, runs st' !! key = Some run ∧ run_record run = rec ∧
          run_state run = Active ∧ run_jti run = Some (id_jti identity) ∧
          run_expires run = now + ttl limits ∧
          run_concurrency run = concurrency limits
      end
  end.
Proof.
  intros Hr Hf%(fresh_prune _ now) st0 key.
  assert (State_ok st0) as Hok by by apply prune_ok, reachable_State_ok.
  pose proof (ok_tokens _ Hok) as Ht. unfold fresh in Hf. fold st0 in Hf.
  unfold register. fold st0 key. unfold token_of.
  destruct (new_token random) as [token hash] eqn:Hnew.
  assert (token_hash token = hash) as Hhash by (by injection Hnew as <- <-).
  cbn [fst snd] in *. destruct (runs st0 !! key) as [run|] eqn:Hk.
  - unfold is_active. case_bool_decide as Hj; cbn [negb orb];
      [|auto].
    case_bool_decide as Ha; cbn [negb]; [|auto].
    destruct (tokens_rotate _ _ key run hash Ht Hk Hf) as [Hown Hother].
    cbn. rewrite lookup_insert_eq, Hhash. split; [done|]. split; [intros t; apply Hown|].
    split; [|done]. intros k Hne. rewrite lookup_insert_ne by done. auto.
  - destruct (Z.leb_spec MAX_RUNS (Z.of_nat (size (runs st0)))); [done|].
    destruct (tokens_add _ _ key hash Ht Hk Hf) as [Hown Hother].
    cbn. rewrite lookup_insert_eq, Hhash. split; [done|]. split; [intros t; apply Hown|].
    split; [|by eexists].
    intros k Hne. rewrite lookup_insert_ne by done. auto.
Qed.

(** A bearer token authenticates a run exactly while the run is
    remembered and its current token has the presented token's hash: a token
    that was replaced, or whose run was forgotten, names no run. *)
Theorem authenticate_spec token now st k :
  reachable st →
  (authenticate token now st).2 = Some k ↔
  ∃ r, runs st !! k = Some r ∧ now < run_retain_until r ∧
    run_token_hash r = sha256 token.
Proof.
  intros Hr.
  assert (State_ok (State_prune now st)) as Hok by by apply prune_ok, reachable_State_ok.
  etrans; [apply (ok_tokens _ Hok)|].
  setoid_rewrite prune_lookup_Some. unfold kept. split.
  - intros (r' & (r & Hk & Hkept%Z.ltb_lt & ->) & Hh). rewrite expire_hash in Hh. eauto.
  - intros (r & Hk & Hkept%Z.ltb_lt & Hh). exists (expire now r).
    rewrite expire_hash. eauto.
Qed.
End run_properties.

(** ** A concrete execution, for witnesses *)
#[local] Existing Instance toy_crypto.

Definition sample_identity : RunIdentity :=
  mkRunIdentity "owner/repo" 7 1 1 None "jti-1" "owner/repo/agent.yml@refs/heads/main"
    None "owner/repo/agent.yml@refs/heads/main" 70 "workflow_dispatch" None
    ByWorkflows Public.
Definition sample_limits : Limits := mkLimits (from_secs 600) 2.
Definition sample_key : RunKey := Github 7 1 1 None.
Definition sample_register : event := EvRegister sample_identity sample_limits 0 "one" 100.
Definition sample_state : State := apply_event sample_register State_default.
Definition sample_busy : State := (admit_run sample_key 5 sample_state).1.
Definition sample_admission : Admission := mkAdmission sample_key Public false false false.

Lemma sample_event_ok : event_ok sample_register State_default.
Proof. vm_compute. repeat split; discriminate. Qed.
Lemma sample_reachable : reachable sample_state.
Proof. apply (reachable_step sample_register); [constructor|apply sample_event_ok]. Qed.
Lemma sample_held : held sample_busy [sample_admission].
Proof.
  apply (held_admit sample_key 5 sample_state []); [|constructor].
  apply (held_event sample_register 0); [constructor|apply sample_event_ok|done|done|constructor].
Qed.

Lemma reachable_ok_witness : State_ok sample_state.
Proof. apply reachable_ok, sample_reachable. Defined.

Lemma held_exact_witness :
  ∃ r, runs sample_busy !! sample_key = Some r ∧
    run_in_flight r = holds_of sample_key [sample_admission] ∧
    holds_of sample_key [sample_admission] <= run_concurrency r.
Proof.
  eexists. split; [vm_compute; reflexivity|].
  apply (held_exact sample_busy [sample_admission] sample_key); [apply sample_held|].
  vm_compute. reflexivity.
Defined.

Lemma admit_spec_witness :
  ∃ run, runs (State_prune 5 sample_state) !! sample_key = Some run ∧
    run_in_flight run < run_concurrency run.
Proof.
  pose proof (admit_spec sample_key 5 sample_state sample_reachable) as Hs.
  cbv zeta in Hs. vm_compute (admit_run _ _ _) in Hs.
  destruct Hs as (run & ? & _ & _ & ? & _). exists run. by split.
Defined.

Lemma run_lifecycle_witness :
  ∃ r, runs sample_state !! sample_key = Some r ∧
    step_of_run (Some (from_secs 600)) r
      (runs (apply_event (EvFinish sample_key (from_secs 600) 700) sample_state) !! sample_key).
Proof.
  eexists. split; [vm_compute; reflexivity|].
  apply (run_lifecycle (EvFinish sample_key (from_secs 600) 700) sample_state sample_key).
  - apply sample_reachable.
  - vm_compute. reflexivity.
Defined.

Lemma register_spec_witness :
  let st' := (register sample_identity sample_limits 9 "two" 109 sample_state).1 in
  token_of sample_key st' (new_token "two").1 ∧ ¬ token_of sample_key st' (new_token "one").1.
Proof.
  assert (fresh "two" sample_state) as Hf by (vm_compute; reflexivity).
  assert (token_hash (new_token "one").1 ≠ token_hash (new_token "two").1) as Hne
    by (vm_compute; discriminate).
  pose proof (register_spec sample_identity sample_limits 9 "two" 109 sample_state
    sample_reachable Hf) as Hs.
  cbv zeta in Hs |- *.
  destruct (register _ _ _ _ _ _) as [st' [[token rec]|e]] eqn:E.
  - destruct Hs as (-> & Ht & _). split; [apply Ht; reflexivity|].
    intros Hold%Ht. exact (Hne Hold).
  - exfalso. revert E. vm_compute. discriminate.
Defined.

Lemma authenticate_spec_witness :
  (authenticate (new_token "one").1 5 sample_state).2 = Some sample_key ↔
  ∃ r, runs sample_state !! sample_key = Some r ∧ 5 < run_retain_until r ∧
    run_token_hash r = sha256 (new_token "one").1.
Proof. apply authenticate_spec, sample_reachable. Defined.
