(* ===== verification/RunsRecords.v ===== *)
(** * Registered runs: names and usage records

    That a run's subject, which budgets are keyed on, names one run only, and
    that in every execution of a registry a record's figures are those of what
    was settled for its run, model by model. *)
From S2P Require Import Prelude Crypto Pools Runs RunsInvariants.
Local Open Scope Z_scope.

(** ** Subjects *)
Definition key_ok (k : RunKey) : Prop :=
  match k with
  | Github a b c d => 0 <= a ∧ 0 <= b ∧ 0 <= c ∧ match d with Some d => 0 <= d | None => True end
  | Unproven _ => True
  end.

Lemma digits_contain c s :
  is_ascii_digit c = false → string_forallb is_ascii_digit s = true →
  contains_char c s = false.
Proof.
  intros Hc Hs. unfold contains_char. apply negb_false_iff.
  eapply string_forallb_impl; [|exact Hs]. intros b Hb.
  apply negb_true_iff, ascii_is_false. congruence.
Qed.
Lemma decimal_no_slash n : contains_char "/" (u64_to_string n) = false.
Proof. apply digits_contain; [done|]. apply u64_to_string_digits. Qed.

(** A decimal number up to a [/], and one up to the end. *)
Lemma decimal_sep_inj n m r1 r2 :
  0 <= n → 0 <= m →
  u64_to_string n +:+ "/" +:+ r1 = u64_to_string m +:+ "/" +:+ r2 → n = m ∧ r1 = r2.
Proof.
  intros Hn Hm [E ?]%(append_sep_inj "/"); [|apply decimal_no_slash..].
  split; [by apply u64_to_string_inj|done].
Qed.
Lemma decimal_no_sep n m r : u64_to_string n ≠ u64_to_string m +:+ "/" +:+ r.
Proof.
  intros E. pose proof (decimal_no_slash n) as Hn. rewrite E in Hn.
  cbn in Hn. by rewrite contains_char_app in Hn.
Qed.

(** Two runs have the same subject only if they are the same run: the
    identity a rate limit is keyed on never joins two runs, and no name an
    unproven run's caller chooses makes its subject a proven run's. *)
Theorem subject_inj k1 k2 :
  key_ok k1 → key_ok k2 → subject k1 = subject k2 → k1 = k2.
Proof.
  destruct k1 as [a1 b1 c1 d1|[n1]], k2 as [a2 b2 c2 d2|[n2]]; cbn [key_ok subject].
  - intros (Ha1 & Hb1 & Hc1 & Hd1) (Ha2 & Hb2 & Hc2 & Hd2) E.
    destruct d1 as [d1|], d2 as [d2|]; apply (inj (String.append "github-run:")) in E;
      apply decimal_sep_inj in E as [-> E]; try done;
      apply decimal_sep_inj in E as [-> E]; try done.
    + by apply decimal_sep_inj in E as [-> ->%u64_to_string_inj].
    + by edestruct decimal_no_sep.
    + by edestruct decimal_no_sep.
    + by apply u64_to_string_inj in E as ->.
  - intros _ _ E. destruct d1; discriminate E.
  - intros _ _ E. destruct d2; discriminate E.
  - intros _ _ E. apply (inj (String.append "unproven-run:")) in E. by subst.
Qed.

(** ** Accounting *)

(** What a record ought to say of a list of usages, the oldest first: their
    number, their sum, and the sum of each of the first [MAX_MODELS] models
    named. *)
Definition total_of (us : list Usage) : Tokens :=
  foldl (λ t u, Tokens_add t (u_tokens u)) Tokens_default us.
Definition of_model (m : string) (us : list Usage) : list Usage :=
  filter (λ u, u_model u = Some m) us.
Definition note_model (ms : list string) (u : Usage) : list string :=
  match u_model u with
  | Some m => if decide (m ∈ ms) then ms
              else if Z.of_nat (length ms) <? MAX_MODELS then ms ++ [m] else ms
  | None => ms
  end.
Definition first_models (us : list Usage) : list string := foldl note_model [] us.

(** What the registry does with the usages of a run's responses. *)
Definition record_all (us : list Usage) (r : RunRecord) : RunRecord :=
  foldl (λ r u, RunRecord_add u r) r us.
Definition usage_ok (u : Usage) : Prop := Tokens_ok (u_tokens u).

Lemma total_of_snoc us u : total_of (us ++ [u]) = Tokens_add (total_of us) (u_tokens u).
Proof. unfold total_of. by rewrite foldl_app. Qed.
Lemma of_model_snoc m us u :
  of_model m (us ++ [u]) =
  of_model m us ++ (if decide (u_model u = Some m) then [u] else []).
Proof. unfold of_model. rewrite filter_app. cbn. by case_decide. Qed.
Lemma first_models_snoc us u :
  first_models (us ++ [u]) = note_model (first_models us) u.
Proof. unfold first_models. by rewrite foldl_app. Qed.
Lemma record_all_snoc us u r : record_all (us ++ [u]) r = RunRecord_add u (record_all us r).
Proof. unfold record_all. by rewrite foldl_app. Qed.

Lemma Tokens_add_default_l t : Tokens_ok t → Tokens_add Tokens_default t = t.
Proof.
  destruct t as [a b c d e]. intros (?&?&?&?&?). unfold Tokens_add; cbn in *.
  f_equal; u64_lia.
Qed.
(** While a model is not listed it has not been seen, unless the list is full. *)
Lemma unlisted_model us m :
  m ∉ first_models us → Z.of_nat (length (first_models us)) < MAX_MODELS →
  of_model m us = [].
Proof.
  induction us as [|u us IH] using rev_ind; [done|].
  rewrite first_models_snoc, of_model_snoc. unfold note_model.
  destruct (u_model u) as [m'|]; [|rewrite app_nil_r; auto].
  destruct (decide (m' ∈ first_models us)).
  { intros Hm Hl. rewrite IH by done. rewrite decide_False; [done|]. congruence. }
  destruct (Z.ltb_spec (Z.of_nat (length (first_models us))) MAX_MODELS); [|lia].
  rewrite not_elem_of_app, list_elem_of_singleton. intros [? ?] _.
  rewrite IH by done. by rewrite decide_False by congruence.
Qed.

Record accounted (us : list Usage) (r : RunRecord) : Prop := {
  ac_requests : rec_requests r = Z.of_nat (length us);
  ac_tokens : rec_tokens r = total_of us;
  ac_models m : rec_models r !! m =
    if decide (m ∈ first_models us) then Some (total_of (of_model m us)) else None;
  ac_size : size (rec_models r) = length (first_models us);
}.

Lemma add_model_accounted us u r m :
  accounted us r → usage_ok u →
  add_model u (rec_models r) !! m =
    (if decide (m ∈ first_models (us ++ [u]))
     then Some (total_of (of_model m (us ++ [u]))) else None) ∧
  size (add_model u (rec_models r)) = length (first_models (us ++ [u])).
Proof.
  intros [_ _ Hm Hs] Hu. rewrite of_model_snoc, first_models_snoc.
  unfold add_model, note_model. destruct (u_model u) as [m'|].
  2: { by rewrite app_nil_r. }
  rewrite (Hm m').
  assert (∀ T (x y : T), m' ≠ m → (if decide (Some m' = Some m) then x else y) = y) as Hne.
  { intros T x y ?. apply decide_False. congruence. }
  destruct (decide (m' ∈ first_models us)) as [Hin|Hout].
  - rewrite map_size_insert_Some by (by rewrite Hm, decide_True). split; [|done].
    destruct (decide (m' = m)) as [->|Hd].
    + by rewrite lookup_insert_eq, !decide_True, total_of_snoc.
    + by rewrite lookup_insert_ne, Hne, app_nil_r, Hm.
  - rewrite Hs. destruct (Z.ltb_spec (Z.of_nat (length (first_models us))) MAX_MODELS).
    + rewrite map_size_insert_None by (by rewrite Hm, decide_False).
      rewrite length_app, Hs. cbn [length]. split; [|lia].
      destruct (decide (m' = m)) as [->|Hd].
      * rewrite lookup_insert_eq, decide_True by (apply elem_of_app; right; by left).
        rewrite unlisted_model, decide_True by done. cbn.
        by rewrite Tokens_add_default_l.
      * rewrite lookup_insert_ne, Hne, app_nil_r, Hm by done.
        apply decide_ext. rewrite elem_of_app, list_elem_of_singleton. naive_solver.
    + split; [|done]. destruct (decide (m' = m)) as [->|Hd].
      * by rewrite Hm, !decide_False.
      * by rewrite Hne, app_nil_r.
Qed.

Lemma accounted_add us u r :
  accounted us r → usage_ok u → Z.of_nat (length (us ++ [u])) <= U64_MAX →
  accounted (us ++ [u]) (RunRecord_add u r).
Proof.
  intros Hr Hu Hlen. rewrite length_app in Hlen. cbn in Hlen. split; cbn.
  - rewrite (ac_requests _ _ Hr), length_app. cbn. rewrite wrap_add_small; lia.
  - by rewrite (ac_tokens _ _ Hr), total_of_snoc.
  - intros m. by apply add_model_accounted.
  - by apply (add_model_accounted us u _ EmptyString).
Qed.
Lemma accounted_nil r :
  rec_requests r = 0 → rec_tokens r = Tokens_default → rec_models r = ∅ → accounted [] r.
Proof. intros ? ? Hm. split; cbn; [done..|by rewrite Hm|by rewrite Hm]. Qed.

(** After any list of usages. *)
Theorem record_accounting us r :
  Forall usage_ok us → Z.of_nat (length us) <= U64_MAX →
  rec_requests r = 0 → rec_tokens r = Tokens_default → rec_models r = ∅ →
  accounted us (record_all us r).
Proof.
  intros Hus Hlen Hreq Htok Hmod. revert Hus Hlen.
  induction us as [|u us IH] using rev_ind; intros Hus Hlen; [by apply accounted_nil|].
  rewrite Forall_app, Forall_singleton in Hus. destruct Hus as [Hus Hu].
  rewrite record_all_snoc. apply accounted_add; [|done|done].
  apply IH; [done|]. rewrite length_app in Hlen. lia.
Qed.

(** ** Records in executions

    The outcomes settled for a run since it was registered: a run that an
    operation finds past its retention is forgotten, and starts over when it
    is registered again. *)
Definition metered (os : list Outcome) : list Usage :=
  omap (λ o, match o with Metered u => Some u | _ => None end) os.
Definition unmetered (os : list Outcome) : list Outcome :=
  List.filter (λ o, match o with Unmetered => true | _ => false end) os.
Record sums (os : list Outcome) (r : RunRecord) : Prop := {
  su_metered : accounted (metered os) r;
  su_unmetered : rec_unmetered r = Z.of_nat (length (unmetered os));
}.
Definition remembered (now : Z) (st : State) (k : RunKey) : bool :=
  match runs st !! k with Some r => now <? run_retain_until r | None => false end.
Definition settled_step (e : event) (st : State) (settled : RunKey → list Outcome)
    : RunKey → list Outcome :=
  match e, event_now e with
  | EvSettle key o, _ => λ k, if decide (k = key) then settled k ++ [o] else settled k
  | _, Some now => λ k, if remembered now st k then settled k else []
  | _, None => settled
  end.
Inductive execution `{Crypto} : State → (RunKey → list Outcome) → Prop :=
| ex_init : execution State_default (λ _, [])
| ex_step e st settled :
    execution st settled → event_ok e st → execution (apply_event e st) (settled_step e st settled).

Lemma remembered_prune now st k : remembered now st k = true ↔ is_Some (runs (State_prune now st) !! k).
Proof.
  unfold remembered. rewrite prune_lookup. destruct (runs st !! k) as [r|]; cbn.
  - unfold kept. destruct (_ <? _); [done|]. split; [done|by intros []].
  - split; [done|by intros []].
Qed.
(** The figures of a record. *)
Definition same_figures (r r' : RunRecord) : Prop :=
  rec_requests r' = rec_requests r ∧ rec_unmetered r' = rec_unmetered r ∧
  rec_tokens r' = rec_tokens r ∧ rec_models r' = rec_models r.
Lemma sums_figures os r r' : same_figures r r' → sums os r → sums os r'.
Proof.
  intros (Hr & Hu & Ht & Hm) [[? ? ? ?] ?]. split; [split|]; congruence || by intros; rewrite ?Hm.
Qed.
Lemma expire_figures now r : same_figures (run_record r) (run_record (expire now r)).
Proof. unfold expire. by destruct (expiring now r). Qed.
Lemma sums_settle os o r :
  sums os (run_record r) → outcome_ok o → Z.of_nat (length (os ++ [o])) <= U64_MAX →
  sums (os ++ [o]) (run_record (settle_run o r)).
Proof.
  intros [Ha Hu] Ho Hlen. unfold metered, unmetered in *.
  assert (∀ {A} (f : Outcome → option A), (length (omap f os) <= length os)%nat) as Hle.
  { intros A f. clear. induction os as [|x os IH]; [done|]. cbn. destruct (f x); cbn; lia. }
  pose proof (List.filter_length_le (λ o, match o with Unmetered => true | _ => false end) os).
  rewrite length_app in Hlen. cbn [length] in Hlen.
  split; unfold metered, unmetered; rewrite ?omap_app, ?List.filter_app.
  - destruct o as [u| |]; cbn [omap list_omap]; rewrite ?app_nil_r; [|by destruct Ha|done].
    apply accounted_add; [done|done|]. rewrite length_app. cbn [length].
    pose proof (Hle _ (λ o, match o with Metered u => Some u | _ => None end)). lia.
  - destruct o; cbn; rewrite ?app_nil_r; [done| |done].
    rewrite length_app, Hu. cbn. rewrite wrap_add_small; lia.
Qed.

Section records.
Context `{Crypto}.
Lemma event_figures e st now :
  event_now e = Some now →
  keeps (λ r r', same_figures (run_record r) (run_record r')) (λ r, sums [] (run_record r))
    (runs (State_prune now st)) (runs (apply_event e st)).
Proof.
  intros Hnow. apply event_keeps; try done.
  intros r (_ & ? & ? & ? & ?). by split; [apply accounted_nil|].
Qed.
Lemma step_sums e st settled k r' :
  event_ok e st → runs (apply_event e st) !! k = Some r' →
  Z.of_nat (length (settled_step e st settled k)) <= U64_MAX →
  (∀ r, runs st !! k = Some r → Z.of_nat (length (settled k)) <= U64_MAX →
     sums (settled k) (run_record r)) →
  sums (settled_step e st settled k) (run_record r').
Proof.
  intros He Hr' Hlen Hst. destruct (event_now e) as [now|] eqn:Hnow.
  - assert (settled_step e st settled k = if remembered now st k then settled k else []) as E
      by (unfold settled_step; destruct e; by simplify_eq/=).
    rewrite E in Hlen |- *. clear E.
    pose proof (remembered_prune now st k) as Hrem.
    destruct (event_figures e st now Hnow k r' Hr') as [(r & Hr & Hf)|[Hr Hn]].
    + rewrite (proj2 Hrem (mk_is_Some _ _ Hr)) in *. apply (sums_figures _ _ _ Hf).
      apply prune_lookup_Some in Hr as (r0 & Hr0 & _ & ->).
      apply (sums_figures _ _ _ (expire_figures now r0)). by apply Hst.
    + destruct (remembered now st k); [|done]. rewrite Hr in Hrem. by destruct (proj1 Hrem eq_refl).
  - destruct e as [| | | | | |key o]; try done. cbn [settled_step event_now apply_event event_ok] in *.
    unfold settle in Hr'. destruct (decide (k = key)) as [->|Hne].
    + destruct (runs st !! key) as [r|] eqn:Hr; [|congruence].
      cbn [with_runs runs] in Hr'. rewrite lookup_insert_eq in Hr'. injection Hr' as <-.
      apply sums_settle; [|done|done]. apply (Hst r eq_refl). rewrite length_app in Hlen. lia.
    + apply Hst; [|done]. destruct (runs st !! key); [|done]. cbn [with_runs runs] in Hr'.
      by rewrite lookup_insert_ne in Hr' by done.
Qed.
Lemma execution_sums st settled k r :
  execution st settled → runs st !! k = Some r → Z.of_nat (length (settled k)) <= U64_MAX →
  sums (settled k) (run_record r).
Proof.
  intros Hex. revert r. induction Hex as [|e st settled _ IH He]; intros r Hr Hlen; [done|].
  by apply (step_sums e st settled k).
Qed.

(** C22: in every execution of the registry, a run's record is the sum of
    what was settled for the run since it was registered: it counts the
    responses that reported usage and those that did not, totals the tokens,
    and has for each of the first [MAX_MODELS] models named the total of that
    model's usages, none of them lost or counted twice, whatever other runs,
    renewed tokens or prunings came between; and that is what the run is told
    of itself and what its end answers. *)
Theorem records_settled st settled k :
  execution st settled → Z.of_nat (length (settled k)) <= U64_MAX →
  (∀ r, runs st !! k = Some r → sums (settled k) (run_record r)) ∧
  (∀ now rec, (record k now st).2 = Some rec → sums (settled k) rec) ∧
  (∀ now unix rec, (finish k now unix st).2 = Some rec → sums (settled k) rec).
Proof.
  intros Hex Hlen.
  assert (∀ now r, runs (State_prune now st) !! k = Some r → sums (settled k) (run_record r)) as Hp.
  { intros now r (r0 & Hr0 & _ & ->)%prune_lookup_Some.
    apply (sums_figures _ _ _ (expire_figures now r0)). by apply (execution_sums st). }
  split; [intros r Hr; by apply (execution_sums st)|]. split.
  - intros now rec (r & Hr & ->)%fmap_Some. by apply (Hp now).
  - intros now unix rec. unfold finish. destruct (runs _ !! k) as [r|] eqn:Hr; [|done].
    destruct (is_active r); intros [= <-]; [|by apply (Hp now)].
    by apply (sums_figures _ (run_record r)); [|apply (Hp now)].
Qed.
End records.

(** ** Witnesses *)
Lemma subject_inj_witness :
  subject (Github 7 12 1 None) = subject (Github 7 12 1 None) ∧
  Github 7 12 1 None = Github 7 12 1 None.
Proof.
  split; [reflexivity|]. apply subject_inj; [cbn; lia|cbn; lia|reflexivity].
Defined.

Definition sample_usage (m : option string) (n : Z) : Usage :=
  mkUsage (mkTokens n 0 0 0 n) m 0.
Definition sample_record : RunRecord :=
  mkRunRecord RECORD_SCHEMA (proof_of_identity sample_identity) Active 100 700 None
    0 0 Tokens_default ∅.
Lemma record_accounting_witness :
  accounted [sample_usage (Some "m") 3; sample_usage None 1; sample_usage (Some "m") 4]
    (record_all [sample_usage (Some "m") 3; sample_usage None 1; sample_usage (Some "m") 4]
       sample_record).
Proof.
  apply record_accounting; [|cbn; u64_lia|reflexivity..].
  repeat constructor; vm_compute; discriminate.
Defined.

#[local] Existing Instance toy_crypto.
(** A run registers, uses a model, is given a new token, and uses it again. *)
Definition sample_settles : list event :=
  [EvSettle sample_key (Metered (sample_usage (Some "m"%string) 3));
   EvRegister sample_identity sample_limits 9 "two" 109;
   EvSettle sample_key Unmetered;
   EvSettle sample_key (Metered (sample_usage (Some "m"%string) 4))].
Definition sample_run : State * (RunKey → list Outcome) :=
  foldl (λ '(st, settled) e, (apply_event e st, settled_step e st settled))
    (sample_state, settled_step sample_register State_default (λ _, [])) sample_settles.
Lemma sample_execution : execution sample_run.1 sample_run.2.
Proof.
  unfold sample_run, sample_settles. cbn [foldl fst snd].
  repeat (apply ex_step; [|first [split; [cbn; u64_lia|reflexivity]|by vm_compute|cbn; unfold Tokens_ok; cbn; u64_lia]]).
  apply ex_init.
Qed.
Lemma records_settled_witness :
  ∃ rec, (record sample_key 12 sample_run.1).2 = Some rec ∧
    rec_requests rec = 2 ∧ rec_unmetered rec = 1 ∧ tk_total (rec_tokens rec) = 7.
Proof.
  destruct (records_settled sample_run.1 sample_run.2 sample_key sample_execution) as (_ & Hrec & _).
  { vm_compute. discriminate. }
  destruct (record sample_key 12 sample_run.1).2 as [rec|] eqn:E; [|revert E; vm_compute; discriminate].
  exists rec. destruct (Hrec 12 rec E) as [[Hn Ht _ _] Hu]. rewrite Hn, Ht, Hu.
  split; [done|]. split_and!; vm_compute; reflexivity.
Defined.
