(* ===== verification/RunsQuota.v ===== *)
(** * Registered runs: the quota of unproven registrations

    [Quota::most_remembered] bounds the unproven runs remembered at once, and
    [UnprovenConfig::quota] refuses a quota whose bound exceeds
    [MAX_UNPROVEN_RUNS].  Over executions of one registry with one quota and
    lifetime, its clock never going back, that bound holds, so a registration
    within the quota never finds the unproven runs' share of the registry
    taken.  The rate of registrations is bounded over executions with any
    quotas, and clock reads out of order. *)
From S2P Require Import Prelude Crypto Pools Runs RunsInvariants.
Local Open Scope Z_scope.




(** ** When the unproven runs of a registry registered *)
Definition unproven_times (T : Z) (rs : gmap RunKey Run) : gmap RunKey Z :=
  (λ r, run_expires r - T) <$> filter (λ '(k, _), is_unproven k = true) rs.
Definition times (T : Z) (rs : gmap RunKey Run) : list Z :=
  (map_to_list (unproven_times T rs)).*2.

Lemma unproven_times_lookup T rs k :
  unproven_times T rs !! k =
  if is_unproven k then (λ r, run_expires r - T) <$> rs !! k else None.
Proof.
  unfold unproven_times. rewrite lookup_fmap, map_lookup_filter.
  destruct (rs !! k) as [r|]; cbn; [|by destruct (is_unproven k)].
  case_guard as E; cbn; [by rewrite E|]. by destruct (is_unproven k).
Qed.
Lemma unproven_times_update T rs k r r' :
  rs !! k = Some r → run_expires r' = run_expires r →
  unproven_times T (<[k := r']> rs) = unproven_times T rs.
Proof.
  intros Hk He. apply map_eq. intros k'. rewrite !unproven_times_lookup.
  destruct (decide (k = k')) as [<-|]; [|by rewrite lookup_insert_ne].
  rewrite lookup_insert_eq, Hk. cbn. by rewrite He.
Qed.
Lemma unproven_times_prune T now st :
  unproven_times T (runs (State_prune now st)) ⊆ unproven_times T (runs st).
Proof.
  apply map_subseteq_spec. intros k t. rewrite !unproven_times_lookup, prune_lookup.
  destruct (is_unproven k); [|done]. destruct (runs st !! k) as [r|]; [|done].
  cbn. destruct (kept now r); [|done]. cbn.
  by rewrite (proj1 (proj2 (proj2 (proj2 (proj2 (expire_frame now r)))))).
Qed.
Lemma times_mono T rs rs' :
  unproven_times T rs ⊆ unproven_times T rs' → times T rs ⊆+ times T rs'.
Proof. intros. by apply fmap_submseteq, map_to_list_submseteq. Qed.
Lemma times_insert T rs k r :
  rs !! k = None → times T (<[k := r]> rs) ≡ₚ
  (if is_unproven k then [run_expires r - T] else []) ++ times T rs.
Proof.
  intros Hk. unfold times.
  assert (unproven_times T rs !! k = None) as Hn.
  { rewrite unproven_times_lookup, Hk. by destruct (is_unproven k). }
  destruct (is_unproven k) eqn:E.
  - replace (unproven_times T (<[k := r]> rs))
      with (<[k := run_expires r - T]> (unproven_times T rs)).
    { by rewrite map_to_list_insert. }
    apply map_eq. intros k'. rewrite !lookup_insert, !unproven_times_lookup, lookup_insert.
    case_decide; [subst k'|done]. by rewrite E.
  - replace (unproven_times T (<[k := r]> rs)) with (unproven_times T rs); [done|].
    apply map_eq. intros k'. rewrite !unproven_times_lookup, lookup_insert.
    case_decide; [subst k'|done]. by rewrite E.
Qed.

(** ** Executions with one quota *)
Section quota.
Context `{Crypto} (q : Quota) (T : Z).

(** The instants at which the runs of unproven callers were admitted. *)
Definition admitted_at (e : event) (st : State) : list Z :=
  match e with
  | EvRegisterUnproven name limits quota now random unix =>
      if is_ok (register_unproven name limits quota now random unix st).2 then [now] else []
  | _ => []
  end.



Lemma drop_old_spec w now l :
  0 < w → ∃ d, l = d ++ drop_old w now l ∧ Forall (λ x, x + w <= now) d.
Proof.
  intros Hw. induction l as [|x l (d & Hd & Hf)]; [by exists []|]. cbn.
  destruct (Z.leb_spec w (Z.max (now - x) 0)); [|by exists []].
  exists (x :: d). cbn. rewrite <-Hd. split; [done|]. constructor; [lia|done].
Qed.



Lemma times_prune now st : times T (runs (State_prune now st)) ⊆+ times T (runs st).
Proof. apply times_mono, unproven_times_prune. Qed.
Lemma times_update rs k r r' :
  rs !! k = Some r → run_expires r' = run_expires r → times T (<[k := r']> rs) = times T rs.
Proof. intros. unfold times. by erewrite unproven_times_update. Qed.

(** Everything but a registration without proof. *)
Lemma event_times e st :
  match e with EvRegisterUnproven _ _ _ _ _ _ => False | _ => True end →
  unproven (apply_event e st) = unproven st ∧
  times T (runs (apply_event e st)) ⊆+ times T (runs st).
Proof.
  destruct e; cbn [apply_event]; intros He; try done.
  - unfold register. set (st' := State_prune now st).
    pose proof (times_prune now st) as Hsub. fold st' in Hsub. cbv zeta.
    destruct (new_token random) as [token hash].
    destruct (runs st' !! RunIdentity_key identity) as [run|] eqn:Hr.
    + destruct (_ || _); [by split|]. cbn [fst runs unproven with_tokens with_runs].
      split; [done|]. by rewrite (times_update _ _ run) by done.
    + destruct (MAX_RUNS <=? _); [by split|].
      cbn [State_insert fst runs unproven with_tokens with_runs new_key].
      split; [done|]. by rewrite times_insert.
  - split; [done|]. apply times_prune.
  - split; [done|]. apply times_prune.
  - unfold finish. set (st' := State_prune now st).
    pose proof (times_prune now st) as Hsub. fold st' in Hsub. cbv zeta.
    destruct (runs st' !! key) as [run|] eqn:Hr; [|by split].
    destruct (is_active run); [|by split]. cbn [fst runs unproven log_record with_runs].
    split; [done|]. by rewrite (times_update _ _ run) by done.
  - unfold admit_run. set (st' := State_prune now st).
    pose proof (times_prune now st) as Hsub. fold st' in Hsub. cbv zeta.
    destruct (runs st' !! key) as [run|] eqn:Hr; [|by split].
    destruct (negb _); [by split|]. destruct (_ <=? _); [by split|].
    cbn [fst runs unproven with_runs].
    split; [done|]. by rewrite (times_update _ _ run) by done.
  - unfold settle. destruct (runs st !! key) as [run|] eqn:Hr; [|by split].
    cbn [runs unproven with_runs]. split; [done|].
    by rewrite (times_update _ _ run) by (done || by destruct outcome).
Qed.








End quota.

(** ** Executions with any quotas

    The chains that share a registry may each have a quota and lifetime of
    their own, of a window of [W] or more and of at most [M]. A registration
    reads the clock before it takes the registry's lock, so the reads may be
    out of the lock's order, by [skew] at most. *)
Section rate.
Context `{Crypto} (W M skew : Z).

(** [latest]: the latest clock read of a registration without proof so far. *)
Definition rate_event (latest : Z) (e : event) : Prop :=
  match e with
  | EvRegisterUnproven _ _ quota now _ _ =>
      W <= quota_window quota ∧ quota_max quota <= M ∧ latest - skew <= now
  | _ => True
  end.
Definition latest_read (latest : Z) (e : event) : Z :=
  match e with EvRegisterUnproven _ _ _ now _ _ => Z.max latest now | _ => latest end.
Inductive rate_run : Z → list Z → State → Prop :=
| rate_run_init t : rate_run t [] State_default
| rate_run_step e t h st :
    rate_run t h st → rate_event t e →
    rate_run (latest_read t e) (h ++ admitted_at e st) (apply_event e st).

(** [M] places apart in the lock's order, two are a window apart. *)
Definition far_apart (h : list Z) : Prop :=
  ∀ i j x y, (i + Z.to_nat M <= j)%nat → h !! i = Some x → h !! j = Some y → x + W - skew <= y.
Record rate_inv (t : Z) (h : list Z) (st : State) : Prop := {
  ri_queue : ∃ d, h = d ++ unproven st ∧ Forall (λ x, x + W <= t) d;
  ri_apart : far_apart h;
}.
Lemma rate_inv_frame t t' h st st' d2 :
  rate_inv t h st → t <= t' → unproven st = d2 ++ unproven st' →
  Forall (λ x, x + W <= t') d2 → rate_inv t' h st'.
Proof.
  intros [(d & -> & Hd) Ha] Hle E Hd2. split; [|done]. exists (d ++ d2).
  rewrite E, app_assoc. split; [done|]. apply Forall_app. split; [|done].
  eapply Forall_impl; [done|]. cbn. lia.
Qed.
Lemma rate_inv_push t now h st st' :
  rate_inv t h st → t - skew <= now → Z.of_nat (length (unproven st)) < M →
  unproven st' = unproven st ++ [now] → rate_inv t (h ++ [now]) st'.
Proof.
  intros [(d & -> & Hd) Ha] Hnow Hroom Eu. split.
  { exists d. by rewrite Eu, app_assoc. }
  intros i j x y Hij Hx Hy. apply lookup_app_Some in Hy as [Hy|[Hge Hy]].
  - rewrite lookup_app_l in Hx by (apply lookup_lt_Some in Hy; lia). by eapply Ha.
  - apply list_lookup_singleton_Some in Hy as [Hj ->]. rewrite length_app in Hge, Hj.
    rewrite <-app_assoc, lookup_app_l in Hx by lia.
    pose proof (Forall_lookup_1 _ _ _ _ Hd Hx). cbn in *. lia.
Qed.

Lemma rate_inv_register t h st name limits quota now (random : string) (unix : Z) :
  0 < W → 0 <= skew → rate_event t (EvRegisterUnproven name limits quota now random unix) →
  rate_inv t h st →
  rate_inv (Z.max t now)
    (h ++ admitted_at (EvRegisterUnproven name limits quota now random unix) st)
    (register_unproven name limits quota now random unix st).1.
Proof.
  intros Hw Hskew (HW & HM & Hnow) Hinv. cbn [admitted_at].
  assert (rate_inv (Z.max t now) h (State_prune now st)) as Hpruned
    by (apply (rate_inv_frame t _ h st _ []); [done|lia|done|constructor]).
  unfold register_unproven. destruct (runs (State_prune now st) !! Unproven name) as [run|].
  { cbn [snd fst is_ok]. by rewrite app_nil_r. }
  set (st1 := with_unproven (drop_old (quota_window quota) now) (State_prune now st)).
  assert (rate_inv (Z.max t now) h st1) as Hdropped.
  { destruct (drop_old_spec (quota_window quota) now (unproven (State_prune now st)) ltac:(lia))
      as (d2 & E & Hd2).
    apply (rate_inv_frame (Z.max t now) _ h (State_prune now st) st1 d2); [done|lia|exact E|].
    eapply Forall_impl; [exact Hd2|]. cbn. lia. }
  destruct (Z.leb_spec (quota_max quota) (Z.of_nat (length (unproven st1)))) as [|Hroom].
  { cbn [snd fst is_ok]. by rewrite app_nil_r. }
  destruct (_ || _); [cbn [snd fst is_ok]; by rewrite app_nil_r|].
  destruct (new_token random) as [token hash]. cbn [State_insert snd fst is_ok].
  eapply rate_inv_push; [exact Hdropped|lia|lia|done].
Qed.
Lemma rate_run_inv t h st : 0 < W → 0 <= skew → rate_run t h st → rate_inv t h st.
Proof.
  intros Hw Hskew. induction 1 as [t|e t h st _ IH He].
  { split; [by exists []|]. by intros i j x y _ ?. }
  destruct e as [| | | | | |]; try by
    (cbn [admitted_at latest_read]; rewrite app_nil_r;
     apply (rate_inv_frame t t h st _ []); [done|lia| |constructor];
     symmetry; apply (event_times 0)).
  by apply rate_inv_register.
Qed.

(** Of more than [n], one is [n] places after another. *)
Lemma filter_last (P : Z → Prop) `{∀ x, Decision (P x)} l :
  (0 < length (filter P l))%nat →
  ∃ j y, l !! j = Some y ∧ P y ∧ (length (filter P l) <= S j)%nat.
Proof.
  induction l as [|x l IH] using rev_ind; [cbn; lia|].
  rewrite filter_app, length_app. intros Hl. destruct (decide (P x)) as [Hx|Hx].
  - exists (length l), x. rewrite lookup_app_r, Nat.sub_diag by lia. split; [done|]. split; [done|].
    rewrite filter_cons_True by done. cbn [filter list_filter length].
    pose proof (length_filter P l). cbn. lia.
  - rewrite filter_cons_False in * by done. cbn [filter list_filter length] in *.
    rewrite Nat.add_0_r in *. destruct (IH Hl) as (j & y & Hj & Hy & Hle). exists j, y.
    split; [by apply lookup_app_l_Some|]. split; [done|lia].
Qed.
Lemma filter_far (P : Z → Prop) `{∀ x, Decision (P x)} n l :
  (n < length (filter P l))%nat →
  ∃ i j x y, (i + n <= j)%nat ∧ l !! i = Some x ∧ l !! j = Some y ∧ P x ∧ P y.
Proof.
  induction l as [|z l IH]; [cbn; lia|]. rewrite filter_cons. destruct (decide (P z)) as [Hz|Hz].
  - cbn [length]. intros Hl. destruct n as [|n]; [by exists 0%nat, 0%nat, z, z|].
    destruct (filter_last P l) as (j & y & Hj & Hy & Hle); [lia|].
    exists 0%nat, (S j), z, y. split_and!; try done. lia.
  - intros Hl. destruct (IH Hl) as (i & j & x & y & Hij & Hi & Hj & Hp).
    exists (S i), (S j), x, y. split_and!; try done; [lia|apply Hp..].
Qed.
End rate.

(** ** Properties *)
Section properties.
Context `{Crypto} (q : Quota) (T : Z).

(** C25: whatever callers ask, however they interleave with the other
    operations, and whatever quota each chain that shares the registry has:
    of windows of [W] or more and quotas of at most [M], no more than [M] runs
    without proof are admitted in any span of [W], less what the clock reads
    of registrations, each taken before the registry's lock, may be out of
    the lock's order. *)
Theorem unproven_rate W M skew t h st a :
  0 < W → 0 <= skew → rate_run W M skew t h st →
  Z.of_nat (length (filter (λ x, a < x <= a + (W - skew)) h)) <= Z.max M 0.
Proof.
  intros Hw Hskew Hrun. destruct (rate_run_inv W M skew t h st Hw Hskew Hrun) as [_ Ha].
  apply Z.nlt_ge. intros Hl.
  destruct (filter_far (λ x, a < x <= a + (W - skew)) (Z.to_nat M) h) as (i & j & x & y & Hij & Hx & Hy & ? & ?);
    [lia|].
  pose proof (Ha i j x y Hij Hx Hy). lia.
Qed.

End properties.

(** ** Witnesses *)
#[local] Existing Instance toy_crypto.
Definition sample_quota : Quota := mkQuota 1 (from_secs 3600).
Definition sample_name : RunName := RunName_of "bench-1".


(** Two chains, of one and of two an hour, the second's clock read a second
    before the first's. *)
Definition sample_second : event :=
  EvRegisterUnproven (RunName_of "bench-2") sample_limits (mkQuota 2 (from_secs 3600)) 0 "two" 100.
Definition sample_first : event :=
  EvRegisterUnproven sample_name sample_limits sample_quota (from_secs 1) "one" 100.
Definition sample_rated : State := apply_event sample_second (apply_event sample_first State_default).
Lemma sample_rate_run :
  rate_run (from_secs 3600) 2 (from_secs 1) (from_secs 1) [from_secs 1; 0] sample_rated.
Proof.
  assert (rate_run (from_secs 3600) 2 (from_secs 1) (from_secs 1) [from_secs 1]
    (apply_event sample_first State_default)) as H1.
  { apply (rate_run_step _ _ _ sample_first 0 [] State_default); [constructor|].
    vm_compute. repeat split; discriminate. }
  apply (rate_run_step _ _ _ sample_second _ _ _ H1). vm_compute. repeat split; discriminate.
Qed.
Lemma unproven_rate_witness :
  Z.of_nat (length (filter (λ x, -1 < x <= -1 + (from_secs 3600 - from_secs 1)) [from_secs 1; 0]))
    <= Z.max 2 0.
Proof.
  apply (unproven_rate (from_secs 3600) 2 (from_secs 1) (from_secs 1) _ sample_rated);
    [vm_compute; reflexivity|vm_compute; discriminate|apply sample_rate_run].
Defined.

