(* ===== verification/UsageTyped.v ===== *)
(** * Broker usage: well-typed registries

    The types of the Rust fields, and what validity adds to them, as an
    invariant of the usage registries of a process: from a state file of any
    content, through any requests, every count, time and charge stays an
    unsigned integer of 64 bits, every float stays one of the format, and
    what a registry keeps stays bounded.  Nothing is asked of the responses:
    [UsageReload] shows which of these registries the state file keeps. *)
From S2P Require Import Prelude Headers Float64 Float64Order Pools Runs Prices Budget BudgetGrants.
From S2P Require Import Operators Usage UsageWeek UsageBroker UsageState UsageWindows UsageReload RunsInvariants.
Local Open Scope Z_scope.

(** ** Counts and spend *)
Record counts_typed (c : Counts) : Prop := {
  ct_requests : is_u64 (c_requests c);
  ct_unmetered : is_u64 (c_unmetered c);
  ct_tokens : Tokens_ok (c_tokens c);
}.
Definition usage_typed (usage : option Usage) : Prop := slot_all (λ u, Tokens_ok (u_tokens u)) usage.
Lemma counts_typed_default : counts_typed Counts_default.
Proof. split; cbn; auto with u64. apply Tokens_ok_default. Qed.
Lemma one_u64 : is_u64 1.
Proof. u64_lia. Qed.
#[local] Hint Resolve counts_typed_default one_u64 : u64.
Lemma Counts_settle_typed c usage success :
  counts_typed c → usage_typed usage → counts_typed (Counts_settle c usage success).
Proof.
  intros [Hr Hu Ht] Hus. unfold Counts_settle.
  destruct usage as [u|]; [|destruct success]; split; cbn; auto with u64.
  apply Tokens_ok_add; [done|]. by apply Hus.
Qed.

Record unproven_typed (u : UnprovenRuns) : Prop := {
  ut_registered : is_u64 (ur_registered u);
  ut_refused : is_u64 (ur_refused u);
  ut_counts : counts_typed (ur_counts u);
}.
Lemma default_unproven_typed o :
  slot_all unproven_typed o → unproven_typed (default UnprovenRuns_default o).
Proof. intros Ho. destruct o as [u|]; [by apply Ho|]. split; cbn; auto with u64. Qed.

(** An hour since the epoch, which a week can be added to. *)
Definition is_hour (h : Z) : Prop := 0 <= h ∧ is_u64 (h + SPEND_HOURS).
Definition bucket_typed (b : Bucket) : Prop := is_hour (b_hour b) ∧ Tally_ok (b_tally b).
Definition week_typed : Week → Prop := Forall bucket_typed.
Record spend_state_typed (s : Spend) : Prop := {
  st_since : is_u64 (sp_since s);
  st_runs : ∀ c, week_typed (at_consumer (sp_runs s) c);
  st_operators : map_Forall (λ _, week_typed) (sp_operators s);
  st_mistral : ∀ c, week_typed (at_consumer (sp_mistral s) c);
}.

Lemma charge_bucket_typed c b : charge_ok c → bucket_typed b → bucket_typed (charge_bucket c b).
Proof. intros Hc [Hh Ht]. split; [done|]. by apply Tally_charge_ok. Qed.
Lemma Week_add_typed hour c w :
  is_hour hour → charge_ok c → week_typed w → week_typed (Week_add hour c w).
Proof.
  intros Hh Hc Hw. unfold Week_add. destruct (expire_suffix hour w) as [k ->].
  assert (week_typed (drop k w)) as Hd by by apply Forall_drop.
  assert (bucket_typed (charge_bucket c (mkBucket hour Tally_default))) as Hnew.
  { apply charge_bucket_typed; [done|]. split; [done|apply Tally_ok_default]. }
  induction Hd as [|b l Hb Hl IH]; [by apply Forall_singleton|]. cbn [charge_back].
  destruct l as [|b' l]; [|by apply Forall_cons].
  destruct (hour <=? b_hour b).
  - apply Forall_singleton. by apply charge_bucket_typed.
  - apply Forall_cons. split; [done|]. by apply Forall_singleton.
Qed.
Lemma hour_of now : is_u64 now → is_hour (now / 3600).
Proof.
  intros [??]. split; [by apply Z.div_pos|].
  pose proof (Z.div_le_mono now U64_MAX 3600 ltac:(lia) ltac:(done)) as Hle.
  pose proof (Z.div_pos now 3600 ltac:(lia) ltac:(lia)).
  change (U64_MAX / 3600) with 5124095576030431 in Hle. unfold SPEND_HOURS. u64_lia.
Qed.
Lemma charge_spend_typed payer hour c sp :
  is_hour hour → charge_ok c → spend_state_typed sp → spend_state_typed (charge_spend payer hour c sp).
Proof.
  intros Hh Hc [Hs Hr Ho Hm]. unfold charge_spend.
  assert (∀ d, week_typed (at_consumer
    (if bool_decide (pay_provider payer = Some Mistral)
     then set_consumer (sp_mistral sp) (pay_consumer payer)
       (Week_add hour c (at_consumer (sp_mistral sp) (pay_consumer payer)))
     else sp_mistral sp) d)) as Hm'.
  { case_bool_decide; [|done]. apply set_consumer_Forall; [done|]. by apply Week_add_typed. }
  destruct (pay_operator payer) as [o|].
  - destruct (sp_operators sp !! o) as [w|] eqn:E; [|done].
    split; cbn; [done|done| |done]. apply map_Forall_insert_2; [|done].
    apply Week_add_typed; [done|done|]. by apply (Ho o).
  - split; cbn; [done| |done|done]. apply set_consumer_Forall; [done|]. by apply Week_add_typed.
Qed.

(** ** Windows

    Of a window read from the state file only the types of its fields are
    known; of one a registry keeps, that it was captured, or validated. *)
Record aw_parsed (w : AnthropicWindow) : Prop := {
  awp_utilization : slot_all (λ x, valid x = true) (aw_utilization w);
  awp_reset : slot_all is_u64 (aw_reset w);
  awp_observed : is_u64 (aw_observed_at w);
}.
Record cw_parsed (w : CodexWindow) : Prop := {
  cwp_percent : slot_all (λ x, valid x = true) (cw_used_percent w);
  cwp_minutes : slot_all is_u64 (cw_window_minutes w);
  cwp_reset : slot_all is_u64 (cw_reset_after_seconds w);
  cwp_observed : is_u64 (cw_observed_at w);
}.
Record att_parsed (a : Attributed) : Prop := {
  atp_percent : valid (rd_used_percent (att_reading a)) = true;
  atp_resets : is_u64 (rd_resets_at (att_reading a));
  atp_secs : is_u64 (rd_window_secs (att_reading a));
  atp_observed : is_u64 (att_observed_at a);
  atp_loaded : is_u64 (att_loaded_at a);
  atp_used : ∀ c, valid (at_consumer (att_used a) c) = true;
}.
(** What serde promises of the registries of a file: each number is of its
    field's type, and the attributed windows are an array of the windows'
    length. *)
Definition windows_parsed (ws : Windows) : Prop :=
  windows_all aw_parsed cw_parsed att_parsed ws ∧ length (ws_attributed ws) = length WINDOWS.

Record aw_typed (w : AnthropicWindow) : Prop := {
  awt_parsed : aw_parsed w;
  awt_utilization : aw_ok w;
}.
Record cw_kept (w : CodexWindow) : Prop := {
  cwt_parsed : cw_parsed w;
  cwt_percent : slot_all (figure percent_100) (cw_used_percent w);
  cwt_minutes : cw_window_minutes w ≠ Some 0;
}.
(** What each consumer used is a number and not negative; it may grow past
    every finite one, and then reads as over any share. *)
Record att_charged (a : Attributed) : Prop := {
  atc_parsed : att_parsed a;
  atc_ok : att_ok a;
}.
Definition windows_kept (ws : Windows) : Prop :=
  windows_all aw_typed cw_kept att_charged ws ∧ length (ws_attributed ws) = length WINDOWS.

(** *** Taken up from a file *)
Lemma Windows_validate_all ws :
  Windows_validate ws = Ok tt →
  windows_all (λ w, ∃ n, validate_anthropic (n, Some w) = Ok tt)
    (λ w, ∃ n, validate_codex (n, Some w) = Ok tt) (λ a, Attributed_validate a = Ok tt) ws.
Proof.
  unfold Windows_validate. intros ([] & Ha & ([] & Hc & Hl)%bind_Ok)%bind_Ok.
  apply try_each_Ok in Ha, Hc, Hl. rewrite !Forall_cons in Ha. rewrite !Forall_cons in Hc.
  destruct Ha as (V5 & V7 & _), Hc as (V1 & V2 & _).
  split; try by intros w Hw; eexists; rewrite <-Hw.
  apply Forall_lookup. intros i slot Hs a ->. rewrite Forall_lookup in Hl.
  specialize (Hl i (i, Some a)). rewrite list_lookup_imap, Hs in Hl. specialize (Hl eq_refl).
  cbn in Hl. unfold map_err in Hl. by destruct (Attributed_validate a) as [[]|].
Qed.
Lemma aw_valid_typed n w :
  aw_parsed w → validate_anthropic (n, Some w) = Ok tt → aw_typed w.
Proof.
  intros Hp Hv. split; [done|]. split. intros x Hx. pose proof (awp_utilization _ Hp x Hx) as Hval.
  unfold validate_anthropic in Hv. apply refuse_if_Ok in Hv. cbn in Hv. rewrite Hx in Hv. cbn in Hv.
  apply negb_false_iff in Hv. by apply in_range_good in Hv; [|apply good_one|].
Qed.
Lemma cw_valid_kept n w :
  cw_parsed w → validate_codex (n, Some w) = Ok tt → cw_kept w.
Proof.
  intros Hp Hv. unfold validate_codex in Hv.
  apply bind_Ok in Hv as ([] & Hu%refuse_if_Ok & ([] & Hm%refuse_if_Ok & _)%bind_Ok).
  split; [done| |].
  - intros x Hx. rewrite Hx in Hu. apply negb_false_iff in Hu.
    apply in_range_good in Hu; [done|apply good_hundred|by apply (cwp_percent _ Hp)].
  - intros Hz. by rewrite Hz in Hm.
Qed.
Lemma att_valid_charged a : att_parsed a → Attributed_validate a = Ok tt → att_charged a.
Proof. intros Hp [Hok _]%validate_spec. by split. Qed.

Lemma aw_clamp_typed now w : is_u64 now → aw_typed w → aw_typed (aw_clamp now w).1.
Proof. intros Hn [[Hu Hr Ho] [Hf]]. unfold aw_clamp. by destruct (now <? _); split; split. Qed.
Lemma cw_clamp_kept now w : is_u64 now → cw_kept w → cw_kept (cw_clamp now w).1.
Proof.
  intros Hn [[Hu Hm Hr Ho] Hp Hz]. unfold cw_clamp. destruct (now <? _); [|done].
  split; [split|..]; cbn; try done. eapply slot_all_fmap; [|exact Hr]. intros n _. apply wrap_add_u64.
Qed.
Lemma att_load_charged now a :
  is_u64 now → att_charged a → att_charged (restore (clamp_observed_at a now).1 now).
Proof. intros Hn [[?????] ?]. unfold clamp_observed_at. by destruct (now <? _); split; [split|..]. Qed.
Lemma load_windows_kept now ws :
  is_u64 now → windows_parsed ws → Windows_validate ws = Ok tt → windows_kept (load_windows now ws).
Proof.
  intros Hn [Hp Hl] Hv. split; [|by rewrite load_windows_length].
  eapply load_all; [..|exact (windows_all_and _ _ _ _ _ _ _ Hp (Windows_validate_all _ Hv))]; cbv beta.
  - intros w [Hw [n Hvw]]. eapply aw_clamp_typed; [done|]. by eapply aw_valid_typed.
  - intros w [Hw [n Hvw]]. eapply cw_clamp_kept; [done|]. by eapply cw_valid_kept.
  - intros a [Ha Hva]. apply att_load_charged; [done|]. by apply att_valid_charged.
Qed.

(** *** Captured from a response *)
Lemma amount_add used x y :
  valid used = true → nonneg used = true → good x → good y →
  valid (fadd used (fmax (fsub x y) fzero)) = true.
Proof.
  intros Hv Hn Hx Hy. destruct (fsub_good x y Hx Hy) as [Hd _].
  destruct (is_finite used) eqn:Hf.
  - by destruct (fadd_faithful used _ (conj Hv (conj Hf Hn)) Hd).
  - destruct Hd as (_ & Hdf & _). revert Hdf. generalize (fmax (fsub x y) fzero). intros d Hdf.
    by destruct used as [|[]| |[]], d.
Qed.
Lemma charge_charged previous r consumer now :
  is_u64 now → slot_all att_charged previous →
  reading_ok r ∧ is_u64 (rd_resets_at r) ∧ is_u64 (rd_window_secs r) →
  att_charged (charge previous r consumer now).
Proof.
  intros Hn Hp ([[Hx Hmx] Hs] & Hres & Hsecs).
  pose proof (charge_spec previous r consumer now) as Hc. cbv zeta in Hc.
  destruct Hc as (Hr & Ho & _ & Hok & Hused).
  assert (att_loaded_at (charge previous r consumer now) = 0) as Hl.
  { unfold charge. by destruct previous as [p|]; [destruct (now <? _)|]. }
  split.
  - split; rewrite ?Hr, ?Ho, ?Hl; try done; [apply Hx|].
    destruct previous as [p|].
    + apply slot_all_Some in Hp as [[Hvp _ _ _ _ Hu] (Hrange & _ & Hnn)].
      apply in_range_good in Hrange as [Hgp _]; [|apply good_hundred|done].
      intros c. destruct (now <? _); destruct Hused as (_ & E1 & E2);
        destruct (decide (c = consumer)) as [->|Hne].
      * rewrite E2. by apply amount_add.
      * assert (c = other consumer) as -> by by destruct c, consumer. by rewrite E1.
      * rewrite E1. apply Hx.
      * assert (c = other consumer) as -> by by destruct c, consumer. by rewrite E2.
    + intros c. destruct Hused as [_ ->]. apply Hx.
  - apply Hok; [|done|].
    + apply in_range_good; [apply good_hundred|apply Hx|done].
    + intros p ->. by apply slot_all_Some in Hp as [_ ?].
Qed.

Section capture.
Context `{HeaderMap H}.
Implicit Type headers : H.

Lemma anthropic_window_typed headers name now w :
  is_u64 now → anthropic_window headers name now = Some w → aw_typed w.
Proof.
  intros Hn Hw. pose proof (anthropic_window_ok _ _ _ _ Hw) as [Hu]. split; [|done].
  split; [intros x Hx; apply (Hu x Hx)|..]; revert Hw; unfold anthropic_window; cbv zeta;
    (destruct (_ || _); [|done]); intros [= <-]; [|done].
  intros n. apply number_u64.
Qed.
Lemma codex_window_kept headers name now w :
  is_u64 now → codex_window headers name now = Some w → cw_window_minutes w ≠ Some 0 → cw_kept w.
Proof.
  intros Hn Hw Hz. pose proof (codex_window_percent _ _ _ _ Hw) as Hp.
  destruct (codex_window_u64 _ _ _ _ Hw) as (Hm & Hr & Ho).
  split; [split|done|done]; [|done|done|by rewrite Ho]. intros x Hx. by apply Hp.
Qed.
Lemma capture_kept provider consumer headers now s :
  is_u64 now → windows_kept (windows s) →
  windows_kept (windows (capture_at provider consumer headers now s).1).
Proof.
  intros Hn [Hall Hl]. split.
  2: { destruct (capture_frame provider consumer headers now s) as (_ & _ & E & _). cbn in *. by rewrite E. }
  revert Hall.
  apply (capture_all _ _ _ (λ r, reading_ok r ∧ is_u64 (rd_resets_at r) ∧ is_u64 (rd_window_secs r))).
  split.
  - intros name w. by apply anthropic_window_typed.
  - intros name secs w u reset Hw Hu Hr Hs.
    destruct (anthropic_window_typed _ _ _ _ Hn Hw) as [[_ Hr' _] Hok].
    split; [by eapply anthropic_reading_ok|]. split; [by apply Hr'|].
    cbn. destruct Hs as [-> | ->]; by vm_compute.
  - intros name w _ _. by apply codex_window_kept.
  - intros name w u minutes after Hw Hz Hu Hm Ha.
    destruct (codex_window_u64 _ _ _ _ Hw) as (Hm' & Ha' & _). specialize (Hm' _ Hm). specialize (Ha' _ Ha).
    split; [by eapply codex_reading_ok|]. cbn. split; [by auto with u64|u64_lia].
  - intros previous r. by apply charge_charged.
Qed.
End capture.

(** ** A registry *)
Record state_typed (s : Snapshot) : Prop := {
  ss_started : is_u64 (sn_started_at s);
  ss_anthropic : counts_typed (an_counts (sn_anthropic s));
  ss_codex : counts_typed (cx_counts (sn_codex s));
  ss_mistral : counts_typed (sn_mistral s);
  ss_operators : map_Forall (λ _, counts_typed) (sn_operators s);
  ss_unproven : slot_all unproven_typed (sn_unproven_runs s);
  ss_windows : windows_kept (windows s);
}.
Record registry_typed (b : BrokerUsage) : Prop := {
  ry_state : state_typed (bu_state b);
  ry_spend : slot_all spend_state_typed (bu_spend b);
  ry_bounds : usage_ok b;
}.

Lemma default_typed now : is_u64 now → registry_typed (BrokerUsage_default now).
Proof.
  intros Hn. split; [|done|by split].
  split; [done|apply counts_typed_default..|apply map_Forall_empty|done|].
  split; [apply default_all|done].
Qed.
Lemma restored_typed ws now :
  is_u64 now → windows_kept ws → registry_typed (on_state (restore_windows ws) (BrokerUsage_default now)).
Proof.
  intros Hn [Hall Hl]. split; [|done|by split].
  split; [done|apply counts_typed_default..|apply map_Forall_empty|done|]. split; [|done].
  revert Hall. apply restore_all; [|by intros w [[]]|done].
  intros w [[] []]. by split.
Qed.

Section steps.
Context `{HeaderMap H}.

(** What the types of its arguments say of an operation. *)
Definition event_typed (e : usage_event (H:=H)) : Prop :=
  match e with
  | UMeter now | USpend _ _ _ now | UCapture _ _ _ now => is_u64 now
  | USettle _ usage _ | USettleOperator _ usage _ | USettleUnproven usage _ => usage_typed usage
  | _ => True
  end.

Lemma declared_typed s operators public :
  state_typed s → map_Forall (λ _, counts_typed) operators →
  state_typed (sn_with_operators operators public s).
Proof. intros [] Ho. by split. Qed.
Lemma with_unproven_typed s u :
  state_typed s → unproven_typed u → state_typed (sn_with_unproven (Some u) s).
Proof. intros [] Hu. split; try done. by apply slot_all_Some. Qed.

Lemma state_step_typed b e :
  event_typed e → state_typed (bu_state b) → state_typed (bu_state (usage_step b e)).
Proof.
  intros He Hs. destruct e; cbn [usage_step].
  - done.
  - unfold settle_spend_at. by destruct (charge_of usage success).
  - destruct Hs. destruct provider; split; try done; by apply Counts_settle_typed.
  - unfold declare_operator. destruct (is_some _); [by apply declared_typed; [|apply Hs]|].
    destruct (MAX_LISTED_OPERATORS <=? _); [done|]. apply declared_typed; [done|].
    apply map_Forall_insert_2; [by auto with u64|apply Hs].
  - cbn. unfold settle_operator. destruct (sn_operators (bu_state b) !! operator) as [c|] eqn:E; [|done].
    apply declared_typed; [done|]. apply map_Forall_insert_2; [|apply Hs].
    apply Counts_settle_typed; [|done]. by apply (ss_operators _ Hs operator).
  - apply with_unproven_typed; [done|]. by apply default_unproven_typed, Hs.
  - apply with_unproven_typed; [done|].
    destruct (default_unproven_typed _ (ss_unproven _ Hs)).
    destruct admitted; split; cbn; auto with u64.
  - apply with_unproven_typed; [done|].
    destruct (default_unproven_typed _ (ss_unproven _ Hs)).
    split; cbn; [done|done|]. by apply Counts_settle_typed.
  - pose proof (capture_kept provider consumer headers now (bu_state b) He (ss_windows _ Hs)) as Hw.
    destruct (capture_frame provider consumer headers now (bu_state b)) as (Eo & _ & _ & Ea & Ec & Em & Eu & _).
    cbn [on_state bu_state]. destruct Hs. split; rewrite ?Eo, ?Ea, ?Ec, ?Em, ?Eu; try done.
    unfold capture_at. destruct provider; [..|done].
    + by destruct (capture_anthropic _ _ _ _ _ _) as [[? ?] ?], (capture_anthropic _ _ _ _ _ _) as [[? ?] ?].
    + by destruct (capture_codex _ _ _ _ _) as [[? ?] ?], (capture_codex _ _ _ _ _) as [[? ?] ?].
Qed.
Lemma spend_step_typed b e :
  event_typed e → slot_all spend_state_typed (bu_spend b) →
  slot_all spend_state_typed (bu_spend (usage_step b e)).
Proof.
  intros He Hs. destruct e; cbn [usage_step]; try done.
  - cbn. destruct (bu_spend b) as [sp|]; [done|]. apply slot_all_Some.
    split; cbn; [done|intros []; constructor| |intros []; constructor].
    intros o w. rewrite lookup_fmap. intros (? & _ & ->)%fmap_Some. constructor.
  - unfold settle_spend_at. destruct (charge_of usage success) as [c|] eqn:Ec; [|done].
    cbn. eapply slot_all_fmap; [|exact Hs]. intros sp.
    apply charge_spend_typed; [by apply hour_of|by eapply charge_of_ok].
  - unfold declare_operator. destruct (is_some _); [done|].
    destruct (MAX_LISTED_OPERATORS <=? _); [done|]. cbn.
    eapply slot_all_fmap; [|exact Hs]. intros sp []. split; cbn; try done.
    apply map_Forall_insert_2; [constructor|done].
Qed.
Lemma usage_step_typed b e : event_typed e → registry_typed b → registry_typed (usage_step b e).
Proof.
  intros He []. split; [by apply state_step_typed|by apply spend_step_typed|by apply usage_step_ok].
Qed.
End steps.

(** ** The registries of a process *)
Section process.
Context `{HeaderMap H} (from_json : string → result string StateFile).

(** A process takes up the state file, whatever reading it returns, or has
    none; a filter names its registry; and any filter of a registry's name
    operates on it. *)
Inductive registries_life : Registries → Prop :=
| rl_start read now :
    is_u64 now → registries_life (mkRegistries ∅ (restored_windows from_json read now))
| rl_named r name now :
    registries_life r → is_u64 now → registries_life (usage_named name now r).1
| rl_event r name b e :
    registries_life r → rg_usage r !! name = Some b → event_typed (H:=H) e →
    registries_life (mkRegistries (<[name := usage_step b e]> (rg_usage r)) (rg_restored r)).

Hypothesis Hjson : ∀ text file,
  from_json text = Ok file → map_Forall (λ _, windows_parsed) (sf_registries file).

Lemma restored_windows_kept read now :
  is_u64 now → map_Forall (λ _, windows_kept) (restored_windows from_json read now).
Proof using Hjson.
  intros Hn. unfold restored_windows, read_state.
  destruct (map_err CannotRead read) as [text|e]; [|apply map_Forall_empty].
  cbn [mbind result_bind]. destruct (from_json text) as [file|e] eqn:Ef; [|apply map_Forall_empty].
  cbn [map_err mbind result_bind]. destruct (refuse_if _ _) as [[]|e]; [|apply map_Forall_empty].
  cbn [mbind result_bind]. destruct (check_registries _) as [[]|e] eqn:Ec; [|apply map_Forall_empty].
  change (map_Forall (λ _, windows_kept) (load_windows now <$> sf_registries file)). intros name ws'. rewrite lookup_fmap.
  intros (ws & Hws & ->)%fmap_Some. apply load_windows_kept; [done|by apply (Hjson text file Ef name)|].
  apply check_registries_Ok in Ec. rewrite Forall_forall in Ec.
  apply (Ec (name, ws)). by apply elem_of_in_key_order.
Qed.
Lemma registries_life_typed r :
  registries_life r →
  map_Forall (λ _, registry_typed) (rg_usage r) ∧ map_Forall (λ _, windows_kept) (rg_restored r).
Proof using Hjson.
  induction 1 as [read now Hn|r name now _ [IHu IHr] Hn|r name b e _ [IHu IHr] Hb He].
  - split; [apply map_Forall_empty|by apply restored_windows_kept].
  - unfold usage_named. destruct (rg_usage r !! name) as [b|]; [done|].
    split; cbn; [|by apply map_Forall_delete]. apply map_Forall_insert_2; [|done].
    destruct (rg_restored r !! name) as [ws|] eqn:Ew; [|by apply default_typed].
    apply restored_typed; [done|by apply (IHr name)].
  - split; cbn; [|done]. apply map_Forall_insert_2; [|done].
    apply usage_step_typed; [done|by apply (IHu name)].
Qed.

(** C15: in every registry of a process, whatever its state file held and
    whatever was asked and answered, every count, time and charge is an unsigned
    integer of 64 bits, and so is an hour with a week added to it; every
    float is one of the format; a share
    or utilization reported is in its range, and what a consumer used is
    never negative or not a number. A registry keeps four window slots, at
    most [MAX_LISTED_OPERATORS] operators, the public ones among them, and a
    week of spend for those and no other payer. *)
Theorem registries_typed r :
  registries_life r → map_Forall (λ _, registry_typed) (rg_usage r).
Proof using Hjson. by intros [Hu _]%registries_life_typed. Qed.
End process.

(** ** Witness

    A registry taken up from a file and used up to the last request its
    counter can count, and past it. *)
#[local] Existing Instance header_map.
Definition sample_parse (text : string) : result string StateFile := Ok sample_state_file.
Definition sample_taken_up : Registries :=
  (usage_named "usage" 2000 (mkRegistries ∅ (restored_windows sample_parse (Ok "json"%string) 2000))).1.
Definition huge_usage : Usage := mkUsage (mkTokens U64_MAX 0 U64_MAX 0 U64_MAX) None 0.
Definition sample_settled : usage_event (H:=list (string * string)) :=
  USettle Codex (Some huge_usage) true.
Definition settled_twice (b : BrokerUsage) : BrokerUsage :=
  usage_step (usage_step b sample_settled) sample_settled.
Lemma sample_parse_typed text file :
  sample_parse text = Ok file → map_Forall (λ _, windows_parsed) (sf_registries file).
Proof.
  intros [= <-] name ws Hws. cbn [sf_registries sample_state_file] in Hws. apply lookup_singleton_Some in Hws as [_ <-].
  split; [|reflexivity].
  assert (att_parsed (mkAttributed (mkReading (decimal 19 0) 1160 18000) 1100 false false 0
    (both_consumers (decimal 19 0)))) as Ha.
  { split; cbn; try u64_lia; [by vm_compute|by intros []; vm_compute]. }
  split; cbn; try done.
  - apply slot_all_Some. split; cbn; [|apply slot_all_Some; u64_lia|apply slot_all_Some; u64_lia|u64_lia].
    apply slot_all_Some. by vm_compute.
  - repeat (apply Forall_cons; split); try done. by apply slot_all_Some.
Qed.
Lemma registries_typed_witness :
  ∃ b, rg_usage sample_taken_up !! "usage"%string = Some b ∧
    registry_typed (settled_twice b) ∧
    tk_output (c_tokens (cx_counts (sn_codex (bu_state (settled_twice b))))) = U64_MAX ∧
    is_Some (cx_primary (sn_codex (bu_state (settled_twice b)))).
Proof.
  pose proof (rl_named (H:=list (string * string)) sample_parse _ "usage" 2000
    (rl_start sample_parse (Ok "json"%string) 2000 ltac:(u64_lia)) ltac:(u64_lia)) as Hlife.
  fold sample_taken_up in Hlife.
  assert (event_typed sample_settled) as He.
  { intros u Hu. injection Hu as <-. repeat split; cbn; u64_lia. }
  eexists. split; [vm_compute; reflexivity|].
  pose proof (rl_event sample_parse _ "usage" _ _ Hlife eq_refl He) as Hlife1.
  pose proof (rl_event sample_parse _ "usage" _ _ Hlife1 eq_refl He) as Hlife2.
  split; [|split; [vm_compute; reflexivity|vm_compute; eexists; reflexivity]].
  apply (registries_typed sample_parse sample_parse_typed _ Hlife2 "usage" _). reflexivity.
Defined.
