(* ===== verification/Filter.v ===== *)
(** * The [run_token] filter: configuration

    [praxis-gateway/src/filter.rs], to the end of [from_config] and
    [Registrar::load]: what a filter is configured with, the registration
    policy of its own file, the checks of both, and the filter they build.
    A field with a serde default is an option here, [None] where the file
    leaves it out. *)
From S2P Require Import Prelude Crypto Headers Pools Budget Runs Oidc Operators Usage UsageState.
Local Open Scope Z_scope.

Definition DEFAULT_USAGE_ORIGIN : string := "https://cgwalters-forge.github.io".
Definition GITHUB_JWKS : string := "https://token.actions.githubusercontent.com/.well-known/jwks".
Definition AUTHORIZATION : string := "authorization".
Definition DEFAULT_UNPROVEN_WINDOW_SECS : Z := 3600.
Definition DEFAULT_REGISTRY : string := "default".
Definition DEFAULT_MAX_SECS : Z := 6 * 3600.
Definition DEFAULT_RUN_CONCURRENCY : Z := 4.
Definition MAX_SECS : Z := 30 * 24 * 3600.
Definition DEFAULT_EVENT : string := "workflow_dispatch".

Definition default_registry : string := DEFAULT_REGISTRY.
Definition default_usage_origins : gset string := {[DEFAULT_USAGE_ORIGIN]}.
Definition default_token_headers : list string := [AUTHORIZATION].
Definition default_unproven_window_secs : Z := DEFAULT_UNPROVEN_WINDOW_SECS.
Definition default_audience : string := DEFAULT_AUDIENCE.
Definition default_jwks_url : string := GITHUB_JWKS.
Definition default_events : gset string := {[DEFAULT_EVENT]}.
Definition default_max_secs : Z := DEFAULT_MAX_SECS.
Definition default_run_concurrency : Z := DEFAULT_RUN_CONCURRENCY.

(** ** Data *)
Inductive CredentialMode := Injected | PassThrough.
#[export] Instance CredentialMode_eq_dec : EqDecision CredentialMode.
Proof. solve_decision. Defined.

(** The sections [registration], [operators] and [budget] are the paths of
    the files they name. *)
Record Config := mkConfig {
  cf_registry : option string;
  cf_token_headers : option (list string);
  cf_public_paths : option (gset string);
  cf_usage_free_paths : option (gset string);
  cf_credentials : gmap string CredentialMode;
  cf_usage_cors_origins : option (gset string);
  cf_registration : option string;
  cf_operators : option string;
  cf_spend : option bool;
  cf_budget : option string;
}.

Record UnprovenConfig := mkUnprovenConfig {
  uc_max_registrations : Z;
  uc_window_secs : option Z;
}.
Record PolicyFile := mkPolicyFile {
  pf_audience : option string;
  pf_jwks_url : option string;
  pf_workflows : option (gset string);
  pf_repository_ids : option (gset Z);
  pf_owner_ids : option (gset Z);
  pf_entry_workflows : option (gset string);
  pf_events : option (gset string);
  pf_consumer : option Consumer;
  pf_called_workflows : option (list CalledWorkflow);
  pf_any_workflow : option AnyWorkflow;
  pf_max_secs : option Z;
  pf_concurrency : option Z;
  pf_unproven : option UnprovenConfig;
}.

(** [GithubOidc], less its client, its semaphore and its cache. *)
Record GithubOidc := mkGithubOidc { go_jwks_url : string; go_policy : Policy }.
Record Registrar := mkRegistrar {
  rr_oidc : option GithubOidc;
  rr_unproven : option Quota;
  rr_limits : Limits;
}.
Inductive RunEndpoints := Absent | Unconfigured | Serving (registrar : Registrar).

(** [runs] and [usage] are those of the registry named. *)
Record RunTokenFilter := mkFilter {
  f_registry : string;
  f_token_headers : list string;
  f_public_paths : gset string;
  f_usage_free_paths : gset string;
  f_credentials : gmap string CredentialMode;
  f_usage_cors_origins : gset string;
  f_endpoints : RunEndpoints;
  f_operators : gmap string Operator;
  f_budget : option Budget;
}.

(** ** The registration policy *)
Inductive QuotaError := NoRegistrations | BadWindow | TooManyRemembered (n : Z).
Definition quota (self : UnprovenConfig) (ttl : Z) : result QuotaError Quota :=
  let window_secs := default default_unproven_window_secs (uc_window_secs self) in
  refuse_if (uc_max_registrations self =? 0) NoRegistrations ≫= λ _,
  refuse_if (negb ((1 <=? window_secs) && (window_secs <=? MAX_SECS))) BadWindow ≫= λ _,
  let quota := mkQuota (uc_max_registrations self) (from_secs window_secs) in
  let remembered := most_remembered quota ttl in
  refuse_if (MAX_UNPROVEN_RUNS <? remembered) (TooManyRemembered remembered) ≫= λ _,
  Ok quota.

Inductive RegistrarError :=
| UnreadablePolicy (e : string)
| NotPolicyFile (e : string)
| BadPolicy (e : PolicyError)
| NarrowsNothing
| NotPositive
| TooLong
| BadQuota (e : QuotaError)
| HttpClient (e : string).

Definition policy_of (file : PolicyFile) : Policy :=
  mkPolicy (default default_audience (pf_audience file)) (default ∅ (pf_workflows file))
    (default ∅ (pf_repository_ids file)) (default ∅ (pf_owner_ids file)) (pf_entry_workflows file)
    (default default_events (pf_events file)) (default Consumer_default (pf_consumer file))
    (default [] (pf_called_workflows file)) (pf_any_workflow file).

Definition narrows_workflows (file : PolicyFile) : bool :=
  is_some (pf_events file) || is_some (pf_entry_workflows file) || is_some (pf_consumer file).

Section registrar.
(** The YAML library, and [reqwest]'s client builder. *)
Context (from_yaml : string → result string PolicyFile) (build_client : result string unit).

(** [Registrar::load] once the file is read and parsed. *)
Definition registrar_of (file : PolicyFile) : result RegistrarError Registrar :=
  let policy := policy_of file in
  let proves := proves policy in
  (if proves || is_none (pf_unproven file) then map_err BadPolicy (Policy_validate policy)
   else Ok tt) ≫= λ _,
  refuse_if (proves && negb (names_workflows policy) && narrows_workflows file) NarrowsNothing
    ≫= λ _,
  let max_secs := default default_max_secs (pf_max_secs file) in
  let concurrency := default default_run_concurrency (pf_concurrency file) in
  refuse_if ((max_secs =? 0) || (concurrency =? 0)) NotPositive ≫= λ _,
  refuse_if (MAX_SECS <? max_secs) TooLong ≫= λ _,
  let limits := mkLimits (from_secs max_secs) concurrency in
  match pf_unproven file with
  | Some unproven => Some <$> map_err BadQuota (quota unproven (ttl limits))
  | None => Ok None
  end ≫= λ unproven,
  map_err HttpClient build_client ≫= λ _,
  Ok (mkRegistrar
        (then_some proves (mkGithubOidc (default default_jwks_url (pf_jwks_url file)) policy))
        unproven limits).
Definition Registrar_load (read : result ReadError string)
    : result RegistrarError (option Registrar) :=
  match read with
  | Ok text => map_err NotPolicyFile (from_yaml text) ≫= λ file, Some <$> registrar_of file
  | Err NotFound => Ok None
  | Err (OtherError e) => Err (UnreadablePolicy e)
  end.
End registrar.

(** ** Building the filter *)
Inductive ConfigError :=
| BadConfig (e : string)
| BadTokenHeader (name : string)
| NoTokenHeader
| NoCredential
| RegistrarFailed (e : RegistrarError)
| OperatorsFailed (e : string + OperatorsError)
| BudgetFailed (e : string + BudgetError).

(** The registries of the process. *)
Record Process := mkProcess { ps_runs : gmap string State; ps_usage : Registries }.

Section from_config.
Context `{Crypto} `{HeaderMap Hd}.
Context (policy_yaml : string → result string PolicyFile) (build_client : result string unit)
  (tokens_yaml : string → result string TokensFile)
  (budget_yaml : string → result string BudgetFile)
  (read_file : string → result ReadError string).

(** [collect] into a [Result]. *)
Fixpoint header_names (names : list string) : result ConfigError (list string) :=
  match names with
  | [] => Ok []
  | name :: names =>
      ok_or (hm_name (H:=Hd) name) (BadTokenHeader name) ≫= λ name,
      cons name <$> header_names names
  end.

Definition endpoints_of (registration : option string) : result ConfigError RunEndpoints :=
  match registration with
  | None => Ok Absent
  | Some policy_file =>
      map_err RegistrarFailed (Registrar_load policy_yaml build_client (read_file policy_file))
        ≫= λ registrar,
      Ok (match registrar with Some registrar => Serving registrar | None => Unconfigured end)
  end.

Definition injected_clusters (credentials : gmap string CredentialMode) : gset string :=
  dom (filter (λ '(_, mode), mode = Injected) credentials).

(** What [from_config] does to the usage registry it names. *)
Definition declare_usage (now : Z) (spend : bool) (endpoints : RunEndpoints)
    (operators : gmap string Operator) (usage : BrokerUsage) : BrokerUsage :=
  let usage := if spend then meter_spend_at now usage else usage in
  let usage :=
    match endpoints with
    | Serving registrar =>
        if is_some (rr_unproven registrar) then on_state declare_unproven usage else usage
    | _ => usage
    end in
  foldl (λ usage operator, declare_operator (op_name operator) (op_consumer operator) usage)
    usage (sorted operators).

(** [now] is the Unix time; the parsed configuration is given. *)
Definition from_config (now : Z) (config : result string Config) (ps : Process)
    : Process * result ConfigError RunTokenFilter :=
  match
    map_err BadConfig config ≫= λ config,
    header_names (default default_token_headers (cf_token_headers config)) ≫= λ token_headers,
    refuse_if (bool_decide (token_headers = [])) NoTokenHeader ≫= λ _,
    refuse_if (bool_decide (cf_credentials config = ∅)) NoCredential ≫= λ _,
    endpoints_of (cf_registration config) ≫= λ endpoints,
    match cf_operators config with
    | None => Ok ∅
    | Some tokens_file =>
        map_err OperatorsFailed
          (Operators_load tokens_yaml (read_file tokens_file)
             (injected_clusters (cf_credentials config)))
    end ≫= λ operators,
    match cf_budget config with
    | None => Ok None
    | Some policy_file => map_err BudgetFailed (load budget_yaml (read_file policy_file))
    end ≫= λ budget,
    Ok (config,
        mkFilter (default default_registry (cf_registry config)) token_headers
          (default ∅ (cf_public_paths config)) (default ∅ (cf_usage_free_paths config))
          (cf_credentials config) (default default_usage_origins (cf_usage_cors_origins config))
          endpoints operators budget)
  with
  | Err e => (ps, Err e)
  | Ok (config, filter) =>
      let name := f_registry filter in
      let '(registries, usage) := usage_named name now (ps_usage ps) in
      let usage := declare_usage now (default false (cf_spend config)) (f_endpoints filter)
        (f_operators filter) usage in
      let registries := mkRegistries (<[name := usage]> (rg_usage registries))
        (rg_restored registries) in
      (mkProcess (named name (ps_runs ps)).1 registries, Ok filter)
  end.
End from_config.
