(* ===== verification/Gateway.v ===== *)
(** * The [run_token] filter: requests and responses

    [praxis-gateway/src/filter.rs] from [RunTokenFilter::token]: how a request
    is admitted, refused or served, and how its response is metered, on the
    registries and slots it shares with every other request. *)
From S2P Require Import Prelude Crypto Headers Pools Budget Runs Oidc Operators Usage Filter.
Local Open Scope Z_scope.

Definition RUNS_PATH : string := "/v1/runs".
Definition RUN_SELF_PATH : string := "/v1/runs/self".
Definition USAGE_PATH : string := "/usage".
Definition GRANT_PATH : string := "/usage/grant".
Definition USAGE_METHODS : string := "GET, OPTIONS".
Definition PREFLIGHT_MAX_AGE : string := "600".
Definition REQUEST_PRIVATE_NETWORK : string := "access-control-request-private-network".
Definition ALLOW_PRIVATE_NETWORK : string := "access-control-allow-private-network".
Definition RUN_ID : string := "x-run-id".
Definition SEC_FETCH_SITE : string := "sec-fetch-site".
(** Names of [http::header]. *)
Definition ORIGIN : string := "origin".
Definition VARY : string := "vary".
Definition CONTENT_TYPE : string := "content-type".
Definition ALLOW_ORIGIN : string := "access-control-allow-origin".
Definition ALLOW_METHODS : string := "access-control-allow-methods".
Definition MAX_AGE : string := "access-control-max-age".
Definition BROWSER_HEADERS : list string := [ORIGIN; SEC_FETCH_SITE].

(** ** Data *)
Inductive Method := GET | POST | DELETE | OPTIONS | OtherMethod.
#[export] Instance Method_eq_dec : EqDecision Method.
Proof. solve_decision. Defined.

(** What [json] serializes. *)
Inductive Body :=
| SnapshotBody (snapshot : Snapshot)
| GrantBody (grant : Grant)
| RecordBody (record : RunRecord)
| RegisteredBody (token : string) (usage : RunRecord).

(** Who an injected request was admitted for: a run, or the operator whose
    token has this hash, which the slot names. *)
Inductive Caller :=
| CallerRun (admission : Admission)
| CallerOperator (hash : string) (operator : Operator) (usage_free : bool).
Definition Caller_consumer (self : Caller) : Consumer :=
  match self with
  | CallerRun admission => adm_consumer admission
  | CallerOperator _ operator _ => op_consumer operator
  end.
Definition set_usage_free (b : bool) (self : Caller) : Caller :=
  match self with
  | CallerRun a => CallerRun
      (mkAdmission (adm_key a) (adm_consumer a) (adm_success a) b (adm_settled a))
  | CallerOperator hash operator _ => CallerOperator hash operator b
  end.
Definition set_success (b : bool) (self : Caller) : Caller :=
  match self with
  | CallerRun a => CallerRun
      (mkAdmission (adm_key a) (adm_consumer a) b (adm_usage_free a) (adm_settled a))
  | CallerOperator hash operator usage_free => CallerOperator hash operator usage_free
  end.

(** [Metered] of the code. *)
Record MeteredRequest := mkMetered {
  mt_mode : CredentialMode;
  mt_provider : option Provider;
  mt_success : bool;
  mt_caller : option Caller;
}.

(** ** Shared state

    The registries the filter names, the [in_flight] counter of each operator
    by its token's hash, and the OIDC key cache. [w_refused]: the operators of
    the requests found [Busy] that have yet to take back what they added to
    its counter. *)
Record World (Key : Type) := mkWorld {
  w_runs : State;
  w_usage : BrokerUsage;
  w_slots : gmap string Z;
  w_keys : KeyCache (Key:=Key);
  w_refused : list string;
}.
Arguments mkWorld {Key} _ _ _ _ _.
Arguments w_runs {Key} _.
Arguments w_usage {Key} _.
Arguments w_slots {Key} _.
Arguments w_keys {Key} _.
Arguments w_refused {Key} _.

(** What a handler reads of its surroundings: the monotonic and the Unix
    clock, 32 random bytes, the permits left of the registrations verified at
    once, the clock reads of [key] and what [fetch] returns if called. *)
Record Env (Key : Type) := mkEnv {
  e_now : Z;
  e_unix : Z;
  e_random : string;
  e_permits : Z;
  e_clock : Clock;
  e_fetched : option (gmap string Key);
}.
Arguments mkEnv {Key} _ _ _ _ _ _.
Arguments e_now {Key} _.
Arguments e_unix {Key} _.
Arguments e_random {Key} _.
Arguments e_permits {Key} _.
Arguments e_clock {Key} _.
Arguments e_fetched {Key} _.

(** [Operator::admit] up to its [fetch_add], which decides, and the drop of
    the slot: a thread of [Operators] on the counter [n]. *)
Definition Operator_admit (self : Operator) (cluster : string) (n : Z)
    : Z * result OpRefusal unit :=
  let '(s, admitted) := admit_slot self cluster 0 (mkShared n [Idle]) in (in_flight s, admitted).
Definition Slot_drop (n : Z) : Z := in_flight (release 0 (mkShared n [Holding])).

Section handlers.
Context `{Crypto} {Hd : Type} `{HeaderMap Hd} {Key : Type}.
(** Of the JWT library and of serde_json; and [AuthenticatedIdentity::new]. *)
Context (decode_header : string → option Header)
  (decode_jwt : string → Key → Validation → result DecodeError Claims)
  (issued_after : Z) (to_vec : Body → option string)
  {Identity : Type} (new_identity : string → option Identity).

Record Request := mkRequest {
  rq_method : Method;
  rq_path : string;
  rq_query : option string;
  rq_headers : Hd;
}.
Inductive FilterAction :=
| Continue
| Reject (status : Z) (message : string)
| TerminalResponse (status : Z) (headers : Hd) (body : option string).

(** [HttpFilterContext]: the response's status and headers, once it has
    them, and what [token_count] recorded. *)
Record Context := mkContext {
  cx_request : Request;
  cx_cluster : option string;
  cx_remove : list string;
  cx_identity : option Identity;
  cx_metered : option MeteredRequest;
  cx_response : option (Z * Hd);
  cx_metadata : string → option string;
}.
Definition with_remove (names : list string) (ctx : Context) : Context :=
  mkContext (cx_request ctx) (cx_cluster ctx) (cx_remove ctx ++ names) (cx_identity ctx)
    (cx_metered ctx) (cx_response ctx) (cx_metadata ctx).
Definition with_identity (id : Identity) (ctx : Context) : Context :=
  mkContext (cx_request ctx) (cx_cluster ctx) (cx_remove ctx) (Some id)
    (cx_metered ctx) (cx_response ctx) (cx_metadata ctx).
Definition with_metered (metered : option MeteredRequest) (ctx : Context) : Context :=
  mkContext (cx_request ctx) (cx_cluster ctx) (cx_remove ctx) (cx_identity ctx)
    metered (cx_response ctx) (cx_metadata ctx).

Definition set_runs (st : State) (w : World Key) : World Key :=
  mkWorld st (w_usage w) (w_slots w) (w_keys w) (w_refused w).
Definition set_usage (b : BrokerUsage) (w : World Key) : World Key :=
  mkWorld (w_runs w) b (w_slots w) (w_keys w) (w_refused w).
Definition set_slot (hash : string) (n : Z) (w : World Key) : World Key :=
  mkWorld (w_runs w) (w_usage w) (<[hash := n]> (w_slots w)) (w_keys w) (w_refused w).
Definition set_keys (cache : KeyCache (Key:=Key)) (w : World Key) : World Key :=
  mkWorld (w_runs w) (w_usage w) (w_slots w) cache (w_refused w).
Definition set_refused (hashes : list string) (w : World Key) : World Key :=
  mkWorld (w_runs w) (w_usage w) (w_slots w) (w_keys w) hashes.
Definition slot_count (hash : string) (w : World Key) : Z := default 0 (w_slots w !! hash).

(** ** Answers *)
(** Every message is a line. *)
Definition reject (status : Z) (message : string) : FilterAction :=
  Reject status (message +:+ String LF EmptyString).
Definition json_with (status : Z) (value : Body) (headers : Hd) : FilterAction :=
  match to_vec value with
  | Some body =>
      TerminalResponse status (hm_insert CONTENT_TYPE "application/json" headers) (Some body)
  | None => reject 500 "internal error"
  end.
Definition json (status : Z) (value : Body) : FilterAction := json_with status value hm_new.
Definition unauthenticated : FilterAction := reject 401 "client authentication required".

(** ** Tokens and admission *)
Section filter.
Context (self : RunTokenFilter).

(** The first of the token headers the request has, with its value. *)
Fixpoint find_token (names : list string) (headers : Hd) : option (string * string) :=
  match names with
  | [] => None
  | name :: names =>
      match hm_get name headers with
      | Some value => Some (name, value)
      | None => find_token names headers
      end
  end.
Definition token (headers : Hd) : option (string * string) :=
  find_token (f_token_headers self) headers ≫= λ '(name, value),
  hm_to_str (H:=Hd) value ≫= λ value,
  (if bool_decide (name = AUTHORIZATION) then strip_prefix "Bearer " value else Some value)
    ≫= λ token, Some (name, token).

Definition run_of (headers : Hd) (now : Z) (st : State) : State * option RunKey :=
  match token headers with
  | None => (st, None)
  | Some (_, token) => authenticate token now st
  end.

Definition admit_caller (env : Env Key) (headers : Hd) (cluster : string) (w : World Key)
    : World Key * result FilterAction (string * Caller) :=
  match token headers with
  | None => (w, Err unauthenticated)
  | Some (_, token) =>
      match Operators_authenticate (f_operators self) token with
      | Some (hash, operator) =>
          let '(n, admitted) := Operator_admit operator cluster (slot_count hash w) in
          let w := set_slot hash n w in
          (match admitted with Err OpBusy => set_refused (hash :: w_refused w) w | _ => w end,
           match admitted with
           | Ok _ => Ok (Operator_subject operator, CallerOperator hash operator false)
           | Err Forbidden => Err (reject 403 "this operator token is not for this route")
           | Err OpBusy => Err (reject 429 "too many requests in flight for this operator")
           end)
      | None =>
          let now := e_now env in
          let '(st, key) := authenticate token now (w_runs w) in
          match key with
          | None => (set_runs st w, Err unauthenticated)
          | Some key =>
              let '(st, admitted) := admit_run key now st in
              (set_runs st w,
               match admitted with
               | Ok admission => Ok (subject key, CallerRun admission)
               | Err Closed => Err unauthenticated
               | Err Busy => Err (reject 429 "too many requests in flight for this run")
               end)
          end
      end
  end.
(** The [fetch_sub] of the [i]-th of the requests found [Busy]: others may do
    anything between it and the [fetch_add]. *)
Definition back_out (i : nat) (w : World Key) : World Key :=
  match w_refused w !! i with
  | Some hash =>
      let n := in_flight (release 0 (mkShared (slot_count hash w) [Undoing])) in
      set_refused (delete i (w_refused w)) (set_slot hash n w)
  | None => w
  end.
(** Going out of scope, as it does where a handler returns early. *)
Definition drop_caller (caller : option Caller) (w : World Key) : World Key :=
  match caller with
  | None => w
  | Some (CallerRun admission) => set_runs (Admission_drop admission (w_runs w)) w
  | Some (CallerOperator hash _ _) => set_slot hash (Slot_drop (slot_count hash w)) w
  end.

(** ** [/usage] and [/usage/grant] *)
Definition allowed_origin (request : Request) : option string :=
  option_filter (λ origin,
    match hm_to_str (H:=Hd) origin with
    | Some origin => bool_decide (origin ∈ f_usage_cors_origins self)
    | None => false
    end) (hm_get ORIGIN (rq_headers request)).

Definition serve_usage (request : Request) (get : Hd → FilterAction) : FilterAction :=
  let origin := allowed_origin request in
  let headers := hm_from_iter [(VARY, "origin"%string)] in
  let headers :=
    match origin with Some origin => hm_insert ALLOW_ORIGIN origin headers | None => headers end in
  match rq_method request, origin with
  | GET, _ => get headers
  | OPTIONS, Some _ =>
      let headers := hm_insert ALLOW_METHODS USAGE_METHODS headers in
      let headers := hm_insert MAX_AGE PREFLIGHT_MAX_AGE headers in
      let headers :=
        if hm_contains REQUEST_PRIVATE_NETWORK (rq_headers request)
        then hm_insert ALLOW_PRIVATE_NETWORK "true" headers else headers in
      TerminalResponse 204 headers None
  | OPTIONS, None => reject 403 "origin not allowed"
  | _, _ => reject 405 "method not allowed"
  end.

Definition serve_grant (env : Env Key) (usage : BrokerUsage) (request : Request) (headers : Hd)
    : FilterAction :=
  match f_budget self with
  | None => reject 404 "no budget is configured"
  | Some budget =>
      match omap (strip_prefix "consumer=") (split_char "&" (default "" (rq_query request))) with
      | [name] =>
          match Consumer_parse name with
          | None => reject 400 "consumer must be public or private"
          | Some consumer =>
              json_with 200
                (GrantBody (grant_at budget consumer (e_unix env) (bu_state usage) (bu_spend usage)))
                headers
          end
      | _ => reject 400 "one consumer parameter required"
      end
  end.

(** ** Registration *)
Definition register_unproven_run (env : Env Key) (quota : Quota) (limits : Limits) (headers : Hd)
    (w : World Key) : World Key * FilterAction :=
  if existsb (λ name, hm_contains name headers) BROWSER_HEADERS
  then (w, reject 403 "a web page may not register a run")
  else
    match hm_get_all RUN_ID headers with
    | [name] =>
        match hm_to_str (H:=Hd) name ≫= RunName_new with
        | None => (w, reject 400 "invalid x-run-id")
        | Some name =>
            let '(st, registered) := register_unproven name limits quota (e_now env)
              (e_random env) (e_unix env) (w_runs w) in
            let w := set_runs st w in
            let count admitted := set_usage (on_state (unproven_registration admitted) (w_usage w)) w in
            match registered with
            | Ok (token, usage) => (count true, json 201 (RegisteredBody token usage))
            | Err AlreadyRegistered => (w, reject 409 "run already registered")
            | Err OverQuota => (count false, reject 429 "too many unproven registrations")
            | Err Full => (w, reject 503 "too many runs")
            end
        end
    | _ => (w, reject 400 "one x-run-id header required")
    end.

Definition bearer (headers : Hd) : option string :=
  hm_get AUTHORIZATION headers ≫= λ v, hm_to_str (H:=Hd) v ≫= λ v, strip_prefix "Bearer " v.

(** The part of [register] that asks for proof. *)
Definition register_proven (env : Env Key) (registrar : Registrar) (headers : Hd) (w : World Key)
    : World Key * FilterAction :=
  match rr_oidc registrar with
  | None => (w, reject 403 "workflow may not register runs")
  | Some oidc =>
      if e_permits env =? 0 then (w, reject 429 "too many registrations")
      else
        match bearer headers with
        | None => (w, reject 401 "OIDC token required")
        | Some jwt =>
            let '(cache, verified) := verify decode_header decode_jwt (go_policy oidc) issued_after
              jwt (e_clock env) (e_fetched env) (w_keys w) in
            let w := set_keys cache w in
            match verified with
            | Err Unavailable => (w, reject 503 "OIDC keys unavailable")
            | Err WorkflowNotAllowed => (w, reject 403 "workflow may not register runs")
            | Err Malformed | Err Invalid => (w, reject 401 "invalid OIDC token")
            | Ok run =>
                let '(st, registered) := Runs.register run (rr_limits registrar) (e_now env)
                  (e_random env) (e_unix env) (w_runs w) in
                (set_runs st w,
                 match registered with
                 | Ok (token, usage) => json 201 (RegisteredBody token usage)
                 | Err AlreadyRegistered => reject 409 "run already registered"
                 | Err Full | Err OverQuota => reject 503 "too many runs"
                 end)
            end
        end
  end.
Definition register_run (env : Env Key) (registrar : Registrar) (headers : Hd) (w : World Key)
    : World Key * FilterAction :=
  match rr_unproven registrar with
  | Some quota =>
      if hm_contains AUTHORIZATION headers then register_proven env registrar headers w
      else register_unproven_run env quota (rr_limits registrar) headers w
  | None => register_proven env registrar headers w
  end.

(** [self.run_of(..).and_then(..)] of the two handlers of a run's own path. *)
Definition with_own_run (env : Env Key) (headers : Hd)
    (f : RunKey → State → State * option RunRecord) (w : World Key) : World Key * FilterAction :=
  let '(st, key) := run_of headers (e_now env) (w_runs w) in
  match key with
  | None => (set_runs st w, unauthenticated)
  | Some key =>
      let '(st, record) := f key st in
      (set_runs st w,
       match record with Some record => json 200 (RecordBody record) | None => unauthenticated end)
  end.
Definition serve_runs (env : Env Key) (registrar : option Registrar) (request : Request)
    (w : World Key) : World Key * FilterAction :=
  let path := rq_path request in
  let headers := rq_headers request in
  if bool_decide (path = RUNS_PATH) then
    match rq_method request with
    | POST =>
        match registrar with
        | Some registrar => register_run env registrar headers w
        | None => (w, reject 503 "run registration is not configured")
        end
    | _ => (w, reject 405 "method not allowed")
    end
  else if bool_decide (path = RUN_SELF_PATH) then
    match rq_method request with
    | GET => with_own_run env headers (λ key, record key (e_now env)) w
    | DELETE => with_own_run env headers (λ key, finish key (e_now env) (e_unix env)) w
    | _ => (w, reject 405 "method not allowed")
    end
  else (w, reject 404 "not found").

(** ** Requests *)
Definition stripped (mode : CredentialMode) : list string :=
  List.filter (λ name, negb (bool_decide (mode = PassThrough) && bool_decide (name = AUTHORIZATION)))
    (f_token_headers self).

(** The arms of [match mode]: the caller an injected request is admitted for,
    or why the request goes no further. *)
Definition pass_through (request : Request) : result FilterAction unit :=
  let authorization :=
    to_ascii_lowercase (default "" (hm_get AUTHORIZATION (rq_headers request))) in
  refuse_if (contains_str TOKEN_PREFIX authorization)
    (reject 400 "a run token belongs in x-run-token here") ≫= λ _,
  refuse_if (contains_str OPERATOR_TOKEN_PREFIX authorization)
    (reject 400 "an operator token is not a provider credential").
Inductive FilterError := EmptySubject.
Definition injected (env : Env Key) (cluster : string) (usage_free : bool) (ctx : Context)
    (w : World Key)
    : World Key * Context * result FilterError (result FilterAction (option Caller)) :=
  let '(w, admitted) := admit_caller env (rq_headers (cx_request ctx)) cluster w in
  match admitted with
  | Err refusal => (w, ctx, Ok (Err refusal))
  | Ok (subject, caller) =>
      match new_identity subject with
      | None => (drop_caller (Some caller) w, ctx, Err EmptySubject)
      | Some id =>
          (w, with_identity id ctx, Ok (Ok (Some (set_usage_free usage_free caller))))
      end
  end.

Definition admit_for (env : Env Key) (cluster : string) (mode : CredentialMode)
    (usage_free : bool) (ctx : Context) (w : World Key)
    : World Key * Context * result FilterError (result FilterAction (option Caller)) :=
  match mode with
  | PassThrough =>
      (w, ctx, Ok (match pass_through (cx_request ctx) with Ok _ => Ok None | Err e => Err e end))
  | Injected => injected env cluster usage_free ctx w
  end.
Definition mode_of (cluster : option string) : option (string * CredentialMode) :=
  match cluster with
  | Some cluster => pair cluster <$> f_credentials self !! cluster
  | None => None
  end.

Definition on_request (env : Env Key) (ctx : Context) (w : World Key)
    : World Key * Context * result FilterError FilterAction :=
  let request := cx_request ctx in
  let path := rq_path request in
  if bool_decide (path = USAGE_PATH) then
    let granted := is_some (f_budget self) in
    let snapshot :=
      snapshot_at (e_unix env) granted (bu_state (w_usage w)) (bu_spend (w_usage w)) in
    (w, ctx, Ok (serve_usage request (json_with 200 (SnapshotBody snapshot))))
  else if bool_decide (path = GRANT_PATH) then
    (w, ctx, Ok (serve_usage request (serve_grant env (w_usage w) request)))
  else
    let usage_free := bool_decide (path ∈ f_usage_free_paths self) in
    if bool_decide (path = RUNS_PATH) || starts_with "/v1/runs/" path then
      let '(w, action) :=
        match f_endpoints self with
        | Absent => (w, reject 404 "not found")
        | Unconfigured => serve_runs env None request w
        | Serving registrar => serve_runs env (Some registrar) request w
        end in
      (w, ctx, Ok action)
    else if is_some (hm_get_all AUTHORIZATION (rq_headers request) !! 1%nat) then
      (w, ctx, Ok (reject 400 "more than one Authorization header"))
    else if bool_decide (path ∈ f_public_paths self) then
      (w, with_remove (f_token_headers self) ctx, Ok Continue)
    else
      match mode_of (cx_cluster ctx) with
      | None => (w, ctx, Ok (reject 500 "internal error"))
      | Some (cluster, mode) =>
          let ctx := with_remove (stripped mode) ctx in
          let '(w, ctx, admitted) := admit_for env cluster mode usage_free ctx w in
          match admitted with
          | Err e => (w, ctx, Err e)
          | Ok (Err refusal) => (w, ctx, Ok refusal)
          | Ok (Ok caller) =>
              let provider :=
                if bool_decide (mode = Injected) && negb usage_free
                then for_cluster (cx_cluster ctx) else None in
              (w, with_metered (Some (mkMetered mode provider false caller)) ctx, Ok Continue)
          end
      end.

(** ** Responses *)
(** [StatusCode::is_success]. *)
Definition is_success (status : Z) : bool := (200 <=? status) && (status <? 300).

Definition on_response (env : Env Key) (ctx : Context) (w : World Key) : World Key * Context :=
  let success := is_some_and (cx_response ctx) (λ '(status, _), is_success status) in
  match cx_metered ctx with
  | None => (w, ctx)
  | Some metered =>
      let metered := mkMetered (mt_mode metered) (mt_provider metered) success
        (set_success success <$> mt_caller metered) in
      let w :=
        match mt_provider metered, mt_caller metered, cx_response ctx with
        | Some provider, Some caller, Some (_, headers) =>
            set_usage (on_state (λ s,
              (capture_at provider (Caller_consumer caller) headers (e_unix env) s).1) (w_usage w)) w
        | _, _, _ => w
        end in
      (w, with_metered (Some metered) ctx)
  end.

(** The keys [token_count] leaves its counts under. *)
Context (META_TOKEN_STATUS META_TOKEN_INPUT META_TOKEN_OUTPUT META_TOKEN_CACHE_READ
  META_TOKEN_REASONING META_TOKEN_TOTAL META_TOKEN_MODEL META_TOKEN_CACHE_WRITE : string).

Definition reported_usage (metadata : string → option string) : option Usage :=
  let count key := metadata key ≫= parse_u64 in
  if is_some (metadata META_TOKEN_STATUS) then None
  else
    count META_TOKEN_INPUT ≫= λ input,
    count META_TOKEN_OUTPUT ≫= λ output,
    let cache_read := Z.min (default 0 (count META_TOKEN_CACHE_READ)) input in
    Some (mkUsage
      (mkTokens (input - cache_read) cache_read output (default 0 (count META_TOKEN_REASONING))
         (Z.max (default 0 (count META_TOKEN_TOTAL)) (sat_add input output)))
      (metadata META_TOKEN_MODEL) (default 0 (count META_TOKEN_CACHE_WRITE))).

(** What is done with a response's usage, by whose request it was. *)
Definition settle_caller (env : Env Key) (metered : MeteredRequest) (reported : option Usage)
    (w : World Key) : World Key :=
  let success := mt_success metered in
  let consumer := default Consumer_default (Caller_consumer <$> mt_caller metered) in
  let payer operator := mkPayer operator consumer (mt_provider metered) in
  match mt_caller metered with
  | Some (CallerRun admission) =>
      let usage :=
        if adm_usage_free admission then w_usage w
        else
          let usage :=
            if is_unproven (adm_key admission)
            then on_state (settle_unproven reported success) (w_usage w) else w_usage w in
          settle_spend_at (payer None) reported success (e_unix env) usage in
      set_runs (Admission_settle admission reported (w_runs w)) (set_usage usage w)
  | Some (CallerOperator hash operator usage_free) =>
      let usage :=
        if usage_free then w_usage w
        else
          let name := op_name operator in
          settle_spend_at (payer (Some name)) reported success (e_unix env)
            (on_state (settle_operator name reported success) (w_usage w)) in
      drop_caller (mt_caller metered) (set_usage usage w)
  | None => w
  end.
Definition on_response_body (env : Env Key) (end_of_stream : bool) (ctx : Context) (w : World Key)
    : World Key * Context :=
  match end_of_stream, cx_metered ctx with
  | true, Some metered =>
      let ctx := with_metered None ctx in
      let reported := reported_usage (cx_metadata ctx) in
      let usage :=
        match mt_provider metered with
        | Some provider =>
            on_state (settle_provider provider reported (mt_success metered)) (w_usage w)
        | None => w_usage w
        end in
      (settle_caller env metered reported (set_usage usage w), ctx)
  | _, _ => (w, ctx)
  end.
(** The request's context going away with its connection. *)
Definition drop_context (ctx : Context) (w : World Key) : World Key :=
  drop_caller (cx_metered ctx ≫= mt_caller) w.
End filter.
End handlers.
