(* ===== verification/FilterChecks.v ===== *)
(** * The [run_token] filter: what a configuration may be

    The theorems about [Registrar::load] and [from_config]: which policy files
    are accepted, and what a filter that was built is sure to be, which the
    theorems about requests rely on. *)
From S2P Require Import Prelude Crypto Headers Pools Budget Runs Oidc OidcPolicy Operators Usage.
From S2P Require Import UsageState Filter RunsInvariants.
Local Open Scope Z_scope.

(** ** Policy files *)

(** What the types of the file's numbers say. *)
Definition file_typed (file : PolicyFile) : Prop :=
  (∀ n, pf_max_secs file = Some n → is_u64 n) ∧
  (∀ n, pf_concurrency file = Some n → is_u64 n) ∧
  (∀ u, pf_unproven file = Some u → is_u64 (uc_max_registrations u) ∧
     ∀ n, uc_window_secs u = Some n → is_u64 n).
Definition file_max_secs (file : PolicyFile) : Z := default default_max_secs (pf_max_secs file).
Definition file_concurrency (file : PolicyFile) : Z :=
  default default_run_concurrency (pf_concurrency file).
Definition quota_of (u : UnprovenConfig) : Quota :=
  mkQuota (uc_max_registrations u)
    (from_secs (default default_unproven_window_secs (uc_window_secs u))).

(** The quotas and the files that are accepted. *)
Record quota_accepted (u : UnprovenConfig) (ttl : Z) : Prop := {
  qa_max : uc_max_registrations u ≠ 0;
  qa_window : from_secs 1 <= quota_window (quota_of u) <= from_secs MAX_SECS;
  qa_remembered : most_remembered (quota_of u) ttl <= MAX_UNPROVEN_RUNS;
}.
Record file_accepted (file : PolicyFile) : Prop := {
  (** It admits a token and is valid for that, or only registers without
      proof. *)
  fa_policy :
    if proves (policy_of file) then Policy_validate (policy_of file) = Ok tt
    else is_Some (pf_unproven file);
  fa_narrows : proves (policy_of file) = true → narrows_workflows file = true →
    names_workflows (policy_of file) = true;
  fa_max_secs : file_max_secs file ≠ 0 ∧ file_max_secs file <= MAX_SECS;
  fa_concurrency : file_concurrency file ≠ 0;
  fa_quota : ∀ u, pf_unproven file = Some u → quota_accepted u (from_secs (file_max_secs file));
}.
Definition registrar_for (file : PolicyFile) : Registrar :=
  mkRegistrar
    (then_some (proves (policy_of file))
       (mkGithubOidc (default default_jwks_url (pf_jwks_url file)) (policy_of file)))
    (quota_of <$> pf_unproven file)
    (mkLimits (from_secs (file_max_secs file)) (file_concurrency file)).

(** What a registrar is sure to be. *)
Record registrar_ok (r : Registrar) : Prop := {
  rk_some : is_Some (rr_oidc r) ∨ is_Some (rr_unproven r);
  rk_limits : limits_ok (rr_limits r);
  rk_ttl : from_secs 1 <= ttl (rr_limits r) <= from_secs MAX_SECS;
  rk_policy : ∀ oidc, rr_oidc r = Some oidc →
    Policy_validate (go_policy oidc) = Ok tt ∧ proves (go_policy oidc) = true;
  rk_quota : ∀ q, rr_unproven r = Some q →
    0 < quota_max q ∧ 0 < quota_window q ∧
    most_remembered q (ttl (rr_limits r)) <= MAX_UNPROVEN_RUNS;
}.

Lemma quota_Ok u ttl q :
  quota u ttl = Ok q ↔ quota_accepted u ttl ∧ q = quota_of u.
Proof.
  unfold quota. fold (quota_of u). rewrite bind_Ok. split.
  - intros ([] & H1%refuse_if_Ok & ([] & H2%refuse_if_Ok & ([] & H3%refuse_if_Ok & [= <-])%bind_Ok)%bind_Ok).
    apply Z.eqb_neq in H1. apply negb_false_iff, andb_true_iff in H2 as [H2 H2'].
    apply Z.leb_le in H2, H2'. apply Z.ltb_ge in H3. split; [|done].
    split; [done| |done]. cbn. unfold from_secs. lia.
  - intros [[H1 H2 H3] ->]. exists tt. rewrite refuse_if_Ok, Z.eqb_neq. split; [done|].
    apply bind_Ok. exists tt. rewrite refuse_if_Ok, negb_false_iff, andb_true_iff, !Z.leb_le.
    cbn in H2. unfold from_secs in H2. split; [lia|].
    apply bind_Ok. exists tt. by rewrite refuse_if_Ok, Z.ltb_ge.
Qed.

Lemma map_err_Ok {E F A} (f : E → F) (r : result E A) a : map_err f r = Ok a ↔ r = Ok a.
Proof. destruct r; cbn; naive_solver. Qed.
Lemma fmap_Ok {E A B} (f : A → B) (r : result E A) b :
  f <$> r = Ok b ↔ ∃ a, r = Ok a ∧ b = f a.
Proof. destruct r; cbn; naive_solver. Qed.

Lemma no_entry_invalid p : proves p = false → Policy_validate p ≠ Ok tt.
Proof.
  intros Hp. unfold Policy_validate. rewrite Hp, orb_true_r.
  unfold proves, names_workflows in Hp. apply orb_false_iff in Hp as [[Hp _]%orb_false_iff _].
  apply negb_false_iff, andb_true_iff in Hp as [[Hp _]%andb_true_iff _].
  by rewrite Hp.
Qed.

Section registrar.
Context (from_yaml : string → result string PolicyFile) (build_client : result string unit).

Lemma registrar_of_Ok file r :
  registrar_of build_client file = Ok r ↔
  build_client = Ok tt ∧ file_accepted file ∧ r = registrar_for file.
Proof.
  unfold registrar_of. rewrite bind_Ok.
  assert (∀ u, (if proves (policy_of file) || is_none (pf_unproven file)
      then map_err BadPolicy (Policy_validate (policy_of file)) else Ok tt) = Ok u ↔
    (if proves (policy_of file) then Policy_validate (policy_of file) = Ok tt
     else is_Some (pf_unproven file))) as Hpol.
  { intros []. destruct (proves (policy_of file)) eqn:Hp; cbn [orb]; [apply map_err_Ok|].
    destruct (pf_unproven file) as [u|]; cbn [is_none]; [by split; [eexists|]|].
    rewrite map_err_Ok. split; [by intros ?%(no_entry_invalid _ Hp)|by intros [? ?]]. }
  fold (file_max_secs file) (file_concurrency file). split.
  - intros (? & H1%Hpol & ([] & H2%refuse_if_Ok & ([] & H3%refuse_if_Ok
      & ([] & H4%refuse_if_Ok & (unproven & H5 & ([] & H6 & [= <-])%bind_Ok)%bind_Ok)%bind_Ok)%bind_Ok)%bind_Ok).
    apply map_err_Ok in H6. split; [done|].
    apply orb_false_iff in H3 as [H3%Z.eqb_neq H3'%Z.eqb_neq]. apply Z.ltb_ge in H4. cbn [ttl] in H5.
    assert (unproven = quota_of <$> pf_unproven file ∧ ∀ u, pf_unproven file = Some u →
      quota_accepted u (from_secs (file_max_secs file))) as [-> Hq].
    { destruct (pf_unproven file) as [u|]; [|by injection H5 as <-].
      apply fmap_Ok in H5 as (q & Hq%map_err_Ok & ->). apply quota_Ok in Hq as [Hq ->].
      split; [done|]. by intros ? [= <-]. }
    split; [|done]. split; try done.
    intros Hp Hn. rewrite Hp, Hn, andb_true_r in H2. by apply negb_false_iff in H2.
  - intros (Hc & [H1 H2 [H3 H3'] H4 H5] & ->). exists tt. split; [by apply Hpol|].
    apply bind_Ok. exists tt. rewrite refuse_if_Ok. split.
    { destruct (proves _); [|done]. destruct (narrows_workflows file); [|by rewrite andb_false_r].
      by rewrite (H2 eq_refl eq_refl). }
    apply bind_Ok. exists tt. rewrite refuse_if_Ok, orb_false_iff, !Z.eqb_neq. split; [done|].
    apply bind_Ok. exists tt. rewrite refuse_if_Ok, Z.ltb_ge. split; [done|].
    apply bind_Ok. exists (quota_of <$> pf_unproven file). split.
    { destruct (pf_unproven file) as [u|]; [|done].
      apply fmap_Ok. exists (quota_of u). split; [|done]. apply map_err_Ok, quota_Ok.
      split; [by apply H5|done]. }
    apply bind_Ok. exists tt. by rewrite map_err_Ok.
Qed.

Lemma registrar_for_ok file :
  file_typed file → file_accepted file → registrar_ok (registrar_for file).
Proof.
  intros (Hs & Hc & Hu) [H1 H2 [H3 H3'] H4 H5].
  assert (is_u64 (file_max_secs file)) as Hsecs.
  { unfold file_max_secs. destruct (pf_max_secs file) as [n|]; [by apply Hs|].
    by vm_compute. }
  assert (is_u64 (file_concurrency file)) as Hcon.
  { unfold file_concurrency. destruct (pf_concurrency file) as [n|]; [by apply Hc|].
    by vm_compute. }
  unfold is_u64 in Hsecs, Hcon. split; cbn [registrar_for rr_oidc rr_unproven rr_limits ttl concurrency].
  - destruct (proves _); [by left; eexists|]. right. by apply fmap_is_Some.
  - split; cbn [ttl concurrency]; [unfold from_secs; lia|lia].
  - unfold from_secs. lia.
  - intros oidc. unfold then_some. destruct (proves (policy_of file)) eqn:Hp; [|done].
    by intros [= <-].
  - intros q (u & Hq & ->)%fmap_Some. destruct (H5 u Hq) as [Hm Hw Hr].
    destruct (Hu u Hq) as [[Hu1 _] _]. unfold from_secs in Hw.
    split; [cbn; lia|]. split; [lia|done].
Qed.

(** A registration policy is taken up exactly when its file is there and
    it admits tokens by an entry that is valid, with no setting that narrows
    an entry it lacks, or admits registration without proof; its lifetime
    and concurrency are positive and the lifetime at most [MAX_SECS]; and a
    quota, if given, is positive and keeps the runs it has remembered within
    their share of the registry. A registrar then has an entry or a quota,
    and sound limits. *)
Theorem registrar_load_spec read :
  (∀ text file, from_yaml text = Ok file → file_typed file) →
  (∀ r, Registrar_load from_yaml build_client read = Ok (Some r) ↔
    ∃ text file, read = Ok text ∧ from_yaml text = Ok file ∧ build_client = Ok tt ∧
      file_accepted file ∧ r = registrar_for file) ∧
  (∀ r, Registrar_load from_yaml build_client read = Ok (Some r) → registrar_ok r) ∧
  (Registrar_load from_yaml build_client read = Ok None ↔ read = Err NotFound).
Proof.
  intros Htyped. unfold Registrar_load.
  destruct read as [text|[|e]]; [|split_and!; naive_solver..].
  assert (∀ r, (map_err NotPolicyFile (from_yaml text)
      ≫= λ file, Some <$> registrar_of build_client file) = Ok (Some r) ↔
    ∃ file, from_yaml text = Ok file ∧ build_client = Ok tt ∧ file_accepted file ∧
      r = registrar_for file) as Hok.
  { intros r. rewrite bind_Ok. setoid_rewrite map_err_Ok. setoid_rewrite fmap_Ok.
    setoid_rewrite registrar_of_Ok. split.
    - intros (file & ? & r' & (? & ? & ->) & [= ->]). eauto.
    - intros (file & ? & ? & ? & ->). exists file. split; [done|]. eauto. }
  split_and!.
  - intros r. rewrite Hok. naive_solver.
  - intros r (file & Hf & _ & Ha & ->)%Hok. apply registrar_for_ok; [by eapply Htyped|done].
  - split; [|done]. intros (? & _ & (? & _ & ?)%fmap_Ok)%bind_Ok. done.
Qed.
End registrar.

(** ** Filters *)
Definition entry_typed (e : Entry) : Prop := is_u64 (e_concurrency e).
Record filter_ok (f : RunTokenFilter) : Prop := {
  fk_headers : f_token_headers f ≠ [];
  fk_credentials : f_credentials f ≠ ∅;
  fk_registrar : ∀ r, f_endpoints f = Serving r → registrar_ok r;
  fk_operators : ∀ hash op, f_operators f !! hash = Some op →
    1 <= op_concurrency op <= U64_MAX ∧
    ∀ cluster, cluster ∈ op_clusters op → f_credentials f !! cluster = Some Injected;
}.

Lemma header_names_length `{HeaderMap Hd} names names' :
  header_names (Hd:=Hd) names = Ok names' → length names' = length names.
Proof.
  revert names'; induction names as [|n names IH]; intros names'; cbn; [by intros [= <-]|].
  intros (m & _ & (l & Hl & ->)%fmap_Ok)%bind_Ok. cbn. by rewrite (IH l).
Qed.

Section from_config.
Context `{Crypto} `{HeaderMap Hd}.
Context (policy_yaml : string → result string PolicyFile) (build_client : result string unit)
  (tokens_yaml : string → result string TokensFile)
  (budget_yaml : string → result string BudgetFile)
  (read_file : string → result ReadError string).
Hypothesis Hpolicy : ∀ text file, policy_yaml text = Ok file → file_typed file.
Hypothesis Htokens : ∀ text file, tokens_yaml text = Ok file → Forall entry_typed file.

Lemma Operators_load_ok read injected operators hash op :
  Operators_load tokens_yaml read injected = Ok operators → operators !! hash = Some op →
  1 <= op_concurrency op <= U64_MAX ∧ op_clusters op ⊆ injected.
Proof.
  unfold Operators_load. destruct read as [text|[|e]]; [|by intros [= <-]|done].
  intros (file & Hf & [_ He _ _] & ->)%map_err_Ok%Operators_parse_Ok.
  intros Ho%elem_of_list_to_map_2. apply elem_of_index in Ho as (e & Hin & _ & ->).
  rewrite Forall_forall in He. destruct (He e Hin) as (_ & _ & Hc & _ & Hi).
  pose proof (Htokens _ _ Hf) as Ht. rewrite Forall_forall in Ht.
  destruct (Ht e Hin) as [? ?]. cbn. split; [lia|done].
Qed.
Lemma endpoints_ok registration endpoints r :
  endpoints_of policy_yaml build_client read_file registration = Ok endpoints →
  endpoints = Serving r → registrar_ok r.
Proof.
  unfold endpoints_of. destruct registration as [path|]; [|by intros [= <-]].
  intros (reg & Hr%map_err_Ok & [= <-])%bind_Ok. destruct reg as [reg|]; [|done]. intros [= ->].
  unfold Registrar_load in Hr. destruct (read_file path) as [text|[|e]]; [|done..].
  apply bind_Ok in Hr as (file & Hf%map_err_Ok & (r' & Hr & [= ->])%fmap_Ok).
  apply registrar_of_Ok in Hr as (_ & Ha & ->). apply registrar_for_ok; [by eapply Hpolicy|done].
Qed.

(** A filter that is built is well formed, and one that is not built leaves
    the registries as they were. *)
Lemma from_config_ok now config ps ps' r :
  from_config policy_yaml build_client tokens_yaml budget_yaml read_file (Hd:=Hd) now config ps
    = (ps', r) →
  match r with
  | Ok f => filter_ok f ∧ is_Some (ps_runs ps' !! f_registry f) ∧
      is_Some (rg_usage (ps_usage ps') !! f_registry f)
  | Err _ => ps' = ps
  end.
Proof.
  unfold from_config. destruct (_ ≫= _) as [[cfg f]|e] eqn:Hc; [|by intros [= <- <-]].
  apply bind_Ok in Hc as (c & _ & (hs & Hh & ([] & Hne%refuse_if_Ok
    & ([] & Hcr%refuse_if_Ok & (ep & Hep & (ops & Hops & (bud & _ & [= <- <-])%bind_Ok)%bind_Ok)%bind_Ok)%bind_Ok)%bind_Ok)%bind_Ok).
  cbn [f_registry f_endpoints f_operators].
  destruct (usage_named _ _ _) as [rg usage]. intros [= <- <-].
  apply bool_decide_eq_false in Hne, Hcr. split_and!; cbn [ps_runs ps_usage rg_usage].
  - split; cbn; [done|done|intros r ->; exact (endpoints_ok _ _ _ Hep eq_refl)|].
    intros hash op Hop. destruct (cf_operators c) as [path|]; [|by injection Hops as <-].
    apply map_err_Ok in Hops. destruct (Operators_load_ok _ _ _ _ _ Hops Hop) as [? Hsub].
    split; [done|]. intros cluster Hin%Hsub. unfold injected_clusters in Hin.
    apply elem_of_dom in Hin as [m Hm]. apply map_lookup_filter_Some in Hm as [Hm Hi].
    cbn in Hi. by subst m.
  - unfold named. destruct (ps_runs ps !! _) eqn:E; cbn [fst]; [by eexists|].
    by rewrite lookup_insert_eq.
  - by rewrite lookup_insert_eq.
Qed.
End from_config.

(** ** Witness *)
Definition sample_policy_file : PolicyFile :=
  mkPolicyFile None None (Some {["o/r/.github/workflows/agent.yml@refs/heads/main"]}) (Some {[7]})
    None None None None None None (Some 3600) None (Some (mkUnprovenConfig 10 None)).
Lemma registrar_load_spec_witness :
  ∃ r, Registrar_load (λ _, Ok sample_policy_file) (Ok tt) (Ok "policy"%string) = Ok (Some r) ∧
    registrar_ok r ∧ rr_unproven r = Some (mkQuota 10 (from_secs 3600)).
Proof.
  destruct (registrar_load_spec (λ _, Ok sample_policy_file) (Ok tt) (Ok "policy"%string))
    as (_ & Hok & _).
  { intros _ file [= <-]. split; [by intros n [= <-]; vm_compute|]. split; [done|].
    intros u [= <-]. split; [by vm_compute|done]. }
  exists (registrar_for sample_policy_file).
  assert (Registrar_load (λ _, Ok sample_policy_file) (Ok tt) (Ok "policy"%string) =
    Ok (Some (registrar_for sample_policy_file))) as Hl by (vm_compute; reflexivity).
  split; [exact Hl|]. split; [exact (Hok _ Hl)|reflexivity].
Defined.
