(* ===== verification/GatewaySafety.v ===== *)
(** * The [run_token] filter: what reaches an upstream, and what creates runs

    The theorems about one request: which requests go on to an upstream and
    with which of their headers, which requests register a run, and which
    web pages may read [/usage]. *)
From S2P Require Import Prelude Crypto Headers Pools Budget Runs Oidc Operators Usage.
From S2P Require Import Filter Gateway RunsInvariants.
Local Open Scope Z_scope.

(** ** Tokens inside header values *)
Lemma run_token_contained `{Crypto} random v :
  contains_str (new_token random).1 v = true →
  contains_str TOKEN_PREFIX (to_ascii_lowercase v) = true.
Proof.
  cbn [new_token fst]. intros Hc%contains_str_prefix%contains_str_lowercase. exact Hc.
Qed.
Lemma operator_token_contained `{Crypto} operators token h o v :
  Operators_authenticate operators token = Some (h, o) → contains_str token v = true →
  contains_str OPERATOR_TOKEN_PREFIX (to_ascii_lowercase v) = true.
Proof.
  unfold Operators_authenticate.
  destruct (starts_with OPERATOR_TOKEN_PREFIX token) eqn:Hp; [|done]. cbn [negb]. intros _.
  apply starts_with_true in Hp as [r ->].
  intros Hc%contains_str_prefix%contains_str_lowercase. exact Hc.
Qed.

Lemma not_second {A} (l : list A) : is_some (l !! 1%nat) = false → l = [] ∨ ∃ a, l = [a].
Proof. destruct l as [|a [|b l]]; [by left|by right; exists a|done]. Qed.

Section requests.
Context `{Crypto} {Hd : Type} `{HeaderMapLaws Hd} {Key : Type}.
Context (decode_header : string → option Header)
  (decode_jwt : string → Key → Validation → result DecodeError Claims)
  (issued_after : Z) (to_vec : Body → option string)
  {Identity : Type} (new_identity : string → option Identity) (self : RunTokenFilter).
Local Abbreviation on_request :=
  (on_request decode_header decode_jwt issued_after to_vec new_identity self).
Implicit Types (ctx : Context (Hd:=Hd) (Identity:=Identity)) (w : World Key) (env : Env Key).

(** The headers a request goes on with. *)
Definition forwarded ctx : list (string * string) :=
  filter (λ '(n, _), n ∉ cx_remove ctx) (hm_iter (rq_headers (cx_request ctx))).
Lemma forwarded_removed ctx n : n ∈ cx_remove ctx → values_of n (forwarded ctx) = [].
Proof.
  intros Hn. unfold forwarded.
  destruct (values_of n _) as [|v l] eqn:E; [done|]. exfalso.
  assert ((n, v) ∈ filter (λ '(n, _), n ∉ cx_remove ctx) (hm_iter (rq_headers (cx_request ctx))))
    as [? _]%list_elem_of_filter by (apply elem_of_values_of; rewrite E; by left).
  done.
Qed.
Lemma forwarded_sub ctx n v :
  v ∈ values_of n (forwarded ctx) → v ∈ hm_get_all n (rq_headers (cx_request ctx)).
Proof.
  unfold forwarded. rewrite hm_iter_get, !elem_of_values_of, list_elem_of_filter. tauto.
Qed.

Lemma elem_of_stripped mode n :
  n ∈ stripped self mode ↔
  n ∈ f_token_headers self ∧ ¬ (mode = PassThrough ∧ n = AUTHORIZATION).
Proof.
  unfold stripped. rewrite !list_elem_of_In, filter_In.
  rewrite negb_true_iff, andb_false_iff, !bool_decide_eq_false. split.
  - naive_solver.
  - intros [? Hn]. split; [done|]. destruct (decide (mode = PassThrough)); naive_solver.
Qed.

(** What [admit_caller] admits: an operator for its clusters, or an active
    run, below their concurrency. *)
Definition operator_admitted (cluster : string) w w' (hash : string) (op : Operator) : Prop :=
  f_operators self !! hash = Some op ∧ cluster ∈ op_clusters op ∧
  slot_count hash w < op_concurrency op ∧
  slot_count hash w' = wrap_add (slot_count hash w) 1 ∧
  w_runs w' = w_runs w.
Definition run_admitted env w w' (key : RunKey) : Prop :=
  let st := State_prune (e_now env) (w_runs w) in
  ∃ run, runs st !! key = Some run ∧ run_state run = Active ∧
    run_in_flight run < run_concurrency run ∧ w_slots w' = w_slots w ∧
    runs (w_runs w') =
      <[key := run_with_in_flight (wrap_add (run_in_flight run) 1) run]> (runs st).

Inductive caller_admitted env (cluster : string) w w' (token : string) : string → Caller → Prop :=
| admitted_operator hash op free :
    Operators_authenticate (f_operators self) token = Some (hash, op) →
    operator_admitted cluster w w' hash op →
    caller_admitted env cluster w w' token (Operator_subject op) (CallerOperator hash op free)
| admitted_run key a :
    Operators_authenticate (f_operators self) token = None →
    tokens (State_prune (e_now env) (w_runs w)) !! token_hash token = Some key →
    run_admitted env w w' key → adm_key a = key → adm_settled a = false →
    caller_admitted env cluster w w' token (subject key) (CallerRun a).

Lemma Operator_admit_cases op cluster n :
  match Operator_admit op cluster n with
  | (n', Ok _) => cluster ∈ op_clusters op ∧ n < op_concurrency op ∧ n' = wrap_add n 1
  | (n', Err Forbidden) => (cluster ∉ op_clusters op) ∧ n' = n
  | (n', Err OpBusy) => cluster ∈ op_clusters op ∧ op_concurrency op <= n ∧
      n' = wrap_add n 1
  end.
Proof.
  unfold Operator_admit, admit_slot. case_bool_decide as Hc; [|done].
  cbn [in_flight]. by destruct (Z.leb_spec (op_concurrency op) n).
Qed.
Lemma slot_count_set hash n w : slot_count hash (set_slot hash n w) = n.
Proof. unfold slot_count. cbn. by rewrite lookup_insert_eq. Qed.

Lemma admit_caller_spec env headers cluster w w' subject caller :
  admit_caller self env headers cluster w = (w', Ok (subject, caller)) →
  w_usage w' = w_usage w ∧
  ∃ name tok, token self headers = Some (name, tok) ∧
    caller_admitted env cluster w w' tok subject caller.
Proof.
  unfold admit_caller. destruct (token self headers) as [[name tok]|]; [|done].
  destruct (Operators_authenticate (f_operators self) tok) as [[hash op]|] eqn:Hop.
  - pose proof (Operator_admit_cases op cluster (slot_count hash w)) as Ha.
    destruct (Operator_admit op cluster _) as [n [u|[]]]; intros [= <- <- <-].
    split; [done|]. exists name, tok. split; [done|]. constructor; [done|].
    destruct Ha as (? & ? & ->). split_and!; try done.
    + revert Hop. unfold Operators_authenticate. destruct (negb _); [done|].
      destruct (f_operators self !! _) eqn:E; [|done]. by intros [= <- <-].
    + apply slot_count_set.
  - unfold authenticate. destruct (tokens _ !! _) as [key|] eqn:Hk; [|done].
    unfold admit_run. set (st := State_prune (e_now env) (State_prune (e_now env) (w_runs w))).
    destruct (runs st !! key) as [run|] eqn:Hrun; [|done].
    destruct (is_active run) eqn:Hact; cbn [negb]; [|done].
    destruct (Z.leb_spec (run_concurrency run) (run_in_flight run)); [done|].
    intros [= <- <- <-]. split; [done|]. exists name, tok. split; [done|].
    subst st. rewrite prune_runs_idemp in Hrun.
    eapply admitted_run; try done. exists run. split_and!; try done.
    + by apply bool_decide_eq_true in Hact.
    + cbn [set_runs w_runs with_runs runs]. by rewrite prune_runs_idemp.
Qed.

(** ** What is forwarded *)
Lemma serve_usage_not_continue request get :
  (∀ h, get h ≠ Continue) → serve_usage self request get ≠ Continue.
Proof.
  intros Hget. unfold serve_usage, reject.
  destruct (rq_method request); [apply Hget|done|done|by destruct (allowed_origin _ _)|done].
Qed.
Lemma json_not_continue status body (h : Hd) : json_with to_vec status body h ≠ Continue.
Proof. unfold json_with, reject. by destruct (to_vec body). Qed.
Lemma serve_grant_not_continue env usage request (h : Hd) :
  serve_grant to_vec self env usage request h ≠ Continue.
Proof.
  unfold serve_grant. destruct (f_budget self); [|done].
  destruct (omap _ _) as [|name [|??]]; [done| |done].
  destruct (Consumer_parse name); [|done]. apply json_not_continue.
Qed.
Lemma register_proven_not_continue env registrar (headers : Hd) w :
  (register_proven decode_header decode_jwt issued_after to_vec env registrar headers w).2
    ≠ Continue.
Proof.
  unfold register_proven. destruct (rr_oidc registrar); [|done].
  destruct (_ =? 0); [done|]. destruct (bearer headers); [|done].
  destruct (verify _ _ _ _ _ _ _ _) as [cache [id|[]]]; try done.
  destruct (Runs.register _ _ _ _ _ _) as [st [[token rec]|[]]]; try done.
  apply json_not_continue.
Qed.
Lemma register_unproven_not_continue env q limits (headers : Hd) w :
  (register_unproven_run to_vec env q limits headers w).2 ≠ Continue.
Proof.
  unfold register_unproven_run. destruct (existsb _ _); [done|].
  destruct (hm_get_all _ _) as [|name [|??]]; [done| |done].
  destruct (hm_to_str name ≫= RunName_new); [|done].
  destruct (register_unproven _ _ _ _ _ _ _) as [st [[token rec]|[]]]; try done.
  apply json_not_continue.
Qed.
Lemma serve_runs_not_continue env registrar request w :
  (serve_runs decode_header decode_jwt issued_after to_vec self env registrar request w).2
    ≠ Continue.
Proof.
  unfold serve_runs. case_bool_decide.
  - destruct (rq_method request); try done. destruct registrar as [registrar|]; [|done].
    unfold register_run. destruct (rr_unproven registrar);
      [destruct (hm_contains _ _)|]; auto using register_proven_not_continue,
        register_unproven_not_continue.
  - case_bool_decide; [|done]. destruct (rq_method request); try done; unfold with_own_run;
      destruct (run_of _ _ _ _) as [st [key|]]; try done.
    + destruct (record _ _ _) as [st' [r|]]; [apply json_not_continue|done].
    + destruct (finish _ _ _ _) as [st' [r|]]; [apply json_not_continue|done].
Qed.

(** The registrations and reads the filter answers itself. *)
Definition served (path : string) : Prop :=
  path = USAGE_PATH ∨ path = GRANT_PATH ∨ path = RUNS_PATH ∨ starts_with "/v1/runs/" path = true.

Lemma admit_for_not_continue env cluster mode free ctx w w' ctx' :
  admit_for new_identity self env cluster mode free ctx w ≠ (w', ctx', Ok (Err Continue)).
Proof.
  destruct mode; cbn [admit_for].
  - unfold injected, admit_caller. destruct (token _ _) as [[? tok]|]; [|done].
    destruct (Operators_authenticate _ _) as [[hash op]|].
    + destruct (Operator_admit _ _ _) as [n [u|[]]]; try done. by destruct (new_identity _).
    + unfold authenticate. destruct (tokens _ !! _); [|done].
      destruct (admit_run _ _ _) as [st [a|[]]]; try done. by destruct (new_identity _).
  - unfold pass_through, refuse_if, reject.
    destruct (contains_str TOKEN_PREFIX _); [done|].
    by destruct (contains_str OPERATOR_TOKEN_PREFIX _).
Qed.
Lemma on_request_continue env ctx w w' ctx' :
  on_request env ctx w = (w', ctx', Ok Continue) →
  let request := cx_request ctx in
  ¬ served (rq_path request) ∧
  (hm_get_all AUTHORIZATION (rq_headers request) = [] ∨
   (∃ v, hm_get_all AUTHORIZATION (rq_headers request) = [v])) ∧
  ((rq_path request ∈ f_public_paths self ∧ w' = w ∧
     ctx' = with_remove (f_token_headers self) ctx) ∨
   (rq_path request ∉ f_public_paths self) ∧
   ∃ cluster mode caller ctx1, cx_cluster ctx = Some cluster ∧
     f_credentials self !! cluster = Some mode ∧
     let free := bool_decide (rq_path request ∈ f_usage_free_paths self) in
     admit_for new_identity self env cluster mode free (with_remove (stripped self mode) ctx) w
       = (w', ctx1, Ok (Ok caller)) ∧
     ctx' = with_metered (Some (mkMetered mode
       (if bool_decide (mode = Injected) && negb free then for_cluster (cx_cluster ctx1) else None)
       false caller)) ctx1).
Proof.
  unfold Gateway.on_request, served. cbv zeta.
  case_bool_decide as Hu.
  { intros [= _ _ Hs]. exfalso. revert Hs. apply serve_usage_not_continue. intros h.
    apply json_not_continue. }
  case_bool_decide as Hg.
  { intros [= _ _ Hs]. exfalso. revert Hs. apply serve_usage_not_continue. intros h.
    apply serve_grant_not_continue. }
  destruct (bool_decide (_ = RUNS_PATH) || _) eqn:Hr.
  { destruct (f_endpoints self) as [| |registrar]; [done|..].
    - pose proof (serve_runs_not_continue env None (cx_request ctx) w) as Hn.
      destruct (serve_runs _ _ _ _ _ _ _ _ _). cbn in Hn. congruence.
    - pose proof (serve_runs_not_continue env (Some registrar) (cx_request ctx) w) as Hn.
      destruct (serve_runs _ _ _ _ _ _ _ _ _). cbn in Hn. congruence. }
  apply orb_false_iff in Hr as [Hr1%bool_decide_eq_false Hr2].
  destruct (is_some _) eqn:Hauth; [done|].
  intros Hreq. split; [intros [?|[?|[?|?]]]; congruence|]. split; [by apply not_second|].
  revert Hreq. case_bool_decide as Hp.
  { intros [= <- <-]. by left. }
  intros Hreq. right. split; [done|]. revert Hreq. unfold mode_of.
  destruct (cx_cluster ctx) as [cluster|] eqn:Hcl; [|done].
  destruct (f_credentials self !! cluster) as [mode|] eqn:Hm; [|done]. cbn [fmap option_fmap option_map].
  destruct (admit_for _ _ _ _ _ _ _ _) as [[w1 ctx1] [[caller|refusal]|e]] eqn:Ha; [|
    intros [= -> -> ->]|done].
  - intros [= <- <-]. by exists cluster, mode, caller, ctx1.
  - exfalso. revert Ha. apply admit_for_not_continue.
Qed.

(** A value in which no token of this broker's runs or operators occurs. *)
Definition no_token (v : string) : Prop :=
  (∀ random, contains_str (new_token random).1 v = false) ∧
  (∀ tok hash op, Operators_authenticate (f_operators self) tok = Some (hash, op) →
     contains_str tok v = false).

(** How a request goes on to an upstream: to a public path; with its caller's
    own credential; or, with the broker's, for the caller it was admitted
    for. *)
Inductive goes_on env ctx w w' ctx' : Prop :=
| goes_public :
    rq_path (cx_request ctx) ∈ f_public_paths self → w' = w →
    (∀ n, n ∈ f_token_headers self → values_of n (forwarded ctx') = []) →
    goes_on env ctx w w' ctx'
| goes_pass_through cluster :
    cx_cluster ctx = Some cluster → f_credentials self !! cluster = Some PassThrough → w' = w →
    cx_metered ctx' = Some (mkMetered PassThrough None false None) →
    (∀ n, n ∈ f_token_headers self → n ≠ AUTHORIZATION → values_of n (forwarded ctx') = []) →
    (∀ v, v ∈ values_of AUTHORIZATION (forwarded ctx') → no_token v) →
    goes_on env ctx w w' ctx'
| goes_injected cluster name tok subject caller :
    let free := bool_decide (rq_path (cx_request ctx) ∈ f_usage_free_paths self) in
    cx_cluster ctx = Some cluster → f_credentials self !! cluster = Some Injected →
    token self (rq_headers (cx_request ctx)) = Some (name, tok) →
    caller_admitted env cluster w w' tok subject caller →
    is_Some (cx_identity ctx') → cx_identity ctx' = new_identity subject →
    cx_metered ctx' = Some (mkMetered Injected (if free then None else for_cluster (Some cluster))
      false (Some (set_usage_free free caller))) →
    (∀ n, n ∈ f_token_headers self → values_of n (forwarded ctx') = []) →
    goes_on env ctx w w' ctx'.

Lemma pass_through_Ok request v :
  pass_through request = Ok tt → hm_get_all AUTHORIZATION (rq_headers request) = [v] →
  no_token v.
Proof.
  unfold pass_through, hm_get. rewrite bind_Ok. intros ([] & Hr%refuse_if_Ok & Ho%refuse_if_Ok) Hv.
  rewrite Hv in Hr. rewrite Hv in Ho. cbn [head default] in Hr, Ho. split.
  - intros random. apply not_true_is_false. intros Hc%run_token_contained.
    exact (eq_true_false_abs _ Hc Hr).
  - intros tok hash op Htok. apply not_true_is_false.
    intros Hc%(operator_token_contained _ _ _ _ _ Htok). exact (eq_true_false_abs _ Hc Ho).
Qed.

Lemma request_goes_on env ctx w w' ctx' :
  on_request env ctx w = (w', ctx', Ok Continue) →
  ¬ served (rq_path (cx_request ctx)) ∧ goes_on env ctx w w' ctx'.
Proof.
  intros Hreq. destruct (on_request_continue _ _ _ _ _ Hreq) as (Hs & Hauth & Hway).
  split; [done|]. destruct Hway as [(Hp & -> & ->)|(_ & cluster & mode & caller & ctx1 & Hc & Hm & Ha & ->)].
  { apply goes_public; [done..|]. intros n Hn. apply forwarded_removed. cbn.
    apply elem_of_app. by right. }
  destruct mode; cbn [admit_for] in Ha.
  - unfold injected in Ha.
    destruct (admit_caller _ _ _ _ _) as [w1 [[subject c]|]] eqn:Hadm; [|done].
    destruct (new_identity subject) as [id|] eqn:Hid; [|done].
    injection Ha as <- <- <-. apply admit_caller_spec in Hadm as (_ & name & tok & Htok & Hadm).
    eapply goes_injected; try done.
    + cbn. rewrite Hc, (bool_decide_eq_true_2 (Injected = Injected)) by done. cbn.
      by destruct (bool_decide (_ ∈ _)).
    + intros n Hn. apply forwarded_removed. cbn. apply elem_of_app. right.
      apply elem_of_stripped. split; [done|]. by intros [? _].
  - destruct (pass_through _) as [[]|] eqn:Hpass; [|done]. injection Ha as <- <- <-.
    eapply goes_pass_through; try done.
    + intros n Hn Hne. apply forwarded_removed. cbn. apply elem_of_app. right.
      apply elem_of_stripped. split; [done|]. by intros [_ ?].
    + intros v Hv%forwarded_sub. cbn in Hv.
      destruct Hauth as [Hn|[v' Hv']]; [rewrite Hn in Hv; by apply elem_of_nil in Hv|].
      rewrite Hv' in Hv. apply list_elem_of_singleton in Hv as ->.
      by eapply pass_through_Ok.
Qed.

(** C1: a request the filter lets go on to an upstream is to a public path, to
    a pass-through route or to an injected one. On an injected route it
    carried, in the first token header it has, a token of an operator allowed
    there or of an active run, with room in its concurrency, takes one slot
    of it, and is metered as that caller's. No header that may carry a
    token of the broker's own is forwarded with it, but a pass-through
    caller's one [Authorization], and in that no such token occurs, in any
    spelling of the scheme. *)
Theorem continue_spec env ctx w w' ctx' :
  on_request env ctx w = (w', ctx', Ok Continue) →
  ¬ served (rq_path (cx_request ctx)) ∧ goes_on env ctx w w' ctx'.
Proof. apply request_goes_on. Qed.

(** ** What creates a run *)
Definition no_new (st st' : State) : Prop := ∀ k, runs st !! k = None → runs st' !! k = None.
#[local] Instance no_new_preorder : PreOrder no_new.
Proof. split; [by intros st k|]. intros st1 st2 st3 H12 H23 k Hk. by apply H23, H12. Qed.
Lemma no_new_prune now st : no_new st (State_prune now st).
Proof. intros k Hk. by rewrite prune_lookup, Hk. Qed.
Lemma no_new_update k r r' st : runs st !! k = Some r → no_new st (with_runs <[k := r']> st).
Proof. intros Hk k' Hk'. cbn. rewrite lookup_insert_ne; [done|congruence]. Qed.
Lemma no_new_settle key o st : no_new st (settle key o st).
Proof. intros k Hk. by rewrite settle_frame, Hk. Qed.
Lemma no_new_admit key now st : no_new st (admit_run key now st).1.
Proof.
  unfold admit_run. etransitivity; [apply (no_new_prune now)|].
  destruct (runs _ !! key) as [run|] eqn:Hr; [|done].
  destruct (negb _); [done|]. destruct (_ <=? _); [done|]. by eapply no_new_update.
Qed.
Lemma no_new_finish key now unix st : no_new st (Runs.finish key now unix st).1.
Proof.
  unfold Runs.finish. etransitivity; [apply (no_new_prune now)|].
  destruct (runs _ !! key) as [run|] eqn:Hr; [|done].
  destruct (is_active run); [|done]. by apply (no_new_update _ _ _ _ Hr).
Qed.
Lemma no_new_admit_caller env headers cluster w :
  no_new (w_runs w) (w_runs (admit_caller self env headers cluster w).1).
Proof.
  unfold admit_caller. destruct (token self headers) as [[? tok]|]; [|done].
  destruct (Operators_authenticate _ _) as [[hash op]|].
  { by destruct (Operator_admit _ _ _) as [n [u|[]]]. }
  unfold authenticate. pose proof (no_new_prune (e_now env) (w_runs w)) as Hp.
  destruct (tokens _ !! _) as [key|]; [|done].
  pose proof (no_new_admit key (e_now env) (State_prune (e_now env) (w_runs w))) as Ha.
  destruct (admit_run _ _ _) as [st a]. cbn in Ha |- *. by etransitivity.
Qed.
Lemma no_new_drop caller w : no_new (w_runs w) (w_runs (drop_caller caller w)).
Proof.
  destruct caller as [[a|hash op free]|]; [|done..]. cbn. unfold Admission_drop.
  destruct (adm_settled a); [done|]. apply no_new_settle.
Qed.
Lemma no_new_admit_for env cluster mode free ctx w :
  no_new (w_runs w) (w_runs (admit_for new_identity self env cluster mode free ctx w).1.1).
Proof.
  destruct mode; [|done]. cbn [admit_for]. unfold injected.
  pose proof (no_new_admit_caller env (rq_headers (cx_request ctx)) cluster w) as Ha.
  destruct (admit_caller _ _ _ _ _) as [w1 [[subject caller]|]]; [|done].
  destruct (new_identity subject); [done|]. cbn [fst] in Ha |- *.
  etransitivity; [exact Ha|]. apply no_new_drop.
Qed.
Lemma no_new_own_run env (headers : Hd) f w :
  (∀ key st, no_new st (f key st).1) →
  no_new (w_runs w) (w_runs (with_own_run to_vec self env headers f w).1).
Proof.
  intros Hf. unfold with_own_run, run_of, authenticate.
  destruct (token self headers) as [[? tok]|]; [|done].
  pose proof (no_new_prune (e_now env) (w_runs w)) as Hp.
  destruct (tokens _ !! _) as [key|]; [|done].
  pose proof (Hf key (State_prune (e_now env) (w_runs w))) as Hk.
  destruct (f _ _) as [st r]. cbn in Hk |- *. by etransitivity.
Qed.

(** A run a registration created: from an identity the policy admits, or
    under the name its caller chose within the quota. *)
Definition proven env registrar (headers : Hd) w (key : RunKey) (consumer : Consumer) : Prop :=
  ∃ oidc jwt id cache, rr_oidc registrar = Some oidc ∧ bearer headers = Some jwt ∧
    verify decode_header decode_jwt (go_policy oidc) issued_after jwt (e_clock env)
      (e_fetched env) (w_keys w) = (cache, Ok id) ∧
    key = RunIdentity_key id ∧ consumer = id_consumer id.
Definition unproven_named registrar (headers : Hd) (key : RunKey) (consumer : Consumer) : Prop :=
  ∃ quota v s name, rr_unproven registrar = Some quota ∧
    hm_get_all AUTHORIZATION headers = [] ∧
    (∀ n, n ∈ BROWSER_HEADERS → hm_get_all n headers = []) ∧
    hm_get_all RUN_ID headers = [v] ∧ hm_to_str (H:=Hd) v = Some s ∧ RunName_new s = Some name ∧
    key = Unproven name ∧ consumer = Private.
Definition registered_run env registrar (key : RunKey) (run : Run) w' (action : FilterAction (Hd:=Hd))
    : Prop :=
  run_state run = Active ∧ run_concurrency run = concurrency (rr_limits registrar) ∧
  run_expires run = e_now env + ttl (rr_limits registrar) ∧ run_in_flight run = 0 ∧
  ∃ token, tokens (w_runs w') !! token_hash token = Some key ∧
    action = json to_vec 201 (RegisteredBody token (run_record run)).

Definition fresh_run (limits : Limits) (now : Z) (run : Run) (consumer : Consumer) : Prop :=
  run_state run = Active ∧ run_concurrency run = concurrency limits ∧
  run_expires run = now + ttl limits ∧ run_in_flight run = 0 ∧ run_consumer run = consumer.
Lemma register_new id limits now random unix st key run :
  runs st !! key = None →
  runs (Runs.register id limits now random unix st).1 !! key = Some run →
  key = RunIdentity_key id ∧ fresh_run limits now run (id_consumer id) ∧
  ∃ token, (Runs.register id limits now random unix st).2 = Ok (token, run_record run) ∧
    tokens (Runs.register id limits now random unix st).1 !! token_hash token = Some key.
Proof.
  intros Hn. apply (no_new_prune now) in Hn. unfold Runs.register.
  set (st0 := State_prune now st) in *. cbn [new_token].
  destruct (runs st0 !! RunIdentity_key id) as [r|] eqn:Hr.
  { destruct (_ || _); cbn [fst snd with_runs with_tokens runs]; [congruence|].
    rewrite lookup_insert_ne by congruence. congruence. }
  destruct (_ <=? _); cbn [fst snd with_runs with_tokens runs State_insert]; [congruence|].
  rewrite lookup_insert_Some. intros [[<- <-]|[_ ?]]; [|congruence].
  split; [done|]. split; [done|]. eexists. split; [done|]. apply lookup_insert_eq.
Qed.
Lemma register_unproven_new name limits q now random unix st key run :
  runs st !! key = None →
  runs (register_unproven name limits q now random unix st).1 !! key = Some run →
  key = Unproven name ∧ fresh_run limits now run Private ∧
  ∃ token, (register_unproven name limits q now random unix st).2 = Ok (token, run_record run) ∧
    tokens (register_unproven name limits q now random unix st).1 !! token_hash token = Some key.
Proof.
  intros Hn. apply (no_new_prune now) in Hn. unfold register_unproven.
  set (st0 := State_prune now st) in *. cbn [new_token].
  destruct (runs st0 !! Unproven name) as [r|] eqn:Hr; [cbn [fst]; congruence|].
  destruct (_ <=? _); cbn [fst with_unproven runs]; [congruence|].
  destruct (_ || _); cbn [fst snd with_runs with_tokens with_unproven runs State_insert]; [congruence|].
  rewrite lookup_insert_Some. intros [[<- <-]|[_ ?]]; [|congruence].
  split; [done|]. split; [done|]. eexists. split; [done|]. apply lookup_insert_eq.
Qed.

Lemma no_header n (headers : Hd) : hm_contains n headers = false → hm_get_all n headers = [].
Proof. unfold hm_contains. by destruct (hm_get_all n headers). Qed.

Lemma register_proven_new env registrar (headers : Hd) w key run :
  let '(w', action) :=
    register_proven decode_header decode_jwt issued_after to_vec env registrar headers w in
  runs (w_runs w) !! key = None → runs (w_runs w') !! key = Some run →
  proven env registrar headers w key (run_consumer run) ∧
  registered_run env registrar key run w' action.
Proof.
  unfold register_proven. destruct (rr_oidc registrar) as [oidc|] eqn:Ho; [|congruence].
  destruct (_ =? 0); [congruence|]. destruct (bearer headers) as [jwt|] eqn:Hb; [|congruence].
  destruct (verify _ _ _ _ _ _ _ _) as [cache [id|[]]] eqn:Hv; try (cbn; congruence).
  pose proof (register_new id (rr_limits registrar) (e_now env) (e_random env) (e_unix env)
    (w_runs w) key run) as Hn.
  cbn [set_keys w_runs].
  destruct (Runs.register _ _ _ _ _ _) as [st res]. cbn [fst snd] in Hn. intros Hnone Hsome.
  destruct (Hn Hnone Hsome) as (-> & (? & ? & ? & ? & ->) & token & -> & Ht). split.
  - by exists oidc, jwt, id, cache.
  - split_and!; [done..|]. exists token. by split.
Qed.
Lemma register_unproven_run_new env registrar q (headers : Hd) w key run :
  rr_unproven registrar = Some q → hm_contains AUTHORIZATION headers = false →
  let '(w', action) :=
    register_unproven_run to_vec env q (rr_limits registrar) headers w in
  runs (w_runs w) !! key = None → runs (w_runs w') !! key = Some run →
  unproven_named registrar headers key (run_consumer run) ∧
  registered_run env registrar key run w' action.
Proof.
  intros Hq Ha. unfold register_unproven_run.
  destruct (existsb _ _) eqn:Hb; [congruence|].
  destruct (hm_get_all RUN_ID headers) as [|v [|??]] eqn:Hid; [congruence| |congruence].
  destruct (hm_to_str v) as [s|] eqn:Hs; cbn [mbind option_bind]; [|congruence].
  destruct (RunName_new s) as [name|] eqn:Hname; [|congruence].
  pose proof (register_unproven_new name (rr_limits registrar) q (e_now env) (e_random env)
    (e_unix env) (w_runs w) key run) as Hn.
  destruct (register_unproven _ _ _ _ _ _ _) as [st res]. cbn [fst snd] in Hn.
  assert (∀ w1 action, w_runs w1 = st →
    (∀ token rec, res = Ok (token, rec) → action = json to_vec 201 (RegisteredBody token rec)) →
    runs (w_runs w) !! key = None → runs (w_runs w1) !! key = Some run →
    unproven_named registrar headers key (run_consumer run) ∧
    registered_run env registrar key run w1 action) as Hgo.
  { intros w1 action Hw1 Hact Hnone Hsome. unfold registered_run. rewrite Hw1 in Hsome |- *.
    destruct (Hn Hnone Hsome) as (-> & (? & ? & ? & ? & ->) & token & Hres & Ht). split.
    - exists q, v, s, name. split_and!; try done; [by apply no_header|].
      intros n Hin. apply no_header. apply not_true_is_false. intros Hc.
      enough (existsb (λ name, hm_contains name headers) BROWSER_HEADERS = true) by congruence.
      apply existsb_exists. exists n. split; [by apply list_elem_of_In|done].
    - split_and!; [done..|]. exists token. split; [done|]. by apply Hact. }
  destruct res as [[token rec]|[]]; apply Hgo; try done. by intros ?? [= -> ->].
Qed.

Lemma serve_runs_new env registrar request w w' action key run :
  serve_runs decode_header decode_jwt issued_after to_vec self env registrar request w
    = (w', action) →
  runs (w_runs w) !! key = None → runs (w_runs w') !! key = Some run →
  rq_path request = RUNS_PATH ∧ rq_method request = POST ∧
  ∃ reg, registrar = Some reg ∧
    (proven env reg (rq_headers request) w key (run_consumer run) ∨
     unproven_named reg (rq_headers request) key (run_consumer run)) ∧
    registered_run env reg key run w' action.
Proof.
  intros Hreq Hnone Hsome.
  assert (¬ no_new (w_runs w) (w_runs w')) as Hnew
    by (intros Hno; rewrite (Hno key Hnone) in Hsome; done).
  revert Hreq. unfold serve_runs. case_bool_decide as Hp.
  - destruct (rq_method _); try (intros [= -> _]; by destruct Hnew).
    destruct registrar as [reg|]; [|intros [= -> _]; by destruct Hnew].
    unfold register_run.
    pose proof (register_proven_new env reg (rq_headers request) w key run) as Hpr.
    intros Heq. split; [done|]. split; [done|]. exists reg. split; [done|].
    destruct (rr_unproven reg) as [q|] eqn:Hq; [destruct (hm_contains _ _) eqn:Hc|].
    + rewrite Heq in Hpr. destruct (Hpr Hnone Hsome). tauto.
    + pose proof (register_unproven_run_new env reg q (rq_headers request) w key run Hq Hc)
        as Hun. rewrite Heq in Hun. destruct (Hun Hnone Hsome). tauto.
    + rewrite Heq in Hpr. destruct (Hpr Hnone Hsome). tauto.
  - intros Hs. exfalso. apply Hnew. revert Hs.
    case_bool_decide; [|by intros [= -> _]].
    destruct (rq_method _); try by intros [= -> _].
    + pose proof (no_new_own_run env (rq_headers request) (λ key, record key (e_now env)) w
        (λ k st, no_new_prune _ st)) as Ho. intros Heq. by rewrite Heq in Ho.
    + pose proof (no_new_own_run env (rq_headers request)
        (λ key, Runs.finish key (e_now env) (e_unix env)) w
        (λ k st, no_new_finish k _ _ st)) as Ho. intros Heq. by rewrite Heq in Ho.
Qed.

(** C3: a request creates a run only by a [POST] to [/v1/runs] of a chain with
    a policy, and only either with a bearer token that verifies, for the run
    its claims name and the consumer the policy gives it, or, if the
    policy admits registration without proof, with no [Authorization] and no
    header a browser adds, under the one valid name it gives. The run then
    is active, has the policy's limits, and the answer is a token that
    names it. *)
Theorem registration_spec env ctx w w' ctx' r key run :
  on_request env ctx w = (w', ctx', r) →
  runs (w_runs w) !! key = None → runs (w_runs w') !! key = Some run →
  let request := cx_request ctx in
  rq_path request = RUNS_PATH ∧ rq_method request = POST ∧
  ∃ registrar action, f_endpoints self = Serving registrar ∧ r = Ok action ∧
    (proven env registrar (rq_headers request) w key (run_consumer run) ∨
     unproven_named registrar (rq_headers request) key (run_consumer run)) ∧
    registered_run env registrar key run w' action.
Proof.
  intros Hreq Hnone Hsome.
  assert (¬ no_new (w_runs w) (w_runs w')) as Hnew by (intros Hno; rewrite (Hno key Hnone) in Hsome; done).
  revert Hreq. unfold Gateway.on_request. cbv zeta.
  case_bool_decide; [by intros [= -> _ _]; destruct Hnew|].
  case_bool_decide; [by intros [= -> _ _]; destruct Hnew|].
  destruct (_ || _); cycle 1.
  { intros Hreq. exfalso. apply Hnew. revert Hreq.
    destruct (is_some _); [by intros [= -> _ _]|]. case_bool_decide; [by intros [= -> _ _]|].
    destruct (mode_of _ _) as [[cluster mode]|]; [|by intros [= -> _ _]].
    pose proof (no_new_admit_for env cluster mode
      (bool_decide (rq_path (cx_request ctx) ∈ f_usage_free_paths self))
      (with_remove (stripped self mode) ctx) w) as Ha.
    destruct (admit_for _ _ _ _ _ _ _ _) as [[w1 ctx1] [[caller|]|]];
      by intros [= <- _ _]. }
  destruct (f_endpoints self) as [| |registrar]; [by intros [= -> _ _]; destruct Hnew|..].
  - destruct (serve_runs _ _ _ _ _ _ _ _ _) as [w1 action] eqn:Hs. intros [= -> _ _].
    destruct (serve_runs_new _ _ _ _ _ _ _ _ Hs Hnone Hsome) as (_ & _ & ? & ? & _). done.
  - destruct (serve_runs _ _ _ _ _ _ _ _ _) as [w1 action] eqn:Hs. intros [= -> _ <-].
    destruct (serve_runs_new _ _ _ _ _ _ _ _ Hs Hnone Hsome) as (? & ? & reg & [= <-] & ? & ?).
    split; [done|]. split; [done|]. by exists registrar, action.
Qed.

(** ** Which pages may read [/usage] *)
Lemma serve_usage_cors request get status h body :
  (∀ h0 h1 status body, get h0 = TerminalResponse status h1 body →
     ∀ n, n ≠ CONTENT_TYPE → hm_get_all n h1 = hm_get_all n h0) →
  serve_usage self request get = TerminalResponse status h body →
  (rq_method request = GET ∨ rq_method request = OPTIONS ∧ is_Some (allowed_origin self request)) ∧
  hm_get_all VARY h = ["origin"%string] ∧
  hm_get_all ALLOW_ORIGIN h = match allowed_origin self request with Some o => [o] | None => [] end ∧
  hm_get_all "access-control-allow-credentials" h = [].
Proof.
  intros Hget. unfold serve_usage, reject.
  set (h0 := match allowed_origin self request with Some o => _ | None => _ end).
  assert (hm_get_all VARY h0 = ["origin"%string] ∧
    hm_get_all ALLOW_ORIGIN h0 =
      match allowed_origin self request with Some o => [o] | None => [] end ∧
    hm_get_all "access-control-allow-credentials" h0 = []) as (Hv & Ho & Hc).
  { subst h0. destruct (allowed_origin self request); split_and!;
      rewrite ?hm_insert_get; rewrite ?hm_insert_get_ne by done; by rewrite ?hm_from_iter_get. }
  clearbody h0. destruct (rq_method request); try done.
  - intros Hg. split; [by left|].
    rewrite !(Hget _ _ _ _ Hg) by done. done.
  - destruct (allowed_origin self request) as [o|]; [|done]. intros [= <- <- <-].
    split; [right; split; [done|by eexists]|].
    destruct (hm_contains _ _); split_and!; rewrite !hm_insert_get_ne by done; done.
Qed.
Lemma json_headers status body (h0 h1 : Hd) status' body' :
  json_with to_vec status body h0 = TerminalResponse status' h1 body' →
  ∀ n, n ≠ CONTENT_TYPE → hm_get_all n h1 = hm_get_all n h0.
Proof.
  unfold json_with, reject. destruct (to_vec body); [|done]. intros [= <- <- <-] n Hn.
  by apply hm_insert_get_ne.
Qed.

(** What an answer tells a browser about who may read it. *)
Definition cors_ok (request : Request) (h : Hd) : Prop :=
  (rq_method request = GET ∨
   rq_method request = OPTIONS ∧ is_Some (allowed_origin self request)) ∧
  hm_get_all VARY h = ["origin"%string] ∧
  hm_get_all "access-control-allow-credentials" h = [] ∧
  (∀ o, o ∈ hm_get_all ALLOW_ORIGIN h →
     hm_get_all ALLOW_ORIGIN h = [o] ∧ hm_get ORIGIN (rq_headers request) = Some o ∧
     ∃ s, hm_to_str (H:=Hd) o = Some s ∧ s ∈ f_usage_cors_origins self).
Lemma serve_usage_cors_ok request get status h body :
  (∀ h0 h1 status body, get h0 = TerminalResponse status h1 body →
     ∀ n, n ≠ CONTENT_TYPE → hm_get_all n h1 = hm_get_all n h0) →
  serve_usage self request get = TerminalResponse status h body → cors_ok request h.
Proof.
  intros Hget Hs. destruct (serve_usage_cors _ _ _ _ _ Hget Hs) as (Hm & Hv & Ho & Hc).
  split_and!; try done. intros o. rewrite Ho. unfold allowed_origin, option_filter.
  destruct (hm_get ORIGIN _) as [v|]; [|by intros ?%elem_of_nil].
  destruct (hm_to_str v) as [s|] eqn:Ev; [|by intros ?%elem_of_nil].
  case_bool_decide; [|by intros ?%elem_of_nil]. intros ->%list_elem_of_singleton.
  split; [done|]. split; [done|]. by exists s.
Qed.

(** C27: [/usage] and [/usage/grant] only read, and every answer a browser
    acts on names at most one origin as allowed to read it: the one that
    asks, if it is configured. Only such an origin's preflight is answered,
    no answer allows credentials, and each says that it depends on the
    origin, so none is reused for another. *)
Theorem usage_cors env ctx w w' ctx' r :
  on_request env ctx w = (w', ctx', r) →
  let request := cx_request ctx in
  rq_path request = USAGE_PATH ∨ rq_path request = GRANT_PATH →
  w' = w ∧ ctx' = ctx ∧
  ∀ status h body, r = Ok (TerminalResponse status h body) → cors_ok request h.
Proof.
  intros Hreq request Hpath. revert Hreq. unfold Gateway.on_request. fold request.
  case_bool_decide as Hu; cbv zeta.
  { intros [= <- <- <-]. split; [done|]. split; [done|]. intros status h body [= Hs].
    eapply serve_usage_cors_ok; [|exact Hs]. intros ????. apply json_headers. }
  destruct Hpath as [?|Hg]; [done|]. rewrite (bool_decide_eq_true_2 (_ = GRANT_PATH)) by done.
  intros [= <- <- <-]. split; [done|]. split; [done|]. intros status h body [= Hs].
  eapply serve_usage_cors_ok; [|exact Hs]. intros ????. unfold serve_grant, reject.
  destruct (f_budget self); [|done]. destruct (omap _ _) as [|name [|??]]; try done.
  destruct (Consumer_parse name); [|done]. apply json_headers.
Qed.
End requests.

(** ** Witnesses *)
#[local] Existing Instance toy_crypto.
#[local] Existing Instance header_map.
#[local] Existing Instance header_map_laws.
Definition sample_filter : RunTokenFilter :=
  mkFilter "default" ["x-run-token"; AUTHORIZATION]%string {["/health"]} ∅
    {["anthropic" := Injected; "github" := PassThrough]} {["https://dash.example"]}
    (Serving (mkRegistrar None (Some (mkQuota 1 (from_secs 3600))) (mkLimits (from_secs 60) 1)))
    {[sha256 "praxis-operator-0000" := mkOperator "ci" {["anthropic"]} 2 Private]} None.
Definition sample_world : World unit :=
  mkWorld State_default (BrokerUsage_default 100) ∅ KeyCache_default [].
Definition sample_env : Env unit := mkEnv 5 100 "one" 4 (mkClock 5 5 5 5 5) None.
Definition sample_next_env : Env unit := mkEnv 5 100 "two" 4 (mkClock 5 5 5 5 5) None.
Definition sample_context (method : Method) (path : string) (headers : list (string * string))
    : Context (Hd:=list (string * string)) (Identity:=string) :=
  mkContext (mkRequest method path None headers) (Some "anthropic"%string) [] None None None
    (λ _, None).
Definition sample_body (_ : Body) : option string := Some "{}"%string.
Definition sample_request :=
  Gateway.on_request (Key:=unit) (λ _, None) (λ _ _ _, Err OtherKind) 0 sample_body
    (λ s, Some s) sample_filter.
Definition sample_registration := sample_context POST RUNS_PATH [(RUN_ID, "bench-1"%string)].
Definition sample_registered : World unit :=
  (sample_request sample_env sample_registration sample_world).1.1.
Definition sample_message :=
  sample_context POST "/v1/messages" [("x-run-token"%string, (new_token "one").1)].
Definition sample_message_world : World unit :=
  (sample_request sample_next_env sample_message sample_registered).1.1.
Definition sample_message_context :=
  (sample_request sample_next_env sample_message sample_registered).1.2.

Lemma continue_spec_witness :
  (¬ served "/v1/messages") ∧
  goes_on (λ s, Some s) sample_filter sample_next_env sample_message sample_registered
    sample_message_world sample_message_context.
Proof.
  assert (sample_request sample_next_env sample_message sample_registered =
    (sample_message_world, sample_message_context, Ok Continue)) as Hreq
    by (vm_compute; reflexivity).
  exact (continue_spec _ _ _ _ _ _ _ _ _ _ _ Hreq).
Defined.

Lemma registration_spec_witness :
  ∃ run, runs (w_runs sample_registered) !! Unproven (RunName_of "bench-1") = Some run ∧
    run_concurrency run = 1 ∧ run_consumer run = Private.
Proof.
  destruct (runs (w_runs sample_registered) !! Unproven (RunName_of "bench-1")) as [run|] eqn:E;
    [|exfalso; revert E; vm_compute; discriminate].
  exists run. split; [done|].
  destruct (sample_request sample_env sample_registration sample_world) as [[w' ctx'] r] eqn:Hreq.
  assert (w' = sample_registered) as -> by (unfold sample_registered; by rewrite Hreq).
  destruct (registration_spec _ _ _ _ _ _ _ _ _ _ _ _ (Unproven (RunName_of "bench-1")) run Hreq
    eq_refl E) as (_ & _ & reg & action & Hreg & _ & Hway & _ & Hc & _).
  injection Hreg as <-. split; [exact Hc|].
  destruct Hway as [(? & ? & ? & ? & Hn & _)|(? & ? & ? & ? & _ & _ & _ & _ & _ & _ & _ & Hp)];
    [discriminate Hn|exact Hp].
Defined.

Lemma usage_cors_witness :
  let ctx := sample_context GET USAGE_PATH [(ORIGIN, "https://dash.example"%string)] in
  ∃ status h body, (sample_request sample_env ctx sample_world).2 =
      Ok (TerminalResponse status h body) ∧
    hm_get ALLOW_ORIGIN h = Some "https://dash.example"%string ∧
    cors_ok sample_filter (cx_request ctx) h.
Proof.
  intros ctx.
  destruct (sample_request sample_env ctx sample_world) as [[w' ctx'] r] eqn:Hreq.
  destruct (usage_cors _ _ _ _ _ _ _ _ _ _ _ _ Hreq (or_introl eq_refl)) as (_ & _ & Hok).
  destruct r as [[| |status h body]|]; [| | |];
    try (exfalso; apply (f_equal snd) in Hreq; revert Hreq; vm_compute; discriminate).
  exists status, h, body. split; [done|]. split; [|by apply (Hok status h body)].
  apply (f_equal snd) in Hreq. vm_compute in Hreq. injection Hreq as _ <- _. reflexivity.
Defined.
