(* ===== verification/GatewayRuns.v ===== *)
(** * The [run_token] filter: executions

    Requests of one filter, interleaved in any order with one another and
    with what other chains do to the registry they share: every slot taken is
    returned exactly once, however its request ends, and a response is
    settled exactly once. *)
From S2P Require Import Prelude Crypto Headers Pools Budget Runs Oidc Operators Usage.
From S2P Require Import Filter Gateway RunsInvariants FilterChecks GatewaySafety.
Local Open Scope Z_scope.

(** ** Outstanding admissions, whatever their order and flags *)
Lemma holds_of_keys k l l' :
  (adm_key <$> l) ≡ₚ (adm_key <$> l') → holds_of k l = holds_of k l'.
Proof.
  assert (∀ l, holds_of k l = Z.of_nat (length (filter (λ k', k' = k) (adm_key <$> l)))) as Hf.
  { clear. induction l as [|a l IH]; [done|]. rewrite holds_of_cons, fmap_cons, filter_cons, IH.
    case_decide; cbn [length]; lia. }
  intros Hp. by rewrite !Hf, Hp.
Qed.
Lemma held_inv_keys st l l' :
  (adm_key <$> l) ≡ₚ (adm_key <$> l') → Forall (λ a, adm_settled a = false) l' →
  held_inv st l → held_inv st l'.
Proof.
  intros Hp Ho [Hok _ Hk Hc]. split; [done|done| |].
  - apply (Forall_fmap adm_key (λ k, is_Some (runs st !! k))).
    rewrite <-Hp. by apply Forall_fmap.
  - intros k r Hr. rewrite (Hc k r Hr). by apply holds_of_keys.
Qed.
Lemma held_inv_perm st l l' : l ≡ₚ l' → held_inv st l → held_inv st l'.
Proof.
  intros Hp Hh. apply (held_inv_keys st l l'); [by rewrite Hp| |done].
  rewrite <-Hp. by apply Hh.
Qed.
#[global] Instance held_inv_proper st : Proper (Permutation ==> iff) (held_inv st).
Proof. intros l l' Hp. split; apply held_inv_perm; [done|by symmetry]. Qed.
Lemma retained_prune now st l : retained now st l → retained now (State_prune now st) l.
Proof. unfold retained. by rewrite prune_runs_idemp. Qed.
Lemma retained_nil now st : retained now st [].
Proof. constructor. Qed.
Lemma held_inv_prune `{Crypto} now st l :
  held_inv st l → retained now st l → held_inv (State_prune now st) l.
Proof. intros Hh Hr. by apply (held_inv_event (EvAuthenticate "" now) now). Qed.

Section executions.
Context `{Crypto} {Hd : Type} `{HeaderMapLaws Hd} {Key : Type}.
Context (decode_header : string → option Header)
  (decode_jwt : string → Key → Validation → result DecodeError Claims)
  (issued_after : Z) (to_vec : Body → option string)
  {Identity : Type} (new_identity : string → option Identity)
  (META_TOKEN_STATUS META_TOKEN_INPUT META_TOKEN_OUTPUT META_TOKEN_CACHE_READ
    META_TOKEN_REASONING META_TOKEN_TOTAL META_TOKEN_MODEL META_TOKEN_CACHE_WRITE : string)
  (self : RunTokenFilter).
Local Abbreviation on_request :=
  (on_request decode_header decode_jwt issued_after to_vec new_identity self).
Local Abbreviation reported_usage :=
  (reported_usage META_TOKEN_STATUS META_TOKEN_INPUT META_TOKEN_OUTPUT META_TOKEN_CACHE_READ
    META_TOKEN_REASONING META_TOKEN_TOTAL META_TOKEN_MODEL META_TOKEN_CACHE_WRITE).
Local Abbreviation on_response_body :=
  (on_response_body META_TOKEN_STATUS META_TOKEN_INPUT META_TOKEN_OUTPUT META_TOKEN_CACHE_READ
    META_TOKEN_REASONING META_TOKEN_TOTAL META_TOKEN_MODEL META_TOKEN_CACHE_WRITE).
Implicit Types (ctx : Context (Hd:=Hd) (Identity:=Identity)) (w : World Key) (env : Env Key).

(** ** What a request does short of being admitted

    [quiet] says that the registry's slots are as they were, whoever holds
    them, and so are the operators'. *)
Definition quiet env w w' : Prop :=
  (∀ l, held_inv (w_runs w) l → retained (e_now env) (w_runs w) l → held_inv (w_runs w') l) ∧
  (∀ hash, slot_count hash w' = slot_count hash w) ∧ w_refused w' = w_refused w.
Lemma quiet_same env w w' :
  w_runs w' = w_runs w → w_slots w' = w_slots w → w_refused w' = w_refused w → quiet env w w'.
Proof.
  intros Hr Hs Hf. split; [by rewrite Hr|]. split; [|done]. intros hash. unfold slot_count.
  by rewrite Hs.
Qed.
Lemma quiet_event env w w' e :
  w_runs w' = apply_event e (w_runs w) → w_slots w' = w_slots w → w_refused w' = w_refused w →
  event_ok e (w_runs w) → event_now e = Some (e_now env) → (∀ key, e ≠ EvAdmit key (e_now env)) →
  quiet env w w'.
Proof.
  intros Hr Hs Hf He Hn Ha. split; [|split; [|done]].
  - intros l Hl Hret. rewrite Hr. by apply (held_inv_event e (e_now env)).
  - intros hash. unfold slot_count. by rewrite Hs.
Qed.
(** An event after the pruning of an [authenticate]. *)
Lemma quiet_pruned env w w' e :
  w_runs w' = apply_event e (State_prune (e_now env) (w_runs w)) → w_slots w' = w_slots w →
  w_refused w' = w_refused w →
  event_ok e (State_prune (e_now env) (w_runs w)) → event_now e = Some (e_now env) →
  (∀ key, e ≠ EvAdmit key (e_now env)) → quiet env w w'.
Proof.
  intros Hr Hs Hf He Hn Ha. split; [|split; [|done]].
  - intros l Hl Hret. rewrite Hr.
    apply (held_inv_event e (e_now env)); auto using held_inv_prune, retained_prune.
  - intros hash. unfold slot_count. by rewrite Hs.
Qed.

Lemma quiet_own_run env (headers : Hd) f w :
  (∀ key, ∃ e, ∀ st, (f key st).1 = apply_event e st ∧ event_ok e st ∧
     event_now e = Some (e_now env) ∧ ∀ key', e ≠ EvAdmit key' (e_now env)) →
  quiet env w (with_own_run to_vec self env headers f w).1.
Proof.
  intros Hf. unfold with_own_run, run_of, authenticate.
  destruct (token self headers) as [[? tok]|]; [|by apply quiet_same].
  destruct (tokens _ !! _) as [key|].
  - destruct (Hf key) as [e He]. destruct (He (State_prune (e_now env) (w_runs w))) as (Hfst & ? & ? & ?).
    destruct (f _ _) as [st r]. cbn [fst] in Hfst |- *. by apply (quiet_pruned env w _ e).
  - by apply (quiet_event env w _ (EvAuthenticate tok (e_now env))).
Qed.

Hypothesis Hself : filter_ok self.
Definition env_ok env w : Prop := fresh (e_random env) (w_runs w).

Lemma quiet_register env registrar (headers : Hd) w :
  env_ok env w → limits_ok (rr_limits registrar) →
  quiet env w (register_run decode_header decode_jwt issued_after to_vec env registrar headers w).1.
Proof.
  intros He Hl.
  assert (quiet env w
    (register_proven decode_header decode_jwt issued_after to_vec env registrar headers w).1) as Hp.
  { unfold register_proven. destruct (rr_oidc registrar) as [oidc|]; [|by apply quiet_same].
    destruct (_ =? 0); [by apply quiet_same|]. destruct (bearer headers); [|by apply quiet_same].
    destruct (verify _ _ _ _ _ _ _ _) as [cache [id|[]]];
      try by apply quiet_same.
    destruct (Runs.register _ _ _ _ _ _) as [st res] eqn:Hr.
    apply (quiet_event env w _
      (EvRegister id (rr_limits registrar) (e_now env) (e_random env) (e_unix env))); try done.
    cbn [apply_event fst set_runs w_runs set_keys] in Hr |- *. by rewrite Hr. }
  unfold register_run. destruct (rr_unproven registrar) as [q|]; [|done].
  destruct (hm_contains _ _); [done|].
  unfold register_unproven_run. destruct (existsb _ _); [by apply quiet_same|].
  destruct (hm_get_all _ _) as [|v [|??]]; [by apply quiet_same| |by apply quiet_same].
  destruct (hm_to_str v ≫= RunName_new) as [name|]; [|by apply quiet_same].
  destruct (register_unproven _ _ _ _ _ _ _) as [st res] eqn:Hr.
  apply (quiet_event env w _
    (EvRegisterUnproven name (rr_limits registrar) q (e_now env) (e_random env) (e_unix env)));
    try done; destruct res as [[token rec]|[]]; cbn [apply_event fst]; rewrite ?Hr; done.
Qed.

(** ** Being admitted *)
Definition admission_of (caller : option Caller) : list Admission :=
  match caller with Some (CallerRun a) => [a] | _ => [] end.
Definition slot_of (hash : string) (caller : option Caller) : Z :=
  match caller with
  | Some (CallerOperator h _ _) => if decide (h = hash) then 1 else 0
  | _ => 0
  end.
(** The requests that found an operator busy and have yet to back out. *)
Definition refused (hash : string) (hashes : list string) : Z :=
  Z.of_nat (length (filter (λ h, h = hash) hashes)).
Lemma refused_cons hash h hashes :
  refused hash (h :: hashes) = (if decide (h = hash) then 1 else 0) + refused hash hashes.
Proof. unfold refused. rewrite filter_cons. case_decide; cbn [length]; lia. Qed.
(** The operators' counters are what [n] says, each within its bound, and
    what is to be taken back; none has overflowed. *)
Definition slots_are (n : string → Z) w : Prop :=
  ∀ hash op, f_operators self !! hash = Some op →
    slot_count hash w = n hash + refused hash (w_refused w) ∧ 0 <= n hash <= op_concurrency op ∧
    n hash + refused hash (w_refused w) <= U64_MAX.
(** One more does not overflow a counter. *)
Definition room (n : string → Z) w : Prop :=
  ∀ hash, n hash + refused hash (w_refused w) < U64_MAX.
Definition known (caller : option Caller) : Prop :=
  match caller with
  | Some (CallerOperator hash op _) => f_operators self !! hash = Some op
  | _ => True
  end.
(** [w'] holds what [w] held, and [caller] besides. *)
Definition takes env w w' (caller : option Caller) : Prop :=
  (∀ l, held_inv (w_runs w) l → retained (e_now env) (w_runs w) l →
     held_inv (w_runs w') (admission_of caller ++ l)) ∧
  (∀ n, slots_are n w → room n w → slots_are (λ hash, n hash + slot_of hash caller) w') ∧
  known caller.
Lemma quiet_takes env w w' : quiet env w w' → takes env w w' None.
Proof.
  intros (Hr & Hs & Hf). split_and!; [done| |done]. intros n Hn _ hash op Hop.
  destruct (Hn hash op Hop) as [Hc Hb]. rewrite Hs, Hc, Hf. cbn. lia.
Qed.

Lemma slot_count_set_ne hash hash' n w :
  hash' ≠ hash → slot_count hash' (set_slot hash n w) = slot_count hash' w.
Proof. intros Hne. unfold slot_count. cbn. by rewrite lookup_insert_ne. Qed.
Lemma slots_are_ext n n' w : (∀ h, n h = n' h) → slots_are n w → slots_are n' w.
Proof. intros He Hn hash op Hop. rewrite <-He. by apply Hn. Qed.

Lemma takes_operator env cluster w hash op :
  f_operators self !! hash = Some op →
  let '(n, admitted) := Operator_admit op cluster (slot_count hash w) in
  let w' := set_slot hash n w in
  takes env w (match admitted with Err OpBusy => set_refused (hash :: w_refused w) w' | _ => w' end)
    (match admitted with Ok _ => Some (CallerOperator hash op false) | Err _ => None end).
Proof.
  intros Hop. pose proof (Operator_admit_cases op cluster (slot_count hash w)) as Hcases.
  destruct (Operator_admit op cluster _) as [m admitted]. cbv zeta.
  assert (∀ n, slots_are n w → room n w →
    slot_count hash w = n hash + refused hash (w_refused w) ∧ 0 <= n hash <= op_concurrency op ∧
    wrap_add (slot_count hash w) 1 = n hash + refused hash (w_refused w) + 1 ∧
    0 <= refused hash (w_refused w)) as Hcount.
  { intros n Hn Hroom. destruct (Hn hash op Hop) as (Hs & Hb & _). specialize (Hroom hash).
    assert (0 <= refused hash (w_refused w)) by (unfold refused; lia).
    rewrite Hs, wrap_add_small; lia. }
  destruct admitted as [u|[]]; (split_and!; [by intros l| |done]); intros n Hn Hroom h o Ho;
    destruct (Hcount n Hn Hroom) as (Hc & Hb & Hw & Hnn);
    pose proof (Hroom hash); destruct (Hn h o Ho) as (Hh & Hbh & Hu); cbn [slot_of w_refused set_slot set_refused];
    rewrite ?refused_cons; (destruct (decide (hash = h)) as [<-|Hne];
      [|unfold slot_count in *; cbn; rewrite ?lookup_insert_ne by done; lia]); simplify_eq.
  - rewrite slot_count_set. destruct Hcases as (_ & Hlt & ->). lia.
  - rewrite slot_count_set. destruct Hcases as (_ & ->). lia.
  - change (slot_count hash (set_slot hash m w) = n hash + 0 + (1 + refused hash (w_refused w)) ∧
      0 <= n hash + 0 <= op_concurrency op ∧
      n hash + 0 + (1 + refused hash (w_refused w)) <= U64_MAX).
    rewrite slot_count_set. destruct Hcases as (_ & _ & ->). lia.
Qed.

Lemma takes_caller env headers cluster w :
  let '(w', admitted) := admit_caller self env headers cluster w in
  takes env w w' (match admitted with Ok (_, caller) => Some caller | Err _ => None end).
Proof.
  unfold admit_caller.
  destruct (token self headers) as [[? tok]|]; [|by apply quiet_takes, quiet_same].
  destruct (Operators_authenticate _ _) as [[hash op]|] eqn:Hop.
  - assert (f_operators self !! hash = Some op) as Hl.
    { revert Hop. unfold Operators_authenticate. destruct (negb _); [done|].
      destruct (f_operators self !! _) eqn:E; [|done]. by intros [= <- <-]. }
    pose proof (takes_operator env cluster w hash op Hl) as Ht.
    destruct (Operator_admit _ _ _) as [n [u|[]]]; exact Ht.
  - unfold authenticate. destruct (tokens _ !! _) as [key|];
      [|by apply quiet_takes, (quiet_event env w _ (EvAuthenticate tok (e_now env)))].
    pose proof (held_inv_admit key (e_now env) (State_prune (e_now env) (w_runs w))) as Ha.
    destruct (admit_run key (e_now env) _) as [st res] eqn:Hr. cbn [fst snd] in Ha.
    split_and!.
    + intros l Hl Hret. specialize (Ha l (held_inv_prune _ _ _ Hl Hret) (retained_prune _ _ _ Hret)).
      destruct res as [a|[]]; exact Ha.
    + intros n Hn _ hash op Ho. destruct (Hn hash op Ho) as [Hs Hb].
      destruct res as [a|[]]; cbn [slot_of]; rewrite Z.add_0_r; done.
    + by destruct res as [a|[]].
Qed.

(** ** Ending *)
Definition gives w w' (caller : option Caller) : Prop :=
  (∀ l, held_inv (w_runs w) (admission_of caller ++ l) → held_inv (w_runs w') l) ∧
  (∀ n, known caller → (∀ h, is_Some (f_operators self !! h) → slot_of h caller <= n h) →
     slots_are n w →
     slots_are (λ h, n h - slot_of h caller) w').
Lemma gives_run w w' a o :
  outcome_ok o → w_runs w' = settle (adm_key a) o (w_runs w) → w_slots w' = w_slots w →
  w_refused w' = w_refused w → gives w w' (Some (CallerRun a)).
Proof.
  intros Ho Hr Hs Hf. split.
  - intros l Hl. rewrite Hr. by apply (held_inv_end _ [] a l).
  - intros n _ _ Hn hash op Hop. unfold slot_count. rewrite Hs, Hf. cbn. rewrite Z.sub_0_r.
    by apply Hn.
Qed.
Lemma gives_operator w w' hash op free :
  w_runs w' = w_runs w → w_slots w' = <[hash := Slot_drop (slot_count hash w)]> (w_slots w) →
  w_refused w' = w_refused w → gives w w' (Some (CallerOperator hash op free)).
Proof.
  intros Hr Hs Hf. split; [intros l; by rewrite Hr|].
  intros n Hk Hle Hn h o Ho. cbn in Hk. specialize (Hle h (mk_is_Some _ _ Ho)). cbn in Hle |- *.
  unfold slot_count. rewrite Hs, Hf. destruct (Hn h o Ho) as (Hc & Hb & Hu).
  assert (0 <= refused h (w_refused w)) as Hnn by (unfold refused; lia).
  revert Hle. destruct (decide (hash = h)) as [->|Hne]; intros Hle.
  - rewrite lookup_insert_eq. cbn [from_option id].
    rewrite Hc. unfold Slot_drop, release, set_thread. cbn [in_flight]. unfold wrap_sub.
    rewrite Z.mod_small; u64_lia.
  - rewrite lookup_insert_ne by done. fold (slot_count h w). lia.
Qed.
Lemma gives_none w w' :
  w_runs w' = w_runs w → w_slots w' = w_slots w → w_refused w' = w_refused w → gives w w' None.
Proof.
  intros Hr Hs Hf. split; [intros l; by rewrite Hr|]. intros n _ _ Hn hash op Hop.
  unfold slot_count. rewrite Hs, Hf. cbn. rewrite Z.sub_0_r. by apply Hn.
Qed.

Lemma gives_drop caller w :
  Forall (λ a, adm_settled a = false) (admission_of caller) → gives w (drop_caller caller w) caller.
Proof.
  intros Ho. destruct caller as [[a|hash op free]|].
  - cbn in Ho. rewrite Forall_singleton in Ho.
    destruct (end_admission_settle a None (w_runs w) Ho) as (o & Hr & Hok).
    apply (gives_run w _ a o); [by apply Hok|exact Hr|done..].
  - by apply gives_operator.
  - by apply gives_none.
Qed.
Lemma gives_settle env m reported w :
  Forall (λ a, adm_settled a = false) (admission_of (mt_caller m)) →
  (∀ u, reported = Some u → Tokens_ok (u_tokens u)) →
  gives w (settle_caller env m reported w) (mt_caller m).
Proof.
  intros Ho Hu. unfold settle_caller. destruct (mt_caller m) as [[a|hash op free]|] eqn:Hc.
  - cbn in Ho. rewrite Forall_singleton in Ho.
    destruct (end_admission_settle a (Some reported) (w_runs w) Ho) as (o & Hr & Hok).
    apply (gives_run w _ a o); [|exact Hr|done..].
    apply Hok. destruct reported; [by apply Hu|done].
  - by apply gives_operator.
  - by apply gives_none.
Qed.

Lemma reported_usage_ok metadata u : reported_usage metadata = Some u → Tokens_ok (u_tokens u).
Proof.
  unfold Gateway.reported_usage. destruct (is_some _); [done|].
  assert (∀ k, is_u64 (default 0 (metadata k ≫= parse_u64))) as Hd0.
  { intros k. destruct (metadata k) as [s|]; cbn; [|by vm_compute].
    destruct (parse_u64 s) as [n|] eqn:E; cbn; [by eapply parse_u64_is_u64|by vm_compute]. }
  destruct (metadata META_TOKEN_INPUT) as [si|]; cbn [mbind option_bind]; [|done].
  destruct (parse_u64 si) as [input|] eqn:Hi; cbn [mbind option_bind]; [|done].
  destruct (metadata META_TOKEN_OUTPUT) as [so|]; cbn [mbind option_bind]; [|done].
  destruct (parse_u64 so) as [output|] eqn:Ho; cbn [mbind option_bind]; [|done].
  apply parse_u64_is_u64 in Hi, Ho. intros [= <-].
  pose proof (Hd0 META_TOKEN_CACHE_READ). pose proof (Hd0 META_TOKEN_REASONING).
  pose proof (Hd0 META_TOKEN_TOTAL). pose proof (sat_add_u64 _ _ Hi Ho).
  cbn [u_tokens]. unfold Tokens_ok. cbn [tk_input tk_cache_read tk_output tk_reasoning tk_total].
  unfold is_u64 in *. lia.
Qed.

(** ** Requests, from first to last *)
Definition caller_of ctx : option Caller := cx_metered ctx ≫= mt_caller.

(** Two callers that hold the same slot, whatever their flags. *)
Definition same_holder (c c' : option Caller) : Prop :=
  (adm_key <$> admission_of c') = (adm_key <$> admission_of c) ∧
  (adm_settled <$> admission_of c') = (adm_settled <$> admission_of c) ∧
  (∀ h, slot_of h c' = slot_of h c) ∧ (known c → known c').
Lemma same_holder_free b c : same_holder (Some c) (Some (set_usage_free b c)).
Proof. destruct c; split_and!; done. Qed.
Lemma same_holder_success b c : same_holder c (set_success b <$> c).
Proof. destruct c as [[]|]; split_and!; done. Qed.
Lemma held_inv_same st c c' l1 l2 :
  same_holder c c' → held_inv st (l1 ++ admission_of c ++ l2) →
  held_inv st (l1 ++ admission_of c' ++ l2).
Proof.
  intros (Hk & Hs & _) Hh. apply (held_inv_keys st (l1 ++ admission_of c ++ l2)); [| |done].
  - by rewrite !fmap_app, Hk.
  - destruct Hh as [_ Ho _ _]. apply (Forall_fmap adm_settled (λ b, b = false)).
    apply (Forall_fmap adm_settled (λ b, b = false)) in Ho.
    revert Ho. by rewrite !fmap_app, Hs.
Qed.
Lemma takes_same env w w' c c' : same_holder c c' → takes env w w' c → takes env w w' c'.
Proof.
  intros Hsame (Hr & Hn & Hk). split_and!.
  - intros l Hl Hret. apply (held_inv_same _ c c' [] l Hsame). by apply Hr.
  - intros n Hs Hroom. eapply slots_are_ext; [|by apply Hn]. intros h. cbn.
    destruct Hsame as (_ & _ & -> & _). done.
  - by apply Hsame.
Qed.
(** Taken and dropped at once, nothing is held. *)
Lemma takes_drop env w w' c : takes env w w' c → takes env w (drop_caller c w') None.
Proof.
  intros (Hr & Hn & Hk). split_and!; [| |done].
  - intros l Hl Hret. specialize (Hr l Hl Hret).
    assert (Forall (λ a, adm_settled a = false) (admission_of c)) as Ho
      by (apply hi_open in Hr; by apply Forall_app in Hr as [? _]).
    by apply (gives_drop c w' Ho).
  - intros n Hs Hroom. destruct c as [[a|hash op free]|].
    + intros h op Hop. cbn. rewrite Z.add_0_r. destruct (Hn n Hs Hroom h op Hop) as [Hc Hb].
      cbn in Hc, Hb. rewrite Z.add_0_r in Hc, Hb. done.
    + destruct (gives_drop (Some (CallerOperator hash op free)) w' (Forall_nil_2 _)) as [_ Hg].
      eapply slots_are_ext; [|apply (Hg (λ h, n h + slot_of h (Some (CallerOperator hash op free))));
        [done| |by apply Hn]].
      * intros h. cbn. lia.
      * intros h [o Ho]. destruct (Hs h o Ho) as (_ & Hb & _). lia.
    + by apply Hn.
Qed.

Lemma serve_runs_quiet env registrar request w :
  env_ok env w → (∀ r, registrar = Some r → limits_ok (rr_limits r)) →
  quiet env w
    (serve_runs decode_header decode_jwt issued_after to_vec self env registrar request w).1.
Proof.
  intros He Hl. unfold serve_runs. case_bool_decide.
  - destruct (rq_method request); try by apply quiet_same.
    destruct registrar as [r|]; [|by apply quiet_same]. by apply quiet_register; [|apply Hl].
  - case_bool_decide; [|by apply quiet_same].
    destruct (rq_method request); try by apply quiet_same.
    + apply quiet_own_run. intros key. by exists (EvRecord key (e_now env)).
    + apply quiet_own_run. intros key. by exists (EvFinish key (e_now env) (e_unix env)).
Qed.

Definition taken ctx' (r : result FilterError (FilterAction (Hd:=Hd))) : option Caller :=
  match r with Ok Continue => caller_of ctx' | _ => None end.
Lemma takes_admit_for env cluster mode free ctx w :
  let '(w', _, r) := admit_for new_identity self env cluster mode free ctx w in
  takes env w w' (match r with Ok (Ok caller) => caller | _ => None end).
Proof.
  destruct mode; cbn [admit_for].
  - unfold injected. pose proof (takes_caller env (rq_headers (cx_request ctx)) cluster w) as Ht.
    destruct (admit_caller _ _ _ _ _) as [w' [[subject caller]|e]]; [|done].
    destruct (new_identity subject).
    + eapply takes_same; [apply same_holder_free|done].
    + by apply takes_drop.
  - destruct (pass_through _); by apply quiet_takes, quiet_same.
Qed.
Lemma on_request_takes env ctx w w' ctx' r :
  env_ok env w → cx_metered ctx = None → on_request env ctx w = (w', ctx', r) →
  takes env w w' (taken ctx' r).
Proof.
  intros He Hm. unfold Gateway.on_request. cbv zeta.
  assert (∀ a, a ≠ Continue → takes env w w (taken ctx (Ok a))) as Hstay.
  { intros a Ha. assert (taken ctx (Ok a) = None) as -> by by destruct a.
    by apply quiet_takes, quiet_same. }
  case_bool_decide.
  { intros [= <- <- <-]. apply Hstay, serve_usage_not_continue. intros h. apply json_not_continue. }
  case_bool_decide.
  { intros [= <- <- <-]. apply Hstay, serve_usage_not_continue. intros h.
    apply serve_grant_not_continue. }
  destruct (_ || _).
  { assert (∀ reg, (∀ r, reg = Some r → limits_ok (rr_limits r)) →
      (let '(w1, action) :=
         serve_runs decode_header decode_jwt issued_after to_vec self env reg (cx_request ctx) w in
       (w1, ctx, Ok action)) = (w', ctx', r) → takes env w w' (taken ctx' r)) as Hserve.
    { intros reg Hl. pose proof (serve_runs_quiet env reg (cx_request ctx) w He Hl) as Hq.
      pose proof (serve_runs_not_continue decode_header decode_jwt issued_after to_vec self env reg
        (cx_request ctx) w) as Hc.
      destruct (serve_runs _ _ _ _ _ _ _ _ _) as [w1 action]. intros [= <- <- <-].
      assert (taken ctx (Ok action) = None) as -> by by destruct action. by apply quiet_takes. }
    destruct (f_endpoints self) as [| |reg] eqn:Hep; [by intros [= <- <- <-]; apply Hstay|..];
      apply Hserve; [done|]. intros ? [= <-]. apply rk_limits. by apply (fk_registrar _ Hself). }
  destruct (is_some _); [by intros [= <- <- <-]; apply Hstay|].
  case_bool_decide.
  { intros [= <- <- <-]. cbn. unfold caller_of. cbn. rewrite Hm. by apply quiet_takes, quiet_same. }
  destruct (mode_of _ _) as [[cluster mode]|]; [|by intros [= <- <- <-]; apply Hstay].
  pose proof (takes_admit_for env cluster mode
    (bool_decide (rq_path (cx_request ctx) ∈ f_usage_free_paths self))
    (with_remove (stripped self mode) ctx) w) as Ht.
  destruct (admit_for _ _ _ _ _ _ _ _) as [[w1 ctx1] [[caller|refusal]|e]] eqn:Ha;
    intros [= <- <- <-]; [done| |done].
  assert (refusal ≠ Continue) as Hc; [|by destruct refusal].
  intros ->. revert Ha. apply admit_for_not_continue.
Qed.

(** What the host does to a request's context: the response's header, and
    what [token_count] recorded. *)
Definition with_response (response : option (Z * Hd)) ctx : Context (Hd:=Hd) (Identity:=Identity) :=
  mkContext (cx_request ctx) (cx_cluster ctx) (cx_remove ctx) (cx_identity ctx)
    (cx_metered ctx) response (cx_metadata ctx).
Definition with_metadata (metadata : string → option string) ctx
    : Context (Hd:=Hd) (Identity:=Identity) :=
  mkContext (cx_request ctx) (cx_cluster ctx) (cx_remove ctx) (cx_identity ctx)
    (cx_metered ctx) (cx_response ctx) metadata.

Definition admissions (open : list (Context (Hd:=Hd) (Identity:=Identity))) : list Admission :=
  open ≫= λ ctx, admission_of (caller_of ctx).
(** The requests that go on hold a slot of an operator. *)
Fixpoint operator_slots (open : list (Context (Hd:=Hd) (Identity:=Identity))) (hash : string) : Z :=
  match open with
  | [] => 0
  | ctx :: open => slot_of hash (caller_of ctx) + operator_slots open hash
  end.

(** Executions: the requests that have gone on and not ended, and the
    admissions of the registry held by other chains. A request that goes on
    stays in the list, then its response may begin, bring its body and end,
    and its context go away at any time; one that found its operator busy
    backs out at any later time. Between steps other chains do what they do
    to the registry. Requests end within their run's retention, and there are
    fewer at once than a counter counts. *)
Inductive gateway_run : World Key → list (Context (Hd:=Hd) (Identity:=Identity)) → list Admission → Prop :=
| gw_init w :
    w_runs w = State_default → w_slots w = ∅ → w_refused w = [] → gateway_run w [] []
| gw_request env ctx w w' ctx' r open others :
    gateway_run w open others → env_ok env w → cx_metered ctx = None →
    retained (e_now env) (w_runs w) (admissions open ++ others) →
    Z.of_nat (length open + length (w_refused w)) < U64_MAX →
    on_request env ctx w = (w', ctx', r) →
    gateway_run w' (match r with Ok Continue => ctx' :: open | _ => open end) others
| gw_response env response w w' ctx ctx' l1 l2 others :
    gateway_run w (l1 ++ ctx :: l2) others →
    on_response env (with_response response ctx) w = (w', ctx') →
    gateway_run w' (l1 ++ ctx' :: l2) others
| gw_body env metadata end_of_stream w w' ctx ctx' l1 l2 others :
    gateway_run w (l1 ++ ctx :: l2) others →
    on_response_body env end_of_stream (with_metadata metadata ctx) w = (w', ctx') →
    gateway_run w' (l1 ++ ctx' :: l2) others
| gw_drop w ctx l1 l2 others :
    gateway_run w (l1 ++ ctx :: l2) others → gateway_run (drop_context ctx w) (l1 ++ l2) others
| gw_back_out i w open others :
    gateway_run w open others → gateway_run (back_out i w) open others
| gw_usage usage w open others :
    gateway_run w open others → gateway_run (set_usage usage w) open others
| gw_other_event e now w open others :
    gateway_run w open others → event_ok e (w_runs w) → event_now e = Some now →
    (∀ key, e ≠ EvAdmit key now) → retained now (w_runs w) (admissions open ++ others) →
    gateway_run (set_runs (apply_event e (w_runs w)) w) open others
| gw_other_admit key now w open others :
    gateway_run w open others → retained now (w_runs w) (admissions open ++ others) →
    gateway_run (set_runs (admit_run key now (w_runs w)).1 w) open
      (match (admit_run key now (w_runs w)).2 with Ok a => a :: others | Err _ => others end)
| gw_other_end w open l1 a l2 o :
    gateway_run w open (l1 ++ a :: l2) → outcome_ok o →
    gateway_run (set_runs (settle (adm_key a) o (w_runs w)) w) open (l1 ++ l2).

Record gateway_inv w open others : Prop := {
  gi_runs : held_inv (w_runs w) (admissions open ++ others);
  gi_slots : slots_are (operator_slots open) w;
  gi_known : Forall (λ ctx, known (caller_of ctx)) open;
}.

Lemma admissions_middle l1 ctx l2 :
  admissions (l1 ++ ctx :: l2) ≡ₚ admission_of (caller_of ctx) ++ admissions (l1 ++ l2).
Proof.
  unfold admissions. rewrite !bind_app, bind_cons. rewrite !(assoc_L (++)).
  by rewrite (comm (++) (l1 ≫= _) (admission_of _)).
Qed.
Lemma operator_slots_middle l1 ctx l2 hash :
  operator_slots (l1 ++ ctx :: l2) hash = slot_of hash (caller_of ctx) + operator_slots (l1 ++ l2) hash.
Proof. induction l1 as [|c l1 IH]; [done|]. cbn. rewrite IH. lia. Qed.
Lemma slot_of_nonneg hash c : 0 <= slot_of hash c.
Proof. destruct c as [[]|]; cbn; try case_decide; lia. Qed.
Lemma operator_slots_nonneg open hash : 0 <= operator_slots open hash.
Proof.
  induction open as [|c l IH]; cbn; [lia|]. pose proof (slot_of_nonneg hash (caller_of c)). lia.
Qed.

Lemma room_few open w :
  Z.of_nat (length open + length (w_refused w)) < U64_MAX → room (operator_slots open) w.
Proof.
  intros Hr hash. assert (operator_slots open hash <= Z.of_nat (length open)) as Ho.
  { clear. induction open as [|c l IH]; [done|]. cbn [operator_slots length].
    assert (slot_of hash (caller_of c) <= 1) by (unfold slot_of; destruct (caller_of c) as [[]|];
      try case_decide; lia). lia. }
  assert (refused hash (w_refused w) <= Z.of_nat (length (w_refused w))); [|lia].
  unfold refused. pose proof (length_filter (λ h, h = hash) (w_refused w)). lia.
Qed.
Lemma refused_delete i hash h hashes :
  hashes !! i = Some h →
  refused hash hashes = (if decide (h = hash) then 1 else 0) + refused hash (delete i hashes).
Proof.
  intros Hi. rewrite <-refused_cons. unfold refused. f_equal.
  apply Permutation_length, filter_Permutation. by apply delete_Permutation.
Qed.
Lemma back_out_slots n i w : slots_are n w → slots_are n (back_out i w).
Proof.
  intros Hn. unfold back_out. destruct (w_refused w !! i) as [hash|] eqn:Hi; [|done].
  intros h op Hop. destruct (Hn h op Hop) as (Hc & Hb & Hu).
  assert (∀ l, 0 <= refused h l) as Hnn by (intros l; unfold refused; lia).
  pose proof (Hnn (delete i (w_refused w))). rewrite (refused_delete i h hash _ Hi) in Hc, Hu.
  cbn [set_refused w_refused]. unfold slot_count in *. cbn [set_refused set_slot w_slots].
  destruct (decide (hash = h)) as [->|Hne].
  - rewrite lookup_insert_eq. cbn [from_option id]. rewrite Hc. unfold release, set_thread.
    cbn [in_flight]. unfold wrap_sub. rewrite Z.mod_small; u64_lia.
  - rewrite lookup_insert_ne by done. lia.
Qed.
(** A request's context replaced by one that holds the same slot. *)
Lemma gateway_inv_same w w' l1 ctx ctx' l2 others :
  w_runs w' = w_runs w → w_slots w' = w_slots w → w_refused w' = w_refused w →
  same_holder (caller_of ctx) (caller_of ctx') →
  gateway_inv w (l1 ++ ctx :: l2) others → gateway_inv w' (l1 ++ ctx' :: l2) others.
Proof.
  intros Hr Hs Hf Hsame [Hh Hn Hk]. split.
  - rewrite Hr. rewrite admissions_middle, <-(assoc_L (++)) in Hh |- *.
    by apply (held_inv_same _ (caller_of ctx) _ []).
  - intros hash op Hop. destruct (Hn hash op Hop) as [Hc Hb]. unfold slot_count. rewrite Hs, Hf.
    rewrite operator_slots_middle in Hc, Hb |- *. destruct Hsame as (_ & _ & -> & _). done.
  - rewrite Forall_app, Forall_cons in Hk |- *. destruct Hsame as (_ & _ & _ & Hw). naive_solver.
Qed.
Lemma gateway_inv_end w w' l1 ctx l2 others :
  gives w w' (caller_of ctx) →
  gateway_inv w (l1 ++ ctx :: l2) others → gateway_inv w' (l1 ++ l2) others.
Proof.
  intros [Hgr Hgs] [Hh Hn Hk]. rewrite Forall_app, Forall_cons in Hk. destruct Hk as (H1' & Hc & H2').
  split.
  - apply Hgr. by rewrite (assoc_L (++)), <-admissions_middle.
  - eapply slots_are_ext; [|apply (Hgs (operator_slots (l1 ++ ctx :: l2))); [done| |done]].
    + intros h. cbn. rewrite operator_slots_middle. lia.
    + intros h _. rewrite operator_slots_middle. pose proof (operator_slots_nonneg (l1 ++ l2) h). lia.
  - by apply Forall_app.
Qed.
(** A context with no caller holds nothing, and may stay in the list. *)
Lemma gateway_inv_add w l1 ctx l2 others :
  caller_of ctx = None → gateway_inv w (l1 ++ l2) others → gateway_inv w (l1 ++ ctx :: l2) others.
Proof.
  intros Hc [Hh Hn Hk]. split.
  - by rewrite admissions_middle, Hc.
  - eapply slots_are_ext; [|done]. intros h. by rewrite operator_slots_middle, Hc.
  - rewrite Forall_app, Forall_cons in *. rewrite Hc. naive_solver.
Qed.
Lemma gateway_inv_unsettled w l1 ctx l2 others :
  gateway_inv w (l1 ++ ctx :: l2) others →
  Forall (λ a, adm_settled a = false) (admission_of (caller_of ctx)).
Proof.
  intros [Hh _ _]. rewrite admissions_middle in Hh. apply hi_open in Hh.
  by apply Forall_app in Hh as [[??]%Forall_app _].
Qed.

Lemma gateway_inv_request env ctx w w' ctx' r open others :
  gateway_inv w open others → env_ok env w → cx_metered ctx = None →
  retained (e_now env) (w_runs w) (admissions open ++ others) →
  Z.of_nat (length open + length (w_refused w)) < U64_MAX →
  on_request env ctx w = (w', ctx', r) →
  gateway_inv w' (match r with Ok Continue => ctx' :: open | _ => open end) others.
Proof.
  intros [Hh Hn Hk] He Hm Hret Hroom Hreq.
  destruct (on_request_takes _ _ _ _ _ _ He Hm Hreq) as (Htr & Hts & Htk).
  specialize (Htr _ Hh Hret). specialize (Hts _ Hn (room_few _ _ Hroom)).
  assert (taken ctx' r = None → gateway_inv w' open others) as Hnone.
  { intros Ht. rewrite Ht in Htr. rewrite Ht in Hts. split; [done| |done].
    eapply slots_are_ext; [|exact Hts]. intros h. cbn. lia. }
  destruct r as [[| |]|]; try by apply Hnone. cbn [taken] in *. split.
  - unfold admissions. rewrite bind_cons, <-(assoc_L (++)). exact Htr.
  - eapply slots_are_ext; [|exact Hts]. intros h. cbn. lia.
  - by constructor.
Qed.
Lemma gateway_inv_body env metadata end_of_stream w w' ctx ctx' l1 l2 others :
  gateway_inv w (l1 ++ ctx :: l2) others →
  on_response_body env end_of_stream (with_metadata metadata ctx) w = (w', ctx') →
  gateway_inv w' (l1 ++ ctx' :: l2) others.
Proof.
  intros Hinv. unfold Gateway.on_response_body.
  destruct end_of_stream; [|intros [= <- <-]; by eapply gateway_inv_same; [..|exact Hinv]].
  cbn [with_metadata cx_metered]. destruct (cx_metered ctx) as [m|] eqn:Hm.
  2: { intros [= <- <-]. by eapply gateway_inv_same; [..|exact Hinv]. }
  intros [= <- <-]. apply gateway_inv_add; [done|].
  pose proof (gateway_inv_unsettled _ _ _ _ _ Hinv) as Ho.
  assert (caller_of ctx = mt_caller m) as Hc by (unfold caller_of; by rewrite Hm).
  rewrite Hc in Ho.
  set (usage := match mt_provider m with Some _ => _ | None => _ end). clearbody usage.
  apply (gateway_inv_end w _ _ ctx); [|done]. rewrite Hc.
  apply (gives_settle env m _ (set_usage usage w)); [done|]. apply reported_usage_ok.
Qed.

Lemma gateway_run_inv w open others : gateway_run w open others → gateway_inv w open others.
Proof.
  induction 1 as [w Hr Hs Hf|env ctx w w' ctx' r open others _ IH He Hm Hret Hroom Hreq
    |env response w w' ctx ctx' l1 l2 others _ IH Hresp
    |env metadata eos w w' ctx ctx' l1 l2 others _ IH Hbody
    |w ctx l1 l2 others _ IH|i w open others _ IH|usage w open others _ IH
    |e now w open others _ IH He Hnow Hadm Hret|key now w open others _ IH Hret
    |w open l1 a l2 o _ IH Ho].
  - split; [|intros hash op Hop|done].
    + rewrite Hr. split; [apply State_ok_default|done..].
    + destruct (fk_operators _ Hself _ _ Hop) as [? _]. unfold slot_count. rewrite Hs, Hf.
      change (refused hash []) with 0. cbn [operator_slots]. split; [done|]. u64_lia.
  - by eapply gateway_inv_request.
  - revert Hresp. unfold on_response. cbn [with_response cx_metered].
    destruct (cx_metered ctx) as [m|] eqn:Hm; intros [= <- <-];
      (eapply gateway_inv_same; [..|exact IH]).
    + destruct (mt_provider m), (mt_caller m), response as [[]|]; done.
    + destruct (mt_provider m), (mt_caller m), response as [[]|]; done.
    + destruct (mt_provider m), (mt_caller m), response as [[]|]; done.
    + unfold caller_of. rewrite Hm. apply same_holder_success.
    + done.
    + done.
    + done.
    + unfold caller_of. cbn. by rewrite Hm.
  - by eapply gateway_inv_body.
  - eapply gateway_inv_end; [|exact IH]. apply gives_drop. by eapply gateway_inv_unsettled.
  - destruct IH as [Hh Hn Hk]. split; [|by apply back_out_slots|done].
    unfold back_out. by destruct (w_refused w !! i).
  - by destruct IH.
  - destruct IH as [Hh Hn Hk]. split; [|done|done]. by apply (held_inv_event e now).
  - destruct IH as [Hh Hn Hk]. split; [|done|done]. cbn [set_runs w_runs].
    pose proof (held_inv_admit key now _ _ Hh Hret) as Ha.
    destruct (admit_run key now (w_runs w)) as [st [a|e]]; cbn [fst snd] in Ha |- *; [|done].
    by rewrite <-Permutation_middle.
  - destruct IH as [Hh Hn Hk]. split; [|done|done]. rewrite (assoc_L (++)) in Hh |- *.
    by apply held_inv_end.
Qed.

(** C14: however requests of a filter interleave with one another and with
    other chains', as long as each ends, in whichever way, before its run is
    forgotten, a run's slot counter is the number of requests that hold one
    of its slots and never passes its concurrency; the registry stays well
    formed. No more requests are answered for an operator at once than its
    concurrency. Its counter is the number of them, and of those that found
    it busy and are yet to take back what they added: by these it may pass
    the concurrency, for as long as they take. Fewer requests than 2^64 are
    assumed to be open at once. *)
Theorem gateway_slots w open others :
  gateway_run w open others →
  State_ok (w_runs w) ∧
  (∀ k r, runs (w_runs w) !! k = Some r →
     run_in_flight r = holds_of k (admissions open ++ others) ∧
     run_in_flight r <= run_concurrency r) ∧
  (∀ hash op, f_operators self !! hash = Some op →
     operator_slots open hash <= op_concurrency op ∧
     slot_count hash w = operator_slots open hash + refused hash (w_refused w)).
Proof.
  intros [[Hok _ _ Hc] Hn _]%gateway_run_inv. split; [done|]. split.
  - intros k r Hr. split; [by apply Hc|]. apply (ok_runs _ Hok _ _ Hr).
  - intros hash op Hop. destruct (Hn hash op Hop) as (Hc' & Hb & _). split; [lia|done].
Qed.
End executions.

(** ** Settling a response *)
Section settling.
Context `{Crypto} {Hd : Type} `{HeaderMap Hd} {Key Identity : Type}.
Context (META_TOKEN_STATUS META_TOKEN_INPUT META_TOKEN_OUTPUT META_TOKEN_CACHE_READ
    META_TOKEN_REASONING META_TOKEN_TOTAL META_TOKEN_MODEL META_TOKEN_CACHE_WRITE : string).
Local Abbreviation reported_usage :=
  (reported_usage META_TOKEN_STATUS META_TOKEN_INPUT META_TOKEN_OUTPUT META_TOKEN_CACHE_READ
    META_TOKEN_REASONING META_TOKEN_TOTAL META_TOKEN_MODEL META_TOKEN_CACHE_WRITE).
Local Abbreviation on_response_body :=
  (on_response_body META_TOKEN_STATUS META_TOKEN_INPUT META_TOKEN_OUTPUT META_TOKEN_CACHE_READ
    META_TOKEN_REASONING META_TOKEN_TOTAL META_TOKEN_MODEL META_TOKEN_CACHE_WRITE).
Implicit Types (ctx : Context (Hd:=Hd) (Identity:=Identity)) (w : World Key) (env : Env Key).

(** What a run is charged: its response's usage, one unmetered response, or,
    for a failure or a path that uses no tokens, nothing. *)
Definition charged (usage_free success : bool) (reported : option Usage) (r : RunRecord) : RunRecord :=
  if usage_free then r
  else match reported, success with
       | Some u, _ => RunRecord_add u r
       | None, true => rec_with_usage (rec_requests r) (wrap_add (rec_unmetered r) 1)
           (rec_tokens r) (rec_models r) r
       | None, false => r
       end.
Definition only_slot_and_charge (a : Admission) (success : bool) (reported : option Usage)
    (st st' : State) : Prop :=
  ∀ k r, runs st !! k = Some r → ∃ r', runs st' !! k = Some r' ∧
    (if decide (k = adm_key a) then
       run_in_flight r' = sat_sub (run_in_flight r) 1 ∧
       run_record r' = charged (adm_usage_free a) success reported (run_record r)
     else r' = r).

Lemma settle_run_charged a success reported st :
  adm_success a = success → only_slot_and_charge a success reported st (Admission_settle a reported st).
Proof.
  intros <- k r Hr. unfold Admission_settle, Admission_drop. cbn [adm_settled adm_key].
  rewrite settle_frame, Hr. cbn [fmap option_fmap option_map]. eexists. split; [done|].
  destruct (decide (adm_key a = k)) as [->|Hne].
  - rewrite decide_True by done. unfold settle_outcome. cbn [adm_usage_free adm_success].
    unfold charged. destruct (adm_usage_free a); [done|]. destruct reported; [done|].
    by destruct (adm_success a).
  - by rewrite decide_False.
Qed.

(** C19: the end of a response's body settles the request, once: after it
    nothing more of the request is settled, ended again or dropped. The run
    it was admitted for is charged what the response reported, and its one
    slot is free; no other run changes. An operator's slot is free. Of a
    path that uses no tokens nothing is counted for the payer. A
    pass-through response changes nothing. *)
Theorem settled_once env ctx w w' ctx' m :
  on_response_body env true ctx w = (w', ctx') → cx_metered ctx = Some m →
  Forall (λ a, adm_success a = mt_success m) (admission_of (mt_caller m)) →
  let reported := reported_usage (cx_metadata ctx) in
  (∀ env' eos w1, on_response_body env' eos ctx' w1 = (w1, ctx')) ∧
  (∀ w1, drop_context ctx' w1 = w1) ∧
  match mt_caller m with
  | Some (CallerRun a) =>
      only_slot_and_charge a (mt_success m) reported (w_runs w) (w_runs w') ∧
      w_slots w' = w_slots w ∧
      (adm_usage_free a = true → mt_provider m = None → w_usage w' = w_usage w)
  | Some (CallerOperator hash _ free) =>
      w_runs w' = w_runs w ∧ slot_count hash w' = wrap_sub (slot_count hash w) 1 ∧
      (free = true → mt_provider m = None → w_usage w' = w_usage w)
  | None => mt_provider m = None → w' = w
  end.
Proof.
  intros Hbody Hm Ha reported. unfold Gateway.on_response_body in Hbody.
  rewrite Hm in Hbody. injection Hbody as <- <-. cbn [with_metered cx_metadata]. fold reported.
  split; [by intros ? [] ?|]. split; [done|]. unfold settle_caller.
  destruct (mt_caller m) as [[a|hash op free]|].
  - cbn in Ha. rewrite Forall_singleton in Ha.
    split; [|split; [done|]].
    + by apply settle_run_charged.
    + intros Hf Hp. cbn. by rewrite Hf, Hp.
  - split; [done|]. split.
    + cbn. unfold slot_count. cbn. by rewrite lookup_insert_eq.
    + intros Hf Hp. cbn. by rewrite Hf, Hp.
  - intros Hp. cbn. rewrite Hp. by destruct w.
Qed.
End settling.

(** ** Witnesses *)
#[local] Existing Instance toy_crypto.
#[local] Existing Instance header_map.
#[local] Existing Instance header_map_laws.
Lemma sample_filter_ok : filter_ok sample_filter.
Proof.
  split; [done|done| |].
  - intros r [= <-]. split; cbn [rr_oidc rr_unproven rr_limits ttl concurrency].
    + right. by eexists.
    + by vm_compute.
    + by vm_compute.
    + done.
    + by intros q [= <-].
  - intros hash op Hop. cbn [f_operators sample_filter] in Hop.
    apply lookup_singleton_Some in Hop as [_ <-]. split; [by vm_compute|].
    intros cluster. cbn [op_clusters]. intros ->%elem_of_singleton. by vm_compute.
Qed.
Definition sample_operator_message :=
  sample_context POST "/v1/messages" [("x-run-token"%string, "praxis-operator-0000"%string)].
Definition sample_both : World unit :=
  (sample_request sample_next_env sample_operator_message sample_message_world).1.1.
Definition sample_operator_context :=
  (sample_request sample_next_env sample_operator_message sample_message_world).1.2.
Definition sample_gateway_run :=
  gateway_run (Key:=unit) (λ _, None) (λ _ _ _, Err OtherKind) 0 sample_body (λ s, Some s)
    "status" "input" "output" "cache_read" "reasoning" "total" "model" "cache_write" sample_filter.
(** The operator's second slot, and a request more than it has. *)
Definition sample_full : World unit :=
  (sample_request sample_next_env sample_operator_message sample_both).1.1.
Definition sample_full_context :=
  (sample_request sample_next_env sample_operator_message sample_both).1.2.
Definition sample_busy : World unit :=
  (sample_request sample_next_env sample_operator_message sample_full).1.1.
Lemma sample_run_both :
  sample_gateway_run sample_both [sample_operator_context; sample_message_context] [].
Proof.
  assert (sample_request sample_env sample_registration sample_world =
    (sample_registered, (sample_request sample_env sample_registration sample_world).1.2,
     (sample_request sample_env sample_registration sample_world).2)) as H1
    by (vm_compute; reflexivity).
  assert (sample_request sample_next_env sample_message sample_registered =
    (sample_message_world, sample_message_context, Ok Continue)) as H2 by (vm_compute; reflexivity).
  assert (sample_request sample_next_env sample_operator_message sample_message_world =
    (sample_both, sample_operator_context, Ok Continue)) as H3 by (vm_compute; reflexivity).
  assert (retained 5 (w_runs sample_message_world) (admissions [sample_message_context] ++ [])) as Hr.
  { unfold retained. change (admissions [sample_message_context]) with
      [mkAdmission (Unproven (RunName_of "bench-1")) Private false false false].
    constructor; [|constructor]. cbn [adm_key].
    destruct (runs _ !! _) eqn:E; [by eexists|]. revert E. vm_compute. discriminate. }
  pose proof (gw_init (λ _, None) (λ _ _ _, Err OtherKind) 0 sample_body (λ s, Some s)
    "status" "input" "output" "cache_read" "reasoning" "total" "model" "cache_write" sample_filter
    sample_world eq_refl eq_refl eq_refl) as G0.
  pose proof (gw_request _ _ _ _ _ _ _ _ _ _ _ _ _ _ sample_env sample_registration _ _ _ _ _ _
    G0 eq_refl eq_refl (retained_nil _ _) eq_refl H1) as G1.
  assert (∀ o, match (sample_request sample_env sample_registration sample_world).2 with
    | Ok Continue => o :: [] | _ => [] end = ([] : list (Context (Hd:=list (string * string)) (Identity:=string)))) as Hn
    by (intros o; vm_compute; reflexivity).
  rewrite Hn in G1.
  pose proof (gw_request _ _ _ _ _ _ _ _ _ _ _ _ _ _ sample_next_env sample_message _ _ _ _ _ _
    G1 ltac:(vm_compute; reflexivity) eq_refl (retained_nil _ _) eq_refl H2) as G2.
  exact (gw_request _ _ _ _ _ _ _ _ _ _ _ _ _ _ sample_next_env sample_operator_message _ _ _ _ _ _
    G2 ltac:(vm_compute; reflexivity) eq_refl Hr eq_refl H3).
Qed.
Lemma sample_retained (w : World unit) open :
  admissions open = [mkAdmission (Unproven (RunName_of "bench-1")) Private false false false] →
  is_some (runs (State_prune 5 (w_runs w)) !! Unproven (RunName_of "bench-1")) = true →
  retained 5 (w_runs w) (admissions (Identity:=string) (Hd:=list (string * string)) open ++ []).
Proof.
  intros -> Hs. constructor; [|constructor]. cbn [adm_key].
  destruct (runs (State_prune 5 (w_runs w)) !! _); [by eexists|discriminate Hs].
Qed.
Lemma sample_run_busy :
  sample_gateway_run sample_busy
    [sample_full_context; sample_operator_context; sample_message_context] [].
Proof.
  assert (sample_request sample_next_env sample_operator_message sample_both =
    (sample_full, sample_full_context, Ok Continue)) as H1 by (vm_compute; reflexivity).
  assert (∃ ctx, sample_request sample_next_env sample_operator_message sample_full =
    (sample_busy, ctx, Ok (reject 429 "too many requests in flight for this operator"))) as [ctx H2]
    by (eexists; vm_compute; reflexivity).
  pose proof (gw_request _ _ _ _ _ _ _ _ _ _ _ _ _ _ sample_next_env sample_operator_message _ _ _ _ _ _
    sample_run_both ltac:(vm_compute; reflexivity) eq_refl
    ltac:(apply sample_retained; vm_compute; reflexivity) eq_refl H1) as G1.
  exact (gw_request _ _ _ _ _ _ _ _ _ _ _ _ _ _ sample_next_env sample_operator_message _ _ _ _ _ _
    G1 ltac:(vm_compute; reflexivity) eq_refl
    ltac:(apply sample_retained; vm_compute; reflexivity) eq_refl H2).
Qed.

Lemma gateway_slots_witness :
  (∃ r, runs (w_runs sample_busy) !! Unproven (RunName_of "bench-1") = Some r ∧
     run_in_flight r = 1) ∧
  slot_count (sha256 "praxis-operator-0000") sample_busy = 3 ∧
  slot_count (sha256 "praxis-operator-0000") (back_out 0 sample_busy) = 2.
Proof.
  pose proof (gw_back_out _ _ _ _ _ _ _ _ _ _ _ _ _ _ 0 _ _ _ sample_run_busy) as Hback.
  destruct (gateway_slots _ _ _ _ _ _ _ _ _ _ _ _ _ _ sample_filter_ok _ _ _ sample_run_busy)
    as (_ & Hruns & Hops).
  destruct (gateway_slots _ _ _ _ _ _ _ _ _ _ _ _ _ _ sample_filter_ok _ _ _ Hback)
    as (_ & _ & Hafter).
  split; [|split].
  - destruct (runs (w_runs sample_busy) !! Unproven (RunName_of "bench-1")) as [r|] eqn:E;
      [|exfalso; revert E; vm_compute; discriminate].
    exists r. split; [done|]. destruct (Hruns _ _ E) as [-> _]. vm_compute. reflexivity.
  - destruct (Hops (sha256 "praxis-operator-0000") (mkOperator "ci" {["anthropic"]} 2 Private))
      as [_ ->]; [apply lookup_singleton_eq|]. vm_compute. reflexivity.
  - destruct (Hafter (sha256 "praxis-operator-0000") (mkOperator "ci" {["anthropic"]} 2 Private))
      as [_ ->]; [apply lookup_singleton_eq|]. vm_compute. reflexivity.
Defined.

Definition sample_metadata (key : string) : option string :=
  if bool_decide (key = "input") then Some "3"%string
  else if bool_decide (key = "output") then Some "4"%string else None.
Definition sample_ended :=
  with_metadata sample_metadata
    (on_response sample_env (with_response (Some (200, [])) sample_message_context)
       sample_message_world).2.
Lemma settled_once_witness :
  let out := Gateway.on_response_body "status" "input" "output" "cache_read" "reasoning" "total"
    "model" "cache_write" sample_env true sample_ended sample_message_world in
  cx_metered sample_ended ≠ None ∧
  ∃ r, runs (w_runs out.1) !! Unproven (RunName_of "bench-1") = Some r ∧
    run_in_flight r = 0 ∧ tk_total (rec_tokens (run_record r)) = 7.
Proof.
  intros out. destruct (cx_metered sample_ended) as [m|] eqn:Hm;
    [|exfalso; revert Hm; vm_compute; discriminate].
  split; [done|].
  assert (mt_caller m = Some (CallerRun
    (mkAdmission (Unproven (RunName_of "bench-1")) Private true false false)) ∧
    mt_success m = true) as [Hc Hs]
    by (vm_compute in Hm; injection Hm as <-; split; reflexivity).
  destruct (settled_once "status" "input" "output" "cache_read" "reasoning" "total" "model"
    "cache_write" sample_env sample_ended sample_message_world out.1 out.2 m
    (surjective_pairing out) Hm) as (_ & _ & Hrun).
  { rewrite Hc, Hs. by apply Forall_singleton. }
  rewrite Hc, Hs in Hrun. destruct Hrun as (Hrun & _).
  destruct (runs (w_runs sample_message_world) !! Unproven (RunName_of "bench-1")) as [r|] eqn:E;
    [|exfalso; revert E; vm_compute; discriminate].
  destruct (Hrun _ _ E) as (r' & Hr' & Hd). exists r'. split; [exact Hr'|].
  cbn [adm_key] in Hd. rewrite decide_True in Hd by done. destruct Hd as [-> Hd]. rewrite Hd.
  vm_compute in E. injection E as <-. split; vm_compute; reflexivity.
Defined.
