(* ===== verification/GatewayUsage.v ===== *)
(** * The [run_token] filter: usage and grants

    The registry of usage a filter serves changes only by the operations of
    [BrokerUsage], so that in every execution it is well typed
    ([UsageTyped]), and the grants the filter serves of it are paced
    ([BudgetPace]): what [/usage/grant] answers a consumer never lets it past
    its share of a window that is known. *)
From S2P Require Import Prelude Crypto Headers Float64 Float64Order Pools Budget BudgetGrants BudgetPace.
From S2P Require Import Runs Oidc Operators Usage UsageWeek UsageBroker UsageState UsageWindows.
From S2P Require Import RunsInvariants UsageTyped Filter Gateway GatewaySafety GatewayRuns.
Local Open Scope Z_scope.

(** ** The operations a handler makes *)
Section operations.
Context `{HeaderMap Hd}.

(** [b'] is [b] after operations that are [P]. *)
Definition operated (P : usage_event (H:=Hd) → Prop) (b b' : BrokerUsage) : Prop :=
  ∃ es, Forall P es ∧ b' = foldl usage_step b es.
Lemma operated_refl P b : operated P b b.
Proof. by exists []. Qed.
Lemma operated_step (P : usage_event → Prop) b e : P e → operated P b (usage_step b e).
Proof. intros He. exists [e]. split; [by apply Forall_singleton|done]. Qed.
Lemma operated_trans P b1 b2 b3 : operated P b1 b2 → operated P b2 b3 → operated P b1 b3.
Proof.
  intros (es1 & H1 & ->) (es2 & H2 & ->). exists (es1 ++ es2).
  split; [by apply Forall_app|]. by rewrite foldl_app.
Qed.
Lemma operated_mono (P Q : usage_event → Prop) b b' :
  (∀ e, P e → Q e) → operated P b b' → operated Q b b'.
Proof. intros HPQ (es & He & ->). exists es. split; [|done]. by eapply Forall_impl. Qed.
(** What every such operation preserves. *)
Lemma operated_ind (P : usage_event → Prop) (I : BrokerUsage → Prop) b b' :
  (∀ b e, P e → I b → I (usage_step b e)) → operated P b b' → I b → I b'.
Proof.
  intros Hstep (es & Hes & ->). revert b. induction Hes as [|e es He _ IH]; intros b Hb; [done|].
  cbn. by apply IH, Hstep.
Qed.
Lemma operated_typed b b' : operated event_typed b b' → registry_typed b → registry_typed b'.
Proof. apply operated_ind. intros. by apply usage_step_typed. Qed.

(** The operations of a request and of a response's header. *)
Definition registers (e : usage_event (H:=Hd)) : Prop := ∃ admitted, e = UUnproven admitted.
Definition captures (now : Z) (e : usage_event (H:=Hd)) : Prop :=
  ∃ provider consumer headers, e = UCapture provider consumer headers now.
Lemma registers_typed e : registers e → event_typed e.
Proof. by intros [? ->]. Qed.
Lemma captures_typed now e : is_u64 now → captures now e → event_typed e.
Proof. by intros ? (? & ? & ? & ->). Qed.

(** A filter built on the registry. *)
Lemma declare_usage_operated now spend endpoints operators b :
  is_u64 now → operated event_typed b (declare_usage now spend endpoints operators b).
Proof.
  intros Hn. unfold declare_usage.
  assert (∀ l b', operated event_typed b' (foldl (λ usage operator,
    declare_operator (op_name operator) (op_consumer operator) usage) b' l)) as Hops.
  { induction l as [|o l IH]; intros b'; [apply operated_refl|]. cbn [foldl].
    eapply operated_trans; [|apply IH]. by apply (operated_step _ _ (UDeclareOperator _ _)). }
  eapply operated_trans; [|apply Hops].
  eapply (operated_trans _ _ (if spend then meter_spend_at now b else b)).
  - destruct spend; [by apply (operated_step _ _ (UMeter now))|apply operated_refl].
  - destruct endpoints as [| |registrar]; [apply operated_refl..|].
    destruct (is_some _); [by apply (operated_step _ _ UDeclareUnproven)|apply operated_refl].
Qed.
End operations.
#[local] Hint Resolve operated_refl : core.

Section handlers.
Context `{Crypto} {Hd : Type} `{HeaderMap Hd} {Key : Type}.
Context (decode_header : string → option Header)
  (decode_jwt : string → Key → Validation → result DecodeError Claims)
  (issued_after : Z) (to_vec : Body → option string)
  {Identity : Type} (new_identity : string → option Identity)
  (META_TOKEN_STATUS META_TOKEN_INPUT META_TOKEN_OUTPUT META_TOKEN_CACHE_READ
    META_TOKEN_REASONING META_TOKEN_TOTAL META_TOKEN_MODEL META_TOKEN_CACHE_WRITE : string)
  (self : RunTokenFilter).
Local Abbreviation on_request :=
  (on_request decode_header decode_jwt issued_after to_vec new_identity self).
Local Abbreviation on_response_body :=
  (on_response_body META_TOKEN_STATUS META_TOKEN_INPUT META_TOKEN_OUTPUT META_TOKEN_CACHE_READ
    META_TOKEN_REASONING META_TOKEN_TOTAL META_TOKEN_MODEL META_TOKEN_CACHE_WRITE).
Implicit Types (ctx : Context (Hd:=Hd) (Identity:=Identity)) (w : World Key) (env : Env Key).
Local Abbreviation changes P w w' := (operated (Hd:=Hd) P (w_usage w) (w_usage w')).

Lemma drop_caller_usage c w : w_usage (drop_caller c w) = w_usage w.
Proof. by destruct c as [[]|]. Qed.
Lemma admit_caller_usage env headers cluster w :
  w_usage (admit_caller self env headers cluster w).1 = w_usage w.
Proof.
  unfold admit_caller. destruct (token self headers) as [[? tok]|]; [|done].
  destruct (Operators_authenticate _ _) as [[hash op]|].
  - by destruct (Operator_admit _ _ _) as [n [u|[]]].
  - destruct (authenticate _ _ _) as [st [key|]]; [|done].
    by destruct (admit_run _ _ _) as [st' [a|[]]].
Qed.
Lemma with_own_run_usage env (headers : Hd) f w :
  w_usage (with_own_run to_vec self env headers f w).1 = w_usage w.
Proof.
  unfold with_own_run. destruct (run_of _ _ _ _) as [st [key|]]; [|done]. by destruct (f key st).
Qed.
Lemma register_run_usage env registrar (headers : Hd) w :
  changes registers w (register_run decode_header decode_jwt issued_after to_vec env registrar headers w).1.
Proof.
  assert (changes registers w
    (register_proven decode_header decode_jwt issued_after to_vec env registrar headers w).1) as Hp.
  { unfold register_proven. destruct (rr_oidc registrar) as [oidc|]; [|done].
    destruct (_ =? 0); [done|]. destruct (bearer headers); [|done].
    destruct (verify _ _ _ _ _ _ _ _) as [cache [id|[]]]; try done.
    by destruct (Runs.register _ _ _ _ _ _). }
  unfold register_run. destruct (rr_unproven registrar) as [q|]; [|done].
  destruct (hm_contains _ _); [done|].
  unfold register_unproven_run. destruct (existsb _ _); [done|].
  destruct (hm_get_all _ _) as [|v [|??]]; [done| |done].
  destruct (hm_to_str v ≫= RunName_new) as [name|]; [|done].
  destruct (register_unproven _ _ _ _ _ _ _) as [st [[tok rec]|[]]]; try done; cbn [fst];
    apply (operated_step _ _ (UUnproven _)); by eexists.
Qed.
Lemma serve_runs_usage env registrar request w :
  changes registers w (serve_runs decode_header decode_jwt issued_after to_vec self env registrar request w).1.
Proof.
  unfold serve_runs. case_bool_decide; [|case_bool_decide; [|done]].
  - destruct (rq_method request); try done. destruct registrar as [r|]; [|done].
    apply register_run_usage.
  - destruct (rq_method request); try done; by rewrite with_own_run_usage.
Qed.
Lemma on_request_usage env ctx w :
  changes registers w (on_request env ctx w).1.1.
Proof.
  unfold Gateway.on_request. cbv zeta. case_bool_decide; [done|]. case_bool_decide; [done|].
  destruct (_ || _).
  { destruct (f_endpoints self) as [| |r]; [done|..].
    - pose proof (serve_runs_usage env None (cx_request ctx) w) as Hs.
      by destruct (serve_runs _ _ _ _ _ _ _ _ _).
    - pose proof (serve_runs_usage env (Some r) (cx_request ctx) w) as Hs.
      by destruct (serve_runs _ _ _ _ _ _ _ _ _). }
  destruct (is_some _); [done|]. case_bool_decide; [done|].
  destruct (mode_of _ _) as [[cluster mode]|]; [|done].
  destruct mode; cbn [admit_for]; [|by destruct (pass_through _)].
  unfold injected.
  match goal with |- context [admit_caller self env ?h ?c w] =>
    pose proof (admit_caller_usage env h c w) as Hu; destruct (admit_caller self env h c w) as [w1 [[sub caller]|e]]
  end; cbn [fst] in Hu; [|by cbn; rewrite Hu].
  destruct (new_identity sub); cbn -[drop_caller]; [by rewrite Hu|].
  by rewrite drop_caller_usage, Hu.
Qed.
Lemma on_response_usage env ctx w :
  changes (captures (e_unix env)) w (on_response env ctx w).1.
Proof.
  unfold on_response. destruct (cx_metered ctx) as [m|]; [|done].
  cbn [mt_provider mt_caller fst].
  destruct (mt_provider m) as [p|]; [|done]. destruct (set_success _ <$> mt_caller m) as [c|]; [|done].
  destruct (cx_response ctx) as [[status headers]|]; [|done].
  apply (operated_step _ _ (UCapture _ _ _ _)). by do 3 eexists.
Qed.
Lemma settle_caller_usage env m reported w :
  is_u64 (e_unix env) → usage_typed reported → changes event_typed w (settle_caller env m reported w).
Proof.
  intros Hn Hr. unfold settle_caller. destruct (mt_caller m) as [[a|hash op free]|]; [..|done].
  - cbn [set_runs set_usage w_usage]. destruct (adm_usage_free a); [done|].
    eapply operated_trans; [|by apply (operated_step _ _ (USpend _ _ _ _))].
    destruct (is_unproven _); [|done]. by apply (operated_step _ _ (USettleUnproven _ _)).
  - rewrite drop_caller_usage. cbn [set_usage w_usage]. destruct free; [done|].
    eapply operated_trans; [|by apply (operated_step _ _ (USpend _ _ _ _))].
    by apply (operated_step _ _ (USettleOperator _ _ _)).
Qed.
Lemma on_response_body_usage env eos ctx w :
  is_u64 (e_unix env) → changes event_typed w (on_response_body env eos ctx w).1.
Proof.
  intros Hn. unfold Gateway.on_response_body. destruct eos; [|done].
  destruct (cx_metered ctx) as [m|]; [|done]. cbn [fst with_metered cx_metadata].
  set (reported := reported_usage _ _ _ _ _ _ _ _ _).
  assert (usage_typed reported) as Hr by (intros u; apply reported_usage_ok).
  eapply operated_trans; [|by apply settle_caller_usage]. cbn [set_usage w_usage].
  destruct (mt_provider m); [|done]. by apply (operated_step _ _ (USettle _ _ _)).
Qed.

(** ** Executions

    A process takes up its state file and names the filter's registry; then
    requests of any filters of that name, in any order, at any times. *)
Context (from_json : string → result string StateFile).
Inductive gateway_life : World Key → Prop :=
| gl_start r w :
    registries_life (H:=Hd) from_json r → rg_usage r !! f_registry self = Some (w_usage w) →
    gateway_life w
| gl_request env ctx w :
    gateway_life w → gateway_life (on_request env ctx w).1.1
| gl_response env ctx w :
    gateway_life w → is_u64 (e_unix env) → gateway_life (on_response env ctx w).1
| gl_body env end_of_stream ctx w :
    gateway_life w → is_u64 (e_unix env) → gateway_life (on_response_body env end_of_stream ctx w).1
| gl_drop ctx w : gateway_life w → gateway_life (drop_context ctx w)
| gl_back_out i w : gateway_life w → gateway_life (back_out i w)
| gl_other e w w' :
    gateway_life w → event_typed (H:=Hd) e → w_usage w' = usage_step (w_usage w) e →
    gateway_life w'.

Hypothesis Hjson : ∀ text file,
  from_json text = Ok file → map_Forall (λ _, windows_parsed) (sf_registries file).
Lemma gateway_life_typed w : gateway_life w → registry_typed (w_usage w).
Proof using Hjson.
  induction 1 as [r w Hr Hw|env ctx w _ IH|env ctx w _ IH Hn|env eos ctx w _ IH Hn|ctx w _ IH
    |i w _ IH|e w w' _ IH He Hw].
  - apply (registries_life_typed _ Hjson) in Hr as [Hu _]. by apply (Hu _ _ Hw).
  - eapply operated_typed; [|done]. eapply operated_mono; [apply registers_typed|apply on_request_usage].
  - eapply operated_typed; [|done]. eapply operated_mono; [|apply on_response_usage].
    intros e. by apply captures_typed.
  - eapply operated_typed; [by apply on_response_body_usage|done].
  - unfold drop_context. by rewrite drop_caller_usage.
  - unfold back_out. by destruct (w_refused w !! i).
  - rewrite Hw. by apply usage_step_typed.
Qed.
End handlers.

(** ** What a grant reads of a registry *)
Definition served_windows (b : BrokerUsage) : list named_window :=
  zip_with (λ '(provider, name) window, (provider, name, window)) WINDOWS
    (sn_attributed (bu_state b)).
Definition served_spend (b : BrokerUsage) (c : Consumer) (now : Z) : option MistralSpend :=
  (λ spend, mkMistralSpend (t_micros (Week_sum (now / 3600) (at_consumer (sp_mistral spend) c)))
     (sp_since spend)) <$> bu_spend b.
Lemma grant_at_eq budget c now b :
  grant_at budget c now (bu_state b) (bu_spend b) =
  grant budget c (served_windows b) (served_spend b c now) now.
Proof. done. Qed.

Section reads.
Context (b : BrokerUsage) (Hb : registry_typed b).
Lemma served_windows_typed : Forall named_typed (served_windows b).
Proof using Hb.
  apply Forall_lookup. intros i [[pool name] slot].
  intros ([p n] & s & [= -> -> ->] & _ & Hs)%lookup_zip_with_Some a Ha. cbn in Ha.
  destruct (ss_windows _ (ry_state _ Hb)) as [[_ _ _ _ Hatt] _]. cbn in Hatt.
  rewrite Forall_lookup in Hatt. destruct (Hatt i s Hs a Ha) as [[_ Hres Hsecs _ _ Hu] _].
  by split.
Qed.
Lemma served_spend_typed c now s : served_spend b c now = Some s → spend_typed s.
Proof using Hb.
  intros (sp & Hsp & ->)%fmap_Some. destruct (ry_spend _ Hb sp Hsp) as [Hsince _ _ Hm].
  split; [|done]. cbn.
  assert (Tally_ok (Week_sum (now / 3600) (at_consumer (sp_mistral sp) c))) as Ht; [|apply Ht].
  apply (sum_ok (now / 3600)); [|apply Tally_ok_default].
  eapply Forall_impl; [apply (Hm c)|]. by intros x [_ ?].
Qed.
(** The windows of a pool have different names. *)
Lemma served_names budget c now pool :
  NoDup (pool_reads budget c (served_windows b) (served_spend b c now) now pool).*1.
Proof using Hb.
  destruct (ss_windows _ (ry_state _ Hb)) as [_ Hl]. cbn in Hl.
  unfold pool_reads, served_windows. destruct (sn_attributed (bu_state b)) as [|a0 [|a1 [|a2 [|a3 []]]]];
    try discriminate Hl. clear Hl.
  destruct pool; cbn [WINDOWS zip_with omap list_omap app].
  - repeat (rewrite bool_decide_eq_true_2 by done || rewrite bool_decide_eq_false_2 by done).
    destruct (read_window c now a0), (read_window c now a1); cbn; repeat constructor; set_solver.
  - repeat (rewrite bool_decide_eq_true_2 by done || rewrite bool_decide_eq_false_2 by done).
    destruct (read_window c now a2), (read_window c now a3); cbn; repeat constructor; set_solver.
  - repeat (rewrite bool_decide_eq_true_2 by done || rewrite bool_decide_eq_false_2 by done).
    destruct (mistral_weekly_usd budget), (served_spend b c now); cbn; repeat constructor; set_solver.
Qed.
End reads.

(** What was not used is not over any allowance. *)
Lemma spend_window_zero cap since : flt fzero (w_used_percent (spend_window cap (mkMistralSpend 0 since))) = false.
Proof.
  unfold spend_window. cbn [w_used_percent ms_micros]. generalize (fmul cap (decimal 1000000 0)).
  intros x. change (f64_of_u64 0) with fzero. by destruct x as [| | |[]].
Qed.
Lemma unused_reads budget b c now pool name w :
  (∀ a, Some a ∈ sn_attributed (bu_state b) → flt fzero (at_consumer (att_used a) c) = false) →
  (∀ s, served_spend b c now = Some s → ms_micros s = 0) →
  (name, w) ∈ pool_reads budget c (served_windows b) (served_spend b c now) now pool →
  flt fzero (w_used_percent w) = false.
Proof.
  intros Ha Hs. unfold pool_reads. rewrite elem_of_app. intros [Hw|Hw].
  - case_bool_decide; [|by apply elem_of_nil in Hw].
    destruct (mistral_weekly_usd budget) as [cap|]; [|by apply elem_of_nil in Hw].
    destruct (served_spend b c now) as [[micros since]|]; [|by apply elem_of_nil in Hw].
    apply list_elem_of_singleton in Hw as [= -> ->]. specialize (Hs _ eq_refl). cbn in Hs. subst micros.
    apply spend_window_zero.
  - apply list_elem_of_omap in Hw as ([[p n] slot] & Hin & Hr). case_bool_decide; [|done].
    apply fmap_Some in Hr as (w' & Hr & [= -> ->]). unfold read_window in Hr.
    destruct slot as [a|]; [|done]. cbn [mbind option_bind] in Hr.
    destruct (_ && _); [done|]. injection Hr as <-. cbn. apply Ha.
    apply list_elem_of_lookup in Hin as [i Hi].
    apply lookup_zip_with_Some in Hi as ([p' n'] & s & [= -> -> <-] & _ & Hi).
    by apply list_elem_of_lookup_2 with i.
Qed.

Section grants.
Context `{Crypto} {Hd : Type} `{HeaderMap Hd} {Key : Type}.
Context (decode_header : string → option Header)
  (decode_jwt : string → Key → Validation → result DecodeError Claims)
  (issued_after : Z) (to_vec : Body → option string)
  {Identity : Type} (new_identity : string → option Identity)
  (META_TOKEN_STATUS META_TOKEN_INPUT META_TOKEN_OUTPUT META_TOKEN_CACHE_READ
    META_TOKEN_REASONING META_TOKEN_TOTAL META_TOKEN_MODEL META_TOKEN_CACHE_WRITE : string)
  (self : RunTokenFilter) (from_json : string → result string StateFile).
Local Abbreviation on_request :=
  (on_request decode_header decode_jwt issued_after to_vec new_identity self).
Local Abbreviation gateway_life :=
  (gateway_life decode_header decode_jwt issued_after to_vec new_identity
    META_TOKEN_STATUS META_TOKEN_INPUT META_TOKEN_OUTPUT META_TOKEN_CACHE_READ
    META_TOKEN_REASONING META_TOKEN_TOTAL META_TOKEN_MODEL META_TOKEN_CACHE_WRITE self from_json).
Implicit Types (ctx : Context (Hd:=Hd) (Identity:=Identity)) (w : World Key) (env : Env Key).

(** A request for the grant of a consumer. *)
Record asks_grant (request : Request (Hd:=Hd)) (c : Consumer) : Prop := {
  ag_method : rq_method request = GET;
  ag_path : rq_path request = GRANT_PATH;
  ag_consumer : ∃ name, Consumer_parse name = Some c ∧
    omap (strip_prefix "consumer=") (split_char "&" (default "" (rq_query request))) = [name];
}.
Lemma on_request_grant env ctx w budget c :
  asks_grant (cx_request ctx) c → f_budget self = Some budget →
  ∃ headers, on_request env ctx w =
    (w, ctx, Ok (json_with to_vec 200 (GrantBody
      (grant budget c (served_windows (w_usage w)) (served_spend (w_usage w) c (e_unix env)) (e_unix env)))
      headers)).
Proof.
  intros [Hm Hp (name & Hc & Hq)] Hf. unfold Gateway.on_request. rewrite Hp. cbv zeta.
  rewrite bool_decide_eq_false_2, bool_decide_eq_true_2 by done.
  unfold serve_usage. rewrite Hm. unfold serve_grant. rewrite Hf, Hq, Hc. eexists. done.
Qed.

Hypothesis Hjson : ∀ text file,
  from_json text = Ok file → map_Forall (λ _, windows_parsed) (sf_registries file).

(** C12: in every execution of a gateway, from any state file, a consumer
    that asks for its grant under an accepted policy is answered it, and
    nothing changes. For each window that is known of a pool it has a share
    of, it is told that share; its allowance and what it used, each to the
    nearest hundredth of a percent; and to hold when, before rounding, it used
    more than its allowance or the reading is stale. Before rounding, the
    allowance is never negative and never more than the share, is all of a
    short window's and of any other's by its end, is at least a tenth of a
    percent of a share of one percent, and never shrinks as time passes. The
    one told is never negative and never shrinks either, and is never more
    than the share to the nearest hundredth: it may be more than the share by
    that rounding. Over its share of a fresh window the consumer is told to
    hold all work; having used nothing, it never is. *)
Theorem grant_served env ctx w file budget c ss :
  gateway_life w → is_u64 (e_unix env) →
  check_budget file = Ok budget → file_typed file → f_budget self = Some budget →
  asks_grant (cx_request ctx) c → shares budget !! c = Some ss →
  let now := e_unix env in
  let reads := pool_reads budget c (served_windows (w_usage w)) (served_spend (w_usage w) c now) now in
  ∃ headers g,
  on_request env ctx w = (w, ctx, Ok (json_with to_vec 200 (GrantBody g) headers)) ∧
  (∀ pool share name win,
     ss !! pool = Some share → (name, win) ∈ reads pool →
     ∃ pg a, g_pools g !! pool = Some pg ∧
       pg_windows pg !! name = Some (mkWindowGrant share (round2 a) (round2 (w_used_percent win))
         (w_resets_at win) (w_stale win || flt a (w_used_percent win))) ∧
       fle fzero a = true ∧ fle a share = true ∧
       (w_secs win <= FIVE_HOURS ∨ w_secs win < 2 ^ 53 ∧ w_start win + w_secs win <= now →
        fle share a = true) ∧
       (fle (decimal 1 0) share = true → fle LEAD a = true) ∧
       (∀ later, now <= later → is_u64 later → fle a (allowed win share later) = true) ∧
       to_hundredth a (round2 a) ∧
       fle fzero (round2 a) = true ∧ fle (round2 a) (round2 share) = true ∧
       (fle share a = true → fle (round2 share) (round2 a) = true) ∧
       (∀ later, now <= later → is_u64 later →
        fle (round2 a) (round2 (allowed win share later)) = true)) ∧
  ((∃ pool share name win,
      ss !! pool = Some share ∧ (name, win) ∈ reads pool ∧
      w_stale win = false ∧ flt share (w_used_percent win) = true) → g_hold g = true) ∧
  ((∀ a, Some a ∈ sn_attributed (bu_state (w_usage w)) →
      flt fzero (at_consumer (att_used a) c) = false) →
   (∀ sp, bu_spend (w_usage w) = Some sp →
      t_micros (Week_sum (now / 3600) (at_consumer (sp_mistral sp) c)) = 0) →
   g_hold g = false).
Proof using Hjson.
  intros Hlife Hnow Hb Hfile Hf Hask Hss now reads.
  pose proof (gateway_life_typed _ _ _ _ _ _ _ _ _ _ _ _ _ _ _ Hjson w Hlife) as Hty.
  destruct (on_request_grant env ctx w budget c Hask Hf) as [headers Hreq].
  exists headers. eexists. split; [exact Hreq|].
  destruct (pace_bounds file budget c _ _ now Hb Hfile Hnow (served_windows_typed _ Hty)
    (served_spend_typed _ Hty c now) ss Hss) as (Hpace & Hover & Hnone). cbv zeta in Hpace.
  split; [|split; [exact Hover|]].
  - intros pool share name win Hs Hr.
    destruct (Hpace pool share name win Hs Hr) as (Hpos & Hle & Hwhole & Hlead).
    pose proof (grant_pools budget c (served_windows (w_usage w)) (served_spend (w_usage w) c now) now pool) as Hg.
    cbv zeta in Hg. rewrite Hss in Hg. cbn [mbind option_bind] in Hg. rewrite Hs in Hg.
    destruct (g_pools _ !! pool) as [pg|]; [|done]. destruct Hg as (_ & _ & Hwin & Htotal).
    exists pg, (allowed win share now). split; [done|]. split.
    2: { destruct (accepted_reads file budget c _ _ now Hb Hfile Hnow (served_windows_typed _ Hty)
           (served_spend_typed _ Hty c now) ss pool share name win Hss Hs Hr) as [Hg0 [_ Hst Hse]].
         pose proof (accepted_share file budget c Hb Hfile ss pool share Hss Hs) as [_ H100].
         assert (∀ later, now <= later → is_u64 later → fle (allowed win share now) (allowed win share later) = true)
           as Hlater by (intros; by apply allowed_later).
         destruct (told_bounds win share now Hg0 H100 Hnow Hst Hse) as (? & ? & ? & ?).
         split_and!; try done. intros later Hl Hu. apply told_later; auto. }
    destruct (Htotal name win Hr) as [wg Hwg]. destruct (Hwin name wg Hwg) as (win' & Hr' & ->).
    assert (win' = win) as ->; [|done].
    pose proof (served_names _ Hty budget c now pool) as Hnd.
    apply (elem_of_list_to_map_1 (M:=gmap string) _ _ _ Hnd) in Hr, Hr'. congruence.
  - intros Hatt Hmistral. apply Hnone. intros pool name win _ Hr _.
    eapply unused_reads; [exact Hatt| |exact Hr].
    intros s (sp & Hsp & ->)%fmap_Some. by apply Hmistral.
Qed.
End grants.

(** ** Witness

    A filter with a budget, on a registry taken up from a state file, as a
    response says that the public consumer used 41 percent of the window. *)
#[local] Existing Instance toy_crypto.
#[local] Existing Instance header_map.
Definition granting_filter : RunTokenFilter :=
  mkFilter "usage" ["x-run-token"]%string ∅ ∅ ∅ ∅ Absent ∅ (Some sample_budget).
Definition grant_context : Context (Hd:=list (string * string)) (Identity:=string) :=
  mkContext (mkRequest GET GRANT_PATH (Some "consumer=public"%string) []) None [] None None None
    (λ _, None).
Definition grant_env : Env unit := mkEnv 5 2100 "one" 4 (mkClock 5 5 5 5 5) None.
Definition sample_rise : usage_event (H:=list (string * string)) :=
  UCapture Codex Public
    [("x-codex-primary-used-percent", "60"); ("x-codex-primary-window-minutes", "300");
     ("x-codex-primary-reset-after-seconds", "600")]%string 1100.
Definition taken_up : BrokerUsage :=
  default (BrokerUsage_default 0) (rg_usage (usage_named "usage" 1000
    (mkRegistries ∅ (restored_windows sample_parse (Ok "json"%string) 1000))).1 !! "usage"%string).
Definition world_of (b : BrokerUsage) : World unit := mkWorld State_default b ∅ KeyCache_default [].
Definition granting_request :=
  Gateway.on_request (Key:=unit) (λ _, None) (λ _ _ _, Err OtherKind) 0 sample_body
    (λ s, Some s) granting_filter.
Definition granting_life :=
  gateway_life (Key:=unit) (λ _, None) (λ _ _ _, Err OtherKind) 0 sample_body (λ s, Some s)
    "status" "input" "output" "cache_read" "reasoning" "total" "model" "cache_write"
    granting_filter sample_parse.

Lemma granting_world : granting_life (world_of (usage_step taken_up sample_rise)).
Proof.
  assert (granting_life (world_of taken_up)) as Hl.
  { eapply gl_start; [apply (rl_named (H:=list (string * string)) sample_parse (mkRegistries ∅ (restored_windows sample_parse (Ok "json"%string) 1000)) "usage" 1000);
      [apply (rl_start sample_parse (Ok "json"%string) 1000)|]; u64_lia|vm_compute; reflexivity]. }
  eapply (gl_other _ _ _ _ _ _ _ _ _ _ _ _ _ _ _ sample_rise _ _ Hl); [cbn; u64_lia|done].
Qed.
Lemma grant_served_witness :
  ∃ headers g, (granting_request grant_env grant_context
      (world_of (usage_step taken_up sample_rise))).2 =
    Ok (json_with sample_body 200 (GrantBody g) headers) ∧ g_hold g = true.
Proof.
  assert (asks_grant (cx_request grant_context) Public) as Hask.
  { split; [reflexivity|reflexivity|]. exists "public"%string. split; vm_compute; reflexivity. }
  destruct (grant_served (λ _, None) (λ _ _ _, Err OtherKind) 0 sample_body (λ s, Some s)
    "status" "input" "output" "cache_read" "reasoning" "total" "model" "cache_write"
    granting_filter sample_parse sample_parse_typed grant_env grant_context _ sample_file
    sample_budget Public {[ Codex := decimal 30 0 ]} granting_world ltac:(cbn; u64_lia)
    sample_file_ok sample_file_typed eq_refl Hask eq_refl) as (headers & g & Hreq & _ & Hover & _).
  exists headers, g. split; [exact (f_equal snd Hreq)|]. apply Hover.
  exists Codex, (decimal 30 0), "primary"%string.
  eexists. split; [reflexivity|]. split; [vm_compute; left|split; vm_compute; reflexivity].
Defined.
