(* ===== verification/Billing.v ===== *)
(** * The bill of a gateway's responses

    The abstract specification of what [/usage] counts: a plain list of the
    responses that were settled, each with whose request it answered and what
    it reported.  The counts of a provider, of an operator and of the unproven
    runs, and the spend of each payer, are functions of that list
    ([counts_of], [charges_of]); [billed] says that a registry holds them, and
    the operations of [BrokerUsage] that settle a response keep it so. *)
From S2P Require Import Prelude Crypto Headers Pools Runs Prices Budget Operators Usage UsageWeek UsageBroker.
From S2P Require Import RunsInvariants UsageTyped Filter Gateway GatewayUsage.
From stdpp Require Import sorting.
Local Open Scope Z_scope.

(** ** Settled responses *)
Record Settlement := mkSettlement {
  sl_caller : Caller;
  sl_provider : option Provider;
  sl_reported : option Usage;
  sl_success : bool;
  sl_unix : Z;
}.

(** Whose count or spend a response is part of. A path that uses no tokens
    is of no payer. *)
Definition of_provider (provider : Provider) (s : Settlement) : bool :=
  bool_decide (sl_provider s = Some provider).
Definition of_operator (name : string) (s : Settlement) : bool :=
  match sl_caller s with
  | CallerOperator _ operator false => bool_decide (op_name operator = name)
  | _ => false
  end.
Definition of_runs (consumer : Consumer) (s : Settlement) : bool :=
  match sl_caller s with
  | CallerRun a => negb (adm_usage_free a) && bool_decide (adm_consumer a = consumer)
  | _ => false
  end.
Definition of_unproven (s : Settlement) : bool :=
  match sl_caller s with
  | CallerRun a => negb (adm_usage_free a) && is_unproven (adm_key a)
  | _ => false
  end.
Definition usage_free (caller : Caller) : bool :=
  match caller with CallerRun a => adm_usage_free a | CallerOperator _ _ free => free end.
Definition of_mistral (consumer : Consumer) (s : Settlement) : bool :=
  of_provider Mistral s && negb (usage_free (sl_caller s)) &&
  bool_decide (Caller_consumer (sl_caller s) = consumer).

(** ** Counts and charges of a list of them *)
(** A sum, kept at the largest [u64]. *)
Definition total (l : list Z) : Z := Z.min (foldr Z.add 0 l) U64_MAX.
Definition tokens_of (us : list Usage) : Tokens :=
  let sum field := total ((λ u, field (u_tokens u)) <$> us) in
  mkTokens (sum tk_input) (sum tk_cache_read) (sum tk_output) (sum tk_reasoning) (sum tk_total).
(** Responses that succeeded and said nothing of what they used. *)
Definition unmetered (s : Settlement) : bool := is_none (sl_reported s) && sl_success s.
Definition counts_of (P : Settlement → bool) (log : list Settlement) : Counts :=
  let log := List.filter P log in
  mkCounts (Z.min (Z.of_nat (length (omap sl_reported log))) U64_MAX)
    (Z.min (Z.of_nat (length (List.filter unmetered log))) U64_MAX)
    (tokens_of (omap sl_reported log)).
Definition charge_at (s : Settlement) : option (Z * Charge) :=
  pair (sl_unix s / 3600) <$> charge_of (sl_reported s) (sl_success s).
Definition charges_of (P : Settlement → bool) (log : list Settlement) : history :=
  omap charge_at (List.filter P log).
(** The spend meter that began at [t], with the operators listed. *)
Definition ledger_of (listed : gset string) (log : list Settlement) (t : Z) : Ledger :=
  mkLedger t (by_consumer (charges_of (of_runs Public) log) (charges_of (of_runs Private) log))
    (set_to_map (λ name, (name, charges_of (of_operator name) log)) listed)
    (by_consumer (charges_of (of_mistral Public) log) (charges_of (of_mistral Private) log)).

Lemma filter_snoc (P : Settlement → bool) log s :
  List.filter P (log ++ [s]) = List.filter P log ++ (if P s then [s] else []).
Proof. by rewrite List.filter_app. Qed.
Lemma total_snoc l x : 0 <= x → total (l ++ [x]) = sat_add (total l) x.
Proof.
  intros Hx. unfold total, sat_add.
  assert (foldr Z.add 0 (l ++ [x]) = foldr Z.add 0 l + x) as ->; [|lia].
  induction l as [|y l IH]; cbn; [lia|]. rewrite IH. lia.
Qed.
Lemma tokens_of_snoc us u :
  Tokens_ok (u_tokens u) → tokens_of (us ++ [u]) = Tokens_add (tokens_of us) (u_tokens u).
Proof.
  intros (?&?&?&?&?). unfold tokens_of, Tokens_add, is_u64 in *. rewrite !fmap_app.
  cbn [fmap list_fmap tk_input tk_cache_read tk_output tk_reasoning tk_total].
  by rewrite !total_snoc by lia.
Qed.
Lemma min_snoc n : Z.min (Z.of_nat (n + 1)) U64_MAX = sat_add (Z.min (Z.of_nat n) U64_MAX) 1.
Proof. unfold sat_add. lia. Qed.

(** One more response is counted as [Counts::settle] does, by those whose it is. *)
Lemma counts_of_snoc P log s :
  usage_typed (sl_reported s) →
  counts_of P (log ++ [s]) =
  if P s then Counts_settle (counts_of P log) (sl_reported s) (sl_success s) else counts_of P log.
Proof.
  intros Hs. unfold counts_of. rewrite filter_snoc. destruct (P s); [|by rewrite app_nil_r].
  rewrite omap_app, filter_snoc. unfold unmetered at 2. cbn [omap list_omap].
  destruct (sl_reported s) as [u|]; cbn [is_none andb Counts_settle].
  - rewrite app_nil_r, length_app, tokens_of_snoc by by apply Hs. cbn [length]. by rewrite min_snoc.
  - rewrite app_nil_r. destruct (sl_success s); [|by rewrite app_nil_r].
    rewrite length_app. cbn [length]. by rewrite min_snoc.
Qed.
Lemma charges_of_snoc P log s :
  charges_of P (log ++ [s]) =
  charges_of P log ++ (if P s then option_list (charge_at s) else []).
Proof.
  unfold charges_of. rewrite filter_snoc, omap_app. f_equal.
  destruct (P s); [|done]. cbn. by destruct (charge_at s).
Qed.
Lemma charges_of_ok P log :
  Forall (λ s, 0 <= sl_unix s) log → history_ok (charges_of P log).
Proof.
  intros Hlog. unfold charges_of, history_ok. apply Forall_forall.
  intros [hour c] (s & Hin & Hc)%list_elem_of_omap.
  apply list_elem_of_In, List.filter_In in Hin as [Hin _]. apply list_elem_of_In in Hin.
  rewrite Forall_forall in Hlog. specialize (Hlog s Hin).
  unfold charge_at in Hc. apply fmap_Some in Hc as (c' & Hc & [= -> ->]).
  split; [by apply Z.div_pos|]. by eapply charge_of_ok.
Qed.

(** ** A registry that holds a bill *)
Record billed (listed : gset string) (since : option Z) (log : list Settlement) (b : BrokerUsage)
    : Prop := {
  bd_anthropic : an_counts (sn_anthropic (bu_state b)) = counts_of (of_provider Anthropic) log;
  bd_codex : cx_counts (sn_codex (bu_state b)) = counts_of (of_provider Codex) log;
  bd_mistral : sn_mistral (bu_state b) = counts_of (of_provider Mistral) log;
  bd_operators : ∀ name, sn_operators (bu_state b) !! name =
    if decide (name ∈ listed) then Some (counts_of (of_operator name) log) else None;
  bd_unproven : ur_counts (default UnprovenRuns_default (sn_unproven_runs (bu_state b))) =
    counts_of of_unproven log;
  bd_spend : bu_spend b = (λ t, Spend_of (ledger_of listed log t)) <$> since;
}.

Lemma ledger_of_operators listed log t name :
  lg_operators (ledger_of listed log t) !! name =
  if decide (name ∈ listed) then Some (charges_of (of_operator name) log) else None.
Proof.
  cbn. case_decide as Hn.
  - apply lookup_set_to_map; [done|]. by exists name.
  - apply eq_None_not_Some. intros [h Hh]. apply lookup_set_to_map in Hh as (? & ? & [= <- _]); done.
Qed.

(** What [settle_spend_at] charges for a response, and to whom. *)
Definition payer_of (s : Settlement) : Payer :=
  mkPayer (match sl_caller s with CallerOperator _ operator _ => Some (op_name operator) | _ => None end)
    (Caller_consumer (sl_caller s)) (sl_provider s).
(** An operator's name is listed. *)
Definition listed_in (listed : gset string) (caller : Caller) : Prop :=
  match caller with CallerOperator _ operator _ => op_name operator ∈ listed | _ => True end.

Lemma ledger_eq l l' :
  lg_since l = lg_since l' → (∀ c, at_consumer (lg_runs l) c = at_consumer (lg_runs l') c) →
  (∀ name, lg_operators l !! name = lg_operators l' !! name) →
  (∀ c, at_consumer (lg_mistral l) c = at_consumer (lg_mistral l') c) → l = l'.
Proof.
  assert (∀ a a' : per_consumer history, (∀ c, at_consumer a c = at_consumer a' c) → a = a') as He.
  { intros [a1 a2] [b1 b2] Hc. pose proof (Hc Public). pose proof (Hc Private). cbn in *. congruence. }
  destruct l, l'. cbn. intros -> ->%He Ho%map_eq ->%He. by subst.
Qed.
Lemma ledger_of_runs listed log t c :
  at_consumer (lg_runs (ledger_of listed log t)) c = charges_of (of_runs c) log.
Proof. by destruct c. Qed.
Lemma ledger_of_mistral listed log t c :
  at_consumer (lg_mistral (ledger_of listed log t)) c = charges_of (of_mistral c) log.
Proof. by destruct c. Qed.

(** A response charged is one more of its payer's charges, and of no other's. *)
Lemma ledger_of_charge listed log t s c :
  usage_free (sl_caller s) = false → listed_in listed (sl_caller s) →
  charge_of (sl_reported s) (sl_success s) = Some c →
  ledger_charge (payer_of s) (sl_unix s / 3600) c (ledger_of listed log t) =
  ledger_of listed (log ++ [s]) t.
Proof.
  intros Hf Hl Hc.
  assert (∀ P, charges_of P (log ++ [s]) =
    charges_of P log ++ (if P s then [(sl_unix s / 3600, c)] else [])) as Hsnoc.
  { intros P. rewrite charges_of_snoc. unfold charge_at. by rewrite Hc. }
  assert (∀ d, at_consumer
    (if bool_decide (pay_provider (payer_of s) = Some Mistral)
     then set_consumer (lg_mistral (ledger_of listed log t)) (pay_consumer (payer_of s))
       (at_consumer (lg_mistral (ledger_of listed log t)) (pay_consumer (payer_of s)) ++
        [(sl_unix s / 3600, c)])
     else lg_mistral (ledger_of listed log t)) d =
    at_consumer (lg_mistral (ledger_of listed (log ++ [s]) t)) d) as Hm.
  { intros d. rewrite !ledger_of_mistral, Hsnoc. unfold of_mistral, of_provider. rewrite Hf.
    cbn [payer_of pay_provider pay_consumer negb]. rewrite andb_true_r.
    case_bool_decide; cbn [andb]; [|by rewrite ledger_of_mistral, app_nil_r].
    rewrite at_set_consumer. case_decide as Hd.
    - subst. by rewrite bool_decide_true.
    - by rewrite bool_decide_false, ledger_of_mistral, app_nil_r. }
  unfold ledger_charge. cbn [payer_of pay_operator] in *. destruct (sl_caller s) as [a|hash op free] eqn:Hcl.
  - apply ledger_eq; cbn [lg_since lg_runs lg_operators lg_mistral]; [done| | |exact Hm].
    + intros d. rewrite at_set_consumer, !ledger_of_runs, Hsnoc.
      assert (of_runs d s = bool_decide (adm_consumer a = d)) as ->.
      { unfold of_runs. rewrite Hcl. cbn in Hf. by rewrite Hf. }
      cbn [payer_of pay_consumer]. rewrite Hcl. cbn [Caller_consumer].
      destruct (decide (adm_consumer a = d)) as [<-|Hd]; [by rewrite bool_decide_true|].
      by rewrite bool_decide_false, app_nil_r.
    + intros name. rewrite !ledger_of_operators, Hsnoc. unfold of_operator. rewrite Hcl.
      by rewrite app_nil_r.
  - cbn in Hl, Hf. subst free. rewrite ledger_of_operators, decide_True by done.
    apply ledger_eq; cbn [lg_since lg_runs lg_operators lg_mistral]; [done| | |exact Hm].
    + intros d. rewrite !ledger_of_runs, Hsnoc. unfold of_runs. by rewrite Hcl, app_nil_r.
    + intros name. rewrite ledger_of_operators, Hsnoc.
      assert (of_operator name s = bool_decide (op_name op = name)) as ->
        by (unfold of_operator; by rewrite Hcl).
      destruct (decide (op_name op = name)) as [<-|Hne].
      * by rewrite lookup_insert_eq, decide_True, bool_decide_true.
      * rewrite lookup_insert_ne, ledger_of_operators, bool_decide_false by done.
        by rewrite app_nil_r.
Qed.
(** One that is not charged to anyone. *)
Lemma ledger_of_nothing listed log t s :
  usage_free (sl_caller s) = true ∨ charge_of (sl_reported s) (sl_success s) = None →
  ledger_of listed (log ++ [s]) t = ledger_of listed log t.
Proof.
  intros Hs.
  assert (∀ P : Settlement → bool, (usage_free (sl_caller s) = true → P s = false) →
    charges_of P (log ++ [s]) = charges_of P log) as Hsame.
  { intros P HP. rewrite charges_of_snoc. destruct Hs as [Hf|Hc].
    - by rewrite HP, app_nil_r.
    - unfold charge_at. rewrite Hc. cbn. destruct (P s); by rewrite app_nil_r. }
  apply ledger_eq; [done|intros c; rewrite !ledger_of_runs|
    intros name; rewrite !ledger_of_operators|intros c; rewrite !ledger_of_mistral].
  - rewrite Hsame; [done|]. unfold of_runs. destruct (sl_caller s); [|done]. cbn. by intros ->.
  - rewrite Hsame; [done|]. unfold of_operator. destruct (sl_caller s) as [|?? []]; done.
  - rewrite Hsame; [done|]. unfold of_mistral. intros ->. by rewrite andb_false_r.
Qed.

(** ** Settling a response

    What [on_response_body] does to the registry ([GatewayBilling]). *)
Definition bill (s : Settlement) (b : BrokerUsage) : BrokerUsage :=
  let settled b :=
    match sl_provider s with
    | Some provider => on_state (settle_provider provider (sl_reported s) (sl_success s)) b
    | None => b
    end in
  let counted b :=
    match sl_caller s with
    | CallerRun a =>
        if is_unproven (adm_key a)
        then on_state (settle_unproven (sl_reported s) (sl_success s)) b else b
    | CallerOperator _ operator _ =>
        on_state (settle_operator (op_name operator) (sl_reported s) (sl_success s)) b
    end in
  if usage_free (sl_caller s) then settled b
  else settle_spend_at (payer_of s) (sl_reported s) (sl_success s) (sl_unix s) (counted (settled b)).

Lemma settle_spend_state payer usage success now b :
  bu_state (settle_spend_at payer usage success now b) = bu_state b.
Proof. unfold settle_spend_at. by destruct (charge_of usage success). Qed.
Definition settled_if (mine : bool) (s : Settlement) (counts : Counts) : Counts :=
  if mine then Counts_settle counts (sl_reported s) (sl_success s) else counts.
(** Each count of the registry is settled by the responses that are its own. *)
Lemma bill_providers s b :
  let st := bu_state b in
  let st' := bu_state (bill s b) in
  an_counts (sn_anthropic st') = settled_if (of_provider Anthropic s) s (an_counts (sn_anthropic st)) ∧
  cx_counts (sn_codex st') = settled_if (of_provider Codex s) s (cx_counts (sn_codex st)) ∧
  sn_mistral st' = settled_if (of_provider Mistral s) s (sn_mistral st).
Proof.
  cbv zeta. unfold bill, of_provider.
  destruct (usage_free _); rewrite ?settle_spend_state.
  - by destruct (sl_provider s) as [[]|].
  - destruct (sl_caller s) as [a|hash op free].
    + destruct (is_unproven _); by destruct (sl_provider s) as [[]|].
    + cbn [on_state bu_state]. unfold settle_operator.
      destruct (sn_operators _ !! _); by destruct (sl_provider s) as [[]|].
Qed.
Lemma bill_unproven s b :
  let counts b := ur_counts (default UnprovenRuns_default (sn_unproven_runs (bu_state b))) in
  counts (bill s b) = settled_if (of_unproven s) s (counts b).
Proof.
  cbv zeta. unfold bill, of_unproven.
  destruct (usage_free _) eqn:Hf; rewrite ?settle_spend_state.
  - destruct (sl_caller s); cbn in Hf; rewrite ?Hf; by destruct (sl_provider s) as [[]|].
  - destruct (sl_caller s) as [a|hash op free]; cbn in Hf; rewrite ?Hf; cbn [negb andb].
    + destruct (is_unproven _); by destruct (sl_provider s) as [[]|].
    + cbn [on_state bu_state]. unfold settle_operator.
      destruct (sn_operators _ !! _); by destruct (sl_provider s) as [[]|].
Qed.
Lemma bill_operators s b name :
  sn_operators (bu_state (bill s b)) !! name =
  settled_if (of_operator name s) s <$> sn_operators (bu_state b) !! name.
Proof.
  assert (∀ o : option Counts, settled_if false s <$> o = o) as Hid by by intros [].
  unfold bill, of_operator.
  destruct (usage_free _) eqn:Hf; rewrite ?settle_spend_state.
  - destruct (sl_caller s); cbn in Hf; subst; rewrite Hid; by destruct (sl_provider s) as [[]|].
  - destruct (sl_caller s) as [a|hash op free]; cbn in Hf; subst.
    + rewrite Hid. destruct (is_unproven _); by destruct (sl_provider s) as [[]|].
    + set (b1 := match sl_provider s with Some _ => _ | None => _ end).
      assert (sn_operators (bu_state b1) = sn_operators (bu_state b)) as <-
        by (subst b1; by destruct (sl_provider s) as [[]|]).
      cbn [on_state bu_state]. unfold settle_operator.
      destruct (decide (op_name op = name)) as [<-|Hne].
      * rewrite bool_decide_true by done.
        destruct (sn_operators (bu_state b1) !! op_name op) eqn:E; [|by rewrite E].
        cbn. by rewrite lookup_insert_eq.
      * rewrite bool_decide_false, Hid by done.
        destruct (sn_operators (bu_state b1) !! op_name op); [|done].
        cbn. by rewrite lookup_insert_ne.
Qed.
Lemma bill_spend s b :
  bu_spend (bill s b) =
  match (if usage_free (sl_caller s) then None else charge_of (sl_reported s) (sl_success s)) with
  | Some c => charge_spend (payer_of s) (sl_unix s / 3600) c <$> bu_spend b
  | None => bu_spend b
  end.
Proof.
  unfold bill, settle_spend_at. destruct (usage_free _); [by destruct (sl_provider s)|].
  destruct (charge_of _ _); cbn [on_spend bu_spend]; [f_equal|];
    (destruct (sl_caller s) as [a|]; [destruct (is_unproven _)|]); by destruct (sl_provider s).
Qed.

(** The registry goes on holding the bill. *)
Lemma billed_bill listed since log s b :
  usage_typed (sl_reported s) → listed_in listed (sl_caller s) →
  billed listed since log b → billed listed since (log ++ [s]) (bill s b).
Proof.
  intros Hu Hl [Ha Hc Hm Ho Hn Hsp]. destruct (bill_providers s b) as (Ea & Ec & Em).
  split; rewrite ?(counts_of_snoc _ _ _ Hu).
  - by rewrite Ea, Ha.
  - by rewrite Ec, Hc.
  - by rewrite Em, Hm.
  - intros name. rewrite bill_operators, Ho, (counts_of_snoc _ _ _ Hu). by case_decide.
  - pose proof (bill_unproven s b) as En. cbv zeta in En. by rewrite En, Hn.
  - rewrite bill_spend, Hsp. destruct (usage_free (sl_caller s)) eqn:Hf.
    + destruct since; [|done]. cbn. by rewrite ledger_of_nothing by by left.
    + destruct (charge_of _ _) as [c|] eqn:Hch; (destruct since as [t|]; [|done]); cbn [fmap option_fmap option_map].
      * by rewrite charge_spend_refines, ledger_of_charge.
      * by rewrite ledger_of_nothing by by right.
Qed.

(** What requests and responses' headers do leaves it alone. *)
Section unbilled.
Context `{HeaderMap Hd}.
Lemma billed_registers listed since log b b' :
  operated (registers (Hd:=Hd)) b b' → billed listed since log b → billed listed since log b'.
Proof.
  apply operated_ind. intros b1 e [admitted ->] []. split; try done. by destruct admitted.
Qed.
Lemma billed_captures now listed since log b b' :
  operated (captures (Hd:=Hd) now) b b' → billed listed since log b → billed listed since log b'.
Proof.
  apply operated_ind. intros b1 e (provider & consumer & headers & ->) [Ha Hc Hm Ho Hn Hsp].
  destruct (capture_frame provider consumer headers now (bu_state b1))
    as (Eo & _ & _ & Ea & Ec & Em & En & _).
  split; cbn [usage_step on_state bu_state bu_spend]; rewrite ?Ea, ?Ec, ?Em, ?Eo, ?En; done.
Qed.
End unbilled.

(** ** The registry as the filters are built

    A registry nothing has used, and the filters that name it, in order. *)
Record Build := mkBuild { bl_now : Z; bl_spend : bool; bl_filter : RunTokenFilter }.
Definition build_usage (b : BrokerUsage) (x : Build) : BrokerUsage :=
  declare_usage (bl_now x) (bl_spend x) (f_endpoints (bl_filter x)) (f_operators (bl_filter x)) b.
(** The operators' names, and when spend began to be metered. *)
Definition names_of (x : Build) : gset string := list_to_set (names (f_operators (bl_filter x))).
Definition listed_names (builds : list Build) : gset string := ⋃ (names_of <$> builds).
Definition metered_since (builds : list Build) : option Z := bl_now <$> List.find bl_spend builds.

Lemma billed_dom listed since log b : billed listed since log b → dom (sn_operators (bu_state b)) = listed.
Proof.
  intros Hb. apply set_eq. intros name. rewrite elem_of_dom, (bd_operators _ _ _ _ Hb).
  case_decide; [by split; eauto|]. by split; [intros [??]|].
Qed.
Lemma billed_fresh now : billed ∅ None [] (BrokerUsage_default now).
Proof. split; try done. Qed.
Lemma billed_restored ws b : billed ∅ None [] b → billed ∅ None [] (on_state (restore_windows ws) b).
Proof. by intros []. Qed.

Lemma billed_meter listed since now b :
  billed listed since [] b → billed listed (Some (default now since)) [] (meter_spend_at now b).
Proof.
  intros Hb. destruct Hb as [? ? ? Ho ? Hsp] eqn:E. split; try done. cbn. rewrite Hsp.
  destruct since as [t|]; [done|]. cbn. f_equal. unfold Spend_of. cbn [ledger_of lg_since].
  f_equal. apply map_eq. intros name.
  rewrite !lookup_fmap, ledger_of_operators, Ho. by case_decide.
Qed.
Lemma billed_declare_unproven listed since log b :
  billed listed since log b → billed listed since log (on_state declare_unproven b).
Proof. by intros []. Qed.
Lemma Spend_of_listed name listed t :
  let sp := Spend_of (ledger_of listed [] t) in
  mkSpend (sp_since sp) (sp_runs sp) (<[name := []]> (sp_operators sp)) (sp_mistral sp) =
  Spend_of (ledger_of ({[name]} ∪ listed) [] t).
Proof.
  cbv zeta. assert (sp_operators (Spend_of (ledger_of ({[name]} ∪ listed) [] t)) =
    <[name := []]> (sp_operators (Spend_of (ledger_of listed [] t)))) as <-; [|done].
  apply map_eq. intros other. cbn [Spend_of sp_operators].
  rewrite lookup_fmap, ledger_of_operators. destruct (decide (name = other)) as [<-|Hne].
  - by rewrite lookup_insert_eq, decide_True by set_solver.
  - rewrite lookup_insert_ne, lookup_fmap, ledger_of_operators by done.
    f_equal. apply decide_ext. set_solver.
Qed.
Lemma billed_declare listed since name consumer b :
  billed listed since [] b → Z.of_nat (size ({[name]} ∪ listed)) <= MAX_LISTED_OPERATORS →
  billed ({[name]} ∪ listed) since [] (declare_operator name consumer b).
Proof.
  intros Hb Hsize. pose proof (billed_dom _ _ _ _ Hb) as Hdom. destruct Hb as [? ? ? Ho ? Hsp].
  unfold declare_operator. cbv zeta. rewrite Ho. destruct (decide (name ∈ listed)) as [Hin|Hin].
  - assert ({[name]} ∪ listed = listed) as -> by set_solver. by split.
  - cbn [is_some is_none negb]. rewrite <-size_dom, Hdom.
    rewrite size_union, size_singleton in Hsize by set_solver.
    destruct (Z.leb_spec MAX_LISTED_OPERATORS (Z.of_nat (size listed))); [lia|].
    split; cbn [bu_state bu_spend]; try done.
    + intros other. cbn [sn_with_operators sn_operators]. destruct (decide (name = other)) as [<-|Hne].
      * rewrite lookup_insert_eq, decide_True by set_solver. done.
      * rewrite lookup_insert_ne, Ho by done. apply decide_ext. set_solver.
    + rewrite Hsp. destruct since as [t|]; [|done]. cbn [fmap option_fmap option_map].
      by rewrite Spend_of_listed.
Qed.
Lemma billed_declare_all listed since ops b :
  billed listed since [] b →
  Z.of_nat (size (list_to_set (op_name <$> ops) ∪ listed : gset string)) <= MAX_LISTED_OPERATORS →
  billed (list_to_set (op_name <$> ops) ∪ listed) since []
    (foldl (λ b op, declare_operator (op_name op) (op_consumer op) b) b ops).
Proof.
  revert listed b. induction ops as [|op ops IH]; intros listed b Hb Hsize; cbn in *.
  - by rewrite (left_id_L ∅ (∪)).
  - assert (list_to_set (op_name <$> ops) ∪ ({[op_name op]} ∪ listed) =
      {[op_name op]} ∪ list_to_set (op_name <$> ops) ∪ listed) as E by set_solver.
    rewrite <-E in Hsize |- *. apply IH; [|done]. apply billed_declare; [done|].
    etrans; [|exact Hsize]. apply inj_le, subseteq_size. set_solver.
Qed.
Lemma billed_build listed since b x :
  billed listed since [] b →
  Z.of_nat (size (names_of x ∪ listed)) <= MAX_LISTED_OPERATORS →
  billed (names_of x ∪ listed) (if bl_spend x then Some (default (bl_now x) since) else since) []
    (build_usage b x).
Proof.
  intros Hb Hsize. unfold build_usage, declare_usage. apply billed_declare_all; [|done].
  assert (billed listed (if bl_spend x then Some (default (bl_now x) since) else since) []
    (if bl_spend x then meter_spend_at (bl_now x) b else b)) as Hm
    by (destruct (bl_spend x); [by apply billed_meter|done]).
  destruct (f_endpoints (bl_filter x)) as [| |registrar]; [done..|].
  destruct (is_some _); [by apply billed_declare_unproven|done].
Qed.
Lemma billed_builds listed since b builds :
  billed listed since [] b →
  Z.of_nat (size (listed_names builds ∪ listed)) <= MAX_LISTED_OPERATORS →
  billed (listed_names builds ∪ listed)
    (match since with Some _ => since | None => metered_since builds end) []
    (foldl build_usage b builds).
Proof.
  revert listed since b. induction builds as [|x builds IH]; intros listed since b Hb Hsize.
  - unfold listed_names. cbn. rewrite (left_id_L ∅ (∪)). by destruct since.
  - assert (listed_names (x :: builds) ∪ listed = listed_names builds ∪ (names_of x ∪ listed)) as E
      by (unfold listed_names; cbn [fmap list_fmap union_list]; set_solver).
    rewrite E in Hsize |- *. cbn [foldl].
    assert (Z.of_nat (size (names_of x ∪ listed)) <= MAX_LISTED_OPERATORS) as Hx
      by (etrans; [|exact Hsize]; apply inj_le, subseteq_size; set_solver).
    specialize (IH _ _ _ (billed_build listed since b x Hb Hx) Hsize).
    unfold metered_since in *. cbn [List.find].
    destruct (bl_spend x); [|done]. by destruct since.
Qed.

(** An operator a filter knows is listed. *)
Lemma names_of_operator x hash op :
  f_operators (bl_filter x) !! hash = Some op → op_name op ∈ names_of x.
Proof.
  intros Hop. unfold names_of, names, sorted. rewrite elem_of_list_to_set.
  apply list_elem_of_fmap. exists op. split; [done|]. rewrite merge_sort_Permutation.
  apply list_elem_of_fmap. exists (hash, op). split; [done|]. by apply elem_of_map_to_list.
Qed.
Lemma listed_names_of x builds : x ∈ builds → names_of x ⊆ listed_names builds.
Proof.
  intros Hx name Hn. unfold listed_names. apply elem_of_union_list. exists (names_of x).
  split; [|done]. by apply list_elem_of_fmap_2.
Qed.

(** ** What [/usage] shows of a bill

    The counts as they are, and of the spend what [Spend_view] sums; and what
    a grant reads of it. *)
Lemma ledger_of_ok listed log t :
  Forall (λ s, 0 <= sl_unix s) log → ledger_ok (ledger_of listed log t).
Proof.
  intros Hlog. split_and!.
  - intros c. rewrite ledger_of_runs. by apply charges_of_ok.
  - intros c. rewrite ledger_of_mistral. by apply charges_of_ok.
  - intros name hs. rewrite ledger_of_operators. case_decide; [|done]. intros [= <-].
    by apply charges_of_ok.
Qed.

Record shows (granted : bool) (listed : gset string) (since : option Z) (log : list Settlement)
    (now : Z) (v : Snapshot) : Prop := {
  sh_anthropic : an_counts (sn_anthropic v) = counts_of (of_provider Anthropic) log;
  sh_codex : cx_counts (sn_codex v) = counts_of (of_provider Codex) log;
  sh_mistral : sn_mistral v = counts_of (of_provider Mistral) log;
  sh_operators : ∀ name, sn_operators v !! name =
    if decide (name ∈ listed) then Some (counts_of (of_operator name) log) else None;
  sh_unproven : ur_counts (default UnprovenRuns_default (sn_unproven_runs v)) =
    counts_of of_unproven log;
  sh_spend : match since, sn_spend v with
    | None, None => True
    | Some t, Some view =>
        view_of granted (sn_public_operators v) (now / 3600) (ledger_of listed log t) view
    | _, _ => False
    end;
}.
Lemma billed_shows granted listed since log now b :
  Forall (λ s, 0 <= sl_unix s) log → billed listed since log b →
  shows granted listed since log now (snapshot_at now granted (bu_state b) (bu_spend b)).
Proof.
  intros Hlog [Ha Hc Hm Ho Hn Hsp]. unfold snapshot_at. split; try done.
  rewrite Hsp. destruct since as [t|]; [|done]. cbn [fmap option_fmap option_map sn_spend sn_with_spend].
  by apply Spend_view_refines, ledger_of_ok.
Qed.
Lemma billed_served listed since log now b c :
  Forall (λ s, 0 <= sl_unix s) log → billed listed since log b →
  served_spend b c now =
  (λ t, mkMistralSpend (t_micros (spent (now / 3600) (charges_of (of_mistral c) log))) t) <$> since.
Proof.
  intros Hlog Hb. unfold served_spend. rewrite (bd_spend _ _ _ _ Hb).
  destruct since as [t|]; [|done]. cbn [fmap option_fmap option_map Spend_of sp_mistral sp_since].
  rewrite at_map_consumers, ledger_of_mistral, sum_spent; [done|]. by apply charges_of_ok.
Qed.
