(* ===== verification/GatewayBilling.v ===== *)
(** * The [run_token] filter: what is billed

    Requests of the filters that share a registry of usage, interleaved in any
    order, each with its response, its body and its end: beside what the
    handlers do, every execution keeps the list of responses that were settled
    ([Billing]), and [/usage] answers what that list says. *)
From S2P Require Import Prelude Crypto Headers Pools Runs Oidc Prices Budget Operators Usage UsageWeek.
From S2P Require Import UsageBroker UsageState RunsInvariants UsageTyped Filter Gateway GatewaySafety.
From S2P Require Import GatewayRuns GatewayUsage Billing.
Local Open Scope Z_scope.

Section executions.
Context `{Crypto} {Hd : Type} `{HeaderMap Hd} {Key : Type}.
Context (decode_header : string → option Header)
  (decode_jwt : string → Key → Validation → result DecodeError Claims)
  (issued_after : Z) (to_vec : Body → option string)
  {Identity : Type} (new_identity : string → option Identity)
  (META_TOKEN_STATUS META_TOKEN_INPUT META_TOKEN_OUTPUT META_TOKEN_CACHE_READ
    META_TOKEN_REASONING META_TOKEN_TOTAL META_TOKEN_MODEL META_TOKEN_CACHE_WRITE : string).
Local Abbreviation on_request := (on_request decode_header decode_jwt issued_after to_vec new_identity).
Local Abbreviation reported_usage :=
  (reported_usage META_TOKEN_STATUS META_TOKEN_INPUT META_TOKEN_OUTPUT META_TOKEN_CACHE_READ
    META_TOKEN_REASONING META_TOKEN_TOTAL META_TOKEN_MODEL META_TOKEN_CACHE_WRITE).
Local Abbreviation on_response_body :=
  (on_response_body META_TOKEN_STATUS META_TOKEN_INPUT META_TOKEN_OUTPUT META_TOKEN_CACHE_READ
    META_TOKEN_REASONING META_TOKEN_TOTAL META_TOKEN_MODEL META_TOKEN_CACHE_WRITE).
Implicit Types (ctx : Context (Hd:=Hd) (Identity:=Identity)) (w : World Key) (env : Env Key).

(** ** Settlements *)

(** Who a request that goes on was admitted for, and by which provider it is
    answered. *)
Definition admitted_for ctx : option (Caller * option Provider) :=
  cx_metered ctx ≫= λ m, mt_caller m ≫= λ caller, Some (caller, mt_provider m).
(** The end of a response's body. *)
Definition settlement env ctx : option Settlement :=
  cx_metered ctx ≫= λ m, mt_caller m ≫= λ caller,
  Some (mkSettlement caller (mt_provider m) (reported_usage (cx_metadata ctx)) (mt_success m)
    (e_unix env)).

Lemma on_response_body_bill env ctx w :
  (∀ m, cx_metered ctx = Some m → mt_caller m = None → mt_provider m = None) →
  w_usage (on_response_body env true ctx w).1 =
  match settlement env ctx with Some s => bill s (w_usage w) | None => w_usage w end.
Proof.
  intros Hnone. unfold Gateway.on_response_body, settlement.
  destruct (cx_metered ctx) as [m|]; [|done]. specialize (Hnone m eq_refl).
  cbn [mbind option_bind fst]. unfold settle_caller.
  destruct (mt_caller m) as [[a|hash op free]|] eqn:Hc; [| |by rewrite Hnone].
  - unfold bill. cbn. by destruct (adm_usage_free a), (mt_provider m).
  - unfold bill. cbn. by destruct free.
Qed.

(** ** Executions

    An exchange's context while it has one, and who it was admitted for; the
    exchanges in the order they came, and the responses settled, each with
    its exchange. Chains with other registries of usage may do anything to
    the rest of the world between steps. *)
Record Exchange := mkExchange {
  x_context : option (Context (Hd:=Hd) (Identity:=Identity));
  x_admitted : option (Caller * option Provider);
}.
Record Gateway := mkGateway {
  g_world : World Key;
  g_exchanges : list Exchange;
  g_log : list (nat * Settlement);
}.
Context (builds : list Build).
Definition a_filter (self : RunTokenFilter) : Prop := ∃ x, x ∈ builds ∧ bl_filter x = self.

Inductive gateway_step : Gateway → Gateway → Prop :=
| gs_request self env ctx w xs log w' ctx' r :
    a_filter self → is_u64 (e_unix env) → cx_metered ctx = None →
    on_request self env ctx w = (w', ctx', r) →
    gateway_step (mkGateway w xs log)
      (mkGateway w' (xs ++ [match r with
                            | Ok Continue => mkExchange (Some ctx') (admitted_for ctx')
                            | _ => mkExchange None None
                            end]) log)
| gs_response i env response w xs log w' ctx ctx' a :
    xs !! i = Some (mkExchange (Some ctx) a) → is_u64 (e_unix env) →
    on_response env (with_response response ctx) w = (w', ctx') →
    gateway_step (mkGateway w xs log) (mkGateway w' (<[i := mkExchange (Some ctx') a]> xs) log)
| gs_body i env metadata end_of_stream w xs log w' ctx ctx' a :
    xs !! i = Some (mkExchange (Some ctx) a) → is_u64 (e_unix env) →
    on_response_body env end_of_stream (with_metadata metadata ctx) w = (w', ctx') →
    gateway_step (mkGateway w xs log)
      (mkGateway w' (<[i := mkExchange (Some ctx') a]> xs)
         (log ++ (if end_of_stream
                  then pair i <$> option_list (settlement env (with_metadata metadata ctx)) else [])))
| gs_drop i w xs log ctx a :
    xs !! i = Some (mkExchange (Some ctx) a) →
    gateway_step (mkGateway w xs log)
      (mkGateway (drop_context ctx w) (<[i := mkExchange None a]> xs) log)
| gs_other w w' xs log :
    w_usage w' = w_usage w → gateway_step (mkGateway w xs log) (mkGateway w' xs log).

(** The filters are built on a registry named for the first time, with or
    without windows of a state file; nothing has come yet. *)
Record gateway_start (g : Gateway) : Prop := {
  go_registry : ∃ name now registries, rg_usage registries !! name = None ∧
    w_usage (g_world g) = foldl build_usage (usage_named name now registries).2 builds;
  go_exchanges : g_exchanges g = [];
  go_log : g_log g = [];
}.
Local Abbreviation listed := (listed_names builds).
Definition entries (g : Gateway) : list Settlement := (g_log g).*2.

Lemma named_fresh name now registries :
  rg_usage registries !! name = None → billed ∅ None [] (usage_named name now registries).2.
Proof.
  intros Hn. unfold usage_named. rewrite Hn. destruct (rg_restored registries !! name); cbn [snd].
  - apply billed_restored, billed_fresh.
  - apply billed_fresh.
Qed.
Hypothesis Hlisted : Z.of_nat (size listed) <= MAX_LISTED_OPERATORS.
Lemma start_billed g :
  gateway_start g → billed listed (metered_since builds) (entries g) (w_usage (g_world g)).
Proof using Hlisted.
  intros [(name & now & registries & Hn & ->) _ Hlog]. unfold entries. rewrite Hlog.
  pose proof (billed_builds ∅ None _ builds (named_fresh name now registries Hn)) as Hb.
  rewrite (right_id_L ∅ (∪)) in Hb. by apply Hb.
Qed.

(** *** Who is admitted *)
Definition same_caller (c c' : Caller) : Prop := set_success false c = set_success false c'.
Lemma same_caller_success b c c' : same_caller c c' → same_caller c (set_success b c').
Proof. unfold same_caller. intros ->. by destruct c'. Qed.
Lemma same_caller_listed c c' names : same_caller c c' → listed_in names c → listed_in names c'.
Proof. by destruct c, c'; intros [=]; subst. Qed.

Lemma admit_caller_listed self env headers cluster w w' subject caller :
  a_filter self → admit_caller self env headers cluster w = (w', Ok (subject, caller)) →
  listed_in listed caller.
Proof.
  intros (x & Hx & <-). unfold admit_caller. destruct (token _ _) as [[? tok]|]; [|done].
  destruct (Operators_authenticate _ _) as [[hash op]|] eqn:Hop.
  - assert (f_operators (bl_filter x) !! hash = Some op) as Hl.
    { revert Hop. unfold Operators_authenticate. destruct (negb _); [done|].
      destruct (f_operators _ !! _) eqn:E; [|done]. by intros [= <- <-]. }
    destruct (Operator_admit _ _ _) as [n [u|[]]]; intros [= _ _ <-].
    apply (listed_names_of x); [done|]. by eapply names_of_operator.
  - destruct (authenticate _ _ _) as [st [key|]]; [|done].
    destruct (admit_run _ _ _) as [st' [a|[]]]; by intros [= _ _ <-].
Qed.
(** A metered context: the caller's operator is listed, and one admitted for
    no one is of no provider. *)
Definition context_ok ctx : Prop :=
  ∀ m, cx_metered ctx = Some m →
    match mt_caller m with Some caller => listed_in listed caller | None => mt_provider m = None end.
Lemma on_request_context self env ctx w w' ctx' :
  a_filter self → cx_metered ctx = None →
  on_request self env ctx w = (w', ctx', Ok Continue) → context_ok ctx'.
Proof.
  intros Hself Hm Hreq m Hm'.
  revert Hreq. unfold Gateway.on_request. cbv zeta.
  case_bool_decide; [intros [= _ <- _]; congruence|].
  case_bool_decide; [intros [= _ <- _]; congruence|].
  destruct (_ || _); [destruct (match f_endpoints self with Absent => _ | _ => _ end);
    intros [= _ <- _]; congruence|].
  destruct (is_some _); [done|]. case_bool_decide; [intros [= _ <-]; cbn in Hm'; congruence|].
  destruct (mode_of _ _) as [[cluster mode]|]; [|done]. destruct mode; cbn [admit_for].
  - unfold injected. destruct (admit_caller _ _ _ _ _) as [w1 [[subject caller]|e]] eqn:Ha;
      [|intros [= _ <- ->]; cbn in Hm'; congruence].
    apply admit_caller_listed in Ha; [|done].
    destruct (new_identity subject); [|done]. intros [= _ <-]. injection Hm' as <-. cbn.
    by destruct caller.
  - destruct (pass_through _); [|intros [= _ <- ->]; cbn in Hm'; congruence].
    intros [= _ <-]. by injection Hm' as <-.
Qed.

(** *** The invariant *)

(** An exchange that may yet be settled has not been. *)
Definition exchange_ok (log : list (nat * Settlement)) (i : nat) (x : Exchange) : Prop :=
  ∀ ctx, x_context x = Some ctx → context_ok ctx ∧
    ∀ m caller, cx_metered ctx = Some m → mt_caller m = Some caller →
      (i ∉ log.*1) ∧
      ∃ admitted, x_admitted x = Some (admitted, mt_provider m) ∧ same_caller admitted caller.
Definition entry_ok (xs : list Exchange) (e : nat * Settlement) : Prop :=
  let '(i, s) := e in
  usage_typed (sl_reported s) ∧ is_u64 (sl_unix s) ∧
  ∃ x admitted, xs !! i = Some x ∧ x_admitted x = Some (admitted, sl_provider s) ∧
    same_caller admitted (sl_caller s).
Record gateway_ok (g : Gateway) : Prop := {
  gk_exchanges : ∀ i x, g_exchanges g !! i = Some x → exchange_ok (g_log g) i x;
  gk_log : Forall (entry_ok (g_exchanges g)) (g_log g);
  gk_once : NoDup (g_log g).*1;
  gk_billed : billed listed (metered_since builds) (entries g) (w_usage (g_world g));
}.

(** Exchanges keep who they were admitted for. *)
Lemma entry_ok_mono xs xs' e :
  (∀ i x, xs !! i = Some x → ∃ x', xs' !! i = Some x' ∧ x_admitted x' = x_admitted x) →
  entry_ok xs e → entry_ok xs' e.
Proof.
  intros Hx. destruct e as [i s]. intros (Hu & Hn & x & adm & Hi & Ha & Hs).
  split; [done|]. split; [done|]. destruct (Hx i x Hi) as (x' & Hi' & Ha').
  exists x', adm. by rewrite Ha'.
Qed.
Lemma replaced (xs : list Exchange) i c c' a j x :
  xs !! i = Some (mkExchange c a) → xs !! j = Some x →
  ∃ x', <[i := mkExchange c' a]> xs !! j = Some x' ∧ x_admitted x' = x_admitted x.
Proof.
  intros Hi Hj. destruct (decide (i = j)) as [->|Hne].
  - rewrite list_lookup_insert_eq by by eapply lookup_lt_Some. eexists. split; [done|].
    by simplify_eq.
  - rewrite list_lookup_insert_ne by done. by exists x.
Qed.
(** A step that settles nothing. *)
Lemma gateway_ok_replace w w' xs log i ctx c' a :
  gateway_ok (mkGateway w xs log) → xs !! i = Some (mkExchange (Some ctx) a) →
  exchange_ok log i (mkExchange c' a) →
  billed listed (metered_since builds) log.*2 (w_usage w') →
  gateway_ok (mkGateway w' (<[i := mkExchange c' a]> xs) log).
Proof.
  intros [Hx Hl Ho _] Hi Hok Hb. split; cbn in *; [|eapply Forall_impl; [exact Hl|]|done|done].
  - intros j x. rewrite list_lookup_insert_Some. intros [(<- & <- & _)|[_ Hj]]; [done|by apply Hx].
  - intros e. apply entry_ok_mono. intros j x. by eapply replaced.
Qed.
Lemma exchange_ok_gone log i a : exchange_ok log i (mkExchange None a).
Proof. by intros ctx. Qed.
Lemma exchange_ok_other log log' i x :
  (i ∈ log'.*1 → i ∈ log.*1) → exchange_ok log i x → exchange_ok log' i x.
Proof.
  intros Hin Hx ctx Hctx. destruct (Hx ctx Hctx) as [? Hm]. split; [done|].
  intros m caller Hmet Hc. destruct (Hm m caller Hmet Hc) as [Hn ?]. split; [|done]. naive_solver.
Qed.
Lemma on_response_exchange env response log i ctx a w :
  exchange_ok log i (mkExchange (Some ctx) a) →
  exchange_ok log i (mkExchange (Some (on_response env (with_response response ctx) w).2) a).
Proof.
  intros Hx ? [= <-]. destruct (Hx ctx eq_refl) as [Hc Hm]. unfold on_response.
  cbn [with_response cx_metered cx_response]. destruct (cx_metered ctx) as [m|] eqn:E.
  2: { split; [by intros m; cbn; rewrite E|]. intros m caller. cbn. by rewrite E. }
  specialize (Hc m E). cbn [snd]. split.
  - intros m' [= <-]. cbn. destruct (mt_caller m) as [c|]; [|done]. by destruct c.
  - intros m' caller [= <-]. cbn. intros (c & Hmc & ->)%fmap_Some.
    destruct (Hm m c eq_refl Hmc) as (? & adm & ? & ?). split; [done|].
    exists adm. split; [done|]. by apply same_caller_success.
Qed.
Lemma gateway_ok_request self env ctx w xs log w' ctx' r :
  a_filter self → cx_metered ctx = None → on_request self env ctx w = (w', ctx', r) →
  gateway_ok (mkGateway w xs log) →
  gateway_ok (mkGateway w'
    (xs ++ [match r with
            | Ok Continue => mkExchange (Some ctx') (admitted_for ctx')
            | _ => mkExchange None None
            end]) log).
Proof.
  intros Hself Hm Hreq [Hx Hl Ho Hb]. cbn in Hx, Hl, Ho, Hb.
  assert (∀ i s, (i, s) ∈ log → (i < length xs)%nat) as Hold.
  { intros i s Hin. rewrite Forall_forall in Hl. destruct (Hl _ Hin) as (_ & _ & x & _ & Hi & _).
    by eapply lookup_lt_Some. }
  split; cbn.
  - intros i x. rewrite lookup_app_Some. intros [Hi|[Hlen Hi]]; [by apply Hx|].
    apply list_lookup_singleton_Some in Hi as [Hi <-].
    destruct r as [[| |]|]; try by apply exchange_ok_gone.
    intros ? [= <-]. split; [by eapply on_request_context|].
    intros m caller Hmet Hc. split.
    + intros ([i' s] & -> & Hin)%list_elem_of_fmap. apply Hold in Hin. cbn in *. lia.
    + exists caller. unfold admitted_for. cbn [x_admitted]. by rewrite Hmet; cbn; rewrite Hc.
  - eapply Forall_impl; [exact Hl|]. intros e. apply entry_ok_mono.
    intros i x Hi. exists x. by rewrite lookup_app_l_Some with (x:=x).
  - done.
  - eapply billed_registers; [|done].
    pose proof (on_request_usage decode_header decode_jwt issued_after to_vec new_identity self env ctx w) as Hu.
    by rewrite Hreq in Hu.
Qed.
(** The one that settles a response. *)
Lemma gateway_ok_settle i env w xs log w' ctx ctx0 ctx' a s :
  gateway_ok (mkGateway w xs log) → xs !! i = Some (mkExchange (Some ctx) a) →
  (∀ log, exchange_ok log i (mkExchange (Some ctx') a)) →
  cx_metered ctx0 = cx_metered ctx → settlement env ctx0 = Some s → is_u64 (e_unix env) →
  w_usage w' = bill s (w_usage w) →
  gateway_ok (mkGateway w' (<[i := mkExchange (Some ctx') a]> xs) (log ++ [(i, s)])).
Proof.
  intros [Hx Hl Ho Hb] Hi Hnow Hmet Hs Hn Hw. cbn in Hx, Hl, Ho, Hb.
  unfold settlement in Hs. rewrite Hmet in Hs.
  destruct (cx_metered ctx) as [m|] eqn:Hm; [|done]. cbn [mbind option_bind] in Hs.
  destruct (mt_caller m) as [caller|] eqn:Hc; [|done]. injection Hs as <-.
  destruct (Hx i _ Hi ctx eq_refl) as [Hok Hcall]. specialize (Hok m Hm). rewrite Hc in Hok.
  destruct (Hcall m caller Hm Hc) as (Hnew & adm & Ha & Hsame).
  assert (∀ e, entry_ok xs e → entry_ok (<[i := mkExchange (Some ctx') a]> xs) e) as Hmono.
  { intros e. apply entry_ok_mono. intros j x. by eapply replaced. }
  assert (usage_typed (reported_usage (cx_metadata ctx0))) as Hu by (intros u; apply reported_usage_ok).
  split; cbn.
  - intros j x. rewrite list_lookup_insert_Some. intros [(<- & <- & _)|[Hne Hj]]; [apply Hnow|].
    eapply exchange_ok_other; [|by apply Hx]. rewrite fmap_app. cbn.
    rewrite elem_of_app, list_elem_of_singleton. naive_solver.
  - apply Forall_app. split; [by eapply Forall_impl|]. apply Forall_singleton, Hmono.
    split; [done|]. split; [done|]. by exists (mkExchange (Some ctx) a), adm.
  - rewrite fmap_app. apply NoDup_app. cbn. split; [done|]. split; [|apply NoDup_singleton].
    intros j Hj ->%list_elem_of_singleton. done.
  - rewrite Hw. unfold entries. cbn [g_log]. rewrite fmap_app. by apply billed_bill.
Qed.
Lemma gateway_ok_body i env metadata end_of_stream w xs log w' ctx ctx' a :
  xs !! i = Some (mkExchange (Some ctx) a) → is_u64 (e_unix env) →
  on_response_body env end_of_stream (with_metadata metadata ctx) w = (w', ctx') →
  gateway_ok (mkGateway w xs log) →
  gateway_ok (mkGateway w' (<[i := mkExchange (Some ctx') a]> xs)
    (log ++ (if end_of_stream
             then pair i <$> option_list (settlement env (with_metadata metadata ctx)) else []))).
Proof.
  intros Hi Hn Hbody Hok. pose proof (gk_exchanges _ Hok i _ Hi ctx eq_refl) as [Hc Hm].
  assert (exchange_ok log i (mkExchange (Some (with_metadata metadata ctx)) a)) as Hsame.
  { intros ? [= <-]. by split. }
  destruct end_of_stream.
  2: { injection Hbody as <- <-. rewrite app_nil_r.
       eapply gateway_ok_replace; [done|done|done|]. apply Hok. }
  assert (cx_metered ctx' = None) as Hend.
  { revert Hbody. unfold Gateway.on_response_body. cbn [with_metadata cx_metered].
    destruct (cx_metered ctx) as [m|] eqn:E; intros [= _ <-]; [done|]. exact E. }
  assert (∀ log, exchange_ok log i (mkExchange (Some ctx') a)) as Hnow.
  { intros l ? [= <-]. split; [intros m|intros m caller]; rewrite Hend; done. }
  assert (w_usage w' =
    match settlement env (with_metadata metadata ctx) with
    | Some s => bill s (w_usage w) | None => w_usage w end) as Hbill.
  { pose proof (on_response_body_bill env (with_metadata metadata ctx) w) as Hb.
    rewrite Hbody in Hb. apply Hb. intros m Hmet Hcall. specialize (Hc m Hmet). by rewrite Hcall in Hc. }
  destruct (settlement env (with_metadata metadata ctx)) as [s|] eqn:Hs; cbn [option_list fmap list_fmap].
  2: { rewrite app_nil_r. eapply gateway_ok_replace; [done|done|apply Hnow|].
       rewrite Hbill. apply Hok. }
  eapply (gateway_ok_settle i env w xs log w' ctx (with_metadata metadata ctx)); [done|done|exact Hnow|done|exact Hs|done|exact Hbill].
Qed.

Lemma gateway_ok_start g : gateway_start g → gateway_ok g.
Proof using Hlisted.
  intros Hg. pose proof (start_billed g Hg) as Hb. destruct Hg as [_ Hx Hl].
  split; [by rewrite Hx|by rewrite Hl|rewrite Hl; constructor|done].
Qed.
Lemma gateway_ok_step g g' : gateway_step g g' → gateway_ok g → gateway_ok g'.
Proof.
  intros [self env ctx w xs log w' ctx' r Hself Hn Hm Hreq
    |i env response w xs log w' ctx ctx' a Hi Hn Hresp
    |i env metadata eos w xs log w' ctx ctx' a Hi Hn Hbody
    |i w xs log ctx a Hi|w w' xs log Hw] Hok.
  - by eapply gateway_ok_request.
  - pose proof (on_response_exchange env response log i ctx a w (gk_exchanges _ Hok i _ Hi)) as Hx.
    pose proof (on_response_usage env (with_response response ctx) w) as Hu.
    rewrite Hresp in Hx, Hu. eapply gateway_ok_replace; [done|done|done|].
    eapply billed_captures; [exact Hu|]. apply Hok.
  - by eapply gateway_ok_body.
  - eapply gateway_ok_replace; [done|done|apply exchange_ok_gone|].
    unfold drop_context. rewrite drop_caller_usage. apply Hok.
  - destruct Hok as [Hx Hl Ho Hb]. split; try done. cbn in *. by rewrite Hw.
Qed.
Lemma gateway_run_ok g g' : gateway_start g → rtc gateway_step g g' → gateway_ok g'.
Proof using Hlisted.
  intros Hg%gateway_ok_start Hrun. revert Hg.
  induction Hrun as [|g1 g2 g3 Hstep _ IH]; [done|]. intros Hg. by apply IH, (gateway_ok_step g1).
Qed.

(** C11: in every execution of the filters of a registry, from their building
    on, what [GET /usage] answers is the bill of the responses settled so
    far: each provider's counts, each listed operator's and the unproven
    runs' are of exactly the settled responses that are theirs, requests and
    tokens summed and kept within a [u64]; the spend shown is what those
    responses cost in the trailing week, and Mistral's part of a grant is
    each consumer's own. No request is billed twice, and each is billed to
    the run or operator it was admitted for and counted for the provider it
    was admitted to. *)
Theorem gateway_billed g0 g self env ctx :
  gateway_start g0 → rtc gateway_step g0 g → a_filter self →
  is_u64 (e_unix env) → rq_method (cx_request ctx) = GET → rq_path (cx_request ctx) = USAGE_PATH →
  let now := e_unix env in
  (∃ headers v,
     on_request self env ctx (g_world g) =
       (g_world g, ctx, Ok (json_with to_vec 200 (SnapshotBody v) headers)) ∧
     shows (is_some (f_budget self)) listed (metered_since builds) (entries g) now v) ∧
  (∀ c, served_spend (w_usage (g_world g)) c now =
     (λ t, mkMistralSpend (t_micros (spent (now / 3600) (charges_of (of_mistral c) (entries g)))) t)
       <$> metered_since builds) ∧
  NoDup (g_log g).*1 ∧
  (∀ i s, (i, s) ∈ g_log g → ∃ x admitted, g_exchanges g !! i = Some x ∧
     x_admitted x = Some (admitted, sl_provider s) ∧ same_caller admitted (sl_caller s)).
Proof using Hlisted.
  intros Hg0 Hrun Hself Hn Hm Hp now.
  destruct (gateway_run_ok g0 g Hg0 Hrun) as [_ Hl Ho Hb].
  assert (Forall (λ s, 0 <= sl_unix s) (entries g)) as Hlog.
  { apply Forall_fmap. eapply Forall_impl; [exact Hl|]. intros [i s] (_ & Hs & _). cbn. apply Hs. }
  split_and!.
  - eexists _, _. split; [|by apply billed_shows].
    unfold Gateway.on_request. rewrite Hp. cbv zeta. rewrite bool_decide_true by done.
    unfold serve_usage. by rewrite Hm.
  - intros c. by eapply billed_served.
  - done.
  - intros i s Hin. rewrite Forall_forall in Hl. by destruct (Hl _ Hin) as (_ & _ & ?).
Qed.
End executions.

(** ** Witness

    A run registers and sends a message, and so does an operator; the run's
    is answered, and [/usage] is asked for. *)
#[local] Existing Instance toy_crypto.
#[local] Existing Instance header_map.
Definition sample_builds : list Build := [mkBuild 3600 true sample_filter].
Definition sample_gateway :=
  Gateway (Hd:=list (string * string)) (Key:=unit) (Identity:=string).
Definition sample_step : sample_gateway → sample_gateway → Prop :=
  gateway_step (λ _, None) (λ _ _ _, Err OtherKind) 0 sample_body (λ s, Some s)
    "status" "input" "output" "cache_read" "reasoning" "total" "model" "cache_write" sample_builds.
Definition sends (env : Env unit) (ctx : Context (Identity:=string)) (g : sample_gateway)
    : sample_gateway :=
  let '(w, ctx', r) := sample_request env ctx (g_world g) in
  mkGateway w (g_exchanges g ++ [match r with
                                 | Ok Continue => mkExchange (Some ctx') (admitted_for ctx')
                                 | _ => mkExchange None None
                                 end]) (g_log g).
Definition answers (i : nat) (env : Env unit) (status : Z) (metadata : string → option string)
    (g : sample_gateway) : sample_gateway :=
  match g_exchanges g !! i with
  | Some (mkExchange (Some ctx) a) =>
      let '(w, ctx1) := on_response env (with_response (Some (status, [])) ctx) (g_world g) in
      let ctx2 := with_metadata metadata ctx1 in
      let '(w, ctx3) := Gateway.on_response_body "status" "input" "output" "cache_read" "reasoning"
        "total" "model" "cache_write" env true ctx2 w in
      mkGateway w (<[i := mkExchange (Some ctx3) a]> (<[i := mkExchange (Some ctx1) a]> (g_exchanges g)))
        (g_log g ++ (pair i <$> option_list (settlement "status" "input" "output" "cache_read"
           "reasoning" "total" "model" "cache_write" env ctx2)))
  | _ => g
  end.
Lemma sends_step env ctx g :
  is_u64 (e_unix env) → cx_metered ctx = None → sample_step g (sends env ctx g).
Proof.
  intros Hn Hm. unfold sends. destruct (sample_request env ctx (g_world g)) as [[w ctx'] r] eqn:E.
  destruct g as [w0 xs log]. apply (gs_request _ _ _ _ _ _ _ _ _ _ _ _ _ _ sample_filter env ctx);
    [|done|done|exact E]. exists (mkBuild 3600 true sample_filter). split; [by left|done].
Qed.
Lemma answers_steps i env status metadata g :
  is_u64 (e_unix env) → rtc sample_step g (answers i env status metadata g).
Proof.
  intros Hn. unfold answers. destruct g as [w xs log]; cbn [g_exchanges g_world g_log].
  destruct (xs !! i) as [[[ctx|] a]|] eqn:Hi; [|done..].
  destruct (on_response _ _ w) as [w1 ctx1] eqn:Hr.
  destruct (Gateway.on_response_body _ _ _ _ _ _ _ _ env true _ w1) as [w2 ctx3] eqn:Hb.
  eapply rtc_l; [by eapply (gs_response _ _ _ _ _ _ _ _ _ _ _ _ _ _ i)|]. apply rtc_once.
  apply (gs_body _ _ _ _ _ _ _ _ _ _ _ _ _ _ i env metadata true w1 _ log w2 ctx1 ctx3 a);
    [|done|exact Hb].
  apply list_lookup_insert_eq. by eapply lookup_lt_Some.
Qed.

Definition billing_env (n : Z) (random : string) : Env unit :=
  mkEnv 5 n random 4 (mkClock 5 5 5 5 5) None.
Definition billing_start : sample_gateway :=
  mkGateway (mkWorld State_default
    (foldl build_usage (usage_named "default" 3600 (mkRegistries ∅ ∅)).2 sample_builds) ∅
    KeyCache_default []) [] [].
Definition billing_end : sample_gateway :=
  answers 1 (billing_env 7300 "three") 200 sample_metadata
    (sends (billing_env 3700 "two") sample_operator_message
      (sends (billing_env 3700 "two") sample_message
        (sends (billing_env 3700 "one") sample_registration billing_start))).
Definition usage_get : Context (Hd:=list (string * string)) (Identity:=string) :=
  sample_context GET USAGE_PATH [].

Lemma gateway_billed_witness :
  ∃ headers v view,
    (sample_request (billing_env 7400 "four") usage_get (g_world billing_end)).2 =
      Ok (json_with sample_body 200 (SnapshotBody v) headers) ∧
    c_requests (an_counts (sn_anthropic v)) = 1 ∧ tk_total (c_tokens (an_counts (sn_anthropic v))) = 7 ∧
    (c_requests <$> sn_operators v !! "ci"%string) = Some 0 ∧
    sn_spend v = Some view ∧ s_unpriced_requests (v_runs view) = 1.
Proof.
  assert (rtc sample_step billing_start billing_end) as Hrun.
  { unfold billing_end. eapply rtc_l; [apply (sends_step (billing_env 3700 "one") sample_registration); [cbn; u64_lia|reflexivity]|].
    eapply rtc_l; [apply (sends_step (billing_env 3700 "two") sample_message); [cbn; u64_lia|reflexivity]|].
    eapply rtc_l; [apply (sends_step (billing_env 3700 "two") sample_operator_message); [cbn; u64_lia|reflexivity]|].
    apply answers_steps. cbn; u64_lia. }
  destruct (gateway_billed (λ _, None) (λ _ _ _, Err OtherKind) 0 sample_body (λ s, Some s)
    "status" "input" "output" "cache_read" "reasoning" "total" "model" "cache_write" sample_builds
    ltac:(vm_compute; discriminate) billing_start billing_end sample_filter
    (billing_env 7400 "four") usage_get) as ((headers & v & Hreq & Hv) & _).
  - split; [|reflexivity|reflexivity]. exists "default"%string, 3600, (mkRegistries ∅ ∅). by split.
  - exact Hrun.
  - exists (mkBuild 3600 true sample_filter). split; [by left|done].
  - cbn; u64_lia.
  - reflexivity.
  - reflexivity.
  - destruct Hv as [Ha _ _ Ho _ Hs].
    destruct (sn_spend v) as [view|] eqn:Hsp; [|destruct Hs].
    exists headers, v, view. split; [exact (f_equal snd Hreq)|].
    rewrite Ha, (Ho "ci"%string), (vo_runs _ _ _ _ _ Hs).
    split_and!; [vm_compute; reflexivity..|exact Hsp|vm_compute; reflexivity].
Defined.
