(* ===== verification/GatewayMain.v ===== *)
(** * The gateway: [main]

    [praxis-gateway/src/main.rs] and [lib.rs]: the command line, the usage
    state taken up before any filter is built, and the filter added to the
    host's registry. The host (praxis-ai) is a parameter: what loading its
    configuration and setting up tracing return, and its registry. *)
From S2P Require Import Prelude.
Local Open Scope Z_scope.

Definition USAGE : string := "usage: praxis-gateway [--config PATH] [--usage-state PATH]".
Definition FILTER_NAME : string := "run_token".

(** The loop over the arguments; [None] is the fatal error with [USAGE]. *)
Definition is_config (flag : string) : bool :=
  bool_decide (flag = "-c"%string) || bool_decide (flag = "--config"%string).
Fixpoint parse_args (explicit usage_state : option string) (args : list string)
    : option (option string * option string) :=
  match args with
  | [] => Some (explicit, usage_state)
  | flag :: args =>
      if is_config flag then
        match args with
        | value :: args => if is_none explicit then parse_args (Some value) usage_state args else None
        | [] => None
        end
      else if bool_decide (flag = "--usage-state"%string) then
        match args with
        | value :: args => if is_none usage_state then parse_args explicit (Some value) args else None
        | [] => None
        end
      else None
  end.

Inductive SecurityClass := Security | OtherClass.

Section main.
Context {Config Registry : Type}.
Context (var : string → option string) (resolve_config_path : option string → string)
  (load_config : option string → result string Config) (init_tracing : Config → result string unit)
  (build_full_registry : Registry)
  (register_with_class : string → SecurityClass → Registry → result string Registry).

Definition register_filters (registry : Registry) : result string Registry :=
  register_with_class FILTER_NAME Security registry.
Definition registry : result string Registry := register_filters build_full_registry.

(** What [main] does, until it runs the server or dies with a message. *)
Inductive Step :=
| InstallCryptoProvider
| KeepState (path : string)
| BuildRegistry
| RunServer (config : Config) (registry : Registry) (config_path : string).
Definition keep_usage_state (usage_state : option string) : list Step :=
  match usage_state with Some path => [KeepState path] | None => [] end.
Definition main (args : list string) : list Step * option string :=
  match parse_args None None args with
  | None => ([InstallCryptoProvider], Some USAGE)
  | Some (explicit, usage_state) =>
      let explicit := or_else explicit (var "PRAXIS_CONFIG") in
      match load_config explicit ≫= λ config, (λ _, config) <$> init_tracing config with
      | Err e => ([InstallCryptoProvider], Some e)
      | Ok config =>
          let kept := InstallCryptoProvider :: keep_usage_state usage_state ++ [BuildRegistry] in
          match registry with
          | Err e => (kept, Some e)
          | Ok registry => (kept ++ [RunServer config registry (resolve_config_path explicit)], None)
          end
      end
  end.

(** ** The command line *)
Lemma parse_args_None args c u c0 u0 :
  parse_args (Some c0) (Some u0) args = Some (c, u) → args = [] ∧ c = Some c0 ∧ u = Some u0.
Proof.
  destruct args as [|f [|v args]]; cbn [parse_args]; [by intros [= <- <-]|..];
    destruct (is_config f); try done; by case_bool_decide.
Qed.
(** The command line is taken exactly when it gives each option at most once,
    with its value, in either order and nothing else. *)
Theorem parse_args_spec args c u :
  parse_args None None args = Some (c, u) ↔
  ∃ f, is_config f = true ∧
    match c, u with
    | None, None => args = []
    | Some c, None => args = [f; c]
    | None, Some u => args = ["--usage-state"; u]%string
    | Some c, Some u => args = [f; c; "--usage-state"; u]%string ∨ args = ["--usage-state"; u; f; c]%string
    end.
Proof.
  assert (is_config "-c" = true) as Hc by done. split.
  - destruct args as [|f1 [|v1 [|f2 [|v2 args]]]]; cbn [parse_args is_none].
    + intros [= <- <-]. by exists "-c"%string.
    + destruct (is_config f1); [done|]. by case_bool_decide.
    + destruct (is_config f1) eqn:E1; [intros [= <- <-]; by exists f1|].
      case_bool_decide as E2; [|done]. subst. intros [= <- <-]. by exists "-c"%string.
    + destruct (is_config f1); [|case_bool_decide; [|done]];
        (destruct (is_config f2); [done|]); by case_bool_decide.
    + destruct (is_config f1) eqn:E1.
      * destruct (is_config f2); [done|]. case_bool_decide; [|done]. subst.
        intros (-> & -> & ->)%parse_args_None. exists f1. auto.
      * case_bool_decide; [|done]. subst. destruct (is_config f2) eqn:E2; [|by case_bool_decide].
        intros (-> & -> & ->)%parse_args_None. exists f2. auto.
  - intros (f & Hf & Ha). destruct c as [c|], u as [u|]; [destruct Ha as [-> | ->]|subst args..];
      cbn [parse_args is_none]; rewrite ?Hf; reflexivity.
Qed.

(** The server runs only with the broker's filter in the host's registry, and
    the usage state of a command line that names one is taken up first, once,
    before the registry and with it any filter is built. *)
Theorem gateway_main_spec args steps :
  main args = (steps, None) →
  ∃ explicit usage_state config reg,
    parse_args None None args = Some (explicit, usage_state) ∧
    load_config (or_else explicit (var "PRAXIS_CONFIG")) = Ok config ∧
    register_with_class FILTER_NAME Security build_full_registry = Ok reg ∧
    steps = InstallCryptoProvider :: keep_usage_state usage_state ++
      [BuildRegistry; RunServer config reg (resolve_config_path (or_else explicit (var "PRAXIS_CONFIG")))].
Proof.
  unfold main. destruct (parse_args None None args) as [[explicit usage_state]|]; [|done].
  cbv zeta. destruct (load_config _) as [config|] eqn:Hc; [cbn|done].
  destruct (init_tracing config); [cbn|done]. unfold registry, register_filters.
  destruct (register_with_class _ _ _) as [reg|] eqn:Hr; [|done]. intros [= <-].
  exists explicit, usage_state, config, reg. split_and!; [done..|]. by rewrite <-app_assoc.
Qed.
End main.
