(* ===== verification/Proxy.v ===== *)
(** * The credential proxy

    [credential-proxy/src/main.rs]: whom it serves, the request to the
    credential agent, the normalization of a Codex request, the headers that
    go up and come back, the attempts at the upstream with one recovery, the
    relay of the response, the usage read from it on the way, and the line
    logged of each answer. *)
From S2P Require Import Prelude Crypto Headers Json Files Protocol.
Local Open Scope Z_scope.

Definition MAX_BODY : Z := 10 * 1024 * 1024.
Definition MIN_KEY : Z := 32.
Definition AGENT_PROFILE : string := "codex".
Definition AGENT_AUDIENCE : string := "codex".
Definition UNNAMED_RESPONSE_TYPE : string := "text/event-stream".
Definition SESSION_ID : string := "session_id".
Definition CLIENT_REQUEST_ID : string := "x-client-request-id".
Definition MAX_TOKEN : Z := 64.
Definition MAX_USAGE_EVENT : Z := 1024 * 1024.
Definition INJECTED : list string := ["authorization"; "chatgpt-account-id"].

(** ** Clients *)
Inductive ClientAuthMode := ModeRequired | ModeDisabled.
Definition ClientAuthMode_parse (value : option string) : result string ClientAuthMode :=
  let value := unwrap_or value "required" in
  if bool_decide (value = "required") then Ok ModeRequired
  else if bool_decide (value = "disabled") then Ok ModeDisabled
  else Err "CLIENT_AUTH_MODE must be exactly 'required' or 'disabled'".

(** [Key], by the digest it holds. *)
Inductive ClientAuth := Required (key : string) | Disabled.

Section auth.
Context `{Crypto} `{HeaderMap Hd}.
(** [read] is what reading the file returns. *)
Definition Key_read (read : result string string) : result string string :=
  read ≫= λ s,
  let s := trim s in
  if len s <? MIN_KEY then Err "client key must be at least 32 bytes" else Ok (sha256 s).
Definition ClientAuth_load (mode : ClientAuthMode) (read : result string string)
    : result string ClientAuth :=
  match mode with
  | ModeRequired => Required <$> Key_read read
  | ModeDisabled => Ok Disabled
  end.
Definition Key_accepts (key : string) (value : option string) : bool :=
  match value ≫= hm_to_str (H:=Hd) with
  | Some v =>
      match strip_prefix "Bearer " v with
      | Some v => ct_eq (sha256 v) key
      | None => false
      end
  | None => false
  end.
Definition ClientAuth_accepts (self : ClientAuth) (authorization : option string) : bool :=
  match self with
  | Required key => Key_accepts key authorization
  | Disabled => true
  end.
End auth.

(** [env_num], of the variable's value; [parse] is of a [usize]. *)
Definition env_num (value : option string) (default_ max : Z) : Z :=
  Z.min (Z.max (unwrap_or (value ≫= parse_u64) default_) 1) max.

(** ** The credential agent *)
Section agent.
Context `{Crypto} `{!Serde Request} `{!Serde Response}.
Context (op_to_string : Operation → option string)
  (headers_to_string : list (string * string) → option string).

Definition agent_path_ok (uid : Z) (parent socket : Metadata) : bool :=
  is_dir parent
  && ((md_uid parent =? uid) || (md_uid parent =? 0))
  && negb (mode_has parent 2)
  && negb (is_symlink socket)
  && is_socket socket
  && (md_uid socket =? uid)
  && negb (mode_has socket 7).

(** [agent]'s request, with the 32 random bytes of its nonce. *)
Definition agent_request (channel_key : string) (op : Operation) (random : string) : Request :=
  let request := mkRequest VERSION op AGENT_PROFILE AGENT_AUDIENCE (hex_encode random) EmptyString in
  mkRequest (req_version request) (req_operation request) (req_profile request)
    (req_audience request) (req_nonce request) (request_mac op_to_string channel_key request).
(** What it does with the response: the headers, if it is authentic and
    names only headers the agent may inject. *)
Definition agent_response (channel_key nonce : string) (response : Response)
    : option (list (string * string)) :=
  if negb (validate_response response nonce) || negb (resp_ok response)
     || negb (valid_mac (resp_mac response) (response_mac headers_to_string channel_key response))
  then None
  else if existsb (λ '(n, v), (128 <? len n) || (MAX_VALUE <? len v)
                              || negb (bool_decide (n ∈ INJECTED))) (resp_headers response)
  then None
  else Some (resp_headers response).
(** [agent]: the metadata of the two paths, whether the socket can be
    connected to and the frame written in time, and the bytes it yields. *)
Definition agent (channel_key : string) (op : Operation) (random : string) (uid : Z)
    (parent socket : option Metadata) (connects writes : bool) (reader : option string)
    : option (list (string * string)) :=
  parent ≫= λ parent, socket ≫= λ socket,
  if negb (agent_path_ok uid parent socket) then None
  else if negb connects then None
  else
    let request := agent_request channel_key op random in
    result_ok (encode request) ≫= λ _,
    if negb writes then None
    else
      reader ≫= λ reader, result_ok (read_frame reader) ≫= λ '(line, _),
      result_ok (decode line) ≫= λ response : Response,
      agent_response channel_key (req_nonce request) response.
End agent.

(** ** The Codex request *)
Inductive CodexNormalizationError := InvalidJson | NonObject | Serialization.
Record CodexRequest := mkCodexRequest {
  cr_body : string;
  cr_model : option string;
  cr_prompt_cache_key : option string;
}.
Definition token_byte (b : ascii) : bool :=
  is_ascii_alphanumeric b || ascii_is "-" b || ascii_is "_" b || ascii_is "." b || ascii_is ":" b.
Definition token (value : option Value) : option string :=
  value ≫= λ value, as_str value ≫= λ value,
  let valid := (1 <=? len value) && (len value <=? MAX_TOKEN) && string_forallb token_byte value in
  then_some valid value.

Section json.
(** [serde_json::from_slice] and [to_vec] of a document. *)
Context (json_from_slice : string → option Value) (json_to_vec : Value → option string).

Definition normalize_codex_request (body : string)
    : result CodexNormalizationError CodexRequest :=
  ok_or (json_from_slice body) InvalidJson ≫= λ value,
  match value with
  | Object object =>
      let object := remove "max_output_tokens" object in
      let model := token (get "model" object) in
      let prompt_cache_key := token (get "prompt_cache_key" object) in
      ok_or (json_to_vec (Object object)) Serialization ≫= λ body,
      Ok (mkCodexRequest body model prompt_cache_key)
  | _ => Err NonObject
  end.

(** ** Usage *)
Record Tokens := mkTokens { px_input : Z; px_cached : Z; px_cache_write : Z; px_output : Z }.
Definition first_usage (event : Value) : option Value :=
  let at_ path := option_filter is_object (pointer path event) in
  or_else (at_ ["response"; "usage"]) (or_else (at_ ["message"; "usage"]) (at_ ["usage"])).
Definition Tokens_of (event : Value) : option Tokens :=
  first_usage event ≫= λ usage,
  let count path := unwrap_or (pointer path usage ≫= as_u64) 0 in
  Some (mkTokens (count ["input_tokens"])
    (sat_add (count ["input_tokens_details"; "cached_tokens"]) (count ["cache_read_input_tokens"]))
    (count ["cache_creation_input_tokens"]) (count ["output_tokens"])).
Definition Tokens_merge (self other : Tokens) : Tokens :=
  mkTokens (Z.max (px_input self) (px_input other)) (Z.max (px_cached self) (px_cached other))
    (Z.max (px_cache_write self) (px_cache_write other)) (Z.max (px_output self) (px_output other)).

(** [UsageTap], less what its log line says of the request. *)
Record UsageTap := mkUsageTap {
  ut_events : bool;
  ut_pending : string;
  ut_skipping : bool;
  ut_usage : option Tokens;
}.
Definition UsageTap_new (events : bool) : UsageTap := mkUsageTap events EmptyString false None.

Definition merge_usage (usage : option Tokens) (tokens : Tokens) : option Tokens :=
  Some (match usage with Some usage => Tokens_merge usage tokens | None => tokens end).
(** The usage in the text of one event or document. *)
Definition usage_in (pending : string) : option Tokens :=
  if contains_str "usage" pending then
    let text := trim_ascii pending in
    let data := unwrap_or (strip_prefix "data:" text) text in
    json_from_slice data ≫= Tokens_of
  else None.
Definition scan (self : UsageTap) : UsageTap :=
  let usage :=
    if ut_skipping self then ut_usage self
    else match usage_in (ut_pending self) with
         | Some tokens => merge_usage (ut_usage self) tokens
         | None => ut_usage self
         end in
  mkUsageTap (ut_events self) EmptyString false usage.

(** [split_inclusive] at newlines: no piece of an empty slice. *)
Fixpoint split_inclusive (s : string) : list string :=
  match s with
  | EmptyString => []
  | String c s =>
      if ascii_is LF c then String c EmptyString :: split_inclusive s
      else match split_inclusive s with
           | [] => [String c EmptyString]
           | p :: ps => String c p :: ps
           end
  end.
(** What is held of a piece, before it is scanned. *)
Definition hold_line (self : UsageTap) (line : string) : UsageTap :=
  if MAX_USAGE_EVENT <? len (ut_pending self) + len line
  then mkUsageTap (ut_events self) EmptyString true (ut_usage self)
  else if negb (ut_skipping self)
  then mkUsageTap (ut_events self) (ut_pending self +:+ line) (ut_skipping self) (ut_usage self)
  else self.
Definition feed_line (self : UsageTap) (line : string) : UsageTap :=
  let self := hold_line self line in
  if ut_events self && ends_with_newline line then scan self else self.
Definition feed (self : UsageTap) (chunk : string) : UsageTap :=
  foldl feed_line self (if ut_events self then split_inclusive chunk else [chunk]).
(** What the log line says: the drop scans what is left. *)
Definition tap_usage (self : UsageTap) : option Tokens := ut_usage (scan self).
End json.

(** ** Headers *)
Definition canonical (name : string) : string :=
  string_map (λ c, if ascii_is "_" c then "-"%char else c) (to_ascii_lowercase name).
Definition hop_canonical (n : string) : bool :=
  bool_decide (n ∈ INJECTED)
  || bool_decide (n ∈ ["connection"; "keep-alive"; "proxy-authenticate"; "proxy-authorization";
       "te"; "trailer"; "transfer-encoding"; "upgrade"; "host"; "cookie"]%string).
Definition hop (n : string) : bool := hop_canonical (canonical n).
Definition denied (n : string) : bool :=
  let n := canonical n in
  hop_canonical n || starts_with "proxy-" n || starts_with "x-forwarded-" n
  || bool_decide (n ∈ ["content-length"; "forwarded"; "x-real-ip"; "openai-organization";
       "openai-project"; "accept-encoding"]%string).
(** [StatusCode::is_success]. *)
Definition is_success (status : Z) : bool := (200 <=? status) && (status <? 300).

Section headers.
Context `{HeaderMap Hd}.

(** What the [connection] headers of a request name. *)
Definition connection_names (client : Hd) : list string :=
  (λ v, canonical (trim v)) <$>
    (omap (hm_to_str (H:=Hd)) (hm_get_all "connection" client) ≫= split_char ",").
Definition forwarded_header (client : Hd) (n : string) : bool :=
  negb (bool_decide (canonical n ∈ connection_names client)) && negb (denied n).
Fixpoint insert_credentials (credentials : list (string * string)) (headers : Hd) : result unit Hd :=
  match credentials with
  | [] => Ok headers
  | (name, value) :: credentials =>
      ok_or (hm_name (H:=Hd) name) tt ≫= λ name,
      ok_or (hm_value (H:=Hd) value) tt ≫= λ value,
      insert_credentials credentials (hm_insert name value headers)
  end.
Definition upstream_headers (client : Hd) (credentials : list (string * string)) : result unit Hd :=
  insert_credentials credentials
    (hm_from_iter (List.filter (λ '(n, _), forwarded_header client n) (hm_iter client))).

Definition response_headers (status : Z) (upstream : Hd) : Hd :=
  let headers :=
    hm_from_iter (List.filter (λ '(n, _), negb (hop n) && negb (bool_decide (n = "set-cookie"%string)))
      (hm_iter upstream)) in
  if is_success status && negb (hm_contains "content-type" headers)
  then hm_insert "content-type" UNNAMED_RESPONSE_TYPE headers else headers.

Definition backstop_cache_routing (headers : Hd) (codex : CodexRequest) : Hd :=
  if hm_contains SESSION_ID headers || hm_contains CLIENT_REQUEST_ID headers then headers
  else
    match cr_prompt_cache_key codex ≫= λ key, hm_value (H:=Hd) key with
    | None => headers
    | Some value => hm_insert CLIENT_REQUEST_ID value (hm_insert SESSION_ID value headers)
    end.

(** ** What is logged of a request *)
Record Trace := mkTrace {
  tr_route : string;
  tr_model : option string;
  tr_session_id : bool;
  tr_client_request_id : bool;
  tr_cache_key : option string;
}.
Definition Trace_new `{Crypto} (route : string) (headers : Hd) (codex : CodexRequest) : Trace :=
  mkTrace route (cr_model codex) (hm_contains SESSION_ID headers)
    (hm_contains CLIENT_REQUEST_ID headers)
    ((λ key, hex_encode (String.substring 0 6 (sha256 key))) <$> cr_prompt_cache_key codex).
(** The fields of the line, whose message says whether there is usage. *)
Record LogLine := mkLogLine {
  ll_route : string;
  ll_status : Z;
  ll_model : string;
  ll_usage : option Tokens;
  ll_session_id : bool;
  ll_client_request_id : bool;
  ll_cache_key : string;
}.
Definition UsageTap_drop (json_from_slice : string → option Value) (t : Trace) (status : Z)
    (self : UsageTap) : LogLine :=
  mkLogLine (tr_route t) status (unwrap_or (tr_model t) "-") (tap_usage json_from_slice self)
    (tr_session_id t) (tr_client_request_id t) (unwrap_or (tr_cache_key t) "-").

(** ** The relay of a response *)
Inductive StreamItem := Chunk (bytes : string) | StreamError | IdleTimeout.
(** What the body stream yields, and the tap fed what it yields; the
    upstream's stream ends with its list. *)
Fixpoint relay (json_from_slice : string → option Value) (max total : Z) (items : list StreamItem)
    (tap : UsageTap) : list (result string string) * UsageTap :=
  match items with
  | [] => ([], tap)
  | IdleTimeout :: _ => ([Err "upstream idle timeout"%string], tap)
  | StreamError :: _ => ([Err "upstream stream failed"%string], tap)
  | Chunk chunk :: items =>
      let total := total + len chunk in
      if max <? total then ([Err "response limit exceeded"%string], tap)
      else
        let '(out, tap) := relay json_from_slice max total items (feed json_from_slice tap chunk) in
        (Ok chunk :: out, tap)
  end.
(** Whether the response is read as an event stream. *)
Definition is_events (headers : Hd) : bool :=
  is_some_and (hm_get "content-type" headers ≫= hm_to_str (H:=Hd)) (starts_with UNNAMED_RESPONSE_TYPE).
(** The headers that go back, what the body yields, and the line logged when
    it ends. *)
Definition forward (json_from_slice : string → option Value) (max status : Z) (upstream : Hd)
    (items : list StreamItem) (trace : Trace) : Hd * list (result string string) * LogLine :=
  let headers := response_headers status upstream in
  let '(out, tap) := relay json_from_slice max 0 items (UsageTap_new (is_events headers)) in
  (headers, out, UsageTap_drop json_from_slice trace status tap).
End headers.

(** ** Requests *)
Inductive Method := POST | OtherMethod.
#[export] Instance Method_eq_dec : EqDecision Method.
Proof. solve_decision. Defined.

(** What [to_bytes] within the timeout makes of the request's body. *)
Inductive BodyRead := BodyBytes (body : string) | BodyTooLarge | BodyTimeout.

Section route.
Context `{Crypto} {Hd : Type} `{HeaderMap Hd}
  (json_from_slice : string → option Value) (json_to_vec : Value → option string).

Record ProxyRequest := mkProxyRequest {
  pr_method : Method;
  pr_path : string;
  pr_query : option string;
  pr_headers : Hd;
  pr_body : BodyRead;
}.
(** An answer of the proxy's own, or the upstream's, forwarded. *)
Inductive Reply :=
| Simple (status : Z) (text : string)
| Forwarded (status : Z) (headers : Hd) (body : list (result string string)).

(** What the attempts do to the outside: calls of the agent, requests sent
    upstream, and lines of the log. *)
Inductive Effect :=
| Acquired
| Recovery
| Sent (headers : Hd) (body : string)
| Logged (line : LogLine).
(** What the outside answers: the [i]th call of the agent, the recovery, and
    the [i]th request sent, with the stream of its body. *)
Record Outside := mkOutside {
  os_acquire : nat → option (list (string * string));
  os_recover : bool;
  os_send : nat → option (Z * Hd * list StreamItem);
}.

(** Every text is a line. *)
Definition simple (status : Z) (text : string) : Reply :=
  Simple status (text +:+ String LF EmptyString).
(** [send]: what is sent, if the headers are well formed, and the answer. *)
Definition send (client : Hd) (body : string) (credentials : list (string * string))
    (answer : option (Z * Hd * list StreamItem))
    : list Effect * option (Z * Hd * list StreamItem) :=
  match upstream_headers client credentials with
  | Err _ => ([], None)
  | Ok headers => ([Sent headers body], answer)
  end.
(** The loop of [route]: [recovered] is the code's variable, [i] counts the
    attempts. *)
Fixpoint attempts (fuel : nat) (max : Z) (trace : Trace) (out : Outside) (client : Hd)
    (body : string) (recovered : bool) (i : nat) : option (list Effect * Reply) :=
  match fuel with
  | O => None
  | S fuel =>
      match os_acquire out i with
      | None => Some ([Acquired], simple 503 "credential agent unavailable")
      | Some credentials =>
          let '(sent, response) := send client body credentials (os_send out i) in
          let effects := Acquired :: sent in
          match response with
          | None => Some (effects, simple 502 "upstream unavailable")
          | Some (status, headers, items) =>
              if (status =? 401) && negb recovered then
                let line := UsageTap_drop json_from_slice trace status (UsageTap_new false) in
                let effects := effects ++ [Logged line; Recovery] in
                if os_recover out then
                  '(more, reply) ← attempts fuel max trace out client body true (S i);
                  Some (effects ++ more, reply)
                else Some (effects, simple 503 "credential recovery unavailable")
              else
                let '(headers, body, line) := forward json_from_slice max status headers items trace in
                Some (effects ++ [Logged line], Forwarded status headers body)
          end
      end
  end.

Definition normalization_error_response (error : CodexNormalizationError) : Reply :=
  simple 400
    match error with
    | InvalidJson => "request body must be valid JSON"
    | NonObject => "request body must be a JSON object"
    | Serialization => "request body cannot be normalized"
    end.

(** [permits] are the ones left of the concurrency, [max] the [max_bytes] of
    a response. *)
Definition route (fuel : nat) (max : Z) (auth : ClientAuth) (permits : Z) (out : Outside) (req : ProxyRequest)
    : option (list Effect * Reply) :=
  if negb (bool_decide (pr_method req = POST)) || negb (bool_decide (pr_path req = "/v1/responses"))
     || is_some (pr_query req)
  then Some ([], simple 404 "not found")
  else if negb (ClientAuth_accepts (Hd:=Hd) auth (hm_get "authorization" (pr_headers req)))
  then Some ([], simple 401 "client authentication required")
  else if permits =? 0 then Some ([], simple 429 "proxy busy")
  else
    match pr_body req with
    | BodyTooLarge => Some ([], simple 413 "request too large")
    | BodyTimeout => Some ([], simple 408 "request body timeout")
    | BodyBytes body =>
        match normalize_codex_request json_from_slice json_to_vec body with
        | Err error => Some ([], normalization_error_response error)
        | Ok codex =>
            let trace := Trace_new (pr_path req) (pr_headers req) codex in
            attempts fuel max trace out (backstop_cache_routing (pr_headers req) codex)
              (cr_body codex) false 0
        end
    end.

(** [health], of what pinging the agent returned. *)
Definition health (ping : option (list (string * string))) : Reply :=
  if is_some ping then simple 200 "ready" else simple 503 "not ready".
End route.
