(* ===== verification/ProxyUsage.v ===== *)
(** * The credential proxy: usage read as a response is relayed

    The tap reads a response in the pieces the network delivers it in, with
    a bounded buffer. What it logs is what the whole response holds: the
    pieces never matter. *)
From S2P Require Import Prelude Protocol Json Proxy.
Local Open Scope Z_scope.

Section usage.
Context (json_from_slice : string → option Value).
Local Abbreviation feed_line := (feed_line json_from_slice).
Local Abbreviation feed := (feed json_from_slice).
Local Abbreviation scan := (scan json_from_slice).
Local Abbreviation usage_in := (usage_in json_from_slice).

(** ** The reference: a response read whole *)
Definition line_usage (line : string) : option Tokens :=
  if MAX_USAGE_EVENT <? len line then None else usage_in line.
Definition add_line (usage : option Tokens) (line : string) : option Tokens :=
  match line_usage line with Some tokens => merge_usage usage tokens | None => usage end.
Definition stream_usage (events : bool) (text : string) : option Tokens :=
  foldl add_line None (if events then split_inclusive text else [text]).

(** ** Pieces of a line *)
Definition tap_ok (tap : UsageTap) : Prop :=
  (ut_skipping tap = true → ut_pending tap = EmptyString) ∧ len (ut_pending tap) <= MAX_USAGE_EVENT.
Lemma ends_with_newline_cons c s : s ≠ EmptyString → ends_with_newline (String c s) = ends_with_newline s.
Proof.
  intros Hs. unfold ends_with_newline. destruct s as [|d s]; [done|].
  cbn [String.length]. rewrite !Nat.sub_succ, !Nat.sub_0_r. done.
Qed.
Lemma ends_with_newline_app a b : b ≠ EmptyString → ends_with_newline (a +:+ b) = ends_with_newline b.
Proof.
  intros Hb. induction a as [|c a IH]; [done|].
  cbn [String.append]. rewrite ends_with_newline_cons; [done|]. by destruct a.
Qed.
Lemma hold_line_events tap line : ut_events (hold_line tap line) = ut_events tap.
Proof. unfold hold_line. destruct (_ <? _); [done|]. by destruct (negb _). Qed.
Lemma hold_line_ok tap line : tap_ok tap → tap_ok (hold_line tap line).
Proof.
  intros Hok. unfold hold_line, tap_ok.
  destruct (Z.ltb_spec MAX_USAGE_EVENT (len (ut_pending tap) + len line)); [done|].
  destruct (ut_skipping tap) eqn:Hs; cbn [negb]; [split; [intros _; by apply Hok|by apply Hok]|].
  cbn [ut_skipping ut_pending]. rewrite len_append. by split.
Qed.
Lemma hold_line_app tap a b :
  tap_ok tap → hold_line tap (a +:+ b) = hold_line (hold_line tap a) b.
Proof.
  intros [Hok _]. unfold hold_line. rewrite len_append.
  pose proof (len_nonneg a). pose proof (len_nonneg b). pose proof (len_nonneg (ut_pending tap)).
  destruct (Z.ltb_spec MAX_USAGE_EVENT (len (ut_pending tap) + len a)).
  - rewrite (proj2 (Z.ltb_lt MAX_USAGE_EVENT (len (ut_pending tap) + (len a + len b)))) by lia.
    cbn [ut_events ut_pending ut_skipping ut_usage negb]. by destruct (_ <? _).
  - destruct (ut_skipping tap) eqn:Hs; cbn [negb].
    + specialize (Hok eq_refl). rewrite Hok. change (len EmptyString) with 0. rewrite Hs. cbn [negb].
      assert (mkUsageTap (ut_events tap) EmptyString true (ut_usage tap) = tap) as ->.
      { destruct tap as [e p k u]. cbn in Hs, Hok |- *. by subst k p. }
      by destruct (_ <? _), (_ <? _).
    + cbn [ut_events ut_pending ut_skipping ut_usage negb]. rewrite len_append, (append_assoc _ a b).
      rewrite <-(Z.add_assoc (len (ut_pending tap))). by destruct (_ <? _).
Qed.
Lemma feed_line_ok tap line : tap_ok tap → tap_ok (feed_line tap line).
Proof.
  intros Hok%(hold_line_ok _ line). unfold Proxy.feed_line. by destruct (_ && _).
Qed.
Lemma feed_line_app tap a b :
  tap_ok tap → ends_with_newline a = false ∨ ut_events tap = false → b ≠ EmptyString →
  feed_line tap (a +:+ b) = feed_line (feed_line tap a) b.
Proof.
  intros Hok Ha Hb. unfold Proxy.feed_line.
  rewrite ends_with_newline_app, hold_line_app by done.
  rewrite (hold_line_events tap a).
  destruct Ha as [->| ->]; [by rewrite andb_false_r|done].
Qed.

(** ** Byte by byte *)
Definition feed_byte (tap : UsageTap) (c : ascii) : UsageTap := feed_line tap (String c EmptyString).
Lemma feed_line_events tap line : ut_events (feed_line tap line) = ut_events tap.
Proof. unfold Proxy.feed_line. destruct (_ && _); [|by apply hold_line_events].
  cbn [Proxy.scan ut_events]. apply hold_line_events.
Qed.
Lemma feed_bytes tap text :
  tap_ok tap →
  feed tap text = if ut_events tap then foldl feed_byte tap (String.list_ascii_of_string text)
                  else feed_line tap text.
Proof.
  intros Hok. unfold Proxy.feed. destruct (ut_events tap) eqn:He; [|done].
  clear He. revert tap Hok. induction text as [|c s IH]; intros tap Hok; [done|].
  cbn [split_inclusive String.list_ascii_of_string foldl].
  rewrite <-IH by by apply feed_line_ok. unfold feed_byte.
  destruct (ascii_is LF c) eqn:Hc; [done|].
  destruct (split_inclusive s) as [|p ps] eqn:E; [done|]. cbn [foldl]. f_equal.
  change (String c p) with (String c EmptyString +:+ p). apply feed_line_app; [done| |].
  - left. exact Hc.
  - intros ->. clear -E. destruct s as [|d s]; [done|]. revert E.
    cbn [split_inclusive]. destruct (ascii_is LF d); [done|]. by destruct (split_inclusive s).
Qed.

(** ** Chunks *)
Definition concat_strings (chunks : list string) : string := foldr String.append EmptyString chunks.
Lemma feed_empty tap : tap_ok tap → feed tap EmptyString = tap.
Proof.
  intros [_ Hl]. unfold Proxy.feed. destruct (ut_events tap) eqn:He; [done|]. cbn [foldl].
  unfold Proxy.feed_line. rewrite hold_line_events, He. cbn [andb]. unfold hold_line.
  change (len EmptyString) with 0. rewrite (proj2 (Z.ltb_ge _ _)) by lia.
  destruct tap as [e pend [|] u]; cbn; [done|]. by rewrite append_nil_r.
Qed.
Lemma feed_ok tap text : tap_ok tap → tap_ok (feed tap text) ∧ ut_events (feed tap text) = ut_events tap.
Proof.
  intros Hok. unfold Proxy.feed.
  generalize (if ut_events tap then split_inclusive text else [text]).
  intros l. revert tap Hok. induction l as [|x l IH]; intros tap Hok; [done|]. cbn [foldl].
  destruct (IH (feed_line tap x) (feed_line_ok _ _ Hok)) as [? He].
  by rewrite He, feed_line_events.
Qed.
Lemma list_ascii_app a b :
  String.list_ascii_of_string (a +:+ b) =
  String.list_ascii_of_string a ++ String.list_ascii_of_string b.
Proof. induction a as [|c a IH]; cbn; [done|by rewrite IH]. Qed.
Lemma feed_app tap a b : tap_ok tap → feed tap (a +:+ b) = feed (feed tap a) b.
Proof.
  intros Hok. destruct (feed_ok tap a Hok) as [Hok' He].
  destruct (decide (b = EmptyString)) as [->|Hb].
  { by rewrite append_nil_r, feed_empty. }
  rewrite (feed_bytes _ b), (feed_bytes _ (a +:+ b)), He by done.
  rewrite (feed_bytes tap a) by done. destruct (ut_events tap) eqn:E.
  - by rewrite list_ascii_app, foldl_app.
  - apply feed_line_app; auto.
Qed.
Lemma feed_chunks tap chunks :
  tap_ok tap → foldl feed tap chunks = feed tap (concat_strings chunks).
Proof.
  revert tap; induction chunks as [|c chunks IH]; intros tap Hok; cbn [foldl concat_strings foldr].
  - by rewrite feed_empty.
  - rewrite feed_app by done. apply IH. by apply feed_ok.
Qed.

(** ** Lines *)
Fixpoint lines_ok (l : list string) : Prop :=
  match l with
  | [] => True
  | [_] => True
  | p :: l => ends_with_newline p = true ∧ lines_ok l
  end.
Lemma split_inclusive_lines s : lines_ok (split_inclusive s).
Proof.
  induction s as [|c s IH]; [done|]. cbn [split_inclusive].
  destruct (ascii_is LF c) eqn:Hc.
  - destruct (split_inclusive s) as [|p ps]; [done|]. split; [|done].
    by apply ascii_is_true in Hc as ->.
  - destruct (split_inclusive s) as [|p ps]; [done|].
    destruct ps as [|q ps]; [done|]. destruct IH as [Hp IH]. split; [|done].
    destruct p; [done|]. by rewrite ends_with_newline_cons.
Qed.
Lemma scan_held e usage line :
  scan (hold_line (mkUsageTap e EmptyString false usage) line) =
  mkUsageTap e EmptyString false (add_line usage line).
Proof.
  unfold hold_line, add_line, line_usage, Proxy.scan. cbn [ut_pending ut_skipping negb].
  change (len EmptyString + len line) with (len line).
  destruct (MAX_USAGE_EVENT <? len line); done.
Qed.
Lemma scan_twice tap : scan (scan tap) = scan tap.
Proof. done. Qed.
Lemma feed_line_scanned e usage line :
  scan (feed_line (mkUsageTap e EmptyString false usage) line) =
  mkUsageTap e EmptyString false (add_line usage line).
Proof.
  unfold Proxy.feed_line. destruct (_ && _); rewrite ?scan_twice; apply scan_held.
Qed.
Lemma feed_lines usage l :
  lines_ok l →
  scan (foldl feed_line (mkUsageTap true EmptyString false usage) l) =
  mkUsageTap true EmptyString false (foldl add_line usage l).
Proof.
  revert usage; induction l as [|p l IH]; intros usage Hl; [done|]. cbn [foldl].
  destruct l as [|q l]; [apply feed_line_scanned|]. destruct Hl as [Hp Hl].
  assert (feed_line (mkUsageTap true EmptyString false usage) p =
    mkUsageTap true EmptyString false (add_line usage p)) as ->; [|by apply IH].
  rewrite <-scan_held. unfold Proxy.feed_line. by rewrite hold_line_events, Hp.
Qed.

(** ** The relay *)
Definition yielded (out : list (result string string)) : list string := omap result_ok out.
Definition chunks_of (items : list StreamItem) : list string :=
  omap (λ i, match i with Chunk c => Some c | _ => None end) items.
Local Abbreviation relay := (relay json_from_slice).
Lemma yielded_nil (total max : Z) : total <= max → total + len (concat_strings (yielded [])) <= max.
Proof. intros Hle. unfold yielded, len; cbn -[Z.add Z.le]; lia. Qed.
Lemma relay_spec max total items tap :
  total <= max →
  let '(out, tap') := relay max total items tap in
  tap' = foldl feed tap (yielded out) ∧
  total + len (concat_strings (yielded out)) <= max ∧
  (out = Ok <$> chunks_of items ∧ (∀ i, i ∈ items → ∃ c, i = Chunk c) ∨
   ∃ e, out = (Ok <$> yielded out) ++ [Err e] ∧ yielded out `prefix_of` chunks_of items).
Proof.
  revert total tap; induction items as [|[c| |] items IH]; intros total tap Hle; cbn [Proxy.relay].
  - split; [done|]. split; [by apply yielded_nil|]. left. split; [done|].
    by intros i ?%elem_of_nil.
  - destruct (Z.ltb_spec max (total + len c)) as [Hm|Hm].
    + split; [done|]. split; [by apply yielded_nil|]. right.
      eexists. split; [done|]. apply prefix_nil.
    + specialize (IH (total + len c) (feed tap c) Hm). destruct (relay _ _ _ _) as [out tap'].
      destruct IH as (-> & Hlen & Hend). split; [done|]. split.
      { change (concat_strings (yielded (Ok c :: out))) with (c +:+ concat_strings (yielded out)).
        rewrite len_append. lia. }
      destruct Hend as [[-> Hall]|(e & He & Hp)].
      * left. split; [done|]. intros i [->|Hi]%elem_of_cons; [by eexists|by apply Hall].
      * right. exists e. change (yielded (Ok c :: out)) with (c :: yielded out).
        rewrite fmap_cons, <-app_comm_cons, <-He.
        split; [done|]. by apply prefix_cons.
  - split; [done|]. split; [by apply yielded_nil|]. right.
    eexists. split; [done|]. apply prefix_nil.
  - split; [done|]. split; [by apply yielded_nil|]. right.
    eexists. split; [done|]. apply prefix_nil.
Qed.

(** C21: a response is relayed whole, or up to an error that ends it, and never
    more than [max] bytes of it. What the proxy logs of it is the usage that
    what it relayed holds, read line by line for an event stream and as one
    document otherwise, whatever the pieces the network delivers it in; it
    holds at most [MAX_USAGE_EVENT] bytes, skipping just longer lines. *)
Theorem tap_reads max events items :
  0 <= max →
  let '(out, tap) := relay max 0 items (UsageTap_new events) in
  let relayed := concat_strings (yielded out) in
  tap_usage json_from_slice tap = stream_usage events relayed ∧
  len (ut_pending tap) <= MAX_USAGE_EVENT ∧ len relayed <= max ∧
  (out = Ok <$> chunks_of items ∧ (∀ i, i ∈ items → ∃ c, i = Chunk c) ∨
   ∃ e, out = (Ok <$> yielded out) ++ [Err e] ∧ yielded out `prefix_of` chunks_of items).
Proof.
  intros Hmax. assert (tap_ok (UsageTap_new events)) as Hok by (by split).
  pose proof (relay_spec max 0 items (UsageTap_new events) Hmax) as Hr.
  destruct (relay _ _ _ _) as [out tap]. destruct Hr as (-> & Hlen & Hend).
  rewrite feed_chunks by done. split_and!; [|by apply feed_ok|lia|done].
  unfold tap_usage, stream_usage, Proxy.feed. cbn [UsageTap_new ut_events].
  destruct events.
  - rewrite (feed_lines None) by apply split_inclusive_lines. done.
  - cbn [foldl]. unfold UsageTap_new. by rewrite feed_line_scanned.
Qed.
End usage.

(** ** Witness *)
Definition sample_document (text : string) : option Value :=
  if contains_str "usage" text
  then Some (Object [("usage", Object [("input_tokens", U64 3); ("output_tokens", U64 4)])])%string
  else None.
Definition sample_items : list StreamItem :=
  [Chunk "data: {us"; Chunk (String.append "age}" (String LF EmptyString)); StreamError].
Lemma tap_reads_witness :
  tap_usage sample_document (relay sample_document 100 0 sample_items (UsageTap_new true)).2 =
    Some (mkTokens 3 0 0 4).
Proof.
  pose proof (tap_reads sample_document 100 true sample_items ltac:(lia)) as Ht.
  destruct (relay _ _ _ _ _) as [out tap] eqn:E. destruct Ht as (Ht & _).
  cbn [snd]. rewrite Ht. apply (f_equal fst) in E. vm_compute in E. cbn in E. subst out.
  vm_compute. reflexivity.
Defined.
