(* ===== verification/ProxySafety.v ===== *)
(** * The credential proxy: what goes upstream and what comes back

    The theorems about headers in both directions, and about the attempts of
    one request. *)
From S2P Require Import Prelude Crypto Headers Protocol Json Proxy.
Local Open Scope Z_scope.

Section headers.
Context `{HeaderMapLaws Hd}.

Lemma values_of_filter (p : string → bool) n (l : list (string * string)) :
  values_of n (List.filter (λ '(m, _), p m) l) = if p n then values_of n l else [].
Proof.
  induction l as [|[m v] l IH]; [by destruct (p n)|]. cbn [List.filter values_of omap list_omap].
  unfold values_of in *. destruct (decide (m = n)) as [->|Hne].
  - rewrite (bool_decide_eq_true_2 (n = n)) by done. destruct (p n) eqn:E; [|done].
    cbn [omap list_omap]. rewrite (bool_decide_eq_true_2 (n = n)) by done. by rewrite IH.
  - rewrite (bool_decide_eq_false_2 (m = n)) by done. destruct (p m); [|done].
    cbn [omap list_omap]. by rewrite (bool_decide_eq_false_2 (m = n)) by done.
Qed.

(** The value of the last credential of a name. *)
Fixpoint credential (n : string) (credentials : list (string * string)) : option string :=
  match credentials with
  | [] => None
  | (name, value) :: credentials =>
      or_else (credential n credentials)
        (if bool_decide (hm_name (H:=Hd) name = Some n) then hm_value (H:=Hd) value else None)
  end.
Lemma insert_credentials_get credentials (headers h : Hd) n :
  insert_credentials credentials headers = Ok h →
  hm_get_all n h =
    match credential n credentials with Some v => [v] | None => hm_get_all n headers end.
Proof.
  revert headers; induction credentials as [|[name value] l IH]; intros headers; cbn.
  { by intros [= ->]. }
  intros (m & Hm & (v & Hv & Hrest)%bind_Ok)%bind_Ok.
  destruct (hm_name name) as [m'|]; [|done]. injection Hm as ->.
  destruct (hm_value value) as [v'|]; [|done]. injection Hv as ->.
  rewrite (IH _ Hrest). destruct (credential n l); [done|]. cbn [or_else].
  destruct (decide (m = n)) as [->|Hne].
  - rewrite bool_decide_eq_true_2 by done. by rewrite hm_insert_get.
  - rewrite bool_decide_eq_false_2 by congruence. by rewrite hm_insert_get_ne.
Qed.
Lemma insert_credentials_ok credentials (headers : Hd) :
  is_ok (insert_credentials credentials headers) = true ↔
  Forall (λ '(n, v), is_Some (hm_name (H:=Hd) n) ∧ is_Some (hm_value (H:=Hd) v)) credentials.
Proof.
  revert headers; induction credentials as [|[name value] l IH]; intros headers; cbn.
  { by split; [constructor|]. }
  rewrite Forall_cons. destruct (hm_name name) as [m|]; cbn;
    [|split; [done|by intros [[[? ?] _] _]]].
  destruct (hm_value value) as [v|]; cbn; [|split; [done|by intros [[_ [? ?]] _]]].
  rewrite IH. split; [by split; [split; eexists|]|by intros [_ ?]].
Qed.
Lemma credential_in n v credentials :
  credential n credentials = Some v →
  ∃ name value, (name, value) ∈ credentials ∧ hm_name (H:=Hd) name = Some n ∧
    hm_value (H:=Hd) value = Some v.
Proof.
  induction credentials as [|[name value] l IH]; cbn; [done|].
  destruct (credential n l) as [w|].
  - intros [= ->]. destruct (IH eq_refl) as (name' & value' & ? & ?). exists name', value'.
    split; [by right|done].
  - cbn. case_bool_decide; [|done]. intros Hv. exists name, value. by split; [left|].
Qed.

Lemma injected_denied n : canonical n ∈ INJECTED → denied n = true.
Proof. intros Hn. unfold denied, hop_canonical. by rewrite bool_decide_eq_true_2. Qed.
Lemma injected_hop n : canonical n ∈ INJECTED → hop n = true.
Proof. intros Hn. unfold hop, hop_canonical. by rewrite bool_decide_eq_true_2. Qed.

Lemma upstream_headers_get (client : Hd) l h n :
  upstream_headers client l = Ok h →
  hm_get_all n h =
    match credential n l with
    | Some v => [v]
    | None => if forwarded_header client n then hm_get_all n client else []
    end.
Proof.
  intros Hh. unfold upstream_headers in Hh. rewrite (insert_credentials_get _ _ _ _ Hh).
  destruct (credential n _); [done|].
  by rewrite hm_from_iter_get, (values_of_filter (forwarded_header client)), hm_iter_get.
Qed.
(** No value of the client's is under a name that may read as a
    credential's. *)
Lemma upstream_headers_injected (client : Hd) l h n v :
  upstream_headers client l = Ok h → v ∈ hm_get_all n h → canonical n ∈ INJECTED →
  credential n l = Some v.
Proof.
  intros Hh Hv Hn. rewrite (upstream_headers_get _ _ _ _ Hh) in Hv.
  destruct (credential n l) as [w|]; [by apply list_elem_of_singleton in Hv as ->|].
  unfold forwarded_header in Hv. rewrite (injected_denied n Hn), andb_false_r in Hv.
  by apply elem_of_nil in Hv.
Qed.

(** C8: the headers of an upstream request are exactly the credentials the
    agent gave, each in place of what the client sent under its name, and of
    the client's the ones that are neither denied nor named by its
    [Connection] headers. Under no spelling of a credential's name does a
    client's value go upstream: any value under a name that backends may
    read as one is a credential's; and no header of the response under such
    a name, and no cookie, comes back to the client. *)
Theorem upstream_headers_spec (client : Hd) credentials :
  (is_ok (upstream_headers client credentials) = true ↔
     Forall (λ '(n, v), is_Some (hm_name (H:=Hd) n) ∧ is_Some (hm_value (H:=Hd) v)) credentials) ∧
  (∀ h, upstream_headers client credentials = Ok h →
     (∀ n, hm_get_all n h =
        match credential n credentials with
        | Some v => [v]
        | None => if forwarded_header client n then hm_get_all n client else []
        end) ∧
     (∀ n v, v ∈ hm_get_all n h → canonical n ∈ INJECTED → ∃ name value,
        (name, value) ∈ credentials ∧ hm_name (H:=Hd) name = Some n ∧
        hm_value (H:=Hd) value = Some v)) ∧
  (∀ status (upstream : Hd) n, canonical n ∈ INJECTED ∨ n = "set-cookie"%string →
     hm_get_all n (response_headers status upstream) = []).
Proof.
  split; [apply insert_credentials_ok|]. split.
  - intros h Hh. split; [intros n; by apply upstream_headers_get|]. intros n v Hv Hn.
    apply credential_in. by eapply upstream_headers_injected.
  - intros status upstream n Hn. unfold response_headers.
    set (h := hm_from_iter _).
    assert (hm_get_all n h = []) as Hnone.
    { subst h. rewrite hm_from_iter_get,
        (values_of_filter (λ n, negb (hop n) && negb (bool_decide (n = "set-cookie"%string)))).
      destruct Hn as [Hn| ->]; [by rewrite (injected_hop n Hn)|done]. }
    destruct (_ && _); [|done]. rewrite hm_insert_get_ne; [done|].
    intros <-. destruct Hn as [Hn|?]; [|done]. revert Hn. vm_compute. clear.
    intros Hn. repeat (apply elem_of_cons in Hn as [?|Hn]; [done|]). by apply elem_of_nil in Hn.
Qed.
End headers.

(** ** Attempts *)
Section route.
Context `{Crypto} `{HeaderMap Hd}.
Context (json_from_slice : string → option Value) (json_to_vec : Value → option string).
Local Abbreviation route := (route json_from_slice json_to_vec).
Local Abbreviation attempts := (attempts json_from_slice).

Definition is_acquired (e : Effect (Hd:=Hd)) : bool := match e with Acquired => true | _ => false end.
Definition is_sent (e : Effect (Hd:=Hd)) : bool := match e with Sent _ _ => true | _ => false end.
Definition is_recovery (e : Effect (Hd:=Hd)) : bool := match e with Recovery => true | _ => false end.
Definition is_logged (e : Effect (Hd:=Hd)) : bool := match e with Logged _ => true | _ => false end.
Definition count (p : Effect → bool) (l : list (Effect (Hd:=Hd))) : nat := length (List.filter p l).
Lemma count_app p l k : count p (l ++ k) = (count p l + count p k)%nat.
Proof. unfold count. by rewrite List.filter_app, length_app. Qed.
Lemma app_cons_cases {A} (l k before after : list A) x :
  l ++ k = before ++ x :: after →
  (∃ rest, l = before ++ x :: rest) ∨ ∃ rest, before = l ++ rest ∧ k = rest ++ x :: after.
Proof.
  revert before. induction l as [|y l IH]; intros before; [right; by exists before|].
  destruct before as [|z before]; cbn; [intros [= -> _]; left; by exists l|].
  intros [= -> [[rest ->]|(rest & -> & ->)]%IH]; [left; by exists rest|right; by exists rest].
Qed.

(** The attempts from the [i]th on. What the [j]th of them sends is the
    request, with the credentials the agent gave when it was asked for that
    attempt; the [j]th line is of the answer to it; a recovery is asked for
    after an answer that refused them; and what is forwarded is the answer
    to the last. *)
Definition sent_ok (i : nat) (out : Outside (Hd:=Hd)) (client : Hd) (body : string)
    (effects : list (Effect (Hd:=Hd))) : Prop :=
  ∀ before h b after, effects = before ++ Sent h b :: after →
    let j := count is_sent before in
    b = body ∧ count is_acquired before = S j ∧
    ∃ credentials, os_acquire out (i + j) = Some credentials ∧ upstream_headers client credentials = Ok h.
Definition answered_with (out : Outside (Hd:=Hd)) (i : nat) (status : Z) : Prop :=
  ∃ upstream items, os_send out i = Some (status, upstream, items).
Definition line_of (trace : Trace) (line : LogLine) : Prop :=
  ll_route line = tr_route trace ∧ ll_model line = unwrap_or (tr_model trace) "-"%string ∧
  ll_session_id line = tr_session_id trace ∧
  ll_client_request_id line = tr_client_request_id trace ∧
  ll_cache_key line = unwrap_or (tr_cache_key trace) "-"%string.
Definition logged_ok (i : nat) (out : Outside (Hd:=Hd)) (trace : Trace)
    (effects : list (Effect (Hd:=Hd))) : Prop :=
  ∀ before line after, effects = before ++ Logged line :: after →
    let j := count is_logged before in
    line_of trace line ∧ count is_sent before = S j ∧ answered_with out (i + j) (ll_status line).
Definition recovered_ok (i : nat) (out : Outside (Hd:=Hd)) (effects : list (Effect (Hd:=Hd))) : Prop :=
  ∀ before after, effects = before ++ Recovery :: after →
    let j := count is_recovery before in
    count is_sent before = S j ∧ answered_with out (i + j) 401.
Definition reply_ok (max : Z) (i : nat) (out : Outside (Hd:=Hd)) (effects : list (Effect (Hd:=Hd)))
    (reply : Reply (Hd:=Hd)) : Prop :=
  ∀ status h body, reply = Forwarded status h body →
    ∃ j upstream items, count is_sent effects = S j ∧ os_send out (i + j) = Some (status, upstream, items) ∧
      h = response_headers status upstream ∧
      body = (relay json_from_slice max 0 items (UsageTap_new (is_events h))).1.

Record attempted (i max_sends max_recoveries : nat) (max : Z) (trace : Trace)
    (out : Outside (Hd:=Hd)) (client : Hd) (body : string) (effects : list Effect)
    (reply : Reply) : Prop := {
  at_sends : (count is_sent effects <= max_sends)%nat;
  at_recoveries : (count is_recovery effects <= max_recoveries)%nat;
  at_logged : (count is_logged effects <= count is_sent effects)%nat;
  at_sent : sent_ok i out client body effects;
  at_lines : logged_ok i out trace effects;
  at_recovered : recovered_ok i out effects;
  at_reply : reply_ok max i out effects reply;
}.
Lemma attempted_widen i n m r s max trace out client body l reply :
  (n <= m)%nat → (r <= s)%nat →
  attempted i n r max trace out client body l reply → attempted i m s max trace out client body l reply.
Proof. intros ? ? []. split; try done; lia. Qed.
(** An attempt whose answer is recovered from, and what follows. *)
Lemma attempted_app i m s max trace out client body l k reply reply' :
  attempted i 1 1 max trace out client body l reply →
  count is_acquired l = 1%nat → count is_sent l = 1%nat → count is_logged l = 1%nat →
  count is_recovery l = 1%nat →
  attempted (S i) m s max trace out client body k reply' →
  attempted i (S m) (S s) max trace out client body (l ++ k) reply'.
Proof.
  intros [? ? ? Hs Hl Hr _] Ca Cs Cl Cr [? ? ? Hs' Hl' Hr' Hreply].
  split; rewrite ?count_app; try lia.
  - intros before h b after [[rest E]|(rest & -> & E)]%app_cons_cases; [by apply (Hs _ _ _ _ E)|].
    rewrite !count_app, Ca, Cs. destruct (Hs' _ _ _ _ E) as (? & Hc & Ha). rewrite Hc.
    split_and!; [done|lia|]. by replace (i + (1 + count is_sent rest))%nat with (S i + count is_sent rest)%nat by lia.
  - intros before line after [[rest E]|(rest & -> & E)]%app_cons_cases; [by apply (Hl _ _ _ E)|].
    rewrite !count_app, Cl, Cs. destruct (Hl' _ _ _ E) as (? & Hc & Ha). rewrite Hc.
    split_and!; [done|lia|]. by replace (i + (1 + count is_logged rest))%nat with (S i + count is_logged rest)%nat by lia.
  - intros before after [[rest E]|(rest & -> & E)]%app_cons_cases; [by apply (Hr _ _ E)|].
    rewrite !count_app, Cr, Cs. destruct (Hr' _ _ E) as [Hc Ha]. rewrite Hc.
    split; [lia|]. by replace (i + (1 + count is_recovery rest))%nat with (S i + count is_recovery rest)%nat by lia.
  - intros status h b (j & upstream & items & Hj & Ho & Hh)%Hreply. exists (S j), upstream, items.
    rewrite count_app, Cs, Hj. split; [done|]. by rewrite Nat.add_succ_r.
Qed.
(** An attempt that sends nothing. *)
Lemma attempted_acquired i max trace out client body status text :
  attempted i 1 0 max trace out client body [Acquired] (simple status text).
Proof.
  split; try done; [cbn; lia|..].
  - intros [|? [|? ?]] h b after [=].
  - intros [|? [|? ?]] line after [=].
  - intros [|? [|? ?]] after [=].
Qed.
(** One that sends the request, and logs the answer there is. *)
Lemma attempted_sent i max trace out client body credentials h line (logged recovery : bool) reply :
  os_acquire out i = Some credentials → upstream_headers client credentials = Ok h →
  (logged = true → line_of trace line ∧ answered_with out i (ll_status line)) →
  (recovery = true → ll_status line = 401) →
  let effects := [Acquired; Sent h body] ++
    if logged then Logged line :: if recovery then [Recovery] else [] else [] in
  reply_ok max i out effects reply →
  attempted i 1 (if recovery then 1 else 0) max trace out client body effects reply.
Proof.
  intros Ha Hu Hl Hr effects Hreply. unfold effects in *. clear effects.
  split; [unfold count; destruct logged, recovery; cbn; lia..| | | |done].
  - intros [|e1 [|e2 before]] h' b after; [done| |]; cbn [app].
    + intros [= <- <- <- _]. rewrite Nat.add_0_r. split; [done|]. split; [done|]. by exists credentials.
    + intros [= <- <- E]. exfalso. destruct logged; [|by destruct before].
      destruct before as [|e3 before]; [done|]. injection E as _ E.
      destruct recovery; [|by destruct before]. by destruct before as [|? [|? ?]].
  - intros [|e1 [|e2 before]] line' after; [done|by intros [=]|]; cbn [app]; intros [= <- <- E].
    destruct logged; [|by destruct before]. destruct (Hl eq_refl) as [Hline Hans].
    destruct before as [|e3 before].
    + injection E as -> _. by rewrite Nat.add_0_r.
    + exfalso. injection E as _ E. destruct recovery; [|by destruct before].
      by destruct before as [|? [|? ?]].
  - intros [|e1 [|e2 before]] after; [done|by intros [=]|]; cbn [app]; intros [= <- <- E].
    destruct logged; [|by destruct before]. destruct (Hl eq_refl) as [_ Hans].
    destruct before as [|e3 before]; [done|]. injection E as <- E.
    destruct recovery; [|by destruct before]. rewrite (Hr eq_refl) in Hans.
    destruct before as [|? [|? ?]]; [|done|done]. by rewrite Nat.add_0_r.
Qed.

Lemma forward_spec max status (upstream : Hd) items trace :
  let '(h, body, line) := forward json_from_slice max status upstream items trace in
  h = response_headers status upstream ∧ line_of trace line ∧ ll_status line = status ∧
  body = (relay json_from_slice max 0 items (UsageTap_new (is_events h))).1.
Proof.
  unfold forward. destruct (relay _ _ _ _ _) as [out tap] eqn:E. cbv zeta. split_and!; try done.
  by rewrite E.
Qed.
(** An attempt that ends with what the upstream answered, if anything. *)
Lemma attempted_answer i max trace out client body credentials :
  os_acquire out i = Some credentials →
  let '(sent, response) := send client body credentials (os_send out i) in
  match response with
  | None => attempted i 1 0 max trace out client body (Acquired :: sent) (simple 502 "upstream unavailable")
  | Some (status, headers, items) =>
      (let '(h, b, line) := forward json_from_slice max status headers items trace in
       attempted i 1 0 max trace out client body ((Acquired :: sent) ++ [Logged line])
         (Forwarded status h b)) ∧
      (status = 401 → ∀ line st text, line_of trace line → ll_status line = 401 →
       let effects := (Acquired :: sent) ++ [Logged line; Recovery] in
       attempted i 1 1 max trace out client body effects (simple st text) ∧
       count is_acquired effects = 1%nat ∧ count is_sent effects = 1%nat ∧
       count is_logged effects = 1%nat ∧ count is_recovery effects = 1%nat)
  end.
Proof.
  intros Ha. unfold send. destruct (upstream_headers client credentials) as [h|] eqn:Hu.
  2: { apply attempted_acquired. }
  destruct (os_send out i) as [[[status upstream] items]|] eqn:Ho.
  2: { by apply (attempted_sent i max trace out client body credentials h
         (mkLogLine "" 0 "" None false false "") false false). }
  pose proof (forward_spec max status upstream items trace) as Hf.
  destruct (forward _ _ _ _ _ _) as [[h' b] line]. destruct Hf as (-> & Hline & <- & ->).
  assert (answered_with out i (ll_status line)) as Hans by by exists upstream, items.
  split.
  - apply (attempted_sent i max trace out client body credentials h line true false); try done.
    intros ? ? ? [= <- <- <-]. exists 0%nat, upstream, items. rewrite Nat.add_0_r. done.
  - intros E line' st text Hl' Hst. rewrite E in Hans. split; [|done].
    apply (attempted_sent i max trace out client body credentials h line' true true); try done.
    by rewrite Hst.
Qed.

(** The last attempt, and the loop from its start. *)
Lemma attempts_last n max trace out client body i :
  ∃ effects reply, attempts (S n) max trace out client body true i = Some (effects, reply) ∧
    attempted i 1 0 max trace out client body effects reply.
Proof.
  cbn [Proxy.attempts]. destruct (os_acquire out i) as [credentials|] eqn:Ha.
  2: { eexists _, _. split; [done|]. apply attempted_acquired. }
  pose proof (attempted_answer i max trace out client body credentials Ha) as Hs.
  destruct (send _ _ _ _) as [sent [[[status upstream] items]|]]; [|by eexists _, _].
  rewrite andb_false_r. destruct Hs as [Hs _].
  destruct (forward _ _ _ _ _ _) as [[h b] line]. by eexists _, _.
Qed.
Lemma attempts_last_fuel n max trace out client body i :
  attempts (S n) max trace out client body true i = attempts 1 max trace out client body true i.
Proof.
  cbn [Proxy.attempts]. destruct (os_acquire out i) as [credentials|]; [|done].
  destruct (send _ _ _ _) as [sent [[[status headers] items]|]]; [|done]. by rewrite andb_false_r.
Qed.
Lemma attempts_spec n max trace out client body i :
  ∃ effects reply, attempts (S (S n)) max trace out client body false i = Some (effects, reply) ∧
    attempted i 2 1 max trace out client body effects reply ∧
    (∀ h b, reply = Forwarded 401 h b → os_recover out = true ∧ Recovery ∈ effects).
Proof.
  remember (S n) as m eqn:Hm. cbn [Proxy.attempts].
  destruct (os_acquire out i) as [credentials|] eqn:Ha.
  2: { eexists _, _. split; [done|]. split; [|done].
       eapply attempted_widen; [| |apply attempted_acquired]; lia. }
  pose proof (attempted_answer i max trace out client body credentials Ha) as Hs.
  destruct (send _ _ _ _) as [sent [[[status upstream] items]|]].
  2: { eexists _, _. split; [done|]. split; [|done]. eapply attempted_widen; [| |exact Hs]; lia. }
  destruct Hs as [Hs Hrec]. destruct (Z.eqb_spec status 401) as [->|Hne]; cbn [andb negb].
  2: { destruct (forward _ _ _ _ _ _) as [[h b] line]. eexists _, _. split; [done|].
       split; [eapply attempted_widen; [| |exact Hs]; lia|by intros ? ? [= -> _ _]]. }
  set (line := UsageTap_drop _ _ _ _).
  destruct (Hrec eq_refl line 503 "credential recovery unavailable"%string) as (Hat & Ca & Cs & Cl & Cr);
    [done|done|].
  assert (∀ more, Recovery ∈ ((Acquired :: sent) ++ [Logged line; Recovery]) ++ more) as Hin.
  { intros more. rewrite !elem_of_app. left. right. right. by left. }
  destruct (os_recover out) eqn:Hrc.
  - destruct (attempts_last n max trace out client body (S i)) as (more & reply & Hlast & Hmore).
    rewrite <-Hm in Hlast. rewrite Hlast. eexists _, _. split; [done|]. split.
    + by eapply attempted_app.
    + intros h b _. split; [done|]. apply Hin.
  - eexists _, _. split; [done|]. split; [|done]. eapply attempted_widen; [| |exact Hat]; lia.
Qed.
Lemma attempts_fuel n max trace out client body i :
  attempts (S (S n)) max trace out client body false i = attempts 2 max trace out client body false i.
Proof.
  remember (S n) as m eqn:Hm. remember 1%nat as k eqn:Hk. cbn [Proxy.attempts].
  destruct (os_acquire out i) as [credentials|]; [|done].
  destruct (send _ _ _ _) as [sent [[[status headers] items]|]]; [|done].
  destruct (_ && _); [|done]. destruct (os_recover out); [|done].
  subst. by rewrite (attempts_last_fuel n).
Qed.

(** A text of at most [MAX_TOKEN] bytes none of which ends a line. *)
Definition one_token (s : string) : Prop := len s <= MAX_TOKEN ∧ string_forallb token_byte s = true.
Lemma token_one_token v s : token v = Some s → one_token s.
Proof.
  unfold token. destruct v as [v|]; [|done]. cbn. destruct (as_str v) as [t|]; [|done]. cbn.
  unfold then_some. destruct (_ && _) eqn:E; [|done]. intros [= <-].
  rewrite !andb_true_iff, !Z.leb_le in E. by destruct_and!.
Qed.
Lemma normalize_model body codex :
  normalize_codex_request json_from_slice json_to_vec body = Ok codex →
  one_token (unwrap_or (cr_model codex) "-"%string).
Proof.
  unfold normalize_codex_request. intros (v & _ & Hv)%bind_Ok. destruct v; try done. cbv zeta in Hv.
  apply bind_Ok in Hv as (b & _ & [= <-]). cbn [cr_model].
  destruct (token _) as [s|] eqn:E; [by apply token_one_token in E|]. by split.
Qed.

(** What is sent is the client's object less one member; the model and the
    cache key are its own, if each is one short token. *)
Definition normalized (body : string) (codex : CodexRequest) : Prop :=
  ∃ m m', json_from_slice body = Some (Object m) ∧ json_to_vec (Object m') = Some (cr_body codex) ∧
    (∀ k, get k m' = if decide (k = "max_output_tokens"%string) then None else get k m) ∧
    cr_model codex = token (get "model" m) ∧
    cr_prompt_cache_key codex = token (get "prompt_cache_key" m).
Lemma normalize_normalized body codex :
  normalize_codex_request json_from_slice json_to_vec body = Ok codex → normalized body codex.
Proof.
  unfold normalize_codex_request. intros (v & Hv & Hn)%bind_Ok. destruct v as [| | | | | |m]; try done.
  cbv zeta in Hn. apply bind_Ok in Hn as (b & Hb & [= <-]).
  destruct (json_from_slice body) as [v'|] eqn:Hslice; [|done]. injection Hv as ->.
  destruct (json_to_vec _) as [b'|] eqn:Hvec; [|done]. injection Hb as ->.
  exists m, (remove "max_output_tokens" m). cbn [cr_body cr_model cr_prompt_cache_key].
  split_and!; [done|done|intros k; apply get_remove|by rewrite get_remove..].
Qed.

Lemma route_attempted n max auth permits out (req : ProxyRequest (Hd:=Hd)) effects reply h b before after :
  (2 <= n)%nat → route n max auth permits out req = Some (effects, reply) →
  effects = before ++ Sent h b :: after →
  let j := count is_sent before in
  ∃ body codex credentials, pr_body req = BodyBytes body ∧ normalized body codex ∧
    ClientAuth_accepts (Hd:=Hd) auth (hm_get "authorization" (pr_headers req)) = true ∧
    os_acquire out j = Some credentials ∧
    upstream_headers (backstop_cache_routing (pr_headers req) codex) credentials = Ok h.
Proof.
  intros Hn. unfold Proxy.route. assert (∀ status text,
    Some ([], simple status text) = Some (effects, reply) → effects = before ++ Sent h b :: after → False) as Hno.
  { intros status text [= <- _]. by destruct before. }
  destruct (_ || _); [intros H1 H2; by destruct (Hno _ _ H1 H2)|].
  destruct (ClientAuth_accepts _ _); [cbn [negb]|intros H1 H2; by destruct (Hno _ _ H1 H2)].
  destruct (permits =? 0); [intros H1 H2; by destruct (Hno _ _ H1 H2)|].
  destruct (pr_body req) as [body| |]; [|intros H1 H2; by destruct (Hno _ _ H1 H2)..].
  destruct (normalize_codex_request _ _ body) as [codex|e] eqn:Hnorm;
    [|intros H1 H2; by destruct (Hno _ _ H1 H2)].
  destruct n as [|[|n]]; [lia..|]. cbv zeta. rewrite attempts_fuel.
  match goal with |- attempts _ _ ?t _ ?c ?b _ _ = _ → _ =>
    destruct (attempts_spec 0 max t out c b 0) as (effects' & reply' & -> & [? ? ? Hsent ? ? ?] & _) end.
  intros [= -> ->] E. destruct (Hsent _ _ _ _ E) as (_ & _ & credentials & ? & ?).
  exists body, codex, credentials. split_and!; try done. by apply normalize_normalized.
Qed.

(** C10: a request always gets an answer, with at most two requests sent
    upstream and one recovery in between, after an answer that refused the
    credentials. Nothing is done for a request that is not a [POST] of a
    JSON object to the one path by a client that authenticates, with room in
    the concurrency. Every request sent is the client's, its object less
    [max_output_tokens], with the credentials the agent gave when it was
    asked for that attempt, once for each; the answer to the last goes back
    with only the headers it may; and a client sees the upstream refuse the
    credentials only after the agent recovered them and they were refused
    again. At most one line is logged of each request sent, of the answer to
    it, and of what the client sent it holds the model and no more of the
    cache key than the first six bytes of its SHA-256, each if it is one
    short token, and whether the routing headers were there. *)
Theorem route_spec max auth permits out (req : ProxyRequest (Hd:=Hd)) :
  ∃ effects reply,
    (∀ n, (2 <= n)%nat → route n max auth permits out req = Some (effects, reply)) ∧
    (count is_sent effects <= 2)%nat ∧ (count is_recovery effects <= 1)%nat ∧
    (count is_logged effects <= count is_sent effects)%nat ∧
    reply_ok max 0 out effects reply ∧ recovered_ok 0 out effects ∧
    (effects ≠ [] →
       pr_method req = POST ∧ pr_path req = "/v1/responses"%string ∧ pr_query req = None ∧
       ClientAuth_accepts (Hd:=Hd) auth (hm_get "authorization" (pr_headers req)) = true ∧
       permits ≠ 0 ∧
       ∃ body codex, pr_body req = BodyBytes body ∧
         normalize_codex_request json_from_slice json_to_vec body = Ok codex ∧
         normalized body codex ∧
         sent_ok 0 out (backstop_cache_routing (pr_headers req) codex) (cr_body codex) effects ∧
         (∀ before line after, effects = before ++ Logged line :: after →
            let j := count is_logged before in
            count is_sent before = S j ∧ answered_with out j (ll_status line) ∧
            one_token (ll_model line) ∧ ll_model line = unwrap_or (cr_model codex) "-"%string ∧
            ll_route line = "/v1/responses"%string ∧
            ll_session_id line = hm_contains SESSION_ID (pr_headers req) ∧
            ll_client_request_id line = hm_contains CLIENT_REQUEST_ID (pr_headers req) ∧
            ll_cache_key line = match cr_prompt_cache_key codex with
                                | Some key => hex_encode (String.substring 0 6 (sha256 key))
                                | None => "-"%string
                                end)) ∧
    (∀ h b, reply = Forwarded 401 h b → os_recover out = true ∧ Recovery ∈ effects).
Proof.
  unfold Proxy.route.
  assert (∀ status text P,
    ∃ effects reply, (∀ n, (2 <= n)%nat → Some ([], simple status text) = Some (effects, reply)) ∧
    (count is_sent effects <= 2)%nat ∧ (count is_recovery effects <= 1)%nat ∧
    (count is_logged effects <= count is_sent effects)%nat ∧
    reply_ok max 0 out effects reply ∧ recovered_ok 0 out effects ∧
    (effects ≠ [] → P effects) ∧
    (∀ h b, reply = Forwarded 401 h b → os_recover out = true ∧ Recovery ∈ effects)) as Hdone.
  { intros status text P. eexists [], _. split; [done|]. cbn. split_and!; try done; [lia..|].
    by intros [|? ?]. }
  destruct (_ || _) eqn:Hroute; [apply Hdone|].
  destruct (ClientAuth_accepts _ _) eqn:Hauth; cbn [negb]; [|apply Hdone].
  destruct (Z.eqb_spec permits 0); [apply Hdone|].
  destruct (pr_body req) as [body| |]; [|apply Hdone|apply Hdone].
  destruct (normalize_codex_request _ _ body) as [codex|e] eqn:Hn; [|apply Hdone].
  apply orb_false_iff in Hroute as [[Hm%negb_false_iff Hp%negb_false_iff]%orb_false_iff Hq].
  apply bool_decide_eq_true in Hm, Hp. rewrite Hp. cbv zeta.
  destruct (attempts_spec 0 max (Trace_new "/v1/responses" (pr_headers req) codex) out
    (backstop_cache_routing (pr_headers req) codex) (cr_body codex) 0)
    as (effects & reply & Heq & [? ? ? ? Hlines ? ?] & H401).
  exists effects, reply. split; [|split_and!; try done].
  - intros k Hle. destruct k as [|[|k]]; [lia..|]. by rewrite attempts_fuel.
  - intros _. split_and!; try done; [by destruct (pr_query req)|]. exists body, codex.
    split_and!; try done; [by apply normalize_normalized|].
    intros before line after E. destruct (Hlines _ _ _ E) as ((Hr & Hmodel & Hs & Hc & Hk) & Hj & Ha).
    split_and!; try done; [rewrite Hmodel; by apply (normalize_model body)|].
    rewrite Hk. cbn [Trace_new tr_cache_key]. by destruct (cr_prompt_cache_key codex).
Qed.
End route.

(** ** Witness *)
#[local] Existing Instance header_map.
#[local] Existing Instance header_map_laws.
Definition sample_client : list (string * string) :=
  [("authorization", "Bearer mine"); ("chatgpt_account_id", "mine"); ("x-trace", "t");
   ("connection", "X_Trace"); ("accept", "*/*")]%string.
Lemma upstream_headers_spec_witness :
  ∃ h, upstream_headers sample_client [("authorization", "Bearer broker")]%string = Ok h ∧
    hm_get_all "authorization" h = ["Bearer broker"]%string ∧
    hm_get_all "chatgpt_account_id" h = [] ∧ hm_get_all "x-trace" h = [] ∧
    hm_get_all "accept" h = ["*/*"]%string.
Proof.
  destruct (upstream_headers_spec sample_client [("authorization", "Bearer broker")]%string)
    as (_ & Hh & _).
  destruct (upstream_headers sample_client _) as [h|] eqn:E; [|revert E; vm_compute; discriminate].
  destruct (Hh h eq_refl) as [Hget _]. exists h. split; [done|].
  rewrite !Hget. vm_compute. split_and!; reflexivity.
Defined.
