(* ===== verification/ProxyMain.v ===== *)
(** * The credential proxy: [main]

    [credential-proxy/src/main.rs]: the [App] that [main] makes of its
    environment and the two secrets, before it serves; a panic is an error.
    Then the permits of its concurrency, over the requests it serves: one is
    taken before a request's body is read and goes back when its answer's body
    has ended or its client is gone. *)
From S2P Require Import Prelude Crypto Headers Json Proxy.
Local Open Scope Z_scope.

Definition CHANNEL_SECRET : string := "/run/secrets/channel/agent-channel-key".
Definition CLIENT_SECRET : string := "/run/secrets/client/client-api-key".

(** [App], but for the HTTP client; [concurrency] is the permits its
    semaphore starts with. *)
Record App := mkApp {
  app_client_auth : ClientAuth;
  app_channel_key : string;
  app_max_bytes : Z;
  app_idle : Z;
  app_concurrency : Z;
}.

Section main.
Context `{Crypto}.
(** The environment, what reading a file returns, and whether the HTTP client
    can be built. *)
Context (var : string → option string) (read_to_string : string → result string string)
  (client_built : bool).

Definition client_auth_file : string := unwrap_or (var "CLIENT_AUTH_FILE") CLIENT_SECRET.
Definition main : result string App :=
  ClientAuthMode_parse (var "CLIENT_AUTH_MODE") ≫= λ client_auth_mode,
  map_err (λ _, "client secret unavailable or weak"%string)
    (ClientAuth_load client_auth_mode (read_to_string client_auth_file)) ≫= λ client_auth,
  map_err (λ _, "agent channel secret unavailable"%string)
    (read_to_string CHANNEL_SECRET) ≫= λ channel_key,
  refuse_if (len (trim channel_key) <? MIN_KEY) "agent channel secret is weaker than 32 bytes"%string
    ≫= λ _,
  refuse_if (negb client_built) "HTTP client"%string ≫= λ _,
  Ok (mkApp client_auth (trim channel_key)
        (env_num (var "MAX_RESPONSE_BYTES") (64 * 1024 * 1024) (1024 * 1024 * 1024))
        (env_num (var "CHUNK_IDLE_SECS") 30 300) (env_num (var "CONCURRENCY") 16 128)).

Lemma env_num_range value d max : 1 <= max → 1 <= env_num value d max <= max.
Proof. unfold env_num. lia. Qed.

Lemma parse_mode value mode :
  ClientAuthMode_parse value = Ok mode →
  match mode with ModeRequired => True | ModeDisabled => value = Some "disabled"%string end.
Proof.
  unfold ClientAuthMode_parse. destruct value as [v|]; [|by intros [= <-]].
  change (unwrap_or (Some v) "required"%string) with v.
  destruct (bool_decide_reflect (v = "required"%string)); [by intros [= <-]|].
  destruct (bool_decide_reflect (v = "disabled"%string)) as [->|]; [by intros [= <-]|done].
Qed.
Lemma load_required auth :
  ClientAuth_load ModeRequired (read_to_string client_auth_file) = Ok auth →
  match auth with
  | Disabled => False
  | Required key => ∃ s, read_to_string client_auth_file = Ok s ∧
      MIN_KEY <= len (trim s) ∧ key = sha256 (trim s)
  end.
Proof.
  unfold ClientAuth_load, Key_read. destruct (read_to_string client_auth_file) as [s|]; [|done].
  cbn [mbind result_bind fmap result_fmap]. destruct (Z.ltb_spec (len (trim s)) MIN_KEY); [done|].
  cbn. intros [= <-]. by exists s.
Qed.

Lemma app_key app :
  main = Ok app → ∃ s, read_to_string CHANNEL_SECRET = Ok s ∧ app_channel_key app = trim s.
Proof.
  unfold main. intros (mode & _ & Hm)%bind_Ok. apply bind_Ok in Hm as (auth & _ & Hm).
  apply bind_Ok in Hm as (s & Hs & Hm). apply bind_Ok in Hm as ([] & _ & Hm).
  apply bind_Ok in Hm as ([] & _ & [= <-]). exists s. split; [|done].
  unfold map_err in Hs. by destruct (read_to_string CHANNEL_SECRET).
Qed.

(** What the app of a proxy that starts is: its key is the channel secret's,
    of at least 32 bytes, its limits are in their ranges whatever the
    environment, and it serves clients without a key only where the
    environment says so, in so many letters. *)
Theorem proxy_main_spec app :
  main = Ok app →
  (∃ s, read_to_string CHANNEL_SECRET = Ok s ∧ app_channel_key app = trim s) ∧
  MIN_KEY <= len (app_channel_key app) ∧
  1 <= app_max_bytes app <= 1024 * 1024 * 1024 ∧ 1 <= app_idle app <= 300 ∧
  1 <= app_concurrency app <= 128 ∧
  match app_client_auth app with
  | Disabled => var "CLIENT_AUTH_MODE" = Some "disabled"%string
  | Required key => ∃ s, read_to_string client_auth_file = Ok s ∧
      MIN_KEY <= len (trim s) ∧ key = sha256 (trim s)
  end.
Proof.
  unfold main. intros (mode & Hmode & Hm)%bind_Ok.
  apply bind_Ok in Hm as (auth & Hauth & Hm). apply bind_Ok in Hm as (s & Hs & Hm).
  apply bind_Ok in Hm as ([] & Hlen & Hm). apply bind_Ok in Hm as ([] & _ & [= <-]).
  apply refuse_if_Ok, Z.ltb_ge in Hlen. cbn [app_client_auth app_channel_key app_max_bytes app_idle app_concurrency].
  unfold map_err in *. destruct (read_to_string CHANNEL_SECRET) as [s'|] eqn:Hread; [|done].
  injection Hs as ->. split; [eauto|]. split; [done|].
  split; [by apply env_num_range|]. split; [by apply env_num_range|]. split; [by apply env_num_range|].
  destruct (ClientAuth_load mode _) as [a|] eqn:Hload; [|done]. injection Hauth as ->.
  apply parse_mode in Hmode. destruct mode; [|by injection Hload as <-].
  apply load_required in Hload. by destruct auth.
Qed.
End main.

(** ** The permits *)
Section serving.
Context `{Crypto} {Hd : Type} `{HeaderMap Hd}
  (json_from_slice : string → option Value) (json_to_vec : Value → option string).

(** Whether [route] takes a permit. *)
Definition takes_permit (auth : ClientAuth) (permits : Z) (req : ProxyRequest (Hd:=Hd)) : bool :=
  bool_decide (pr_method req = POST) && bool_decide (pr_path req = "/v1/responses"%string)
  && negb (is_some (pr_query req))
  && ClientAuth_accepts (Hd:=Hd) auth (hm_get "authorization" (pr_headers req))
  && negb (permits =? 0).
Record Serving := mkServing { sv_permits : Z; sv_in_flight : nat }.
Inductive serving_step (app : App) : Serving → Serving → Prop :=
| sv_request req s :
    takes_permit (app_client_auth app) (sv_permits s) req = true →
    serving_step app s (mkServing (sv_permits s - 1) (S (sv_in_flight s)))
| sv_refused req s :
    takes_permit (app_client_auth app) (sv_permits s) req = false → serving_step app s s
| sv_end n s :
    sv_in_flight s = S n → serving_step app s (mkServing (sv_permits s + 1) n).
Inductive serving (app : App) : Serving → Prop :=
| sv_start : serving app (mkServing (app_concurrency app) 0)
| sv_step s s' : serving app s → serving_step app s s' → serving app s'.

Lemma serving_permits app s :
  0 <= app_concurrency app → serving app s →
  0 <= sv_permits s ∧ sv_permits s + Z.of_nat (sv_in_flight s) = app_concurrency app.
Proof.
  intros Hc. induction 1 as [|s s' _ [Hge Hs] Hstep]; [cbn; lia|].
  destruct Hstep as [req s Ht|req s Ht|n s Hn]; cbn; [|lia|lia].
  unfold takes_permit in Ht. apply andb_true_iff in Ht as [_ Ht%negb_true_iff%Z.eqb_neq]. lia.
Qed.
(** However requests come and end, at most [CONCURRENCY] are served at once,
    and one that is well formed and authenticates is told that the proxy is
    busy when that many are. *)
Theorem serving_spec app s fuel max out req :
  0 <= app_concurrency app → serving app s →
  Z.of_nat (sv_in_flight s) <= app_concurrency app ∧
  (pr_method req = POST → pr_path req = "/v1/responses"%string → pr_query req = None →
   ClientAuth_accepts (Hd:=Hd) (app_client_auth app) (hm_get "authorization" (pr_headers req)) = true →
   Z.of_nat (sv_in_flight s) = app_concurrency app →
   route json_from_slice json_to_vec fuel max (app_client_auth app) (sv_permits s) out req =
     Some ([], simple 429 "proxy busy")).
Proof.
  intros Hc Hs. destruct (serving_permits app s Hc Hs) as [Hge Hsum]. split; [lia|].
  intros Hm Hp Hq Ha Hfull. unfold route. rewrite Hm, Hp, Hq, Ha. cbn -[simple].
  by assert (sv_permits s = 0) as -> by lia.
Qed.
End serving.
