(* ===== verification/AgentHome.v ===== *)
(** * The credential agent's home

    [provider-codex/src/main.rs], on the file system of [Files]: the checks
    of the directory and of what is in it ([secure_dir], [prepare_socket],
    [lock_home], [validate_home], [cleanup_staging]), and the installation of
    a new [auth.json] after a device login ([login], [install_auth],
    [atomic_write]). The device login itself and JSON are parameters; an
    error is told from success only. *)
From S2P Require Import Prelude Json Files.
Local Open Scope Z_scope.

Definition SOCKET_DIR : string := "/run/praxis-credentials".
Definition SOCKET : string := "/run/praxis-credentials/agent.sock".
(** [Path::join] of a file name. *)
Definition join (dir name : string) : string := dir +:+ "/" +:+ name.
Definition STAGING : string := ".auth-staging-".
Definition MAX_AUTH : Z := 16 * 1024 * 1024.

(** ** [auth.json] *)
Section json.
Context (json_from_slice : string → option Value).
Definition has_token (tokens : list (string * Value)) (name : string) : bool :=
  negb (is_none_or (get name tokens ≫= as_str) is_empty).
Definition validate_auth_json (data : string) : result string unit :=
  ok_or (json_from_slice data) "auth.json is not complete JSON" ≫= λ value,
  ok_or (value_get "tokens" value ≫= as_object) "auth.json has no token object" ≫= λ tokens,
  try_each (λ name, refuse_if (negb (has_token tokens name)) "auth.json has incomplete tokens")
    ["access_token"; "refresh_token"].
End json.

(** Where a test makes an installation fail; none does outside tests. *)
Inductive InstallFailure := AfterBackupSync | AfterActiveReplacement | AfterActiveSync.
#[export] Instance InstallFailure_eq_dec : EqDecision InstallFailure.
Proof. solve_decision. Defined.

Section home.
Context (json_from_slice : string → option Value).
(** The process: its user, and the mode it makes directories with. *)
Context (uid umode : Z).

(** ** Checks *)
Definition secure_dir_ok (m : Metadata) : bool :=
  is_dir m && ((md_uid m =? uid) || (md_uid m =? 0)) && negb (mode_has m 2).
Definition secure_dir (path : string) : prog :=
  stat path (λ m, Stop (is_some_and m secure_dir_ok)).

Definition socket_unsafe (m : Metadata) : bool :=
  is_symlink m || negb (is_socket m) || negb (md_uid m =? uid) || mode_has m 7.
Definition prepare_socket : prog :=
  tried (secure_dir SOCKET_DIR)
    (stat SOCKET (λ m,
      match m with
      | Some m => if socket_unsafe m then Stop false else call (Remove SOCKET) (Stop true)
      | None => Stop true
      end)).

Definition create_dir_all (path : string) : prog :=
  Look (λ d, match d !! path with
             | Some _ => call (Access path) (Stop true)
             | None => call (CreateDir path (mkMetadata Dir uid umode)) (Stop true)
             end).
(** [taken]: another process holds the lock. *)
Definition lock_home (home : string) (taken : bool) : prog :=
  let lock := join home ".broker.lock" in
  tried (create_dir_all home) (tried (secure_dir home)
    (stat_ok lock (λ m,
      if is_some_and m (λ m, negb (is_file m) || is_symlink m || negb (md_uid m =? uid))
      then Stop false
      else Look (λ d,
        let opened (m : Metadata) : prog :=
          Stop (negb (negb (is_file m) || negb (md_uid m =? uid) || mode_has m 63) && negb taken) in
        match d !! lock with
        | Some f => if is_symlink (f_meta f) then Stop false
                    else call (Access lock) (opened (f_meta f))
        | None => let m := mkMetadata Regular uid 384 in call (CreateNew lock m) (opened m)
        end)))).

(** [auth.json]'s length is what it holds. *)
Definition auth_unsafe (m : Metadata) (data : string) : bool :=
  negb (is_file m) || negb (md_uid m =? uid) || mode_has m 7 || mode_has m 63
  || (MAX_AUTH <? len data).
Definition validate_home (home : string) : prog :=
  let auth := join home "auth.json" in
  tried (secure_dir home)
    (Look (λ d,
      stat_ok auth (λ m,
        match m, d !! auth with
        | Some m, Some f =>
            if auth_unsafe m (f_data f) then Stop false
            else read auth (λ data, Stop (is_ok (validate_auth_json json_from_slice data)))
        | _, _ => Stop true
        end))).

(** The entries of a directory, by name. *)
Definition child_of (dir p : string) : option string :=
  strip_prefix (join dir EmptyString) p ≫= λ name,
  if contains_char "/" name || is_empty name then None else Some name.
Definition read_dir (dir : string) (d : Disk) : list string :=
  omap (child_of dir) (map_to_list (live d)).*1.
(** The loop over the entries. *)
Fixpoint cleanup_entries (home : string) (names : list string) : prog :=
  match names with
  | [] => Stop true
  | name :: names =>
      if starts_with STAGING name then
        stat (join home name) (λ m,
          if is_none_or m (λ m, negb (is_dir m) || is_symlink m || negb (md_uid m =? uid))
          then Stop false
          else call (RemoveTree (join home name)) (cleanup_entries home names))
      else cleanup_entries home names
  end.
Definition cleanup_staging (home : string) : prog :=
  call (Access home) (Look (λ d, cleanup_entries home (read_dir home d))).

(** What [main] does before it serves. *)
Definition prepare_home (home : string) (taken : bool) : prog :=
  tried (lock_home home taken) (tried (cleanup_staging home) (validate_home home)).

(** ** Installation *)
(** [stamp] is the process and the time that make the name unique. *)
Definition temporary (name stamp : string) : string := "." +:+ name +:+ ".tmp-" +:+ stamp.
Definition atomic_write (parent name data stamp : string) : prog :=
  let tmp := join parent (temporary name stamp) in
  let removed := Do (Remove tmp) (λ _, Stop false) in
  call (CreateNew tmp (mkMetadata Regular uid 384))
    (Do (Write tmp data) (λ b,
      if b then
        Do (Sync tmp) (λ b,
          if b then Do (Rename tmp (join parent name)) (λ b, if b then Stop true else removed)
          else removed)
      else removed)).
Definition sync_parent (home : string) (injected_failure : bool) : prog :=
  Do (SyncDir home) (λ b, Stop (negb (injected_failure || negb b))).

Definition existing_unsafe (m : Metadata) : bool :=
  negb (is_file m) || is_symlink m || negb (md_uid m =? uid) || mode_has m 63.
Definition staged_unsafe (m : Metadata) : bool :=
  negb (is_file m) || is_symlink m || negb (md_uid m =? uid).
(** What follows once the existing file is read. *)
Definition replace_auth (home staged : string) (failure : option InstallFailure) (stamp : string)
    (old : option string) : prog :=
  let auth := join home "auth.json" in
  let fails f := bool_decide (failure = Some f) in
  read staged (λ new,
    if negb (is_ok (validate_auth_json json_from_slice new)) then Stop false
    else stat staged (λ m,
      if is_none_or m staged_unsafe then Stop false
      else call (SetMode staged 384)
        (tried
          (match old with
           | Some old =>
               tried (atomic_write home "auth.json.backup" old stamp)
                 (sync_parent home (fails AfterBackupSync))
           | None => Stop true
           end)
          (call (Rename staged auth)
            (if fails AfterActiveReplacement then Stop false
             else sync_parent home (fails AfterActiveSync)))))).
Definition install_auth (home staged : string) (failure : option InstallFailure) (stamp : string)
    : prog :=
  let auth := join home "auth.json" in
  stat auth (λ m,
    match m with
    | Some m =>
        if existing_unsafe m then Stop false
        else read auth (λ old, replace_auth home staged failure stamp (Some old))
    | None => replace_auth home staged failure stamp None
    end).

(** ** Login

    [device]: what the device login leaves at [auth.json] of its directory,
    and whether it succeeds. [n] is the time in the directory's name. *)
Definition staged_install (home staging stamp : string) : prog :=
  let src := join staging "auth.json" in
  let cleaned (ok : bool) : prog := Do (RemoveTree staging) (λ _, Stop ok) in
  and_then
    (read src (λ data,
      if is_ok (validate_auth_json json_from_slice data)
      then call (Access src) (call (Sync src) (Stop true)) else Stop false))
    (λ b, if b then and_then (install_auth home src None stamp) cleaned else cleaned false).
Definition device_login (staging : string) (device : option File * bool) (k : bool → prog) : prog :=
  match device.1 with
  | Some f => Do (Put (join staging "auth.json") f) (λ b, k (b && device.2))
  | None => k device.2
  end.
Definition login (home : string) (taken : bool) (n stamp : string) (device : option File * bool)
    : prog :=
  let staging := join home (STAGING +:+ n) in
  tried (create_dir_all home) (tried (secure_dir home) (tried (prepare_home home taken)
    (call (CreateDir staging (mkMetadata Dir uid umode)) (call (SetMode staging 448)
      (device_login staging device (λ b,
        if b then staged_install home staging stamp
        else Do (RemoveTree staging) (λ _, Stop false))))))).
End home.
