(* ===== verification/AgentHomeSafety.v ===== *)
(** * The credential agent's home: what a stop or a crash leaves

    The theorems about [login] and about what the agent does before it
    serves, wherever they stop. *)
From S2P Require Import Prelude Json Files AgentHome.
Local Open Scope Z_scope.

(** ** Names *)
Lemma strip_prefix_join s p q : strip_prefix (s +:+ p) (s +:+ q) = strip_prefix p q.
Proof.
  induction s as [|c s IH]; [done|]. cbn [String.append strip_prefix].
  by rewrite (proj2 (ascii_is_true _ _) eq_refl).
Qed.
Lemma join_eq dir a b : join dir a = join dir b ↔ a = b.
Proof. unfold join. split; [|by intros ->]. intros H%(inj (String.append dir)). by injection H. Qed.
Lemma join_join home a b : join (join home a) b = join home (a +:+ "/" +:+ b).
Proof. unfold join. by rewrite <-!append_assoc. Qed.
Lemma under_join home a b : under (join home a) (join home b) = under a b.
Proof.
  unfold under, starts_with. rewrite (bool_decide_ext _ _ (join_eq home b a)). f_equal.
  unfold join. by rewrite <-!append_assoc, !strip_prefix_join.
Qed.
(** A name that starts with a dot, for one that does not. *)
Definition hidden (name : string) : bool := starts_with "." name.
Lemma hidden_ne a b : hidden a = true → hidden b = false → b ≠ a.
Proof. by intros H1 H2 ->; rewrite H1 in H2. Qed.
Lemma under_hidden a b : hidden a = true → hidden b = false → under a b = false.
Proof.
  intros Ha Hb. unfold under. rewrite bool_decide_eq_false_2 by (by eapply hidden_ne). cbn [orb].
  apply not_true_iff_false. intros [r ->]%starts_with_true. unfold hidden in *.
  apply starts_with_true in Ha as [t ->]. rewrite <-!append_assoc in Hb.
  unfold starts_with in Hb. by rewrite strip_prefix_app in Hb.
Qed.
Lemma staging_hidden name : starts_with STAGING name = true → hidden name = true.
Proof. intros [r ->]%starts_with_true. reflexivity. Qed.
Lemma join_ne_dir home name : join home name ≠ home.
Proof.
  intros E. apply (f_equal String.length) in E. unfold join in E.
  rewrite !length_append in E. cbn in E. lia.
Qed.

Lemma under_trans a b c : under a b = true → under b c = true → under a c = true.
Proof.
  unfold under. rewrite !orb_true_iff, !bool_decide_eq_true, !starts_with_true.
  intros [-> | [r ->]]; [done|]. intros [-> | [s ->]]; right; [by exists r|].
  exists (r +:+ "/" +:+ s). by rewrite <-!append_assoc.
Qed.
Lemma in_dir_join dir name : in_dir dir (join dir name) = negb (contains_char "/" name).
Proof. unfold in_dir, join. by rewrite append_assoc, strip_prefix_app. Qed.
Lemma under_string c a b : under (String c a) (String c b) = under a b.
Proof.
  change (under (String c EmptyString +:+ a) (String c EmptyString +:+ b) = under a b).
  unfold under, starts_with. rewrite <-append_assoc. cbn [String.append strip_prefix].
  rewrite (proj2 (ascii_is_true _ _) eq_refl). f_equal. apply bool_decide_ext. naive_solver.
Qed.
(** What is above an entry of a directory is that directory, or above it. *)
Lemma under_parent dir home name :
  contains_char "/" name = false → above dir (join home name) → under dir home = true.
Proof.
  intros Hn [Hu Hne]. unfold under in Hu. rewrite orb_true_iff, bool_decide_eq_true in Hu.
  destruct Hu as [E|[r Hr]%starts_with_true]; [by destruct Hne|]. clear Hne. unfold join in Hr.
  revert home Hr. induction dir as [|c dir IH]; intros [|c' home]; cbn [String.append].
  - done.
  - intros [= -> _]. reflexivity.
  - intros [= <- ->]. exfalso. apply not_true_iff_false in Hn. apply Hn.
    rewrite <-append_assoc. apply (contains_char_app "/" dir r).
  - intros [= -> H]. rewrite under_string. by apply IH.
Qed.
Lemma above_sibling dir home a b :
  contains_char "/" a = false → above dir (join home a) → above dir (join home b).
Proof.
  intros Ha H. pose proof (under_parent dir home a Ha H) as Hu.
  assert (under home (join home b) = true) as Hb.
  { unfold under, starts_with, join. rewrite append_assoc, strip_prefix_app. apply orb_true_r. }
  split; [by eapply under_trans|]. intros ->. unfold under in Hu.
  rewrite orb_true_iff, bool_decide_eq_true in Hu. destruct Hu as [E|[r E]%starts_with_true].
  - by apply (join_ne_dir home b).
  - apply (f_equal String.length) in E. unfold join in E. rewrite !length_append in E. cbn in E. lia.
Qed.
(** What is above a path is no path that is not. *)
Lemma above_ne dir p q : above dir p → under q p = false → under q dir = false ∧ dir ≠ q.
Proof.
  intros [Hu _] Hq. split.
  - apply not_true_iff_false. intros E. by rewrite (under_trans q dir p E Hu) in Hq.
  - intros ->. by rewrite Hq in Hu.
Qed.

Section home.
Context (json_from_slice : string → option Value) (uid umode : Z).
Local Abbreviation validate := (validate_auth_json json_from_slice).
Local Abbreviation prepare_home := (prepare_home json_from_slice uid umode).
Local Abbreviation replace_auth := (replace_auth json_from_slice uid).
Local Abbreviation install_auth := (install_auth json_from_slice uid).
Local Abbreviation login := (login json_from_slice uid umode).
Local Abbreviation atomic_write := (atomic_write uid).

(** ** Before the agent serves

    What may change: the directory made, the lock file made, and what is in
    staging directories. *)
Definition not_staged (home q : string) : Prop :=
  ∀ name, starts_with STAGING name = true → under (join home name) q = false.
Definition kept (home q : string) : Prop :=
  q ≠ home ∧ q ≠ join home ".broker.lock" ∧ not_staged home q.
Lemma kept_visible home name : hidden name = false → kept home (join home name).
Proof.
  intros Hn. split; [apply join_ne_dir|]. split.
  - rewrite join_eq. by apply hidden_ne.
  - intros n Hs. rewrite under_join. apply under_hidden; [by apply staging_hidden|done].
Qed.
Lemma cleanup_avoids home names q : not_staged home q → avoids q (cleanup_entries uid home names).
Proof.
  intros Hk. induction names as [|name names IH]; cbn [cleanup_entries]; [done|].
  destruct (starts_with STAGING name) eqn:Hs; [|done]. apply avoids_stat. intros m.
  destruct (is_none_or _ _); [done|]. apply avoids_call; [by apply Hk|done].
Qed.
Lemma create_dir_all_avoids home q : q ≠ home → avoids q (create_dir_all uid umode home).
Proof.
  intros Hq d. destruct (d !! home); apply avoids_call; try done. cbn.
  by apply bool_decide_eq_false.
Qed.
Lemma secure_dir_avoids home q : avoids q (secure_dir uid home).
Proof. by apply avoids_stat. Qed.
Lemma lock_home_avoids home taken q : kept home q → avoids q (lock_home uid umode home taken).
Proof.
  intros (Hh & Hl & _). apply avoids_tried; [by apply create_dir_all_avoids|].
  apply avoids_tried; [apply secure_dir_avoids|]. apply avoids_stat_ok. intros m.
  destruct (is_some_and _ _); [done|]. intros d. destruct (d !! _) as [f|].
  - destruct (is_symlink _); [done|]. by apply avoids_call.
  - apply avoids_call; [|done]. cbn. by apply bool_decide_eq_false.
Qed.
Lemma validate_home_avoids home q : avoids q (validate_home json_from_slice uid home).
Proof.
  apply avoids_tried; [apply secure_dir_avoids|]. intros d. apply avoids_stat_ok. intros [m|]; [|done].
  destruct (d !! _) as [f|]; [|done]. destruct (auth_unsafe _ _ _); [done|]. by apply avoids_read.
Qed.
Lemma unlocked_avoids home q :
  not_staged home q →
  avoids q (tried (cleanup_staging uid home) (validate_home json_from_slice uid home)).
Proof.
  intros Hk. apply avoids_tried; [|apply validate_home_avoids]. apply avoids_call; [done|]. intros d.
  by apply cleanup_avoids.
Qed.
Lemma prepare_home_avoids home taken q : kept home q → avoids q (prepare_home home taken).
Proof.
  intros Hk. apply avoids_tried; [by apply lock_home_avoids|]. by apply unlocked_avoids, Hk.
Qed.

(** ** Installation *)
Lemma atomic_write_runs parent name data stamp d :
  let tmp := join parent (temporary name stamp) in
  let target := join parent name in
  tmp ≠ target →
  runs (agree_but [tmp; target] d) (atomic_write parent name data stamp)
    (λ b d', agree_but [tmp; target] d d' ∧ (b = true → holds d' target data)) d.
Proof.
  intros tmp target Hne. unfold AgentHome.atomic_write. fold tmp target. cbv zeta.
  clearbody tmp target.
  assert (∀ p q, q ∉ [tmp; target] → p ∈ [tmp; target] → bool_decide (q = p) = false) as Hno.
  { intros p q Hq Hp. apply bool_decide_eq_false. by intros ->. }
  assert (tmp ∈ [tmp; target] ∧ target ∈ [tmp; target]) as [Ht1 Ht2] by set_solver.
  assert (∀ d1, agree_but [tmp; target] d d1 →
    runs (agree_but [tmp; target] d) (Do (Remove tmp) (λ _, Stop false))
      (λ b d', agree_but [tmp; target] d d' ∧ (b = true → holds d' target data)) d1) as Hremoved.
  { intros d1 H1. apply runs_do; [done|]. intros d2 b Ha.
    pose proof (agree_but_attempt _ _ _ _ _ _ H1 Ha ltac:(intros; cbn; auto)). by apply runs_stop. }
  assert (agree_but [tmp; target] d d) as Hd by done.
  apply runs_clean; [done|done|done|]. intros d1 H1.
  pose proof (agree_but_attempt _ _ _ _ _ _ Hd (attempt_ok _ _ _ H1) ltac:(intros; cbn; auto)) as Hd1.
  cbn in H1. destruct (d !! tmp); [done|]. injection H1 as <-.
  apply runs_do; [done|]. intros d2 b2 Ha2.
  pose proof (agree_but_attempt _ _ _ _ _ _ Hd1 Ha2 ltac:(intros; cbn; auto)) as Hd2.
  destruct b2; [|by apply Hremoved]. apply attempt_true in Ha2. cbn [perform] in Ha2.
  rewrite lookup_relink in Ha2. injection Ha2 as <-.
  apply runs_do; [done|]. intros d3 b3 Ha3.
  pose proof (agree_but_attempt _ _ _ _ _ _ Hd2 Ha3 ltac:(intros; cbn; auto)) as Hd3.
  destruct b3; [|by apply Hremoved]. apply attempt_true in Ha3. cbn [perform] in Ha3.
  rewrite lookup_edit in Ha3. injection Ha3 as <-.
  apply runs_do; [done|]. intros d4 b4 Ha4.
  assert (agree_but [tmp; target] d d4).
  { eapply agree_but_attempt; [done|done|]. intros q Hq. cbn. by rewrite !Hno. }
  destruct b4; [|by apply Hremoved]. apply runs_stop; [done|]. split; [done|]. intros _.
  apply attempt_true in Ha4. cbn [perform] in Ha4. rewrite lookup_edit in Ha4. injection Ha4 as <-.
  eexists. by rewrite lookup_relink.
Qed.

(** [auth.json] is as it was, or it is a new one that validates, a crash may
    bring back none but what was there, and that is in the backup, durably. *)
Definition installing (home : string) (d d' : Disk) : Prop :=
  let auth := join home "auth.json" in
  same_at auth d d' ∨
  ∃ new, holds d' auth new ∧ past d' auth ⊆ possible d auth ∧ validate new = Ok tt ∧
    ∀ old, contents d auth = Some old →
      holds d' (join home "auth.json.backup") old ∧ past d' (join home "auth.json.backup") = [].
(** The staged file is there, and its name is durable. *)
Definition installed (home staged : string) (d d' : Disk) : Prop :=
  ∃ f, d !! staged = Some f ∧
    d' !! join home "auth.json" = Some (mkFile (f_data f) true (mkMetadata Regular uid 384)) ∧
    past d' (join home "auth.json") = [].
Definition apart (home stamp staged : string) : Prop :=
  staged ≠ join home "auth.json" ∧ staged ≠ join home "auth.json.backup" ∧
  staged ≠ join home (temporary "auth.json.backup" stamp).

Lemma auth_paths home stamp :
  (join home "auth.json" ∉
     [join home (temporary "auth.json.backup" stamp); join home "auth.json.backup"]) ∧
  join home (temporary "auth.json.backup" stamp) ≠ join home "auth.json.backup".
Proof.
  split; [|by intros H%join_eq]. rewrite not_elem_of_cons, list_elem_of_singleton.
  by split; intros H%join_eq.
Qed.
Lemma sync_parent_runs (I : Disk → Prop) Q home injected d :
  I d → Q false d →
  (∀ d1, live d1 = live d → (∀ q, same_at q d d1) →
     (∀ name, contains_char "/" name = false → past d1 (join home name) = []) →
     I d1 ∧ ∀ b, Q b d1) →
  runs I (sync_parent home injected) Q d.
Proof.
  intros Hi Hf Hq. apply runs_do; [done|]. intros d1 b Ha.
  inversion Ha as [? ? ? H1|? ?| |]; subst.
  - destruct (Hq d1) as [Hi1 Hq1]; [|..|by apply runs_stop].
    + by injection H1 as <-.
    + intros q. by eapply sync_dir_same.
    + intros name Hn. injection H1 as <-. cbn [past]. by rewrite in_dir_join, Hn.
  - cbn [negb]. rewrite orb_true_r. by apply runs_stop.
Qed.
(** The backup, where there is an old file. *)
Lemma backup_runs home stamp injected (old : option string) d :
  let tmp := join home (temporary "auth.json.backup" stamp) in
  let backup := join home "auth.json.backup" in
  runs (agree_but [tmp; backup] d)
    (match old with
     | Some old => tried (atomic_write home "auth.json.backup" old stamp) (sync_parent home injected)
     | None => Stop true
     end)
    (λ b d', agree_but [tmp; backup] d d' ∧
       (b = true → ∀ text, old = Some text → holds d' backup text ∧ past d' backup = [])) d.
Proof.
  intros tmp backup. destruct old as [old|]; [|by apply runs_stop]. apply runs_tried.
  eapply runs_mono; [apply atomic_write_runs, (auth_paths home stamp)|done|].
  intros [] d' [Hd Hb]; [|by split]. apply sync_parent_runs; [done|by split|].
  intros d1 Hl Hsame Hpast. assert (agree_but [tmp; backup] d d1) as H1.
  { intros q Hq. etrans; [by apply Hd|apply Hsame]. }
  split; [done|]. intros b. split; [done|]. intros _ text [= ->]. split; [|by apply Hpast].
  destruct (Hb eq_refl) as [m Hm]. exists m. by rewrite (proj1 (Hsame backup)).
Qed.
Lemma staged_private m :
  staged_unsafe uid m = false →
  mkMetadata (md_type m) (md_uid m) 384 = mkMetadata Regular uid 384.
Proof.
  unfold staged_unsafe, is_file, is_symlink. rewrite !orb_false_iff, !negb_false_iff.
  rewrite bool_decide_eq_true, Z.eqb_eq. by intros [[-> _] ->].
Qed.
(** The replacement, where the backup is durable: [d2] is as [d] at [auth]. *)
Lemma rename_installing home staged d d2 f :
  let auth := join home "auth.json" in
  staged ≠ auth → staged ≠ join home "auth.json.backup" →
  validate (f_data f) = Ok tt → f_synced f = true → same_at auth d d2 →
  (∀ old, contents d auth = Some old →
     holds d2 (join home "auth.json.backup") old ∧ past d2 (join home "auth.json.backup") = []) →
  installing home d (relink auth (Some f) (relink staged None (edit staged (moved f) d2))).
Proof.
  intros auth Ha Hb Hval Hsync [E Hpast] Hold. right. exists (f_data f).
  split; [by apply holds_synced; [apply lookup_relink|]|]. split; [|split; [done|]].
  - rewrite past_relink, lookup_relink_ne, lookup_edit_ne, past_relink_ne by by apply not_eq_sym.
    unfold possible. fold auth. cbn [edit past]. rewrite E. set_solver.
  - intros old Ho. destruct (Hold old Ho) as [[m Hm] Hp]. set (backup := join home "auth.json.backup") in *.
    assert (backup ≠ auth ∧ backup ≠ staged) as [H1 H2] by (split; [by intros [=]%join_eq|by apply not_eq_sym]).
    unfold holds. rewrite !lookup_relink_ne, lookup_edit_ne, !past_relink_ne by done.
    split; [by exists m|done].
Qed.
(** From where the staged file is private: the backup and the replacement. *)
Lemma swap_runs home staged failure stamp d d1 f :
  let auth := join home "auth.json" in
  apart home stamp staged → d !! staged = Some f → f_synced f = true →
  validate (f_data f) = Ok tt → same_at auth d d1 →
  d1 !! staged = Some (mkFile (f_data f) true (mkMetadata Regular uid 384)) →
  runs (installing home d)
    (tried
      (match contents d auth with
       | Some old =>
           tried (atomic_write home "auth.json.backup" old stamp)
             (sync_parent home (bool_decide (failure = Some AfterBackupSync)))
       | None => Stop true
       end)
      (call (Rename staged auth)
        (if bool_decide (failure = Some AfterActiveReplacement) then Stop false
         else sync_parent home (bool_decide (failure = Some AfterActiveSync)))))
    (λ b d', installing home d d' ∧ (b = true → installed home staged d d')) d1.
Proof.
  intros auth (Ha & Hb & Ht) Hf Hsync Hval H1 Hs. destruct (auth_paths home stamp) as [Hauth _].
  apply runs_tried. eapply runs_mono; [apply (backup_runs home stamp)| |].
  - intros d2 Hd2. left. etrans; [exact H1|by apply Hd2].
  - intros b d2 [Hd2 Hold].
    assert (same_at auth d d2) as H2 by (etrans; [exact H1|by apply Hd2]).
    destruct b; [|by split; [left|]]. specialize (Hold eq_refl).
    apply runs_clean; [done|by left|by split; [left|]|]. intros d3 H3. cbn [perform] in H3.
    rewrite (proj1 (Hd2 staged ltac:(rewrite not_elem_of_cons, list_elem_of_singleton; by split))), Hs
      in H3. injection H3 as <-.
    set (f' := mkFile _ _ _) in *. set (d3 := relink _ _ _).
    assert (installing home d d3) as Hi by by apply rename_installing.
    case_bool_decide; [by apply runs_stop|]. apply sync_parent_runs; [done|done|].
    intros d4 Hl Hsame Hpast. pose proof (Hpast "auth.json"%string eq_refl) as Hp.
    assert (d4 !! auth = Some f') as Hd4 by by rewrite (proj1 (Hsame auth)); apply lookup_relink.
    assert (installing home d d4) as Hi4.
    { destruct Hi as [[E Es]|(new & [m Hm] & _ & Hn & Hbk)].
      - left. split; [etrans; [apply Hsame|exact E]|]. rewrite Hp. apply list_subseteq_nil.
      - right. exists new. split; [exists m; etrans; [apply Hsame|exact Hm]|].
        split; [rewrite Hp; apply list_subseteq_nil|]. split; [done|].
        intros old Ho. destruct (Hbk old Ho) as [[m' Hm'] _].
        split; [exists m'; etrans; [apply Hsame|exact Hm']|by apply Hpast]. }
    split; [done|]. intros b. split; [done|]. intros _. by exists f.
Qed.
Lemma replace_runs home staged failure stamp d :
  apart home stamp staged → synced d staged →
  runs (installing home d)
    (replace_auth home staged failure stamp (contents d (join home "auth.json")))
    (λ b d', installing home d d' ∧ (b = true → installed home staged d d')) d.
Proof.
  intros Hap Hsync. assert (installing home d d) as Hd by by left.
  unfold AgentHome.replace_auth. apply runs_read; [done|done|]. intros f Hf.
  destruct (validate (f_data f)) as [[]|e] eqn:Hval; cbn [is_ok negb]; [|by apply runs_stop].
  apply runs_stat; [done|]. rewrite Hf. cbn [fmap option_fmap option_map is_none_or].
  destruct (staged_unsafe uid (f_meta f)) eqn:Hm; [by apply runs_stop|].
  apply runs_clean; [done|done|done|]. intros d1 H1. cbn [perform] in H1. rewrite Hf in H1.
  injection H1 as <-. pose proof (Hsync f Hf) as Hfs. pose proof Hap as (Ha & _).
  eapply swap_runs; try done.
  - by apply edit_same, not_eq_sym.
  - by rewrite lookup_edit, staged_private, Hfs.
Qed.
Lemma install_runs home staged failure stamp d :
  apart home stamp staged → synced d staged →
  runs (installing home d) (install_auth home staged failure stamp)
    (λ b d', installing home d d' ∧ (b = true → installed home staged d d')) d.
Proof.
  intros Hap Hsync. assert (installing home d d) as Hd by by left.
  pose proof (replace_runs home staged failure stamp d Hap Hsync) as Hrep.
  unfold AgentHome.install_auth. apply runs_stat; [done|]. unfold contents in Hrep.
  destruct (d !! join home "auth.json") as [f|] eqn:Hf; cbn [fmap option_fmap option_map] in *;
    [|done].
  destruct (existing_unsafe _ _); [by apply runs_stop|]. apply runs_read; [done|done|].
  rewrite Hf. by intros f' [= ->].
Qed.

(** ** Login *)
Lemma possible_same p d d1 : same_at p d d1 → possible d1 p ⊆ possible d p.
Proof. intros [E H]. unfold possible. rewrite E. set_solver. Qed.
Lemma installing_from home d1 d d' :
  same_at (join home "auth.json") d d1 → installing home d1 d' → installing home d d'.
Proof.
  intros H1 [H2|(new & Hn & Hp & Hv & Hold)]; [left; by etrans|right]. exists new.
  split; [done|]. split; [etrans; [exact Hp|by apply possible_same]|]. split; [done|].
  intros old. unfold contents. rewrite <-(proj1 H1). apply Hold.
Qed.
Lemma installing_then home d d' d'' :
  same_at (join home "auth.json") d' d'' → same_at (join home "auth.json.backup") d' d'' →
  installing home d d' → installing home d d''.
Proof.
  intros [E1 P1] [E2 P2] [H|(new & [m Hm] & Hp & Hv & Hold)]; [left; by etrans|right].
  exists new. split; [exists m; by rewrite E1|]. split; [by etrans|]. split; [done|].
  intros old Ho. destruct (Hold old Ho) as [[m' Hm'] Hb]. rewrite Hb in P2.
  split; [exists m'; by rewrite E2|by apply list_nil_subseteq].
Qed.

Section staging.
Context (home n stamp : string).
Local Abbreviation staging := (join home (STAGING +:+ n)).
Local Abbreviation src := (join staging "auth.json").
Local Abbreviation auth := (join home "auth.json").
Local Abbreviation backup := (join home "auth.json.backup").

Lemma src_apart : apart home stamp src.
Proof. unfold apart. rewrite join_join, !join_eq. split_and!; by intros [=]. Qed.
Lemma staging_under name : hidden name = false → under staging (join home name) = false.
Proof. intros Hn. rewrite under_join. by apply under_hidden. Qed.

(** Removing the staging directory changes neither file. *)
Lemma cleaned_runs (P : Disk → Prop) (Q : bool → Disk → Prop) ok d :
  (∀ d', same_at auth d d' → same_at backup d d' → P d' ∧ Q ok d') →
  runs P (Do (RemoveTree staging) (λ _, Stop ok)) Q d.
Proof.
  intros Hp. apply runs_do; [by apply Hp|]. intros d1 b Ha.
  pose proof (attempt_frame _ _ _ _ auth Ha (staging_under "auth.json" eq_refl)).
  pose proof (attempt_frame _ _ _ _ backup Ha (staging_under "auth.json.backup" eq_refl)).
  by apply runs_stop; apply Hp.
Qed.
Lemma staged_install_runs d :
  runs (installing home d) (staged_install json_from_slice uid home staging stamp)
    (λ b d', installing home d d' ∧ (b = true → installed home src d d')) d.
Proof.
  assert (installing home d d) as Hd by by left.
  assert (src ≠ auth ∧ src ≠ backup) as [Hsa Hsb] by by (destruct src_apart as (? & ? & _)).
  assert (∀ d1, same_at auth d d1 → same_at backup d d1 →
    runs (installing home d) (Do (RemoveTree staging) (λ _, Stop false))
      (λ b d', installing home d d' ∧ (b = true → installed home src d d')) d1) as Hfailed.
  { intros d1 H1 H2. apply cleaned_runs. intros d' H1' H2'.
    assert (installing home d d') by (by left; etrans). by split. }
  apply runs_and_then, runs_read; [done|by apply Hfailed|].
  intros f Hf. destruct (is_ok _); [|by apply runs_stop; [done|apply Hfailed]].
  apply runs_access; [by apply Hfailed|]. apply runs_clean; [done|done|by apply Hfailed|].
  intros d1 H1. cbn [perform] in H1. rewrite Hf in H1. injection H1 as <-.
  set (d1 := edit _ _ d). assert (same_at auth d d1) as Ha by by apply edit_same, not_eq_sym.
  apply runs_stop; [by left|]. apply runs_and_then.
  eapply runs_mono; [apply (install_runs home src None stamp d1)|..].
  - apply src_apart.
  - intros f' Hf'. unfold d1 in Hf'. rewrite lookup_edit in Hf'. by injection Hf' as <-.
  - intros d'. by apply installing_from.
  - intros b d' [Hi Hinst]. apply cleaned_runs. intros d'' E1 E2.
    assert (installing home d d'') as Hi'.
    { eapply (installing_then home d d'); [done|done|by eapply installing_from]. }
    split; [done|]. split; [done|]. intros Hb. destruct (Hinst Hb) as (f' & Hf' & Hauth & Hp).
    unfold d1 in Hf'. rewrite lookup_edit in Hf'. injection Hf' as <-.
    exists f. split; [done|]. destruct E1 as [E1 P1]. rewrite Hp in P1.
    split; [by rewrite E1|by apply list_nil_subseteq].
Qed.
End staging.

(** What a login that succeeds leaves: what the device login left, in a file
    of the user's own, under a name its directory was synced with. *)
Definition logged_in (home : string) (device : option File * bool) (d' : Disk) : Prop :=
  device.2 = true ∧ ∃ data, (∀ f, device.1 = Some f → f_data f = data) ∧
    d' !! join home "auth.json" = Some (mkFile data true (mkMetadata Regular uid 384)) ∧
    past d' (join home "auth.json") = [].

Section login.
Context (home n stamp : string) (device : option File * bool) (d : Disk).
Local Abbreviation staging := (join home (STAGING +:+ n)).
Local Abbreviation auth := (join home "auth.json").
Local Abbreviation install_steps :=
  (λ b : bool, if b then staged_install json_from_slice uid home staging stamp
               else Do (RemoveTree staging) (λ _, Stop false)).
Local Abbreviation after_login :=
  (λ (b : bool) (d' : Disk), installing home d d' ∧ (b = true → logged_in home device d')).
Lemma login_left b d1 : same_at auth d d1 → b = false → installing home d d1 ∧ after_login b d1.
Proof. intros H1 ->. assert (installing home d d1) by by left. by split. Qed.

Lemma device_done_runs b d1 :
  same_at auth d d1 →
  (b = true → device.2 = true ∧ ∀ f, device.1 = Some f → d1 !! join staging "auth.json" = Some f) →
  runs (installing home d) (install_steps b) after_login d1.
Proof.
  intros H1 Hb. destruct b.
  - destruct (Hb eq_refl) as [Hok Hsrc].
    eapply runs_mono; [apply (staged_install_runs home n stamp d1)|..].
    + intros d'. by apply installing_from.
    + intros b d' [Hi Hinst]. split; [by eapply installing_from|]. intros Ht.
      destruct (Hinst Ht) as (f & Hf & Hauth). split; [done|]. exists (f_data f). split; [|done].
      intros f' Hf'. rewrite (Hsrc f' Hf') in Hf. by injection Hf as ->.
  - apply (cleaned_runs home n). intros d' E _. apply login_left; [|done]. by etrans.
Qed.
Lemma device_login_runs d1 :
  same_at auth d d1 →
  runs (installing home d) (device_login staging device install_steps) after_login d1.
Proof.
  intros H1. unfold device_login. destruct device.1 as [f|] eqn:Hf.
  - apply runs_do; [by left|]. intros d2 b Ha. apply device_done_runs.
    + etrans; [done|]. eapply attempt_frame; [done|]. apply bool_decide_eq_false.
      destruct (src_apart home n stamp) as [Hs _]. by apply not_eq_sym.
    + intros [-> Hok]%andb_true_iff. split; [done|]. rewrite Hf. intros f' [= <-].
      apply attempt_true in Ha. injection Ha as <-. apply lookup_relink.
  - apply device_done_runs; [done|]. rewrite Hf. by split.
Qed.
Lemma login_runs taken : runs (installing home d) (login home taken n stamp device) after_login d.
Proof.
  pose proof (kept_visible home "auth.json" eq_refl) as Hk.
  unfold AgentHome.login. cbv zeta.
  assert (∀ p, under staging p = true → bool_decide (auth = p) = false) as Hne.
  { intros p Hp. apply bool_decide_eq_false. intros <-. by rewrite staging_under in Hp. }
  assert (under staging staging = true) as Hs.
  { unfold under. by rewrite bool_decide_eq_true_2. }
  assert (∀ d1, same_at auth d d1 → installing home d d1 ∧ after_login false d1) as Hleft.
  { intros d1 H1. by apply login_left. }
  apply (runs_tried_avoids _ _ auth _ _ d); [by apply create_dir_all_avoids, Hk|done|done|].
  intros d1 H1. apply (runs_tried_avoids _ _ auth _ _ d); [apply secure_dir_avoids|done|done|].
  intros d2 H2. apply (runs_tried_avoids _ _ auth _ _ d); [by apply prepare_home_avoids|done|done|].
  intros d3 H3. apply (runs_call_avoids _ _ auth _ _ d); [by apply Hne|done|done|].
  intros d4 _ H4. apply (runs_call_avoids _ _ auth _ _ d); [by apply Hne|done|done|].
  intros d5 _ H5. by apply device_login_runs.
Qed.

(** ** The directories above

    None is changed, but the home itself where it was not there. *)
Section above.
Context (dir : string).
Hypothesis dir_above : above dir auth.
Lemma dir_apart q : under q auth = false → bool_decide (dir = q) = false ∧ under q dir = false.
Proof using dir_above.
  intros Hq. destruct (above_ne dir auth q dir_above Hq) as [Hu Hn]. split; [|done].
  by apply bool_decide_eq_false.
Qed.
Lemma dir_ne_auth : bool_decide (dir = auth) = false.
Proof using dir_above. by apply bool_decide_eq_false, dir_above. Qed.
Lemma under_auth name : under name "auth.json" = false → under (join home name) auth = false.
Proof. by rewrite under_join. Qed.
Lemma dir_hidden name :
  hidden name = true → bool_decide (dir = join home name) = false ∧ under (join home name) dir = false.
Proof using dir_above. intros Hn. by apply dir_apart, under_auth, under_hidden. Qed.

Lemma create_dir_all_same d1 :
  same_at dir d d1 → (dir = home → d !! home ≠ None) →
  runs (same_at dir d) (create_dir_all uid umode home) (λ _, same_at dir d) d1.
Proof.
  intros H1 Hhome. apply runs_look. destruct (d1 !! home) as [f|] eqn:E.
  - by apply (runs_same dir); [apply avoids_call|].
  - apply (runs_same dir); [apply avoids_call; [|done]|done]. apply bool_decide_eq_false.
    intros ->. rewrite (proj1 H1) in E. by apply Hhome.
Qed.
Lemma lock_home_same taken d1 :
  same_at dir d d1 → (dir = home → d !! home ≠ None) →
  runs (same_at dir d) (lock_home uid umode home taken) (λ _, same_at dir d) d1.
Proof using dir_above.
  intros H1 Hhome. apply runs_tried. eapply runs_mono; [by apply create_dir_all_same|done|].
  intros [] d2 H2; [|done]. apply runs_same; [|done]. apply avoids_tried; [apply secure_dir_avoids|].
  apply avoids_stat_ok. intros m. destruct (is_some_and _ _); [done|]. intros d3.
  destruct (d3 !! _) as [f|].
  - destruct (is_symlink _); [done|]. by apply avoids_call.
  - apply avoids_call; [|done]. by apply dir_hidden.
Qed.
Lemma sync_parent_avoids q injected : avoids q (sync_parent home injected).
Proof. split; [done|]. by intros b. Qed.
Lemma removed_avoids q p ok : under p q = false → avoids q (Do (RemoveTree p) (λ _, Stop ok)).
Proof. intros Hu. split; [exact Hu|]. by intros b. Qed.
Lemma atomic_write_above name data :
  under name "auth.json" = false → avoids dir (atomic_write home name data stamp).
Proof using dir_above.
  intros Hn. destruct (dir_hidden (temporary name stamp) eq_refl) as [Ht _].
  destruct (dir_apart _ (under_auth _ Hn)) as [Hb _]. unfold AgentHome.atomic_write. cbv zeta.
  set (tmp := join home (temporary name stamp)) in *. set (target := join home name) in *.
  clearbody tmp target. cbn.
  repeat (split; [by rewrite ?Ht, ?Hb|]; intros []; cbn; try done).
Qed.
Lemma replace_auth_above staged failure old :
  bool_decide (dir = staged) = false → avoids dir (replace_auth home staged failure stamp old).
Proof using dir_above.
  intros Hs. apply avoids_read. intros new. destruct (negb _); [done|]. apply avoids_stat. intros m.
  destruct (is_none_or _ _); [done|]. apply avoids_call; [done|]. apply avoids_tried.
  - destruct old as [old|]; [|done]. apply avoids_tried; [by apply atomic_write_above|].
    apply sync_parent_avoids.
  - apply avoids_call; [cbn; by rewrite Hs, dir_ne_auth|].
    destruct (bool_decide (failure = Some AfterActiveReplacement)); [done|].
    apply sync_parent_avoids.
Qed.
Lemma staged_install_above : avoids dir (staged_install json_from_slice uid home staging stamp).
Proof using dir_above.
  destruct (dir_hidden (STAGING +:+ n) eq_refl) as [_ Hu].
  assert (bool_decide (dir = join staging "auth.json") = false) as Hs.
  { rewrite join_join. by apply dir_hidden. }
  apply avoids_and_then.
  - apply avoids_read. intros data. destruct (is_ok _); [|done]. apply avoids_call; [done|].
    by apply avoids_call.
  - intros []; [|by apply removed_avoids].
    apply avoids_and_then; [|intros b; by apply removed_avoids]. apply avoids_stat. intros [m|].
    + destruct (existing_unsafe _ _); [done|]. apply avoids_read. intros old.
      by apply replace_auth_above.
    + by apply replace_auth_above.
Qed.
Lemma device_login_above : avoids dir (device_login staging device install_steps).
Proof using dir_above.
  assert (∀ b, avoids dir (install_steps b)) as Hi.
  { intros []; [apply staged_install_above|]. apply removed_avoids.
    by destruct (dir_hidden (STAGING +:+ n) eq_refl). }
  unfold device_login. destruct device.1 as [f|]; [|apply Hi]. split; [|intros b; apply Hi].
  cbn. rewrite join_join. by apply dir_hidden.
Qed.
Lemma login_above taken :
  (dir = home → d !! home ≠ None) →
  runs (same_at dir d) (login home taken n stamp device) (λ _, same_at dir d) d.
Proof using dir_above.
  intros Hhome. unfold AgentHome.login. cbv zeta. apply runs_tried.
  eapply runs_mono; [by apply create_dir_all_same|done|]. intros [] d1 H1; [|done].
  apply (runs_tried_avoids _ _ dir _ _ d); [apply secure_dir_avoids|done|done|]. intros d2 H2.
  apply runs_tried. apply runs_tried. eapply runs_mono; [by apply lock_home_same|done|].
  intros [] d3 H3; [|done]. eapply runs_mono; [apply (runs_same dir _ d); [|done]|done|].
  { apply avoids_tried; [|apply validate_home_avoids]. apply avoids_call; [done|]. intros d0.
    apply cleanup_avoids. intros name Hn. by apply dir_hidden, staging_hidden. }
  intros [] d4 H4; [|done]. destruct (dir_hidden (STAGING +:+ n) eq_refl) as [Hs _].
  apply (runs_same dir); [|done]. apply avoids_call; [done|]. apply avoids_call; [done|].
  apply device_login_above.
Qed.
End above.
Lemma login_placed taken d' :
  durable d auth → d !! home ≠ None → visits (login home taken n stamp device) d d' →
  placed d' auth.
Proof.
  intros (_ & _ & Hp) Hhome Hv dir Ha. destruct (login_above dir Ha taken (λ _, Hhome)) as [Hi _].
  destruct (Hi d' Hv) as [_ Hpast]. rewrite (Hp dir Ha) in Hpast. by apply list_nil_subseteq.
Qed.
End login.

(** A crash while a new one is installed. *)
Lemma installing_crash home d d' d'' o :
  let auth := join home "auth.json" in
  let backup := join home "auth.json.backup" in
  durable d auth → (contents d auth ≠ None → placed d' auth) → installing home d d' →
  crash d' d'' → o ∈ possible d' auth → survives o (contents d'' auth) →
  contents d'' auth = contents d auth ∨
  ∃ new, contents d'' auth = Some new ∧ validate new = Ok tt ∧
    ∀ old, contents d auth = Some old → contents d'' backup = Some old.
Proof.
  intros auth backup (Hsync & Hnames & _) Hplaced Hi Hc Ho Hsur.
  assert (∀ o c, o ∈ possible d auth → survives o c → c = contents d auth) as Hold.
  { intros o' c Ho'. unfold possible in Ho'. rewrite Hnames, list_elem_of_singleton in Ho'. subst o'.
    by apply survives_contents. }
  destruct Hi as [Hsame|(new & [m Hm] & Hp & Hval & Hb)].
  { left. eapply Hold; [|exact Hsur]. by apply (possible_same auth d d'). }
  unfold possible in Ho. rewrite elem_of_cons in Ho. destruct Ho as [->|Ho].
  2: { left. eapply Hold; [by apply Hp|exact Hsur]. }
  right. exists new. fold auth in Hm. split.
  { rewrite (survives_contents d' auth _ ltac:(intros f; rewrite Hm; by intros [= <-]) Hsur).
    unfold contents. by rewrite Hm. }
  split; [done|]. intros old Ho. destruct (Hb old Ho) as [[mb Hmb] Hpb].
  rewrite (crash_contents d' d''); [unfold contents, backup; by rewrite Hmb|done|].
  split; [intros f; unfold backup; rewrite Hmb; by intros [= <-]|]. split; [done|].
  intros dir Ha. apply Hplaced; [by rewrite Ho|].
  by apply (above_sibling dir home "auth.json.backup").
Qed.

(** C9: where no crash before the login could lose or change [auth.json] as it
    is, then wherever the login stops or fails, and through a crash then, what
    a reader finds there is what was there, or a new one that has the tokens
    it needs; and then what was there is in the backup. A login that
    succeeds leaves what the device login did, in a file only the agent's
    user can read, and no crash after loses it; but a home that was not there,
    which the login makes and does not sync the directory of, may be lost
    with what is in it. *)
Theorem login_safe home taken n stamp device d d' :
  let auth := join home "auth.json" in
  let backup := join home "auth.json.backup" in
  durable d auth → (d !! home = None → d !! auth = None) →
  visits (login home taken n stamp device) d d' →
  (∀ d'', crash d' d'' →
     contents d'' auth = contents d auth ∨
     ∃ new, contents d'' auth = Some new ∧ validate new = Ok tt ∧
       ∀ old, contents d auth = Some old → contents d'' backup = Some old) ∧
  (returns (login home taken n stamp device) d d' true →
   device.2 = true ∧ ∃ data, (∀ f, device.1 = Some f → f_data f = data) ∧
     d' !! auth = Some (mkFile data true (mkMetadata Regular uid 384)) ∧
     ∀ d'', crash d' d'' →
       contents d'' auth = Some data ∨ (d !! home = None ∧ contents d'' auth = None)).
Proof.
  intros auth backup Hd Hhome Hv. destruct (login_runs home n stamp device d taken) as [Hi Hr].
  pose proof (login_placed home n stamp device d taken d' Hd) as Hplaced. split.
  - intros d'' Hc. destruct (Hc auth) as [(o & Ho & Hsur)|(Hnone & dir & Ha & Hne)].
    + eapply installing_crash; eauto. intros Hold. apply Hplaced; [|done]. intros E. apply Hold.
      change (f_data <$> d !! auth = None). by rewrite Hhome.
    + left. rewrite Hnone. change (None = f_data <$> d !! auth). destruct (d !! home) as [f|] eqn:E; [|by rewrite Hhome].
      destruct Hne. by apply Hplaced.
  - intros Ht. destruct (Hr d' true Ht) as [_ [Hok (data & Hdata & Hauth & Hpast)]]; [done|].
    split; [done|]. exists data. split; [done|]. split; [done|]. intros d'' Hc.
    destruct (Hc auth) as [(o & Ho & Hsur)|(Hnone & dir & Ha & Hne)].
    + left. unfold possible in Ho. fold auth in Hpast. rewrite Hpast, list_elem_of_singleton in Ho.
      subst o. fold auth in Hauth. rewrite Hauth in Hsur. destruct Hsur as (s & -> & Hs). by rewrite Hs.
    + right. split; [|done]. destruct (d !! home) as [f|] eqn:E; [|done].
      destruct Hne. by apply Hplaced.
Qed.

(** ** The lock *)
Definition private_file (m : Metadata) : Prop :=
  md_type m = Regular ∧ md_uid m = uid ∧ mode_has m 63 = false.
Definition locked (home : string) (d : Disk) : Prop :=
  (∃ f, d !! home = Some f ∧ secure_dir_ok uid (f_meta f) = true) ∧
  (∃ f, d !! join home ".broker.lock" = Some f ∧ private_file (f_meta f)).
Lemma secure_dir_runs home d :
  runs (λ _, True) (secure_dir uid home)
    (λ b d', d' = d ∧ (b = true → ∃ f, d !! home = Some f ∧ secure_dir_ok uid (f_meta f) = true)) d.
Proof.
  apply runs_stat; [done|]. apply runs_stop; [done|]. split; [done|].
  destruct (d !! home) as [f|]; [|done]. cbn. by exists f.
Qed.
Lemma lock_opened_runs home taken f d (Q : bool → Disk → Prop) :
  (∃ f, d !! home = Some f ∧ secure_dir_ok uid (f_meta f) = true) →
  d !! join home ".broker.lock" = Some f →
  (∀ b, (b = true → taken = false ∧ locked home d) → Q b d) →
  runs (λ _, True)
    (Stop (negb (negb (is_file (f_meta f)) || negb (md_uid (f_meta f) =? uid) || mode_has (f_meta f) 63)
           && negb taken)) Q d.
Proof.
  intros Hhome Hlock Hq. apply runs_stop; [done|]. apply Hq.
  rewrite andb_true_iff, !negb_true_iff, !orb_false_iff, !negb_false_iff, Z.eqb_eq.
  unfold is_file. rewrite bool_decide_eq_true. intros [[[Ht Hu] Hm] ->]. split; [done|].
  split; [done|]. by exists f.
Qed.
Lemma lock_home_runs home taken d :
  runs (λ _, True) (lock_home uid umode home taken)
    (λ b d', b = true → taken = false ∧ locked home d') d.
Proof.
  apply runs_tried. eapply (runs_mono (λ _, True) _ (λ _ _, True)); [by split|done|].
  intros [] d1 _; [|done]. apply runs_tried.
  eapply runs_mono; [apply secure_dir_runs|done|]. intros [] d2 [-> Hs]; [|done].
  specialize (Hs eq_refl). apply runs_look.
  assert (∀ m, runs (λ _, True)
    (if is_some_and m (λ m, negb (is_file m) || is_symlink m || negb (md_uid m =? uid))
     then Stop false
     else Look (λ d,
       let opened (m : Metadata) : prog :=
         Stop (negb (negb (is_file m) || negb (md_uid m =? uid) || mode_has m 63) && negb taken) in
       match d !! join home ".broker.lock" with
       | Some f => if is_symlink (f_meta f) then Stop false
                   else call (Access (join home ".broker.lock")) (opened (f_meta f))
       | None => let m := mkMetadata Regular uid 384 in
                 call (CreateNew (join home ".broker.lock") m) (opened m)
       end))
    (λ b d', b = true → taken = false ∧ locked home d') d1) as Hopen.
  { intros m. destruct (is_some_and m _); [by apply runs_stop|]. apply runs_look. cbv zeta.
    destruct (d1 !! join home ".broker.lock") as [f|] eqn:Hf.
    - destruct (is_symlink _); [by apply runs_stop|]. apply runs_access; [done|].
      by apply (lock_opened_runs home taken f).
    - apply runs_clean; [done|done|done|]. intros d2 H2. cbn [perform] in H2. rewrite Hf in H2.
      injection H2 as <-. apply (lock_opened_runs home taken
        (mkFile EmptyString false (mkMetadata Regular uid 384))); [|apply lookup_relink|done].
      destruct Hs as (f & Hh & Hok). exists f. split; [|done].
      rewrite lookup_relink_ne; [done|apply not_eq_sym, join_ne_dir]. }
  destruct (d1 !! join home ".broker.lock"); [|by apply (Hopen None)].
  apply runs_do; [done|]. intros d2 b Ha.
  assert (d2 = d1) as -> by (inversion Ha as [? ? ? H1| | |]; subst; [|done];
    cbn in H1; apply fmap_Some in H1 as (? & _ & ->); done).
  apply Hopen.
Qed.
Lemma under_join_dir home name : under (join home name) home = false.
Proof.
  unfold under. rewrite bool_decide_eq_false_2 by (apply not_eq_sym, join_ne_dir). cbn [orb].
  apply not_true_iff_false. intros [r Hr]%starts_with_true. apply (f_equal String.length) in Hr.
  unfold join in Hr. rewrite !length_append in Hr. cbn in Hr. lia.
Qed.

Lemma prepare_home_runs home taken d :
  runs (λ _, True) (prepare_home home taken) (λ b d', b = true → taken = false ∧ locked home d') d.
Proof.
  apply runs_tried. eapply runs_mono; [apply lock_home_runs|done|]. intros [] d1 H1; [|done].
  destruct (H1 eq_refl) as [Htaken [(h & Hh & Hok) (l & Hl & Hp)]].
  assert (not_staged home (join home ".broker.lock")) as Hls.
  { intros name [r ->]%starts_with_true. by rewrite under_join. }
  pose proof (unlocked_avoids home home (λ name _, under_join_dir home name)) as Hhome.
  pose proof (unlocked_avoids home _ Hls) as Hlock.
  split; [done|]. intros d2 b Hr _. split; [done|]. split; [exists h|exists l]; (split; [|done]).
  + rewrite <-Hh. by apply (runs_avoids _ _ d1 Hhome) in Hr.
  + rewrite <-Hl. by apply (runs_avoids _ _ d1 Hlock) in Hr.
Qed.
(** Before the agent serves it changes nothing but its directory, its lock
    file and what is in staging directories, whatever fails. It goes on only
    where no other process has the lock, in a directory of its user's or
    root's that not every user may write to, with a lock file of its user's
    own. *)
Theorem prepare_home_spec home taken d d' :
  visits (prepare_home home taken) d d' →
  (∀ q, kept home q → d' !! q = d !! q) ∧
  (returns (prepare_home home taken) d d' true → taken = false ∧ locked home d').
Proof.
  intros Hv. split.
  - intros q Hq. by apply (runs_avoids q (prepare_home home taken) d (prepare_home_avoids _ _ _ Hq)).
  - intros Ht. by apply (proj2 (prepare_home_runs home taken d) d' true).
Qed.
End home.

(** ** Witnesses *)
Definition sample_json (text : string) : option Value :=
  if bool_decide (text = "{")%string then None
  else Some (Object [("tokens", Object [("access_token", Str text); ("refresh_token", Str "r")])])%string.
Definition sample_home : Disk := settled
  {[ "/codex-home" := mkFile EmptyString false (mkMetadata Dir 7 448);
     "/codex-home/auth.json" := mkFile "old" true (mkMetadata Regular 7 384);
     "/codex-home/.auth-staging-0" := mkFile EmptyString false (mkMetadata Dir 7 448);
     "/codex-home/.auth-staging-0/auth.json" := mkFile "{" false (mkMetadata Regular 7 384) ]}.
Definition sample_device : option File * bool :=
  (Some (mkFile "new" false (mkMetadata Regular 7 420)), true).
Definition sample_login : prog := login sample_json 7 448 "/codex-home" false "1" "9-1" sample_device.
Lemma login_safe_witness :
  let d' := (exec sample_login sample_home).1 in
  contents d' "/codex-home/auth.json" = Some "new"%string ∧
  (∀ d'', crash d' d'' → contents d'' "/codex-home/auth.json" = Some "new"%string) ∧
  ∀ d1 d'', visits sample_login sample_home d1 → crash d1 d'' →
    contents d'' "/codex-home/auth.json" ≠ Some "{"%string.
Proof.
  pose proof (exec_returns sample_login sample_home) as Hr.
  assert ((exec sample_login sample_home).2 = true) as Hok by (vm_compute; reflexivity).
  rewrite Hok in Hr. cbv zeta.
  pose proof (λ d1, login_safe sample_json 7 448 "/codex-home" false "1" "9-1" sample_device
    sample_home d1
    ltac:(split; [intros f Hf; vm_compute in Hf; injection Hf as <-; reflexivity
                 |split; [reflexivity|intros dir _; reflexivity]])
    ltac:(vm_compute; discriminate)) as Hsafe.
  destruct (proj2 (Hsafe _ (returns_visits _ _ _ _ Hr)) Hr) as (_ & data & Hdata & Hauth & Hkept).
  assert (data = "new"%string) as -> by (symmetry; exact (Hdata _ eq_refl)).
  change "/codex-home/auth.json"%string with (join "/codex-home" "auth.json"). split; [|split].
  - unfold contents. rewrite Hauth. reflexivity.
  - intros d'' Hc. destruct (Hkept d'' Hc) as [E|[E _]]; [exact E|vm_compute in E; discriminate].
  - intros d1 d'' Hv Hc. destruct (proj1 (Hsafe d1 Hv) d'' Hc) as [E|(new & E & Hval & _)].
    + rewrite E. vm_compute. discriminate.
    + rewrite E. intros [= ->]. vm_compute in Hval. discriminate.
Defined.
Lemma prepare_home_spec_witness :
  let d' := (exec (prepare_home sample_json 7 448 "/codex-home" false) sample_home).1 in
  d' !! "/codex-home/auth.json"%string = sample_home !! "/codex-home/auth.json"%string ∧
  d' !! "/codex-home/.auth-staging-0/auth.json"%string = None ∧ locked 7 "/codex-home" d'.
Proof.
  pose proof (exec_returns (prepare_home sample_json 7 448 "/codex-home" false) sample_home) as Hr.
  assert ((exec (prepare_home sample_json 7 448 "/codex-home" false) sample_home).2 = true) as Hok
    by (vm_compute; reflexivity).
  rewrite Hok in Hr. cbv zeta.
  destruct (prepare_home_spec sample_json 7 448 "/codex-home" false sample_home _
    (returns_visits _ _ _ _ Hr)) as [Hkept Hlocked].
  split; [|split; [vm_compute; reflexivity|exact (proj2 (Hlocked Hr))]].
  exact (Hkept _ (kept_visible "/codex-home" "auth.json" eq_refl)).
Defined.
