(* ===== verification/AgentMain.v ===== *)
(** * The credential agent: [main]

    [provider-codex/src/main.rs]: from the command line to the accept loop.
    [main] either logs in or serves: it reads the channel secret, prepares
    the home directory, makes the login manager and then the socket. Each
    connection is answered on its own. The synthetic agent of the tests also
    has counters, with a page that tells them. *)
From S2P Require Import Prelude Crypto Json Files Protocol AgentHome Agent.
Local Open Scope Z_scope.

Definition HOME : string := "/codex-home".
Definition home_of (codex_home : option string) : string := unwrap_or codex_home HOME.

Section main.
Context (json_from_slice : string → option Value).
(** The process: its user, the mode it makes directories and sockets with,
    and, of the library, what making the login manager does to the files. *)
Context (uid umode smode : Z) (new_manager : string → prog).

(** What [serve_real] and [serve_synthetic] do before they accept: the
    socket's mode is set once it is bound. *)
Definition serve_socket : prog :=
  tried (prepare_socket uid)
    (call (CreateNew SOCKET (mkMetadata Socket uid smode)) (call (SetMode SOCKET 432) (Stop true))).
(** [main] up to the accept loop, where it [Stop]s with [true]; [secret] is
    what [read_secret] returns. *)
Definition serve (secret : result string string) (home : string) (taken : bool) : prog :=
  if is_ok secret then
    tried (prepare_home json_from_slice uid umode home taken) (tried (new_manager home) serve_socket)
  else Stop false.
Definition main (arg codex_home : option string) (secret : result string string) (taken : bool)
    (n stamp : string) (device : option File * bool) : prog :=
  let home := home_of codex_home in
  if bool_decide (arg = Some "login"%string)
  then login json_from_slice uid umode home taken n stamp device
  else serve secret home taken.
End main.

(** ** The accept loops *)
Section serve.
Context `{Crypto} `{!Serde Request} `{!Serde Response}.
Context (op_to_string : Operation → option string)
  (headers_to_string : list (string * string) → option string).

(** A connection: the manager as it is then, what the peer sends, and
    whether the answer is written in time. *)
Record Connection := mkConnection {
  cn_manager : AuthManager;
  cn_reader : option string;
  cn_writes : bool;
}.
Definition serve_real (secret : string) (connections : list Connection) : list Handled :=
  map (λ c, handle_real op_to_string headers_to_string secret (cn_manager c) (cn_reader c) (cn_writes c))
    connections.
(** In the order in which the connections come to their counter. *)
Definition serve_synthetic (secret : string) (stats : SyntheticStats)
    (connections : list (option string * bool)) : SyntheticStats :=
  foldl (λ stats '(reader, writes),
    (handle_synthetic op_to_string headers_to_string secret stats reader writes).1) stats connections.
End serve.

Definition CR : ascii := ascii_of_N 13.
Definition QUOTE : ascii := ascii_of_N 34.
Definition CRLF : string := String CR (String LF EmptyString).
(** What a reader of the counters is sent. *)
Definition counters_body (stats : SyntheticStats) : string :=
  let quoted (s : string) : string := String QUOTE s +:+ String QUOTE EmptyString in
  "{" +:+ quoted "acquire" +:+ ":" +:+ u64_to_string (ss_acquire stats) +:+ "," +:+
  quoted "recover" +:+ ":" +:+ u64_to_string (ss_recover stats) +:+ "}".
Definition serve_counters (stats : SyntheticStats) : string :=
  let body := counters_body stats in
  "HTTP/1.1 200 OK" +:+ CRLF +:+ "Content-Type: application/json" +:+ CRLF +:+
  "Content-Length: " +:+ u64_to_string (len body) +:+ CRLF +:+ "Connection: close" +:+ CRLF +:+
  CRLF +:+ body.

Example counters_page :
  counters_body (mkSyntheticStats 2 10) =
    ("{" +:+ String QUOTE "acquire" +:+ String QUOTE ":2," +:+ String QUOTE "recover" +:+ String QUOTE ":10}")%string.
Proof. vm_compute. reflexivity. Qed.
