(* ===== verification/AgentSafety.v ===== *)
(** * The credential agent: who is answered, and with what

    The theorems about a connection to the agent, and about the proxy's call
    of it. *)
From S2P Require Import Prelude Crypto Json Files Protocol Proxy Agent.
Local Open Scope Z_scope.

Section agent.
Context `{CryptoLaws} `{!Serde Request} `{!Serde Response} `{!SerdeLaws Request}
  `{!SerdeLaws Response}.
Context (op_to_string : Operation → option string)
  (headers_to_string : list (string * string) → option string).
Local Abbreviation handle_real := (handle_real op_to_string headers_to_string).
Local Abbreviation handle_synthetic := (handle_synthetic op_to_string headers_to_string).
Local Abbreviation agent := (Proxy.agent op_to_string headers_to_string).
Local Abbreviation agent_request := (agent_request op_to_string).
Local Abbreviation with_mac := (with_mac headers_to_string).

(** ** Authentication *)
Lemma mac_len key data : len (mac key data) = 64.
Proof. unfold mac. by rewrite hex_encode_len, hmac_len. Qed.
Lemma valid_mac_spec a b : valid_mac a b = bool_decide (a = b).
Proof.
  unfold valid_mac. rewrite ct_eq_spec. destruct (bool_decide_reflect (a = b)) as [->|]; [|by rewrite andb_false_r].
  by rewrite Z.eqb_refl.
Qed.
(** A request for this agent, with the MAC of its transcript. *)
Definition authentic (key : string) (q : Request) : Prop :=
  validate_request q PROFILE AUDIENCE = true ∧ req_mac q = request_mac op_to_string key q.
Lemma authentic_spec key q :
  negb (validate_request q PROFILE AUDIENCE)
  || negb (valid_mac (request_mac op_to_string key q) (req_mac q)) = false ↔ authentic key q.
Proof.
  rewrite valid_mac_spec, orb_false_iff, !negb_false_iff, bool_decide_eq_true.
  unfold authentic. naive_solver.
Qed.

(** What the agent answers an authentic request with, and the calls of the
    manager it makes. *)
Definition answer (m : AuthManager) (q : Request) : Response :=
  match req_operation q with
  | Ping => mkResponse VERSION true (req_nonce q) EmptyString []
  | Acquire => acquire m (req_nonce q)
  | UnauthorizedRecovery => recover m (req_nonce q)
  end.
Definition calls_of (op : Operation) : list ManagerCall :=
  match op with Ping => [] | Acquire => [CallAuth] | UnauthorizedRecovery => [CallRecovery] end.
Lemma recover_steps_spec r nonce :
  recover_steps r nonce = mkResponse VERSION (forallb id r) nonce EmptyString [].
Proof. induction r as [|[] r IH]; cbn; [done|by rewrite IH|done]. Qed.
(** The credentials the manager has, if any. *)
Definition credentials (m : AuthManager) : option (list (string * string)) :=
  match am_auth m with
  | Some (Chatgpt (Some t) account | ChatgptAuthTokens (Some t) account) =>
      Some (account_headers t account)
  | _ => None
  end.
Lemma acquire_spec m nonce :
  acquire m nonce =
    match credentials m with
    | Some headers => mkResponse VERSION true nonce EmptyString headers
    | None => bad nonce
    end.
Proof. unfold acquire, credentials. by destruct (am_auth m) as [[[t|] a|[t|] a|]|]. Qed.
Lemma answer_nonce m q : resp_nonce (answer m q) = req_nonce q ∧ resp_version (answer m q) = VERSION.
Proof.
  unfold answer, recover. destruct (req_operation q); [done| |by rewrite recover_steps_spec].
  rewrite acquire_spec. by destruct (credentials m).
Qed.
(** Credentials are only in the answer to a request that acquires them. *)
Lemma answer_headers m q :
  resp_headers (answer m q) ≠ [] →
  req_operation q = Acquire ∧ credentials m = Some (resp_headers (answer m q)).
Proof.
  unfold answer, recover. destruct (req_operation q); [done| |by rewrite recover_steps_spec].
  rewrite acquire_spec. by destruct (credentials m).
Qed.

Lemma handle_frame key m reader frame rest q :
  read_frame reader = Ok (frame, rest) → decode frame = Ok q → authentic key q → ∀ writes,
  handle_real key m (Some reader) writes =
    match encode (with_mac key (answer m q)) with
    | Err _ => mkHandled (calls_of (req_operation q)) None (Err ResponseTooLarge)
    | Ok bytes =>
        if writes then mkHandled (calls_of (req_operation q)) (Some bytes) (Ok tt)
        else mkHandled (calls_of (req_operation q)) None (Err Elapsed)
    end.
Proof.
  intros Hr Hd Ha writes. unfold Agent.handle_real. rewrite Hr, Hd.
  apply authentic_spec in Ha as ->. unfold answer. by destruct (req_operation q).
Qed.

Lemma handle_unauthentic key m reader writes :
  (h_calls (handle_real key m reader writes) = [] ∧
   h_written (handle_real key m reader writes) = None) ∨
  ∃ text frame rest q, reader = Some text ∧ read_frame text = Ok (frame, rest) ∧
    decode frame = Ok q ∧ authentic key q.
Proof.
  destruct reader as [text|]; [|by left]. unfold Agent.handle_real.
  destruct (read_frame text) as [[frame rest]|e] eqn:Hr; [|by left].
  destruct (decode frame) as [q|e] eqn:Hd; [|by left].
  destruct (_ || _) eqn:Ha; [by left|]. right. exists text, frame, rest, q.
  split_and!; try done. by apply authentic_spec.
Qed.

(** C6: the agent calls its manager, and answers, only for a request in a
    well-formed frame that names it and that has the MAC of the channel's
    key, and then it makes just the calls the operation needs. What it writes
    is one frame that decodes to a response with the request's nonce and the
    MAC of the channel's key; the response has headers only if the request is
    to acquire them, and they are then the manager's credentials. *)
Theorem handle_real_spec key m reader writes :
  let h := handle_real key m reader writes in
  (h_calls h ≠ [] ∨ h_written h ≠ None → ∃ text frame rest q,
     reader = Some text ∧ read_frame text = Ok (frame, rest) ∧ decode frame = Ok q ∧
     authentic key q ∧ h_calls h = calls_of (req_operation q) ∧
     ∀ bytes, h_written h = Some bytes → ∃ r : Response,
       decode bytes = Ok r ∧ read_frame bytes = Ok (bytes, EmptyString) ∧
       resp_nonce r = req_nonce q ∧ resp_mac r = response_mac headers_to_string key r ∧
       (resp_headers r ≠ [] → req_operation q = Acquire ∧ credentials m = Some (resp_headers r))) ∧
  (∀ e, h_result h = Err e → h_written h = None).
Proof.
  intros h. split.
  - intros Hdone. destruct (handle_unauthentic key m reader writes) as [[H1 H2]|Hq].
    { by destruct Hdone; unfold h in *. }
    destruct Hq as (text & frame & rest & q & -> & Hr & Hd & Ha). exists text, frame, rest, q.
    unfold h. rewrite (handle_frame key m text frame rest q) by done.
    split_and!; try done; destruct (encode _) as [bytes|e] eqn:He; try by destruct writes.
    intros bytes' Hb. assert (bytes' = bytes) as -> by (destruct writes; [by injection Hb|done]).
    exists (with_mac key (answer m q)).
    destruct (frame_roundtrip _ _ EmptyString He) as [Hread Hdec]. rewrite append_nil_r in Hread.
    split_and!; try done; [apply answer_nonce|apply answer_headers].
  - intros e. unfold h. destruct (handle_unauthentic key m reader writes) as [[_ ?]|Hq]; [done|].
    destruct Hq as (text & frame & rest & q & -> & Hr & Hd & Ha).
    rewrite (handle_frame key m text frame rest q) by done.
    destruct (encode _); [by destruct writes|done].
Qed.

(** ** The proxy's call *)
Lemma agent_request_authentic key op random :
  len random = 32 → authentic key (agent_request key op random).
Proof.
  intros Hlen. split; [|done]. unfold validate_request, Proxy.agent_request.
  cbn [req_version req_profile req_audience req_nonce req_mac].
  unfold request_mac. by rewrite mac_len, hex_encode_len, Hlen.
Qed.
(** The limits the proxy puts on what it injects. *)
Definition injectable (headers : list (string * string)) : bool :=
  forallb (λ '(_, v), len v <=? MAX_VALUE) headers.
(** What the agent's answer comes to: the headers it may inject, from an
    answer that succeeds and fits a frame. *)
Definition answered (key : string) (m : AuthManager) (q : Request)
    : option (list (string * string)) :=
  let r := answer m q in
  if resp_ok r && is_ok (encode (with_mac key r)) && injectable (resp_headers r)
  then Some (resp_headers r) else None.
Lemma answer_cases m q :
  resp_headers (answer m q) = [] ∨
  ∃ t account, resp_headers (answer m q) = account_headers t account.
Proof.
  destruct (resp_headers (answer m q)) as [|h l] eqn:E; [by left|right].
  destruct (answer_headers m q) as [_ Hc]; [by rewrite E|]. rewrite E in Hc.
  unfold credentials in Hc. destruct (am_auth m) as [[[t|] a|[t|] a|]|]; simplify_eq; by exists t, a.
Qed.
Lemma answer_valid key m q :
  validate_response (with_mac key (answer m q)) (req_nonce q) = injectable (resp_headers (answer m q)) ∧
  existsb (λ '(n, v), (128 <? len n) || (MAX_VALUE <? len v) || negb (bool_decide (n ∈ INJECTED)))
    (resp_headers (answer m q)) = negb (injectable (resp_headers (answer m q))).
Proof.
  destruct (answer_nonce m q) as [Hn Hv]. unfold validate_response, injectable.
  cbn [Agent.with_mac resp_version resp_nonce resp_headers]. rewrite Hv, Hn, bool_decide_eq_true_2 by done.
  destruct (answer_cases m q) as [->|(t & account & ->)]; [done|].
  unfold account_headers. cbn [forallb existsb length]. set (v1 := String.append _ t).
  set (v2 := unwrap_or account EmptyString). clearbody v1 v2.
  rewrite !Z.ltb_antisym. by destruct (len v1 <=? MAX_VALUE), (len v2 <=? MAX_VALUE).
Qed.
Lemma read_frame_empty : read_frame EmptyString = Err UnexpectedEof.
Proof. done. Qed.

(** What one call comes to, whichever key the agent has. *)
Definition call (key key' : string) (m : AuthManager) (op : Operation) (random : string) (uid : Z)
    (parent socket : Metadata) (frame : string) : list ManagerCall * option (list (string * string)) :=
  let h := handle_real key' m (Some frame) true in
  (h_calls h,
   agent key op random uid (Some parent) (Some socket) true true
     (Some (unwrap_or (h_written h) EmptyString))).
Section call.
Context (key : string) (op : Operation) (random frame rest : string) (uid : Z)
  (parent socket : Metadata).
Context (Hlen : len random = 32) (Hpath : agent_path_ok uid parent socket = true)
  (Hframe : encode (agent_request key op random) = Ok frame).
Local Abbreviation q := (agent_request key op random).
Lemma agent_reads reader :
  agent key op random uid (Some parent) (Some socket) true true (Some reader) =
  result_ok (read_frame reader) ≫= λ '(line, _), result_ok (decode line) ≫= λ response : Response,
    agent_response headers_to_string key (req_nonce q) response.
Proof using Hpath Hframe.
  unfold Proxy.agent. cbn [mbind option_bind]. rewrite Hpath. cbn [negb]. by rewrite Hframe.
Qed.
Lemma call_same m :
  call key key m op random uid parent socket (frame +:+ rest) = (calls_of op, answered key m q).
Proof using All.
  destruct (frame_roundtrip _ _ rest Hframe) as [Hread Hdec].
  assert (authentic key q) as Ha by by apply agent_request_authentic.
  unfold call. rewrite (handle_frame key m _ frame rest q) by done. rewrite agent_reads.
  unfold answered. destruct (encode (with_mac key (answer m q))) as [bytes|e] eqn:He.
  2: { cbn [h_calls h_written]. change (unwrap_or None EmptyString) with EmptyString.
       rewrite read_frame_empty.
       cbn [result_ok mbind option_bind is_ok]. by rewrite andb_false_r. }
  cbn [h_calls h_written is_ok]. change (unwrap_or (Some bytes) EmptyString) with bytes.
  destruct (frame_roundtrip _ _ EmptyString He) as [Hr Hd].
  rewrite append_nil_r in Hr. rewrite Hr.
  cbn [result_ok mbind option_bind]. rewrite Hd. cbn [result_ok mbind option_bind].
  unfold agent_response. destruct (answer_valid key m q) as [-> Hex].
  change (resp_headers (with_mac key ?r)) with (resp_headers r). rewrite Hex.
  rewrite valid_mac_spec, bool_decide_eq_true_2 by done.
  change (resp_ok (with_mac key ?r)) with (resp_ok r). rewrite andb_true_r.
  by destruct (resp_ok _), (injectable _).
Qed.
Lemma call_other key' m :
  request_mac op_to_string key' q ≠ request_mac op_to_string key q →
  call key key' m op random uid parent socket (frame +:+ rest) = ([], None).
Proof using All.
  intros Hne. destruct (frame_roundtrip _ _ rest Hframe) as [Hread Hdec].
  unfold call. assert (handle_real key' m (Some (frame +:+ rest)) true = mkHandled [] None (Ok tt)) as ->.
  { unfold Agent.handle_real. rewrite Hread, Hdec.
    destruct (_ || _) eqn:E; [done|]. apply authentic_spec in E as [_ E].
    destruct (agent_request_authentic key op random Hlen) as [_ Ha]. congruence. }
  by rewrite agent_reads.
Qed.
End call.

(** C7: the proxy's call of an agent that has the channel's key reaches it as
    the operation asked for, whatever else is on the stream, and returns the
    agent's answer: the manager's credentials for [Acquire], where they fit
    the limits and the frame, nothing for the other operations, and a failure
    exactly where the manager fails. An agent whose key gives the request
    another MAC is not made to call its manager, and the proxy injects
    nothing that it says. *)
Theorem agent_call key m op random uid parent socket frame rest :
  len random = 32 → agent_path_ok uid parent socket = true →
  encode (agent_request key op random) = Ok frame →
  call key key m op random uid parent socket (frame +:+ rest) =
    (calls_of op, answered key m (agent_request key op random)) ∧
  ∀ key', request_mac op_to_string key' (agent_request key op random) ≠
          request_mac op_to_string key (agent_request key op random) →
    call key key' m op random uid parent socket (frame +:+ rest) = ([], None).
Proof.
  intros Hlen Hpath Hframe. split; [by apply call_same|]. intros key'. by apply call_other.
Qed.

(** ** The synthetic agent *)
Definition synthetic_manager : AuthManager :=
  mkAuthManager (Some (Chatgpt (Some "synthetic-agent-token") (Some "synthetic-account")))%string [].
Lemma synthetic_answer q :
  mkResponse VERSION true (req_nonce q) EmptyString (synthetic_headers (req_operation q)) =
    answer synthetic_manager q.
Proof. unfold answer. by destruct (req_operation q). Qed.
(** The counter of a call of the manager. *)
Definition count_call (stats : SyntheticStats) (call : ManagerCall) : SyntheticStats :=
  synthetic_stats match call with CallAuth => Acquire | CallRecovery => UnauthorizedRecovery end stats.

(** The synthetic agent of the tests answers every connection as the
    agent does with one fixed account, but that an answer too large for a
    frame is a panic; its counters count exactly the calls that the agent
    would make of its manager. *)
Theorem synthetic_answers_as_real key stats reader writes :
  let h := handle_real key synthetic_manager reader writes in
  handle_synthetic key stats reader writes =
    (foldl count_call stats (h_calls h),
     match h_result h with
     | Err ResponseTooLarge => None
     | result => Some (h_written h, result)
     end).
Proof.
  cbv zeta. destruct reader as [text|]; [|done].
  unfold Agent.handle_synthetic. destruct (read_frame text) as [[frame rest]|e] eqn:Hr.
  2: { unfold Agent.handle_real. by rewrite Hr. }
  destruct (decode frame) as [q|e] eqn:Hd; [|unfold Agent.handle_real; by rewrite Hr, Hd].
  destruct (_ || _) eqn:Ha; [unfold Agent.handle_real; by rewrite Hr, Hd, Ha|].
  apply authentic_spec in Ha. rewrite (handle_frame key _ text frame rest q), synthetic_answer by done.
  unfold synthetic_stats. destruct (encode _), writes, (req_operation q); done.
Qed.
End agent.

(** ** Witness *)
#[local] Existing Instance toy_crypto.
Definition sample_op (op : Operation) : option string := toy_op_to_string op.
Definition sample_headers (l : list (string * string)) : option string := Some (foldr String.append EmptyString l.*2).
Definition sample_random : string := fit 32 "r".
Definition sample_manager : AuthManager := mkAuthManager (Some (Chatgpt (Some "t"%string) None)) [].
Definition sample_query : Request := agent_request sample_op "k" Acquire sample_random.
Definition sample_reply : Response :=
  Agent.with_mac sample_headers "k" (acquire sample_manager (req_nonce sample_query)).
#[local] Instance sample_query_serde : Serde Request := one_value sample_query "q".
#[local] Instance sample_reply_serde : Serde Response := one_value sample_reply "r".
#[local] Instance sample_query_laws : SerdeLaws Request := one_value_laws sample_query "q" eq_refl.
#[local] Instance sample_reply_laws : SerdeLaws Response := one_value_laws sample_reply "r" eq_refl.
Lemma agent_call_witness :
  agent sample_op sample_headers "k" Acquire sample_random 7
    (Some (mkMetadata Dir 0 493)) (Some (mkMetadata Socket 7 432)) true true
    (Some (unwrap_or (h_written (handle_real sample_op sample_headers "k" sample_manager
       (Some ("q" +:+ String LF EmptyString +:+ EmptyString)) true)) EmptyString)) =
  Some (account_headers "t" None).
Proof.
  assert (encode sample_query = Ok ("q" +:+ String LF EmptyString)) as Hq by (vm_compute; reflexivity).
  destruct (agent_call sample_op sample_headers "k" sample_manager Acquire sample_random 7
    (mkMetadata Dir 0 493) (mkMetadata Socket 7 432) _ EmptyString eq_refl eq_refl Hq) as [Hcall _].
  apply (f_equal snd) in Hcall. cbn [snd] in Hcall.
  assert (answered sample_headers "k" sample_manager sample_query = Some (account_headers "t" None))
    as Ha by (vm_compute; reflexivity).
  etrans; [exact Hcall|exact Ha].
Defined.
Lemma handle_real_spec_witness :
  req_operation sample_query = Acquire ∧
  credentials sample_manager = Some (resp_headers sample_reply).
Proof.
  destruct (handle_real_spec sample_op sample_headers "k" sample_manager
    (Some ("q" +:+ String LF EmptyString)) true) as [Hdone _].
  destruct Hdone as (text & frame & rest & q & [= <-] & Hr & Hd & _ & _ & Hb).
  { left. vm_compute. discriminate. }
  vm_compute in Hr. injection Hr as <- <-. vm_compute in Hd. injection Hd as <-.
  destruct (Hb ("r" +:+ String LF EmptyString)) as (r & Hdr & _ & _ & _ & Hh).
  { vm_compute. reflexivity. }
  vm_compute in Hdr. injection Hdr as <-. destruct Hh as [_ Hc]; [discriminate|].
  split; [reflexivity|]. etrans; [exact Hc|]. vm_compute. reflexivity.
Defined.
