(* ===== verification/ProxyAgent.v ===== *)
(** * The proxy with its agent

    One request of the proxy whose calls are answered by the credential
    agent: what reaches the upstream as a credential is what the agent's
    login manager had. *)
From S2P Require Import Prelude Crypto Headers Json Files Protocol Proxy ProxySafety Agent AgentSafety.
Local Open Scope Z_scope.

Section composed.
Context `{CryptoLaws} `{HeaderMapLaws Hd} `{!Serde Request} `{!Serde Response}
  `{!SerdeLaws Request} `{!SerdeLaws Response}.
Context (op_to_string : Operation → option string)
  (headers_to_string : list (string * string) → option string)
  (json_from_slice : string → option Value) (json_to_vec : Value → option string).
Context (uid : Z) (parent socket : Metadata).

(** A call of the agent over the socket, both sides of it. *)
Definition ask (key agent_key : string) (m : AuthManager) (op : Operation) (random : string)
    : option (list (string * string)) :=
  result_ok (encode (agent_request op_to_string key op random)) ≫= λ frame,
  (call op_to_string headers_to_string key agent_key m op random uid parent socket frame).2.
(** The proxy's outside: the agent with the manager as it is at each call,
    the random bytes of each, and what the upstream answers. *)
Definition with_agent (key agent_key : string) (managers : nat → AuthManager)
    (randoms : nat → string) (recovery : AuthManager) (random : string)
    (os_send : nat → option (Z * Hd * list StreamItem)) : Outside (Hd:=Hd) :=
  mkOutside (λ i, ask key agent_key (managers i) Acquire (randoms i))
    (is_some (ask key agent_key recovery UnauthorizedRecovery random)) os_send.

Context (key agent_key : string) (managers : nat → AuthManager) (randoms : nat → string)
  (recovery : AuthManager) (random : string) (os_send : nat → option (Z * Hd * list StreamItem)).
Hypothesis Hpath : agent_path_ok uid parent socket = true.
Hypothesis Hrandoms : ∀ i, len (randoms i) = 32.
Local Abbreviation out :=
  (with_agent key agent_key managers randoms recovery random os_send).

Lemma ask_same m r :
  len r = 32 → is_Some (ask key key m Acquire r) →
  ∃ t account, ask key key m Acquire r = Some (account_headers t account) ∧
    credentials m = Some (account_headers t account).
Proof.
  intros Hr. unfold ask. destruct (encode (agent_request _ _ _ _)) as [frame|e] eqn:He; [|by intros []].
  cbn [result_ok mbind option_bind]. rewrite <-(append_nil_r frame).
  rewrite call_same by done. cbn [snd]. unfold answered.
  destruct (_ && _) eqn:E; [|by intros []]. intros _.
  unfold answer in *. cbn [agent_request req_operation req_nonce] in *. rewrite acquire_spec in *.
  destruct (credentials m) as [l|] eqn:Hc; [|done]. cbn [resp_headers].
  unfold credentials in Hc. destruct (am_auth m) as [[[t|] a|[t|] a|]|]; simplify_eq; by exists t, a.
Qed.
Lemma ask_other m r :
  len r = 32 →
  request_mac op_to_string agent_key (agent_request op_to_string key Acquire r) ≠
    request_mac op_to_string key (agent_request op_to_string key Acquire r) →
  ask key agent_key m Acquire r = None.
Proof.
  intros Hr Hne. unfold ask. destruct (encode (agent_request _ _ _ _)) as [frame|e] eqn:He; [|done].
  cbn [result_ok mbind option_bind]. rewrite <-(append_nil_r frame). by rewrite call_other.
Qed.

(** What an attempt with the agent's answer carries: the token as its one
    [Authorization] header, the account as its one account header, and no
    other header that a backend may read as one of these. *)
Definition carries (t : string) (account : option string) (h : Hd) : Prop :=
  (∃ v, hm_get_all "authorization" h = [v] ∧ hm_to_str (H:=Hd) v = Some ("Bearer " +:+ t)) ∧
  (∃ v, hm_get_all "chatgpt-account-id" h = [v] ∧
     hm_to_str (H:=Hd) v = Some (unwrap_or account EmptyString)) ∧
  ∀ name, canonical name ∈ INJECTED → hm_get_all name h ≠ [] →
    name = "authorization"%string ∨ name = "chatgpt-account-id"%string.
Lemma account_carries client t account h :
  hm_name (H:=Hd) "authorization" = Some "authorization"%string →
  hm_name (H:=Hd) "chatgpt-account-id" = Some "chatgpt-account-id"%string →
  upstream_headers client (account_headers t account) = Ok h → carries t account h.
Proof.
  intros Hname1 Hname2 Hh.
  assert (∀ name, hm_get_all name h = match credential (Hd:=Hd) name (account_headers t account) with
    | Some v => [v] | None => if forwarded_header client name then hm_get_all name client else [] end) as Hget.
  { intros name. by apply upstream_headers_get. }
  assert (is_Some (hm_value (H:=Hd) ("Bearer " +:+ t)) ∧
    is_Some (hm_value (H:=Hd) (unwrap_or account EmptyString))) as [[v Hv] [v' Hv']].
  { assert (is_ok (upstream_headers client (account_headers t account)) = true) as Hok by by rewrite Hh.
    apply insert_credentials_ok in Hok. unfold account_headers in Hok.
    apply Forall_cons in Hok as [[_ Ht] [[_ Ha] _]%Forall_cons]. by split. }
  cbn [account_headers credential] in Hget. rewrite Hname1, Hname2, Hv, Hv' in Hget.
  cbn [or_else] in Hget. split_and!.
  - exists v. rewrite Hget. split; [done|]. by apply hm_value_to_str.
  - exists v'. rewrite Hget. split; [done|]. by apply hm_value_to_str.
  - intros name Hcan Hne. rewrite Hget in Hne.
    destruct (bool_decide_reflect (Some "chatgpt-account-id"%string = Some name)) as [[= <-]|_]; [by right|].
    destruct (bool_decide_reflect (Some "authorization"%string = Some name)) as [[= <-]|_]; [by left|].
    cbn in Hne. unfold forwarded_header in Hne. by rewrite (injected_denied name Hcan), andb_false_r in Hne.
Qed.

(** What is sent when the agent was asked for the [j]th time. *)
Lemma attempt_credentials client j l h :
  agent_key = key →
  hm_name (H:=Hd) "authorization" = Some "authorization"%string →
  hm_name (H:=Hd) "chatgpt-account-id" = Some "chatgpt-account-id"%string →
  os_acquire out j = Some l → upstream_headers client l = Ok h →
  ∃ t account, l = account_headers t account ∧ credentials (managers j) = Some l ∧ carries t account h.
Proof.
  intros -> Hname1 Hname2 Hl Hh. cbn [with_agent os_acquire] in Hl.
  destruct (ask_same (managers j) (randoms j)) as (t & account & Hask & Hc); [done|eauto|].
  rewrite Hask in Hl. injection Hl as <-. exists t, account. split_and!; [done..|].
  by eapply account_carries.
Qed.

(** C5: every request that goes upstream carries the credentials that the
    login manager had when the agent was asked for that very attempt: its
    token as the one [Authorization] header and its account as the one
    account header, both there, and nothing under any other name a backend
    may read as one of these. So the request sent after a recovery has the
    credentials of the manager as it is then. Where the agent's key gives
    the call of an attempt another MAC than the proxy's, that attempt sends
    nothing. *)
Theorem sent_credentials n max auth permits (req : ProxyRequest (Hd:=Hd)) effects reply
    before h b after :
  (2 <= n)%nat →
  hm_name (H:=Hd) "authorization" = Some "authorization"%string →
  hm_name (H:=Hd) "chatgpt-account-id" = Some "chatgpt-account-id"%string →
  route json_from_slice json_to_vec n max auth permits out req = Some (effects, reply) →
  effects = before ++ Sent h b :: after →
  let j := count is_sent before in
  (agent_key = key → ∃ t account,
     credentials (managers j) = Some (account_headers t account) ∧ carries t account h) ∧
  request_mac op_to_string agent_key (agent_request op_to_string key Acquire (randoms j)) =
    request_mac op_to_string key (agent_request op_to_string key Acquire (randoms j)).
Proof.
  intros Hn Hname1 Hname2 Hroute E j.
  destruct (route_attempted _ _ _ _ _ _ _ _ _ _ _ _ _ _ Hn Hroute E)
    as (body & codex & l & _ & _ & _ & Hl & Hh).
  fold j in Hl. split.
  - intros Hk. destruct (attempt_credentials _ j l h Hk Hname1 Hname2 Hl Hh) as (t & account & -> & Hc & Hin).
    by exists t, account.
  - destruct (decide (request_mac op_to_string agent_key
      (agent_request op_to_string key Acquire (randoms j)) =
      request_mac op_to_string key (agent_request op_to_string key Acquire (randoms j)))) as [|Hne]; [done|].
    cbn [with_agent os_acquire] in Hl. by rewrite ask_other in Hl.
Qed.
End composed.

(** ** Witness *)
#[local] Existing Instance toy_crypto.
#[local] Existing Instance header_map.
#[local] Existing Instance header_map_laws.
#[local] Existing Instances sample_query_serde sample_reply_serde sample_query_laws sample_reply_laws.
Definition sample_parent : Metadata := mkMetadata Dir 0 493.
Definition sample_socket : Metadata := mkMetadata Socket 7 432.
Definition sample_req : ProxyRequest :=
  mkProxyRequest POST "/v1/responses" None
    [("authorization", "Bearer mine"); ("chatgpt_account_id", "mine"); ("accept", "*/*")]%string
    (BodyBytes "{}").
Definition sample_answer : option (Z * list (string * string) * list StreamItem) := Some (200, [], []).
Definition sample_out : Outside :=
  with_agent sample_op sample_headers 7 sample_parent sample_socket "k" "k" (λ _, sample_manager)
    (λ _, sample_random) sample_manager sample_random (λ _, sample_answer).
Definition sample_sent : list (string * string) :=
  [("accept", "*/*"); ("authorization", "Bearer t"); ("chatgpt-account-id", EmptyString)]%string.
Lemma sample_routed :
  ∃ effects reply, route (λ _, Some (Object [])) (λ _, Some "{}"%string) 2 100 Disabled 1 sample_out
    sample_req = Some (effects, reply) ∧
    ∃ after, effects = [Acquired] ++ Sent sample_sent "{}"%string :: after.
Proof. eexists _, _. split; [vm_compute; reflexivity|]. eexists. reflexivity. Qed.
Lemma sent_credentials_witness :
  hm_get_all "authorization" sample_sent = ["Bearer t"]%string ∧
  (∃ v, hm_get_all "chatgpt-account-id" sample_sent = [v]) ∧
  hm_get_all "chatgpt_account_id" sample_sent = [].
Proof.
  destruct sample_routed as (effects & reply & E & after & Hin).
  assert (hm_name (H:=list (string * string)) "authorization" = Some "authorization"%string) as H1
    by (vm_compute; reflexivity).
  assert (hm_name (H:=list (string * string)) "chatgpt-account-id" =
    Some "chatgpt-account-id"%string) as H2 by (vm_compute; reflexivity).
  destruct (sent_credentials (Hd:=list (string * string)) sample_op sample_headers
    (λ _, Some (Object [])) (λ _, Some "{}"%string)
    7 sample_parent sample_socket "k" "k" (λ _, sample_manager) (λ _, sample_random) sample_manager
    sample_random (λ _, sample_answer) eq_refl (λ _, eq_refl) 2 100 Disabled 1 sample_req
    effects reply [Acquired] sample_sent "{}" after (le_n 2) H1 H2 E Hin) as [Hsame _].
  destruct (Hsame eq_refl) as (t & account & Hc & (v & Hv & Ht) & (v' & Hv' & _) & Hnames).
  assert (t = "t"%string) as -> by (cbn in Hc; injection Hc as Ht' _; done).
  split_and!.
  - rewrite Hv. cbn in Ht. unfold valid_value in Ht. by case_match; simplify_eq.
  - by exists v'.
  - destruct (hm_get_all "chatgpt_account_id" sample_sent) as [|x l] eqn:Ex; [done|]. exfalso.
    destruct (Hnames "chatgpt_account_id"%string) as [?|?]; [| |done|done].
    + vm_compute. right. left.
    + by rewrite Ex.
Defined.
