(* ===== verification/Brokered.v ===== *)
(** * A Codex request through the gateway, the proxy and the agent

    What the three programs promise together.  The host carries a request
    that the gateway's filter lets go on to the proxy, less the headers the
    filter removes and with those it adds itself, such as the proxy's client
    key; the proxy sends it upstream with the credentials its agent gave. *)
From S2P Require Import Prelude Crypto Headers Json Files Protocol Proxy ProxySafety Agent AgentSafety.
From S2P Require Import ProxyAgent Pools Budget Runs Oidc Operators Usage Filter Gateway GatewaySafety.
Local Open Scope Z_scope.

(** A routing header the proxy sets is the cache key of the body. *)
Lemma backstop_in `{HeaderMapLaws Hd} (client : Hd) codex n v :
  v ∈ hm_get_all n (backstop_cache_routing client codex) →
  v ∈ hm_get_all n client ∨
  (n = SESSION_ID ∨ n = CLIENT_REQUEST_ID) ∧
    ∃ key, cr_prompt_cache_key codex = Some key ∧ hm_value (H:=Hd) key = Some v.
Proof.
  unfold backstop_cache_routing. destruct (_ || _); [by left|].
  destruct (cr_prompt_cache_key codex) as [key|]; [|by left]. cbn [mbind option_bind].
  destruct (hm_value key) as [value|] eqn:Hv; [|by left].
  destruct (decide (CLIENT_REQUEST_ID = n)) as [<-|Hn].
  - rewrite hm_insert_get. intros ->%list_elem_of_singleton. right. split; [by right|]. by exists key.
  - rewrite hm_insert_get_ne by done. destruct (decide (SESSION_ID = n)) as [<-|Hn'].
    + rewrite hm_insert_get. intros ->%list_elem_of_singleton. right. split; [by left|]. by exists key.
    + rewrite hm_insert_get_ne by done. by left.
Qed.
(** A value that goes upstream is a credential's, or of the client's under a
    name that no backend reads as one. *)
Lemma upstream_headers_in `{HeaderMapLaws Hd} (client : Hd) l h n v :
  upstream_headers client l = Ok h → v ∈ hm_get_all n h →
  credential (Hd:=Hd) n l = Some v ∨ (canonical n ∉ INJECTED) ∧ v ∈ hm_get_all n client.
Proof.
  intros Hh Hv. pose proof Hv as Hv'. rewrite (upstream_headers_get _ _ _ _ Hh) in Hv'.
  destruct (credential n l) as [w|] eqn:E; [apply list_elem_of_singleton in Hv' as ->; by left|].
  right. split.
  - intros Hn. by rewrite (upstream_headers_injected _ _ _ _ _ Hh Hv Hn) in E.
  - destruct (forwarded_header client n); [done|by apply elem_of_nil in Hv'].
Qed.
(** The credentials the agent gives have the names of credentials. *)
Lemma account_names `{HeaderMap Hd} t account n v :
  hm_name (H:=Hd) "authorization" = Some "authorization"%string →
  hm_name (H:=Hd) "chatgpt-account-id" = Some "chatgpt-account-id"%string →
  credential (Hd:=Hd) n (account_headers t account) = Some v →
  n = "authorization"%string ∨ n = "chatgpt-account-id"%string.
Proof.
  intros H1 H2. cbn [account_headers credential]. rewrite H1, H2. cbn [or_else].
  destruct (bool_decide_reflect (Some "chatgpt-account-id"%string = Some n)) as [[= <-]|_];
    [intros _; by right|].
  destruct (bool_decide_reflect (Some "authorization"%string = Some n)) as [[= <-]|_]; [|done].
  intros _. by left.
Qed.

Section brokered.
Context `{CryptoLaws} `{HeaderMapLaws Hd} `{!Serde Protocol.Request} `{!Serde Response}
  `{!SerdeLaws Protocol.Request} `{!SerdeLaws Response}.
(** Of the gateway. *)
Context {Key : Type} (decode_header : string → option Header)
  (decode_jwt : string → Key → Validation → result DecodeError Claims)
  (issued_after : Z) (to_vec : Body → option string)
  {Identity : Type} (new_identity : string → option Identity) (self : RunTokenFilter).
Local Abbreviation on_request :=
  (Gateway.on_request decode_header decode_jwt issued_after to_vec new_identity self).
Implicit Types (ctx : Context (Hd:=Hd) (Identity:=Identity)) (w : World Key) (env : Env Key).
(** Of the proxy and its agent, which share a key. *)
Context (op_to_string : Operation → option string)
  (headers_to_string : list (string * string) → option string)
  (json_from_slice : string → option Value) (json_to_vec : Value → option string)
  (uid : Z) (parent socket : Metadata).
Context (key : string) (managers : nat → AuthManager) (randoms : nat → string)
  (recovery : AuthManager) (random : string) (os_send : nat → option (Z * Hd * list StreamItem)).
Hypothesis Hpath : agent_path_ok uid parent socket = true.
Hypothesis Hrandoms : ∀ i, len (randoms i) = 32.
Hypothesis Hname1 : hm_name (H:=Hd) "authorization" = Some "authorization"%string.
Hypothesis Hname2 : hm_name (H:=Hd) "chatgpt-account-id" = Some "chatgpt-account-id"%string.
Local Abbreviation out :=
  (with_agent op_to_string headers_to_string uid parent socket key key managers randoms recovery
    random os_send).

(** The headers the proxy gets of a request that goes on, [added] being the
    ones the host adds. *)
Definition delivers ctx (added : list (string * string)) (headers : Hd) : Prop :=
  ∀ n v, v ∈ hm_get_all n headers → v ∈ values_of n (forwarded ctx) ∨ (n, v) ∈ added.
(** For whom a request goes on: for anyone on a public path, for a caller
    with its own credentials where the cluster passes those through, and on
    any other for a caller admitted by a token of a run or of an operator. *)
Definition let_through env ctx w w' : Prop :=
  rq_path (cx_request ctx) ∈ f_public_paths self ∨
  ∃ cluster, cx_cluster ctx = Some cluster ∧
    (f_credentials self !! cluster = Some PassThrough ∨
     f_credentials self !! cluster = Some Injected ∧
       ∃ name tok subject caller, Gateway.token self (rq_headers (cx_request ctx)) = Some (name, tok) ∧
         caller_admitted self env cluster w w' tok subject caller).
Lemma goes_on_through env ctx w w' ctx' :
  goes_on new_identity self env ctx w w' ctx' → let_through env ctx w w'.
Proof.
  intros [Hp|cluster Hc Hm|cluster name tok subject caller free Hc Hm Htok Hadm].
  - by left.
  - right. exists cluster. split; [done|]. by left.
  - right. exists cluster. split; [done|]. right. split; [done|]. by exists name, tok, subject, caller.
Qed.
Lemma goes_on_forwarded env ctx w w' ctx' n v :
  goes_on new_identity self env ctx w w' ctx' → n ≠ AUTHORIZATION →
  v ∈ values_of n (forwarded ctx') → n ∉ f_token_headers self.
Proof.
  intros Hgo Hn Hv Htok. apply (elem_of_nil v). destruct Hgo as [? ? Hs|? ? ? ? ? Hs|? ? ? ? ? ? ? ? ? ? ? ? ? Hs];
    by rewrite <-(Hs n).
Qed.

Lemma on_request_request env ctx w w' ctx' :
  on_request env ctx w = (w', ctx', Ok Continue) → cx_request ctx' = cx_request ctx.
Proof.
  intros Hreq. destruct (on_request_continue _ _ _ _ _ _ _ _ _ _ _ Hreq)
    as (_ & _ & [(_ & _ & ->)|(_ & cluster & mode & caller & ctx1 & _ & _ & Ha & ->)]); [done|].
  cbn. revert Ha. destruct mode; cbn [admit_for].
  - unfold injected. destruct (admit_caller _ _ _ _ _) as [w1 [[subject c]|]]; [|done].
    by destruct (new_identity subject); [intros [= _ <- _]|].
  - by intros [= _ <- _].
Qed.

(** C4: a Codex request through the three programs.  The gateway lets a
    request go on, the host carries it to the proxy less the headers the
    filter removes and with some of its own, such as the proxy's client key,
    and the proxy sends it upstream.  Then it came on a public path, for a
    cluster that passes the caller's credentials through, or from a caller
    admitted by a token of a run or of an operator; the proxy's client
    authenticated; and what goes upstream has as its one [Authorization] and
    its one account header what the agent's login manager had when it was
    asked for that attempt.  Each of its other headers, none under a name a
    backend may read as one of these, is one the host added, one the caller
    sent under a name that is no token header, or a routing header that the
    proxy sets to the cache key of the body.  So of the
    caller's token headers and of the [Authorization] the proxy gets, nothing
    is carried on.  The proxy and its agent share a key here, over a socket
    the proxy accepts. *)
Theorem brokered_request env ctx w w' ctx' added n max auth permits
    (req : ProxyRequest (Hd:=Hd)) effects reply before h b after :
  on_request env ctx w = (w', ctx', Ok Continue) →
  delivers ctx' added (pr_headers req) →
  (2 <= n)%nat →
  route json_from_slice json_to_vec n max auth permits out req = Some (effects, reply) →
  effects = before ++ Sent h b :: after →
  let j := ProxySafety.count is_sent before in
  let_through env ctx w w' ∧
  ClientAuth_accepts (Hd:=Hd) auth (hm_get "authorization" (pr_headers req)) = true ∧
  (∃ t account, credentials (managers j) = Some (account_headers t account) ∧ carries t account h) ∧
  ∀ m v, v ∈ hm_get_all m h → m ≠ "authorization"%string → m ≠ "chatgpt-account-id"%string →
    (canonical m ∉ INJECTED) ∧
    ((m, v) ∈ added ∨
     (m ∉ f_token_headers self) ∧ v ∈ hm_get_all m (rq_headers (cx_request ctx)) ∨
     (m = SESSION_ID ∨ m = CLIENT_REQUEST_ID) ∧ ∃ body codex key,
       pr_body req = BodyBytes body ∧ normalized json_from_slice json_to_vec body codex ∧
       cr_prompt_cache_key codex = Some key ∧ hm_value (H:=Hd) key = Some v).
Proof.
  intros Hreq Hdel Hn Hroute E j.
  destruct (request_goes_on _ _ _ _ _ _ _ _ _ _ _ Hreq) as [_ Hgo].
  destruct (route_attempted _ _ _ _ _ _ _ _ _ _ _ _ _ _ Hn Hroute E)
    as (body & codex & l & Hbody & Hnorm & Hauth & Hl & Hh). fold j in Hl.
  edestruct attempt_credentials with (l := l) as (t & account & El & Hcred & Hcarries);
    [exact Hpath|exact Hrandoms|reflexivity|exact Hname1|exact Hname2|exact Hl|exact Hh|].
  rewrite El in Hcred, Hh. clear El.
  split; [by eapply goes_on_through|]. split; [done|]. split; [by exists t, account|].
  intros m v Hv Hm1 Hm2. destruct (upstream_headers_in _ _ _ _ _ Hh Hv) as [Hc|[Hcan Hv']].
  { by destruct (account_names _ _ _ _ Hname1 Hname2 Hc). }
  split; [done|]. apply backstop_in in Hv' as [Hv'|[Hm (key' & Hkey & Hval)]].
  - destruct (Hdel m v Hv') as [Hf|Ha]; [right; left|by left]. split.
    + eapply goes_on_forwarded; [exact Hgo| |exact Hf]. exact Hm1.
    + rewrite <-(on_request_request _ _ _ _ _ Hreq). by eapply (forwarded_sub (Key:=Key)).
  - right. right. split; [done|]. by exists body, codex, key'.
Qed.
End brokered.

(** ** Witness *)
#[local] Existing Instance toy_crypto.
#[local] Existing Instance header_map.
#[local] Existing Instance header_map_laws.
#[local] Existing Instances sample_query_serde sample_reply_serde sample_query_laws sample_reply_laws.
Definition codex_filter : RunTokenFilter :=
  mkFilter "default" ["x-run-token"; AUTHORIZATION]%string ∅ ∅
    {["inference-backend" := Injected]} ∅ Absent
    {[sha256 "praxis-operator-0000" := mkOperator "ci" {["inference-backend"]} 2 Private]} None.
Definition codex_context : Context (Hd:=list (string * string)) (Identity:=string) :=
  mkContext (Gateway.mkRequest Gateway.POST "/v1/responses" None
    [("x-run-token", "praxis-operator-0000"); ("chatgpt_account_id", "mine"); ("accept", "*/*")]%string)
    (Some "inference-backend"%string) [] None None None (λ _, None).
Definition codex_request :=
  Gateway.on_request (Key:=unit) (λ _, None) (λ _ _ _, Err OtherKind) 0 sample_body
    (λ s, Some s) codex_filter sample_env codex_context sample_world.

Lemma codex_goes_on : codex_request = (codex_request.1.1, codex_request.1.2, Ok Continue).
Proof. vm_compute. reflexivity. Qed.
(** The host adds the proxy's client key. *)
Lemma codex_delivered :
  delivers codex_request.1.2 [("authorization", "Bearer mine")]%string (pr_headers sample_req).
Proof.
  intros n v Hv%elem_of_values_of. cbn in Hv.
  apply elem_of_cons in Hv as [[= -> ->]|Hv]; [right; left|].
  apply elem_of_cons in Hv as [[= -> ->]|Hv]; [left; vm_compute; left|].
  apply list_elem_of_singleton in Hv as [= -> ->]. left. vm_compute. left.
Qed.

Lemma brokered_request_witness :
  let_through codex_filter sample_env codex_context sample_world codex_request.1.1 ∧
  hm_get_all "authorization" sample_sent = ["Bearer t"]%string ∧
  hm_get_all "x-run-token" sample_sent = [] ∧ hm_get_all "chatgpt_account_id" sample_sent = [].
Proof.
  destruct sample_routed as (effects & reply & E & after & Hin).
  assert (hm_name (H:=list (string * string)) "authorization" = Some "authorization"%string) as H1
    by (vm_compute; reflexivity).
  assert (hm_name (H:=list (string * string)) "chatgpt-account-id" =
    Some "chatgpt-account-id"%string) as H2 by (vm_compute; reflexivity).
  destruct (brokered_request (Hd:=list (string * string)) (λ _, None) (λ _ _ _, Err OtherKind) 0 sample_body (λ s, Some s) codex_filter
    sample_op sample_headers (λ _, Some (Object [])) (λ _, Some "{}"%string)
    7 sample_parent sample_socket "k" (λ _, sample_manager) (λ _, sample_random) sample_manager
    sample_random (λ _, sample_answer) eq_refl (λ _, eq_refl) H1 H2
    sample_env codex_context sample_world _ _ [("authorization", "Bearer mine")]%string 2 100 Disabled 1
    sample_req effects reply [Acquired] sample_sent "{}" after codex_goes_on codex_delivered (le_n 2) E Hin)
    as (Hthrough & _ & (t & account & Hc & (v & Hv & Ht) & _) & Hrest).
  assert (t = "t"%string) as -> by (cbn in Hc; injection Hc as Ht' _; done).
  assert (∀ m, m ∈ ["x-run-token"; "chatgpt_account_id"]%string → hm_get_all m sample_sent = []) as Hnone.
  { intros m Hm. destruct (hm_get_all m sample_sent) as [|x l] eqn:Ex; [done|]. exfalso.
    apply list_elem_of_In in Hm. destruct (Hrest m x) as [Hcan [Ha|[[Htok _]|[Hs _]]]].
    - rewrite Ex. left.
    - by destruct Hm as [<-|[<-|[]]].
    - by destruct Hm as [<-|[<-|[]]].
    - apply list_elem_of_singleton in Ha. by destruct Hm as [<-|[<-|[]]].
    - destruct Hm as [<-|[<-|[]]]; [apply Htok; left|apply Hcan; vm_compute; right; left].
    - by destruct Hm as [<-|[<-|[]]], Hs. }
  split; [exact Hthrough|]. split; [|split; apply Hnone; [left|right; left]].
  rewrite Hv. cbn in Ht. unfold valid_value in Ht. by case_match; simplify_eq.
Defined.
