(* ===== verification/Startup.v ===== *)
(** * Starting up: the agent and its proxy

    The agent's [main] up to its accept loop, wherever it stops, and what it
    and the proxy's [main] agree on once both have started: the socket the
    agent made is one that the proxy accepts, and their keys are the same, so
    that the proxy's calls are answered. *)
From S2P Require Import Prelude Crypto Headers Json Files Protocol AgentHome AgentHomeSafety.
From S2P Require Import Agent AgentSafety AgentMain Proxy ProxyMain.
Local Open Scope Z_scope.

(** ** The socket *)
Section socket.
Context (uid smode : Z).

Lemma prepare_socket_runs d :
  runs (λ _, True) (prepare_socket uid)
    (λ b d', b = true → ∃ parent, d' !! SOCKET_DIR = Some parent ∧
       secure_dir_ok uid (f_meta parent) = true) d.
Proof.
  apply runs_tried. eapply runs_mono; [apply secure_dir_runs|done|]. intros [] d1 [-> Hd]; [|done].
  specialize (Hd eq_refl). apply runs_stat; [done|]. destruct (d !! SOCKET) as [f|]; cbn [fmap option_fmap option_map].
  2: { by apply runs_stop. }
  destruct (socket_unsafe uid (f_meta f)); [by apply runs_stop|]. apply runs_clean; [done..|].
  intros d1 H1. cbn in H1. apply fmap_Some in H1 as (_ & _ & ->). apply runs_stop; [done|].
  intros _. by rewrite lookup_relink_ne.
Qed.
Lemma prepare_socket_avoids q : q ≠ SOCKET → avoids q (prepare_socket uid).
Proof.
  intros Hq. apply avoids_tried; [apply secure_dir_avoids|]. apply avoids_stat. intros [m|]; [|done].
  destruct (socket_unsafe uid m); [done|]. apply avoids_call; [|done]. by apply bool_decide_eq_false.
Qed.
Lemma serve_socket_avoids q : q ≠ SOCKET → avoids q (serve_socket uid smode).
Proof.
  intros Hq. apply avoids_tried; [by apply prepare_socket_avoids|].
  do 2 (apply avoids_call; [by apply bool_decide_eq_false|]). done.
Qed.

(** What the proxy checks of the paths. *)
Definition reachable (d : Disk) : Prop :=
  ∃ parent socket, d !! SOCKET_DIR = Some parent ∧ d !! SOCKET = Some socket ∧
    agent_path_ok uid (f_meta parent) (f_meta socket) = true.
Lemma serve_socket_runs d :
  runs (λ _, True) (serve_socket uid smode) (λ b d', b = true → reachable d') d.
Proof.
  apply runs_tried. eapply runs_mono; [apply prepare_socket_runs|done|]. intros [] d1 Hp; [|done].
  destruct (Hp eq_refl) as (parent & Hparent & Hok). apply runs_clean; [done..|].
  intros d2 H2. cbn in H2. destruct (d1 !! SOCKET); [done|]. injection H2 as <-.
  apply runs_clean; [done..|]. intros d3 H3. cbn [perform] in H3. rewrite lookup_relink in H3.
  injection H3 as <-. apply runs_stop; [done|]. intros _. eexists parent, _.
  rewrite lookup_edit, lookup_edit_ne, lookup_relink_ne by done. split; [done|]. split; [reflexivity|].
  unfold agent_path_ok. unfold secure_dir_ok in Hok. rewrite Hok. cbn. by rewrite Z.eqb_refl.
Qed.
End socket.

Lemma secure_dir_ok_spec uid m :
  secure_dir_ok uid m = true ↔
  md_type m = Dir ∧ (md_uid m = uid ∨ md_uid m = 0) ∧ mode_has m 2 = false.
Proof.
  unfold secure_dir_ok, is_dir.
  rewrite !andb_true_iff, orb_true_iff, !Z.eqb_eq, bool_decide_eq_true, negb_true_iff. tauto.
Qed.
Lemma read_secret_Ok secret_file key :
  read_secret secret_file = Ok key →
  ∃ text, secret_file = Ok text ∧ key = trim text ∧ 32 <= len key.
Proof.
  unfold read_secret. intros (text & -> & H)%bind_Ok. exists text. cbv zeta in H.
  destruct (Z.ltb_spec (len (trim text)) 32); [done|]. injection H as <-. split_and!; [done..|lia].
Qed.

(** ** Both programs *)
Section startup.
Context `{CryptoLaws} `{!Serde Request} `{!Serde Response} `{!SerdeLaws Request} `{!SerdeLaws Response}.
Context (op_to_string : Operation → option string)
  (headers_to_string : list (string * string) → option string)
  (json_from_slice : string → option Value).
Context (uid umode smode : Z) (new_manager : string → prog).
(** The login manager keeps the login of its directory in [auth.json]. *)
Hypothesis manager_writes : ∀ home q, q ≠ join home "auth.json" → avoids q (new_manager home).
Local Abbreviation serve := (serve json_from_slice uid umode smode new_manager).

Lemma serve_avoids secret home taken q :
  kept home q → q ≠ join home "auth.json" → q ≠ SOCKET → avoids q (serve secret home taken).
Proof using manager_writes.
  intros Hk Ha Hs. unfold AgentMain.serve. destruct (is_ok secret); [|done].
  apply avoids_tried; [by apply prepare_home_avoids|]. apply avoids_tried; [by apply manager_writes|].
  by apply serve_socket_avoids.
Qed.
(** What [locked] says of, which the rest of the start leaves alone. *)
Lemma locked_frame home p d :
  (∀ q, q = home ∨ q = join home ".broker.lock" → avoids q p) → locked uid home d →
  runs (λ _, True) p (λ _ d', locked uid home d') d.
Proof.
  intros Ha [(h & Hh & Hok) (l & Hl & Hp)]. split; [done|]. intros d' b Hr.
  pose proof (Ha home (or_introl eq_refl)) as A1. pose proof (Ha _ (or_intror eq_refl)) as A2.
  split; [exists h|exists l]; (split; [|done]).
  - rewrite <-Hh. by apply (runs_avoids _ _ d A1) in Hr.
  - rewrite <-Hl. by apply (runs_avoids _ _ d A2) in Hr.
Qed.
Lemma serve_runs secret home taken d :
  under home SOCKET = false →
  runs (λ _, True) (serve secret home taken)
    (λ b d', b = true → is_ok secret = true ∧ taken = false ∧ locked uid home d' ∧ reachable uid d') d.
Proof using manager_writes.
  intros Hout. unfold AgentMain.serve. destruct (is_ok secret); [|by apply runs_stop].
  assert (∀ q, q = home ∨ q = join home ".broker.lock" → q ≠ SOCKET ∧ q ≠ join home "auth.json") as Hq.
  { assert (∀ name, under home (join home name) = true) as Hu.
    { intros name. unfold under, starts_with, join. rewrite append_assoc, strip_prefix_app. apply orb_true_r. }
    intros q [-> | ->]; split.
    - intros ->. unfold under in Hout. by rewrite bool_decide_eq_true_2 in Hout.
    - apply not_eq_sym, join_ne_dir.
    - intros E. by rewrite <-E, Hu in Hout.
    - rewrite join_eq. done. }
  apply runs_tried. eapply runs_mono; [apply prepare_home_runs|done|]. intros [] d1 H1; [|done].
  destruct (H1 eq_refl) as [Htaken Hlocked]. apply runs_tried.
  eapply runs_mono; [apply (locked_frame home); [|exact Hlocked]|done|].
  { intros q Hx. by apply manager_writes, Hq. }
  intros [] d2 Hlocked2; [|done].
  assert (∀ q, q = home ∨ q = join home ".broker.lock" → avoids q (serve_socket uid smode)) as Ha.
  { intros q Hx. by apply serve_socket_avoids, Hq. }
  destruct (locked_frame home _ d2 Ha Hlocked2) as [_ Hl]. destruct (serve_socket_runs uid smode d2) as [_ Hs].
  split; [done|]. intros d3 b Hr Hb. split; [done|]. split; [done|]. split; [by eapply Hl|by eapply Hs].
Qed.

(** C13: starting, the agent changes nothing but its directory, its lock file,
    what is in staging directories, its login and its socket, whatever fails
    and wherever it stops. It serves only with a channel secret of 32 bytes
    or more, less the space around it, where no other process has the lock,
    in a directory of its user's or root's that not every user may write to,
    with a lock file of its user's that no other user may read or write. A
    proxy of the same user that started with the same secret then finds a
    socket that it accepts and has the agent's key: each of its calls is
    answered with what the agent's login manager has. *)
Theorem started secret_file home taken d d' :
  let main := AgentMain.serve json_from_slice uid umode smode new_manager (read_secret secret_file) home taken in
  visits main d d' →
  (∀ q, kept home q → q ≠ join home "auth.json" → q ≠ SOCKET → d' !! q = d !! q) ∧
  (under home SOCKET = false → returns main d d' true →
   taken = false ∧
   (∃ h, d' !! home = Some h ∧ md_type (f_meta h) = Dir ∧
      (md_uid (f_meta h) = uid ∨ md_uid (f_meta h) = 0) ∧ mode_has (f_meta h) 2 = false) ∧
   (∃ l, d' !! join home ".broker.lock" = Some l ∧ md_type (f_meta l) = Regular ∧
      md_uid (f_meta l) = uid ∧ mode_has (f_meta l) 63 = false) ∧
   ∃ text key parent socket, secret_file = Ok text ∧ key = trim text ∧ 32 <= len key ∧
     d' !! SOCKET_DIR = Some parent ∧ d' !! SOCKET = Some socket ∧
     ∀ var read client_built app m op random frame rest,
       ProxyMain.main var read client_built = Ok app → read CHANNEL_SECRET = secret_file →
       len random = 32 → encode (agent_request op_to_string (app_channel_key app) op random) = Ok frame →
       call op_to_string headers_to_string (app_channel_key app) key m op random uid
         (f_meta parent) (f_meta socket) (frame +:+ rest) =
       (calls_of op, answered headers_to_string key m (agent_request op_to_string key op random))).
Proof using All.
  intros main Hv. split.
  - intros q Hk Ha Hs. by apply (runs_avoids q main d (serve_avoids _ _ _ _ Hk Ha Hs)).
  - intros Hout Ht. destruct (serve_runs (read_secret secret_file) home taken d Hout) as [_ Hr].
    destruct (Hr d' true Ht eq_refl) as (Hsecret & Htaken & Hlocked & parent & socket & Hp & Hs & Hok).
    split; [done|]. destruct Hlocked as [(h & Hh & Hsafe) (l & Hl & Hprivate)].
    split; [exists h; split; [done|by apply secure_dir_ok_spec]|]. split; [by exists l|].
    destruct (read_secret secret_file) as [key|e] eqn:Hkey; [|done].
    destruct (read_secret_Ok _ _ Hkey) as (text & Htext & Hk & Hlong).
    exists text, key, parent, socket. split_and!; [done..|].
    intros var read client_built app m op random frame rest Happ Hread Hlen Hframe.
    assert (app_channel_key app = key) as Hsame.
    { destruct (app_key _ _ _ _ Happ) as (s & Hs' & ->). rewrite <-Hread, Hs' in Hkey.
      unfold read_secret in Hkey. cbn [mbind result_bind] in Hkey. cbv zeta in Hkey.
      destruct (len (trim s) <? 32); [done|]. by injection Hkey. }
    rewrite Hsame in *. by apply call_same.
Qed.
End startup.

(** ** Witness *)
#[local] Existing Instance toy_crypto.
Definition start_key : string := "0123456789abcdef0123456789abcdef".
Definition start_secret : result string string := Ok (start_key +:+ String LF EmptyString).
Definition start_disk : Disk := settled
  {[ "/run/praxis-credentials" := mkFile EmptyString false (mkMetadata Dir 7 448);
     "/run/praxis-credentials/agent.sock" := mkFile EmptyString false (mkMetadata Socket 7 432);
     "/codex-home" := mkFile EmptyString false (mkMetadata Dir 7 448);
     "/codex-home/.auth-staging-0" := mkFile EmptyString false (mkMetadata Dir 7 448) ]}.
Definition start_var (name : string) : option string :=
  if bool_decide (name = "CLIENT_AUTH_MODE"%string) then Some "disabled"%string else None.
Definition start_query : Request := agent_request sample_op start_key Acquire sample_random.
Definition start_reply : Response :=
  Agent.with_mac sample_headers start_key (acquire sample_manager (req_nonce start_query)).
#[local] Instance start_query_serde : Serde Request := one_value start_query "q".
#[local] Instance start_reply_serde : Serde Response := one_value start_reply "r".
#[local] Instance start_query_laws : SerdeLaws Request := one_value_laws start_query "q" eq_refl.
#[local] Instance start_reply_laws : SerdeLaws Response := one_value_laws start_reply "r" eq_refl.
Definition start_main : prog :=
  AgentMain.serve (λ _, None) 7 448 493 (λ _, Stop true) (read_secret start_secret) "/codex-home" false.
Lemma started_witness :
  let d' := (exec start_main start_disk).1 in
  (∃ h, d' !! "/codex-home"%string = Some h ∧ mode_has (f_meta h) 2 = false) ∧
  ∃ parent socket, d' !! SOCKET_DIR = Some parent ∧ d' !! SOCKET = Some socket ∧
    (call sample_op sample_headers start_key start_key sample_manager Acquire sample_random 7
       (f_meta parent) (f_meta socket) ("q" +:+ String LF EmptyString)).2 =
      Some (account_headers "t" None).
Proof.
  pose proof (exec_returns start_main start_disk) as Hr.
  assert ((exec start_main start_disk).2 = true) as Hok by (vm_compute; reflexivity).
  rewrite Hok in Hr. cbv zeta.
  destruct (started sample_op sample_headers (λ _, None) 7 448 493 (λ _, Stop true)
    ltac:(intros home q _; exact I) start_secret "/codex-home" false start_disk
    (exec start_main start_disk).1 (returns_visits _ _ _ _ Hr)) as [_ Hstarted].
  destruct (Hstarted ltac:(vm_compute; reflexivity) Hr)
    as (_ & (h & Hh & _ & _ & Hmode) & _ & text & key & parent & socket & Htext & Hkey & _ & Hp & Hs & Hcall).
  assert (key = start_key) as ->.
  { injection Htext as <-. rewrite Hkey. vm_compute. reflexivity. }
  split; [exists h; split; [exact Hh|exact Hmode]|]. exists parent, socket. split; [exact Hp|]. split; [exact Hs|].
  assert (ProxyMain.main start_var (λ _, start_secret) true =
    Ok (mkApp Disabled start_key (64 * 1024 * 1024) 30 16)) as Happ by (vm_compute; reflexivity).
  assert (encode (agent_request sample_op start_key Acquire sample_random) =
    Ok ("q" +:+ String LF EmptyString)) as Hframe by (vm_compute; reflexivity).
  pose proof (Hcall start_var (λ _, start_secret) true _ sample_manager Acquire sample_random
    ("q" +:+ String LF EmptyString) EmptyString Happ eq_refl eq_refl Hframe) as Hc.
  apply (f_equal snd) in Hc. cbn [snd app_channel_key] in Hc.
  etrans; [exact Hc|]. vm_compute. reflexivity.
Defined.
